(** * Markdown practice extractor: a shallow embedding and its properties

  This development embeds [src/sources/MarkdownPracticeSource.ts] of the
  best-practices knowledge provider.  JavaScript strings are modelled as
  Rocq [string]s whose characters stand for the code units U+0000..U+00FF;
  on that range [toLowerCase], [trim] and the regular-expression classes
  [\s], [\w] and [.] are modelled exactly.  The code units above U+00FF
  are outside the model, among them the line terminators U+2028 and U+2029
  and the letters U+0130 and U+212A, whose lower-case forms hold ASCII
  letters.  Regular expressions are interpreted by a backtracking matcher
  that follows the continuation semantics of the ECMAScript specification
  (leftmost match, greedy and lazy quantifiers, capture groups, lookahead,
  the [i] flag). *)

From Stdlib Require Import ZArith Ascii String List Bool Sorted Lia.
From stdpp Require Import base option list strings pretty gmap.

Set Warnings "-register-all".
Local Open Scope Z_scope.

(* ================================================================== *)
(** ** JavaScript strings *)

Module JS.

Definition code (c : ascii) : N := N_of_ascii c.

Definition in_range (lo hi : N) (c : ascii) : bool :=
  ((lo <=? code c) && (code c <=? hi))%N.

Definition is_upper (c : ascii) : bool := in_range 65 90 c.
Definition is_lower (c : ascii) : bool := in_range 97 122 c.
Definition is_digit (c : ascii) : bool := in_range 48 57 c.

(** [String.prototype.toLowerCase] on one code unit below U+0100:
    [A-Z] and U+00C0..U+00DE (except the multiplication sign U+00D7)
    move up by 32, everything else is unchanged. *)
Definition lower_char (c : ascii) : ascii :=
  if is_upper c || (in_range 192 222 c && negb (code c =? 215)%N)
  then ascii_of_N (code c + 32) else c.

(** The case folding of a pattern compiled with the [i] flag (the
    specification's [Canonicalize] without the [u] flag): the upper-case
    mapping, kept only when it is a single code unit that does not move a
    non-ASCII character into ASCII.  On U+0000..U+00FF two characters have
    equal images exactly when they have equal images under this map. *)
Definition canon_char (c : ascii) : ascii :=
  if is_lower c || (in_range 224 254 c && negb (code c =? 247)%N)
  then ascii_of_N (code c - 32) else c.

(** White space and line terminators, the set stripped by [trim] and
    matched by [\s]: TAB, LF, VT, FF, CR, SPACE and NBSP. *)
Definition is_space (c : ascii) : bool :=
  in_range 9 13 c || (code c =? 32)%N || (code c =? 160)%N.

(** Line terminators, the characters [.] refuses: LF and CR below
    U+0100. *)
Definition is_line_terminator (c : ascii) : bool :=
  (code c =? 10)%N || (code c =? 13)%N.

(** [\w] *)
Definition is_word (c : ascii) : bool :=
  is_upper c || is_lower c || is_digit c || (code c =? 95)%N.

Fixpoint toLowerCase (s : string) : string :=
  match s with
  | EmptyString => EmptyString
  | String c s' => String (lower_char c) (toLowerCase s')
  end.

Fixpoint take (n : nat) (s : string) : string :=
  match n, s with
  | S n', String c s' => String c (take n' s')
  | _, _ => EmptyString
  end.

Fixpoint drop (n : nat) (s : string) : string :=
  match n, s with
  | S n', String _ s' => drop n' s'
  | _, _ => s
  end.

Definition len (s : string) : Z := Z.of_nat (String.length s).

(** [s.slice(start, end)], negative indices counting from the end. *)
Definition clamp_index (l i : Z) : Z :=
  if i <? 0 then Z.max (l + i) 0 else Z.min i l.

Definition slice (s : string) (start stop : Z) : string :=
  let from := clamp_index (len s) start in
  let to := clamp_index (len s) stop in
  take (Z.to_nat (to - from)) (drop (Z.to_nat from) s).

(** [s.slice(start)] *)
Definition slice_from (s : string) (start : Z) : string :=
  slice s start (len s).

(** [s.startsWith(p)] *)
Fixpoint startsWith (s p : string) : bool :=
  match p, s with
  | EmptyString, _ => true
  | String a p', String b s' => if ascii_dec a b then startsWith s' p' else false
  | String _ _, EmptyString => false
  end.

(** [s.includes(sub)] *)
Fixpoint includes (s sub : string) : bool :=
  startsWith s sub ||
  match s with
  | EmptyString => false
  | String _ s' => includes s' sub
  end.

(** [s.indexOf(sub)], [-1] when [sub] does not occur. *)
Fixpoint indexOf_from (i : Z) (s sub : string) : Z :=
  if startsWith s sub then i
  else match s with
       | EmptyString => -1
       | String _ s' => indexOf_from (i + 1) s' sub
       end.

Definition indexOf (s sub : string) : Z := indexOf_from 0 s sub.

Fixpoint trimStart (s : string) : string :=
  match s with
  | String c s' => if is_space c then trimStart s' else s
  | EmptyString => EmptyString
  end.

(** Drops trailing white space: a character is kept when it is not white
    space or when something is kept after it. *)
Fixpoint trimEnd (s : string) : string :=
  match s with
  | EmptyString => EmptyString
  | String c s' =>
      match trimEnd s' with
      | EmptyString => if is_space c then EmptyString else String c EmptyString
      | t => String c t
      end
  end.

Definition trim (s : string) : string := trimEnd (trimStart s).

(** [[...s].every(ok)]: every character of a text passes a test. *)
Fixpoint every (ok : ascii -> bool) (s : string) : bool :=
  match s with
  | EmptyString => true
  | String c s' => ok c && every ok s'
  end.

(** [parts.join(sep)] *)
Fixpoint join (sep : string) (parts : list string) : string :=
  match parts with
  | [] => EmptyString
  | [p] => p
  | p :: ps => p +:+ sep +:+ join sep ps
  end.

(** Puts a character in front of the first element. *)
Definition cons_head (c : ascii) (l : list string) : list string :=
  match l with
  | p :: ps => String c p :: ps
  | [] => [String c EmptyString]
  end.

(** Values a front-matter mapping can hold (what the YAML loader
    produces); numbers are restricted to the integers of magnitude below
    10^21, which [String] prints as plain decimals. *)
Inductive value : Type :=
| VNull
| VBool (b : bool)
| VNum (n : Z)
| VStr (s : string)
| VArr (items : list value)
| VObj.

(** Truthiness of a value, as tested by [if (v)], [v || d] and [!!v]. *)
Definition truthy (v : value) : bool :=
  match v with
  | VNull => false
  | VBool b => b
  | VNum n => negb (n =? 0)
  | VStr s => negb (String.eqb s EmptyString)
  | VArr _ => true
  | VObj => true
  end.

(** A property read [o.k]: [None] stands for [undefined]. *)
Definition truthy_opt (o : option value) : bool :=
  match o with
  | Some v => truthy v
  | None => false
  end.

(** [a || b] where [a] may be [undefined]. *)
Definition or_else (a : option value) (b : option value) : option value :=
  if truthy_opt a then a else b.

(** Truthiness of an optional string ([undefined] and [""] are falsy). *)
Definition truthy_str (o : option string) : bool :=
  match o with
  | Some s => negb (String.eqb s EmptyString)
  | None => false
  end.

End JS.

(* ================================================================== *)
(** ** Regular expressions *)

Module RegExp.

Import JS.

(** Character classes. *)
Inductive cclass : Type :=
| CChar (c : ascii)                (* a literal member *)
| CRange (lo hi : ascii)           (* [lo-hi] *)
| CWord                            (* \w *)
| CSpace                           (* \s *)
| CNonSpace                        (* \S *)
| CUnion (a b : cclass)            (* juxtaposition inside [...] *)
| CNot (a : cclass).               (* [^...] *)

(** Patterns.  [RGroup n r] is the [n]-th capturing group. *)
Inductive regex : Type :=
| REmpty
| RChar (c : ascii)
| RDot                             (* . *)
| RClass (c : cclass)
| RSeq (a b : regex)
| RAlt (a b : regex)
| RStar (greedy : bool) (a : regex)  (* a* and a*? *)
| RGroup (n : nat) (a : regex)
| RAhead (a : regex)                (* (?=a) *)
| RBol                              (* ^ without the m flag *)
| REol.                             (* $ without the m flag *)

(** [a+], [a?] and a literal word. *)
Definition RPlus (a : regex) : regex := RSeq a (RStar true a).
Definition ROpt (a : regex) : regex := RAlt a REmpty.

Fixpoint RStr (s : string) : regex :=
  match s with
  | EmptyString => REmpty
  | String c EmptyString => RChar c
  | String c s' => RSeq (RChar c) (RStr s')
  end.

Fixpoint RAlts (rs : list regex) : regex :=
  match rs with
  | [] => REmpty
  | [r] => r
  | r :: rs' => RAlt r (RAlts rs')
  end.

Fixpoint class_mem (k : cclass) (c : ascii) : bool :=
  match k with
  | CChar a => if ascii_dec a c then true else false
  | CRange lo hi => in_range (code lo) (code hi) c
  | CWord => is_word c
  | CSpace => is_space c
  | CNonSpace => negb (is_space c)
  | CUnion a b => class_mem a c || class_mem b c
  | CNot a => negb (class_mem a c)
  end.

(** Positive part of a class under the [i] flag: some member folds to the
    same character as [c].  Below U+0100 the members that can do so are [c]
    itself and its two case variants. *)
Fixpoint class_mem_ci (k : cclass) (c : ascii) : bool :=
  match k with
  | CUnion a b => class_mem_ci a c || class_mem_ci b c
  | CNot a => negb (class_mem_ci a c)
  | _ => class_mem k c || class_mem k (canon_char c) || class_mem k (lower_char c)
  end.

Definition char_eq (ic : bool) (a c : ascii) : bool :=
  if ic then (if ascii_dec (canon_char a) (canon_char c) then true else false)
  else (if ascii_dec a c then true else false).

Definition class_test (ic : bool) (k : cclass) (c : ascii) : bool :=
  if ic then class_mem_ci k c else class_mem k c.

(** The matcher state: the index reached, the text that remains from that
    index on, and the captures recorded so far. *)
Record mstate : Type := MState {
  m_pos : nat;
  m_rest : string;
  m_caps : list (nat * string)
}.

Definition step_char (st : mstate) (ok : ascii -> bool)
    (k : mstate -> option mstate) : option mstate :=
  match m_rest st with
  | String c rest' =>
      if ok c then k (MState (S (m_pos st)) rest' (m_caps st)) else None
  | EmptyString => None
  end.

Definition first_some (a : option mstate) (b : unit -> option mstate) : option mstate :=
  match a with
  | Some r => Some r
  | None => b tt
  end.

(** The iteration of a quantifier [a*] (greedy) or [a*?] (lazy), where
    [body] matches one [a].  An iteration that consumes nothing is rejected,
    as the specification's RepeatMatcher does; an iteration therefore
    consumes at least one character and the iteration budget (one more than
    the remaining length) is never exhausted before the input is. *)
Definition star_loop
    (body : mstate -> (mstate -> option mstate) -> option mstate)
    (greedy : bool) (k : mstate -> option mstate)
    : nat -> mstate -> option mstate :=
  fix loop (budget : nat) (st : mstate) {struct budget} : option mstate :=
    match budget with
    | O => k st
    | S budget' =>
        let again (_ : unit) :=
          body st (fun st' =>
            if Nat.eqb (m_pos st') (m_pos st) then None
            else loop budget' st') in
        if greedy then first_some (again tt) (fun _ => k st)
        else first_some (k st) again
    end.

(** The backtracking matcher, in continuation-passing style: [run ic r st k]
    matches [r] from state [st] and hands every candidate end state to the
    continuation [k], in the priority order of the specification, until one
    is accepted. *)
Fixpoint run (ic : bool) (r : regex) (st : mstate)
    (k : mstate -> option mstate) {struct r} : option mstate :=
  match r with
  | REmpty => k st
  | RChar a => step_char st (char_eq ic a) k
  | RDot => step_char st (fun c => negb (is_line_terminator c)) k
  | RClass cl => step_char st (class_test ic cl) k
  | RSeq a b => run ic a st (fun st' => run ic b st' k)
  | RAlt a b => first_some (run ic a st k) (fun _ => run ic b st k)
  | RStar greedy a =>
      star_loop (run ic a) greedy k (S (String.length (m_rest st))) st
  | RGroup n a =>
      run ic a st (fun st' =>
        k (MState (m_pos st') (m_rest st')
             ((n, take (m_pos st' - m_pos st) (m_rest st)) :: m_caps st')))
  | RAhead a =>
      match run ic a st (fun st' => Some st') with
      | Some st' => k (MState (m_pos st) (m_rest st) (m_caps st'))
      | None => None
      end
  | RBol => if Nat.eqb (m_pos st) 0 then k st else None
  | REol => match m_rest st with EmptyString => k st | _ => None end
  end.

(** A pattern with its flags. *)
Record pattern : Type := Pattern {
  p_regex : regex;
  p_ignoreCase : bool
}.

(** A match result: [match.index], [match[0]] and the captures. *)
Record result : Type := Result {
  r_index : nat;
  r_text : string;
  r_caps : list (nat * string)
}.

Definition r_end (m : result) : nat := r_index m + String.length (r_text m).

(** [match[n]]: the text of group [n], [undefined] when it did not
    participate. *)
Fixpoint lookup_cap (n : nat) (caps : list (nat * string)) : option string :=
  match caps with
  | [] => None
  | (m, s) :: caps' => if Nat.eqb n m then Some s else lookup_cap n caps'
  end.

Definition group (n : nat) (m : result) : option string :=
  match n with
  | O => Some (r_text m)
  | _ => lookup_cap n (r_caps m)
  end.

(** A match attempt anchored at index [pos], where [rest] is the input from
    [pos] on. *)
Definition match_at (p : pattern) (pos : nat) (rest : string) : option result :=
  match run (p_ignoreCase p) (p_regex p) (MState pos rest []) (fun st => Some st) with
  | Some st => Some (Result pos (take (m_pos st - pos) rest) (m_caps st))
  | None => None
  end.

(** [RegExp.prototype.exec] from index [pos]: the first index at which an
    attempt succeeds. *)
Fixpoint exec_from (p : pattern) (pos : nat) (rest : string) : option result :=
  match match_at p pos rest with
  | Some m => Some m
  | None =>
      match rest with
      | EmptyString => None
      | String _ rest' => exec_from p (S pos) rest'
      end
  end.

(** [s.match(p)] for a pattern without the [g] flag. *)
Definition match_first (p : pattern) (s : string) : option result :=
  exec_from p 0 s.

(** [s.matchAll(p)] for a pattern with the [g] flag: repeated [exec], each
    search starting where the previous match ended, one further when that
    match was empty. *)
Fixpoint matchAll_from (budget : nat) (p : pattern) (pos : nat) (rest : string)
    : list result :=
  match budget with
  | O => []
  | S budget' =>
      match exec_from p pos rest with
      | None => []
      | Some m =>
          let e := r_end m in
          let next := if Nat.eqb e (r_index m) then S e else e in
          m :: (if Nat.ltb (pos + String.length rest) next then []
                else matchAll_from budget' p next (drop (next - pos) rest))
      end
  end.

Definition matchAll (p : pattern) (s : string) : list result :=
  matchAll_from (S (String.length s)) p 0 s.

(** [s.replace(p, by)] for a pattern with the [g] flag and a replacement
    text without [$] sequences. *)
Fixpoint splice (pos : nat) (rest : string) (ms : list result) (by_ : string) : string :=
  match ms with
  | [] => rest
  | m :: ms' =>
      take (r_index m - pos) rest +:+ by_ +:+
      splice (r_end m) (drop (r_end m - pos) rest) ms' by_
  end.

Definition replaceAll (p : pattern) (by_ : string) (s : string) : string :=
  splice 0 s (matchAll p s) by_.

(** [s.split(p)] for a pattern without capture groups, following the
    specification's loop: [p0] is the end of the last separator, [q] the
    index tried next, [piece] the text [s[p0..q)] and [rest] the text from
    [q] on.  An index is visited at most twice (once more after an empty
    separator was cut there), which bounds the number of iterations. *)
Fixpoint split_loop (p : pattern) (p0 q : nat) (piece : string) (rest : string)
    (budget : nat) : list string :=
  match budget with
  | O => [piece +:+ rest]
  | S budget' =>
      match rest with
      | EmptyString => [piece]
      | String c rest' =>
          match match_at p q rest with
          | Some m =>
              if Nat.eqb (r_end m) p0
              then split_loop p p0 (S q) (piece +:+ String c EmptyString) rest' budget'
              else piece :: split_loop p (r_end m) (r_end m) EmptyString
                               (drop (r_end m - q) rest) budget'
          | None => split_loop p p0 (S q) (piece +:+ String c EmptyString) rest' budget'
          end
      end
  end.

Definition split (p : pattern) (s : string) : list string :=
  match s with
  | EmptyString =>
      match match_at p 0 EmptyString with
      | Some _ => []
      | None => [EmptyString]
      end
  | _ => split_loop p 0 0 EmptyString s (2 * String.length s + 2)
  end.

End RegExp.

(* ================================================================== *)
(** ** The markdown practice source *)

Module MarkdownPracticeSource.

Import JS RegExp.

Definition LF : ascii := ascii_of_N 10.
Definition CR : ascii := ascii_of_N 13.
Definition fence : regex := RStr "```".

(** [[\s\S]] *)
Definition CAny : cclass := CUnion CSpace CNonSpace.

(** The front-matter mapping returned by the splitter. *)
Definition frontmatter : Type := gmap string value.

(** [SourceConfig] (the fields this source reads). *)
Record SourceConfig : Type := {
  cfg_name : string;
  cfg_path : string;
  cfg_language : option string;
  cfg_framework : option string
}.

(** [Practice], as built by [parsePractices].  [category], [severity] and
    [language] are typed as strings in the source but receive front-matter
    values through unchecked casts, hence [value]. *)
Record Practice : Type := {
  id : string;
  title : string;
  description : string;
  category : value;
  severity : value;
  language : value;
  framework : option value;
  goodExample : option string;
  badExample : option string;
  rationale : option string;
  lintRules : list string;
  tags : list string
}.

(** *** Patterns, one per regular-expression literal of the source *)

(** [/\n(?=## )/] *)
Definition sectionSeparator : pattern :=
  Pattern (RSeq (RChar LF) (RAhead (RStr "## "))) false.

(** [/^## (.+)\n/] *)
Definition headingPattern : pattern :=
  Pattern (RSeq RBol (RSeq (RStr "## ")
            (RSeq (RGroup 1 (RPlus RDot)) (RChar LF)))) false.

(** [```[\w]*\n([\s\S]*?)```], the tail shared by the example patterns. *)
Definition fencedBlock : regex :=
  RSeq fence (RSeq (RStar true (RClass CWord)) (RSeq (RChar LF)
    (RSeq (RGroup 1 (RStar false (RClass CAny))) fence))).

(** [[:\s]*\n] followed by a fenced block. *)
Definition labelledTail : regex :=
  RSeq (RStar true (RClass (CUnion (CChar ":") CSpace)))
       (RSeq (RChar LF) fencedBlock).

(** [/(?:good|correct|do|preferred|recommended)[:\s]*\n```[\w]*\n([\s\S]*?)```/i] *)
Definition goodPattern : pattern :=
  Pattern (RSeq (RAlts [RStr "good"; RStr "correct"; RStr "do";
                        RStr "preferred"; RStr "recommended"])
                labelledTail) true.

(** [/(?:bad|incorrect|don'?t|avoid|wrong)[:\s]*\n```[\w]*\n([\s\S]*?)```/i] *)
Definition badPattern : pattern :=
  Pattern (RSeq (RAlts [RStr "bad"; RStr "incorrect";
                        RSeq (RStr "don") (RSeq (ROpt (RChar "'")) (RChar "t"));
                        RStr "avoid"; RStr "wrong"])
                labelledTail) true.

(** [/```[\w]*\n([\s\S]*?)```/g] *)
Definition codeBlockPattern : pattern := Pattern fencedBlock false.

(** [/\n\n+/] *)
Definition paragraphSeparator : pattern :=
  Pattern (RSeq (RChar LF) (RPlus (RChar LF))) false.

(** [new RegExp(`### ${sectionName}\\s*\\n([\\s\\S]*?)(?=\\n###|$)`, 'i')],
    for a section name without pattern metacharacters. *)
Definition namedSectionPattern (sectionName : string) : pattern :=
  Pattern (RSeq (RStr ("### " +:+ sectionName))
            (RSeq (RStar true (RClass CSpace))
              (RSeq (RChar LF)
                (RSeq (RGroup 1 (RStar false (RClass CAny)))
                      (RAhead (RAlt (RSeq (RChar LF) (RStr "###")) REol))))))
          true.

(** [[\w-]+] *)
Definition ruleName : regex := RPlus (RClass (CUnion CWord (CChar "-"))).

(** [/@typescript-eslint\/[\w-]+/g] *)
Definition scopedRulePattern : pattern :=
  Pattern (RSeq (RStr "@typescript-eslint/") ruleName) false.

(** [/eslint:?\s*([\w-]+)/gi] *)
Definition eslintRulePattern : pattern :=
  Pattern (RSeq (RStr "eslint")
            (RSeq (ROpt (RChar ":"))
              (RSeq (RStar true (RClass CSpace)) (RGroup 1 ruleName)))) true.

(** [/\[`?([@\w/-]+)`?\]\s*rule/gi] *)
Definition quotedRulePattern : pattern :=
  Pattern (RSeq (RChar "[")
            (RSeq (ROpt (RChar "`"))
              (RSeq (RGroup 1 (RPlus (RClass
                       (CUnion (CChar "@") (CUnion CWord
                         (CUnion (CChar "/") (CChar "-")))))))
                (RSeq (ROpt (RChar "`"))
                  (RSeq (RChar "]")
                    (RSeq (RStar true (RClass CSpace)) (RStr "rule")))))))
          true.

(** [/```(\w+)/g] *)
Definition fenceLanguagePattern : pattern :=
  Pattern (RSeq fence (RGroup 1 (RPlus (RClass CWord)))) false.

(** [/[^a-z0-9]+/g] *)
Definition nonAlnumRun : pattern :=
  Pattern (RPlus (RClass (CNot (CUnion (CRange "a" "z") (CRange "0" "9"))))) false.

(** [/^-|-$/g] *)
Definition edgeHyphen : pattern :=
  Pattern (RAlt (RSeq RBol (RChar "-")) (RSeq (RChar "-") REol)) false.

(** *** Insertion-ordered sets *)

(** [new Set(items)] followed by iteration: every element is added unless
    already present, and iteration follows insertion order. *)
Definition set_add {A} (eqb : A -> A -> bool) (acc : list A) (x : A) : list A :=
  if existsb (eqb x) acc then acc else acc ++ [x].

Definition set_of {A} (eqb : A -> A -> bool) (items : list A) : list A :=
  fold_left (set_add eqb) items [].

(** Key equality of [Set] on the values of the model (structural; the
    arrays compared here are one and the same front-matter object). *)
Fixpoint value_eqb (a b : value) : bool :=
  match a, b with
  | VNull, VNull => true
  | VBool x, VBool y => Bool.eqb x y
  | VNum x, VNum y => (x =? y)
  | VStr x, VStr y => String.eqb x y
  | VArr xs, VArr ys =>
      (fix all2 (xs ys : list value) : bool :=
         match xs, ys with
         | [], [] => true
         | x :: xs', y :: ys' => value_eqb x y && all2 xs' ys'
         | _, _ => false
         end) xs ys
  | VObj, VObj => true
  | _, _ => false
  end.

(** [String(v)]; a number is an integer of magnitude below 10^21, printed
    as a plain decimal. *)
Fixpoint js_String (v : value) : string :=
  match v with
  | VNull => "null"
  | VBool true => "true"
  | VBool false => "false"
  | VNum n => pretty n
  | VStr s => s
  | VArr items =>
      join "," (map (fun x => match x with VNull => "" | _ => js_String x end) items)
  | VObj => "[object Object]"
  end.

(** *** The extractors *)

(** [slugify] *)
Definition slugify (text : string) : string :=
  replaceAll edgeHyphen "" (replaceAll nonAlnumRun "-" (toLowerCase text)).

(** [extractCategory] *)
Definition extractCategory (title content : string) (fm : frontmatter) : value :=
  if truthy_opt (fm !! "category") then default VNull (fm !! "category")
  else
    let text := toLowerCase (title +:+ " " +:+ content) in
    if includes text "naming" || includes text "convention" then VStr "naming"
    else if includes text "format" || includes text "indent" || includes text "spacing"
      then VStr "formatting"
    else if includes text "architect" || includes text "pattern" || includes text "structure"
      then VStr "architecture"
    else if includes text "test" || includes text "spec" || includes text "mock"
      then VStr "testing"
    else if includes text "security" || includes text "vulnerab" || includes text "auth"
      then VStr "security"
    else if includes text "performance" || includes text "optimize" || includes text "memory"
      then VStr "performance"
    else if includes text "document" || includes text "comment" || includes text "readme"
      then VStr "documentation"
    else if includes text "error" || includes text "exception" || includes text "throw"
      then VStr "error-handling"
    else if includes text "log" || includes text "trace" || includes text "debug"
      then VStr "logging"
    else if includes text "depend" || includes text "package" || includes text "import"
      then VStr "dependency-management"
    else VStr "general".

(** [extractSeverity] *)
Definition extractSeverity (content : string) (fm : frontmatter) : value :=
  if truthy_opt (fm !! "severity") then default VNull (fm !! "severity")
  else
    let lower := toLowerCase content in
    if includes lower "must" || includes lower "required" || includes lower "always"
      then VStr "error"
    else if includes lower "should" || includes lower "recommended"
      then VStr "warning"
    else if includes lower "could" || includes lower "consider" || includes lower "may"
      then VStr "suggestion"
    else VStr "suggestion".

(** [match[1].trim()] *)
Definition trimmed_capture (m : result) : string :=
  trim (default "" (group 1 m)).

(** The text in front of the first fenced block, as [extractExamples]
    computes it. *)
Definition beforeFirstBlock (content : string) (b0 : result) : string :=
  slice content 0 (indexOf content (r_text b0)).

(** The labelled-block search of [extractExamples]: [goodMatch] and
    [badMatch], each with its trimmed capture. *)
Definition labelledGood (content : string) : option string :=
  option_map trimmed_capture (match_first goodPattern content).

Definition labelledBad (content : string) : option string :=
  option_map trimmed_capture (match_first badPattern content).

(** [extractExamples]: the pair [(goodExample, badExample)]. *)
Definition extractExamples (content : string) : option string * option string :=
  let goodExample := labelledGood content in
  let badExample := labelledBad content in
  if negb (truthy_str goodExample) && negb (truthy_str badExample) then
    match matchAll codeBlockPattern content with
    | b0 :: b1 :: _ =>
        let beforeFirst := toLowerCase (beforeFirstBlock content b0) in
        if includes beforeFirst "avoid" || includes beforeFirst "bad"
           || includes beforeFirst "don't"
        then (Some (trimmed_capture b1), Some (trimmed_capture b0))
        else (Some (trimmed_capture b0), Some (trimmed_capture b1))
    | [b0] => (Some (trimmed_capture b0), badExample)
    | [] => (goodExample, badExample)
    end
  else (goodExample, badExample).

(** [extractDescription] *)
Definition extractDescription (content : string) : string :=
  let paragraphs := split paragraphSeparator content in
  match
    find (fun trimmed =>
            negb (startsWith trimmed "```") && negb (startsWith trimmed "#")
            && (0 <? len trimmed))
         (map trim paragraphs)
  with
  | Some trimmed => trimmed
  | None => trim (slice content 0 200)
  end.

(** [extractSection] *)
Definition extractSection (content sectionName : string) : option string :=
  option_map trimmed_capture (match_first (namedSectionPattern sectionName) content).

(** [match[1] || match[0]] *)
Definition capture_or_text (m : result) : string :=
  match group 1 m with
  | Some s => if String.eqb s "" then r_text m else s
  | None => r_text m
  end.

(** [extractLintRules] *)
Definition extractLintRules (content : string) : list string :=
  let patterns := [scopedRulePattern; eslintRulePattern; quotedRulePattern] in
  let rules :=
    flat_map (fun p => map capture_or_text (matchAll p content)) patterns in
  set_of String.eqb rules.

(** [extractTags] *)
Definition extractTags (content : string) (fm : frontmatter) : list string :=
  let fromFrontMatter :=
    match fm !! "tags" with
    | Some (VArr items) => map (fun t => toLowerCase (js_String t)) items
    | _ => []
    end in
  let langs :=
    flat_map (fun m =>
                match group 1 m with
                | Some l => if negb (String.eqb l "") && negb (String.eqb l "text")
                            then [toLowerCase l] else []
                | None => []
                end)
             (matchAll fenceLanguagePattern content) in
  set_of String.eqb (fromFrontMatter ++ langs).

(** The head of one iteration of the loop of [parsePractices]: the heading
    match, then the trimmed title and the section content.  [None] is the
    [continue] taken when the heading pattern does not match. *)
Definition sectionParts (section : string) : option (string * string) :=
  match match_first headingPattern section with
  | None => None
  | Some m => Some (trimmed_capture m, slice_from section (len (r_text m)))
  end.

(** The rest of the iteration: the extractors and the record pushed. *)
Definition assemble (fm : frontmatter) (part : string * string) : Practice :=
  let title := fst part in
  let sectionContent := snd part in
  let examples := extractExamples sectionContent in
  {| id := slugify title;
     title := title;
     description := extractDescription sectionContent;
     category := extractCategory title sectionContent fm;
     severity := extractSeverity sectionContent fm;
     language := default (VStr "general")
                   (or_else (fm !! "language") (Some (VStr "general")));
     framework := fm !! "framework";
     goodExample := fst examples;
     badExample := snd examples;
     rationale := extractSection sectionContent "rationale";
     lintRules := extractLintRules sectionContent;
     tags := extractTags sectionContent fm
  |}.

Definition parseSection (fm : frontmatter) (section : string) : option Practice :=
  match sectionParts section with
  | None => None
  | Some part => Some (assemble fm part)
  end.

(** [parsePractices] *)
Definition parsePractices (content : string) (fm : frontmatter) : list Practice :=
  omap (parseSection fm) (split sectionSeparator content).

(** The sections of a body that reach the extractors, in order. *)
Definition sectionsOf (content : string) : list (string * string) :=
  omap sectionParts (split sectionSeparator content).

(** *** Documents *)

Record PracticeMetadata : Type := {
  pm_source : string;
  pm_path : string;
  pm_practiceId : string;
  pm_category : value;
  pm_severity : value;
  pm_language : option value;
  pm_framework : option value;
  pm_tags : list string;
  pm_hasGoodExample : bool;
  pm_hasBadExample : bool;
  pm_lintRules : list string
}.

Record OverviewMetadata : Type := {
  om_source : string;
  om_path : string;
  om_language : option value;
  om_framework : option value;
  om_practiceCount : nat;
  om_categories : list value
}.

Inductive Metadata : Type :=
| MPractice (m : PracticeMetadata)
| MOverview (m : OverviewMetadata).

Record Document : Type := {
  doc_id : string;
  doc_type : string;
  doc_content : string;
  doc_title : option value;
  doc_metadata : Metadata
}.

(** The [language] entry of a document's metadata. *)
Definition doc_language (d : Document) : option value :=
  match doc_metadata d with
  | MPractice m => pm_language m
  | MOverview m => om_language m
  end.

(** The [hasGoodExample] entry of a practice document's metadata. *)
Definition doc_hasGoodExample (d : Document) : option bool :=
  match doc_metadata d with
  | MPractice m => Some (pm_hasGoodExample m)
  | MOverview _ => None
  end.

(** [formatPracticeContent] *)
Definition formatPracticeContent (practice : Practice) : string :=
  let parts := ["# " +:+ title practice; ""; description practice] in
  let parts :=
    if truthy_str (rationale practice)
    then parts ++ [""; "## Rationale"; default "" (rationale practice)]
    else parts in
  let parts :=
    if truthy_str (goodExample practice)
    then parts ++ [""; "## Good Example"; "```"; default "" (goodExample practice); "```"]
    else parts in
  let parts :=
    if truthy_str (badExample practice)
    then parts ++ [""; "## Bad Example"; "```"; default "" (badExample practice); "```"]
    else parts in
  let parts :=
    if (0 <? Z.of_nat (length (lintRules practice)))
    then parts ++ [""; "## Related Lint Rules"; join ", " (lintRules practice)]
    else parts in
  join (String LF "") parts.

(** [generateId] *)
Definition generateId (config : SourceConfig) (relativePath practiceId : string) : string :=
  cfg_name config +:+ ":" +:+ relativePath +:+ "#" +:+ practiceId.

(** The document built for one practice in the loop of
    [loadPracticeDocument]. *)
Definition practiceDocument (config : SourceConfig) (relativePath : string)
    (practice : Practice) : Document :=
  {| doc_id := generateId config relativePath (id practice);
     doc_type := "practice";
     doc_content := formatPracticeContent practice;
     doc_title := Some (VStr (title practice));
     doc_metadata := MPractice {|
       pm_source := cfg_name config;
       pm_path := relativePath;
       pm_practiceId := id practice;
       pm_category := category practice;
       pm_severity := severity practice;
       pm_language :=
         or_else (or_else (Some (language practice)) (VStr <$> cfg_language config))
                 (Some (VStr "general"));
       pm_framework := or_else (framework practice) (VStr <$> cfg_framework config);
       pm_tags := tags practice;
       pm_hasGoodExample := truthy_str (goodExample practice);
       pm_hasBadExample := truthy_str (badExample practice);
       pm_lintRules := lintRules practice
     |}
  |}.

(** The whole-file document built at the end of [loadPracticeDocument];
    [baseName] is [path.basename(filePath, '.md')]. *)
Definition overviewDocument (config : SourceConfig) (relativePath baseName : string)
    (body : string) (fm : frontmatter) (practices : list Practice) : Document :=
  {| doc_id := cfg_name config +:+ ":" +:+ relativePath;
     doc_type := "style-guide";
     doc_content := body;
     doc_title := or_else (fm !! "title") (Some (VStr baseName));
     doc_metadata := MOverview {|
       om_source := cfg_name config;
       om_path := relativePath;
       om_language :=
         or_else (or_else (fm !! "language") (VStr <$> cfg_language config))
                 (Some (VStr "general"));
       om_framework := or_else (fm !! "framework") (VStr <$> cfg_framework config);
       om_practiceCount := length practices;
       om_categories := set_of value_eqb (map category practices)
     |}
  |}.

(** What [loadPracticeDocument] returns once the front matter is split
    off: one document per practice, then the overview. *)
Definition documentsOf (config : SourceConfig) (relativePath baseName : string)
    (body : string) (fm : frontmatter) : list Document :=
  let practices := parsePractices body fm in
  map (practiceDocument config relativePath) practices
  ++ [overviewDocument config relativePath baseName body fm practices].

(** *** Loading files *)

(** A call either returns or throws. *)
Inductive completion (A : Type) : Type :=
| Returned (a : A)
| Thrown (error : string).
Arguments Returned {A} a.
Arguments Thrown {A} error.

(** A file found by the glob: its absolute path, its path relative to the
    base path ([path.relative]), its base name without the [.md] suffix
    ([path.basename]) and what [fs.readFile] does on it. *)
Record File : Type := {
  f_path : string;
  f_relativePath : string;
  f_baseName : string;
  f_read : completion string
}.

Inductive LogEntry : Type :=
| LogInfo (message : string)
| LogWarn (file : string) (error : string) (message : string).

(** The state the source mutates: the document cache and the logger. *)
Record SourceState : Type := {
  documentCache : gmap string Document;
  logged : list LogEntry
}.

Definition cache_all (docs : list Document) (cache : gmap string Document)
    : gmap string Document :=
  fold_left (fun c d => <[doc_id d := d]> c) docs cache.

Section Loading.

(** The front-matter splitter imported from the gray-matter package, which
    is not part of this repository.  A call returns the data and the
    remaining content, or throws; the package keeps state of its own
    between calls (it remembers the texts it was given), so the outcome of
    a call may depend on the calls made before it: [Splitter] is the state
    of the package.  The data is [None] when it is [null]; data that is
    neither [null] nor a mapping has none of the properties this source
    reads and stands as the empty mapping. *)
Context {Splitter : Type}.
Variable matter :
  string -> Splitter -> completion (option frontmatter * string) * Splitter.

Variable config : SourceConfig.

(** [loadPracticeDocument].  On [null] data the first property read throws
    a [TypeError], in [extractCategory] for the first section or else at
    [frontmatter.title], before any document is cached. *)
Definition loadPracticeDocument (file : File) (st : SourceState) (sp : Splitter)
    : completion (list Document) * SourceState * Splitter :=
  match f_read file with
  | Thrown e => (Thrown e, st, sp)
  | Returned content =>
      match matter content sp with
      | (Thrown e, sp') => (Thrown e, st, sp')
      | (Returned (None, _), sp') => (Thrown "TypeError", st, sp')
      | (Returned (Some fm, body), sp') =>
          let docs := documentsOf config (f_relativePath file) (f_baseName file) body fm in
          (Returned docs,
           {| documentCache := cache_all docs (documentCache st);
              logged := logged st |},
           sp')
      end
  end.

(** One iteration of the loop of [fetchDocuments], [try]/[catch] included. *)
Definition fetchStep (acc : list Document * SourceState * Splitter) (file : File)
    : list Document * SourceState * Splitter :=
  let '(documents, st, sp) := acc in
  match loadPracticeDocument file st sp with
  | (Returned docs, st', sp') => (documents ++ docs, st', sp')
  | (Thrown e, st', sp') =>
      (documents,
       {| documentCache := documentCache st';
          logged := logged st' ++
            [LogWarn (f_path file) e "Failed to load practice document"] |},
       sp')
  end.

(** [fetchDocuments], given the files the glob found: the documents
    returned, the state of the source and the state of the splitter. *)
Definition fetchDocuments (files : list File) (st : SourceState) (sp : Splitter)
    : list Document * SourceState * Splitter :=
  fold_left fetchStep files
    ([], {| documentCache := documentCache st;
            logged := logged st ++ [LogInfo "Found practice files"] |}, sp).

(** What reading and splitting one file gives, from a state of the
    splitter: the documents of the file or the error thrown, and the next
    state of the splitter. *)
Definition attempt (file : File) (sp : Splitter)
    : completion (list Document) * Splitter :=
  match f_read file with
  | Thrown e => (Thrown e, sp)
  | Returned content =>
      match matter content sp with
      | (Thrown e, sp') => (Thrown e, sp')
      | (Returned (None, _), sp') => (Thrown "TypeError", sp')
      | (Returned (Some fm, body), sp') =>
          (Returned (documentsOf config (f_relativePath file) (f_baseName file) body fm),
           sp')
      end
  end.

(** The outcomes of the files of one fetch, in order, the splitter being
    passed on from one file to the next. *)
Fixpoint outcomes (files : list File) (sp : Splitter)
    : list (File * completion (list Document)) :=
  match files with
  | [] => []
  | file :: files' =>
      (file, fst (attempt file sp)) :: outcomes files' (snd (attempt file sp))
  end.

(** The splitter after the files of a fetch. *)
Definition splitterAfter (files : list File) (sp : Splitter) : Splitter :=
  fold_left (fun sp file => snd (attempt file sp)) files sp.

End Loading.

(** What an outcome contributes to the result of [fetchDocuments]: the
    documents of the file, nothing when a step threw. *)
Definition contribution (o : File * completion (list Document)) : list Document :=
  match snd o with
  | Returned docs => docs
  | Thrown _ => []
  end.

(** The warning an outcome leaves in the log, if any. *)
Definition warning (o : File * completion (list Document)) : list LogEntry :=
  match snd o with
  | Returned _ => []
  | Thrown e => [LogWarn (f_path (fst o)) e "Failed to load practice document"]
  end.

End MarkdownPracticeSource.

(* ================================================================== *)
(** ** The vocabulary of the specification *)

Module Spec.

Import JS RegExp MarkdownPracticeSource.

(** The lines of a text: the pieces between line feeds. *)
Fixpoint lines (s : string) : list string :=
  match s with
  | EmptyString => [EmptyString]
  | String c s' =>
      if ascii_dec c LF then EmptyString :: lines s'
      else cons_head c (lines s')
  end.

(** Second-level heading syntax in the words of the specification: a line
    starting with exactly two heading markers followed by white space and
    text.  A line inside a fenced block counts like any other, as in
    section 4.2. *)
Definition is_heading_line (line : string) : bool :=
  match line with
  | String "#" (String "#" (String c text)) =>
      is_space c && negb (String.eqb text EmptyString)
  | _ => false
  end.

(** The heading texts of a body, in source order. *)
Definition headings (body : string) : list string :=
  map (fun line => trim (drop 3 line)) (List.filter is_heading_line (lines body)).

(** The one-character text holding a carriage return. *)
Definition CRs : string := String CR EmptyString.

(** A heading line the code can use: [## ], some text, and no line
    terminator, which [.] refuses. *)
Definition heading_ok (l : string) : bool :=
  startsWith l "## " && (3 <? len l)
  && every (fun c => negb (is_line_terminator c)) l.

(** The headings that become practices: usable heading lines that are
    followed by a line that is not itself a second-level heading. *)
Fixpoint emitted_headings (ls : list string) : list string :=
  match ls with
  | [] => []
  | l :: ls' =>
      match ls' with
      | [] => []
      | l' :: _ =>
          (if heading_ok l && negb (startsWith l' "## ")
           then [trim (drop 3 l)] else [])
          ++ emitted_headings ls'
      end
  end.

(** Every heading line is usable and is followed by a line that is not a
    second-level heading. *)
Fixpoint separated (ls : list string) : Prop :=
  match ls with
  | [] => True
  | l :: ls' =>
      (is_heading_line l = true ->
       heading_ok l = true /\
       match ls' with
       | l' :: _ => startsWith l' "## " = false
       | [] => False
       end) /\
      separated ls'
  end.

(** A character a slug keeps: [a-z] or [0-9]. *)
Definition is_slug_char (c : ascii) : bool := is_lower c || is_digit c.

(** Every run of other characters becomes one hyphen; [in_run] tells that
    the hyphen of the current run is already written. *)
Fixpoint collapse_runs (in_run : bool) (s : string) : string :=
  match s with
  | EmptyString => EmptyString
  | String c s' =>
      if is_slug_char c then String c (collapse_runs false s')
      else if in_run then collapse_runs true s'
      else String "-" (collapse_runs true s')
  end.

Definition strip_leading_hyphen (s : string) : string :=
  match s with
  | String "-" s' => s'
  | _ => s
  end.

Fixpoint strip_trailing_hyphen (s : string) : string :=
  match s with
  | EmptyString => EmptyString
  | String c EmptyString => if ascii_dec c "-" then EmptyString else s
  | String c s' => String c (strip_trailing_hyphen s')
  end.

(** The slug in the words of section 4.7. *)
Definition slug (text : string) : string :=
  strip_trailing_hyphen (strip_leading_hyphen (collapse_runs false (toLowerCase text))).

(** A character of a text spells a keyword character: it is that character
    or, for a letter [a-z], its capital. *)
Definition spells (k c : ascii) : bool :=
  (if ascii_dec k c then true else false) ||
  (is_lower k && (code c =? code k - 32)%N).

(** A text starts with a keyword, in any letter case. *)
Fixpoint spelled (keyword text : string) : bool :=
  match keyword, text with
  | EmptyString, _ => true
  | String k keyword', String c text' => spells k c && spelled keyword' text'
  | String _ _, EmptyString => false
  end.

(** A keyword occurs in a text, in any letter case. *)
Fixpoint occurs_ci (keyword text : string) : bool :=
  spelled keyword text ||
  match text with
  | EmptyString => false
  | String _ text' => occurs_ci keyword text'
  end.

(** The ordered category rules of section 4.3. *)
Definition categoryRules : list (string * list string) :=
  [ ("naming", ["naming"; "convention"]);
    ("formatting", ["format"; "indent"; "spacing"]);
    ("architecture", ["architect"; "pattern"; "structure"]);
    ("testing", ["test"; "spec"; "mock"]);
    ("security", ["security"; "vulnerab"; "auth"]);
    ("performance", ["performance"; "optimize"; "memory"]);
    ("documentation", ["document"; "comment"; "readme"]);
    ("error-handling", ["error"; "exception"; "throw"]);
    ("logging", ["log"; "trace"; "debug"]);
    ("dependency-management", ["depend"; "package"; "import"]) ].

(** The ordered severity tiers of section 4.4. *)
Definition severityTiers : list (string * list string) :=
  [ ("error", ["must"; "required"; "always"]);
    ("warning", ["should"; "recommended"]);
    ("suggestion", ["could"; "consider"; "may"]) ].

(** The label of the first rule one of whose keywords occurs in [text]. *)
Definition first_rule (rules : list (string * list string)) (text : string)
    : option string :=
  fst <$> find (fun rule => existsb (fun kw => occurs_ci kw text) (snd rule)) rules.

(** A front-matter field that is declared, that is, present with a value
    that is not empty ([null], [false], [0] and the empty text count as
    undeclared). *)
Definition declared (fm : frontmatter) (field : string) : option value :=
  match fm !! field with
  | Some v => if truthy v then Some v else None
  | None => None
  end.

(** Category inference: a declared front-matter category, else the first
    rule with a keyword in the heading text, a blank and the section body,
    else [general]. *)
Definition category_of (heading body : string) (fm : frontmatter) : value :=
  match declared fm "category" with
  | Some v => v
  | None => VStr (default "general" (first_rule categoryRules (heading +:+ " " +:+ body)))
  end.

(** Category inference as section 4.3 words it: the front-matter category
    when there is one, else the first rule with a keyword in the
    concatenation of heading text and section body, else [general]. *)
Definition category_claimed (heading body : string) (fm : frontmatter) : value :=
  match fm !! "category" with
  | Some v => v
  | None => VStr (default "general" (first_rule categoryRules (heading +:+ body)))
  end.

(** Severity inference as section 4.4 words it: the front-matter severity
    when there is one, else the first tier with a marker in the section
    body, else [suggestion]. *)
Definition severity_claimed (body : string) (fm : frontmatter) : value :=
  match fm !! "severity" with
  | Some v => v
  | None => VStr (default "suggestion" (first_rule severityTiers body))
  end.

(** Severity inference: a declared front-matter severity, else the first
    tier with a marker in the section body, else [suggestion]. *)
Definition severity_of (body : string) (fm : frontmatter) : value :=
  match declared fm "severity" with
  | Some v => v
  | None => VStr (default "suggestion" (first_rule severityTiers body))
  end.

(** The fallback trigger words of section 4.5. *)
Definition mentions_bad (text : string) : bool :=
  existsb (fun kw => occurs_ci kw text) ["avoid"; "bad"; "don't"].

(** De-duplication that keeps the first occurrence of every element. *)
Fixpoint without (x : string) (l : list string) : list string :=
  match l with
  | [] => []
  | y :: l' => if String.eqb y x then without x l' else y :: without x l'
  end.

Fixpoint dedup_first (l : list string) : list string :=
  match l with
  | [] => []
  | x :: l' => x :: without x (dedup_first l')
  end.

(** Stable insertion by match index. *)
Fixpoint insert_by_index (x : nat * string) (l : list (nat * string))
    : list (nat * string) :=
  match l with
  | [] => [x]
  | y :: l' => if Nat.ltb (fst x) (fst y) then x :: y :: l'
               else y :: insert_by_index x l'
  end.

Definition sort_by_index (l : list (nat * string)) : list (nat * string) :=
  fold_left (fun acc x => insert_by_index x acc) l [].

End Spec.

(* ================================================================== *)
(** ** Scans: what a quantified character test does *)

Module Scan.

Import JS RegExp MarkdownPracticeSource Spec.

(** [ok*] followed by [k], longest stretch first. *)
Fixpoint greedy_scan (ok : ascii -> bool) (k : mstate -> option mstate)
    (pos : nat) (rest : string) (caps : list (nat * string)) : option mstate :=
  match rest with
  | String c rest' =>
      if ok c
      then first_some (greedy_scan ok k (S pos) rest' caps)
                      (fun _ => k (MState pos rest caps))
      else k (MState pos rest caps)
  | EmptyString => k (MState pos rest caps)
  end.

(** [ok*?] followed by [k], shortest stretch first. *)
Fixpoint lazy_scan (ok : ascii -> bool) (k : mstate -> option mstate)
    (pos : nat) (rest : string) (caps : list (nat * string)) : option mstate :=
  first_some (k (MState pos rest caps))
    (fun _ => match rest with
              | String c rest' => if ok c then lazy_scan ok k (S pos) rest' caps else None
              | EmptyString => None
              end).

(** Every character of a text passes a test. *)
Definition all_chars (ok : ascii -> bool) (s : string) : Prop :=
  forall pre c post, s = pre +:+ String c post -> ok c = true.

(** The text of a fenced block, as [fencedBlock] delimits it: the fence, a
    word, a line feed, the content and the closing fence. *)
Definition block_text (w c : string) : string :=
  "```" +:+ w +:+ String LF c +:+ "```".

(** The longest prefix whose characters pass a test, and what follows. *)
Fixpoint span (ok : ascii -> bool) (s : string) : string * string :=
  match s with
  | String c s' =>
      if ok c then (String c (fst (span ok s')), snd (span ok s'))
      else (EmptyString, s)
  | EmptyString => (EmptyString, EmptyString)
  end.

(** The pieces between the line feeds that are followed by [## ]. *)
Fixpoint pieces (s : string) : list string :=
  match s with
  | EmptyString => [EmptyString]
  | String c s' =>
      if (if ascii_dec c LF then true else false) && startsWith s' "## "
      then EmptyString :: pieces s'
      else cons_head c (pieces s')
  end.

Definition not_line_terminator (c : ascii) : bool := negb (is_line_terminator c).

(** The heading pattern read structurally. *)
Definition heading_parts (section : string) : option (string * string) :=
  if startsWith section "## " then
    match span not_line_terminator (drop 3 section) with
    | (String c x, String d r) =>
        if ascii_dec d LF then Some (trim (String c x), r) else None
    | _ => None
    end
  else None.

(** Puts a text in front of the first element. *)
Definition prepend (piece : string) (l : list string) : list string :=
  match l with
  | p :: ps => (piece +:+ p) :: ps
  | [] => [piece]
  end.

(** Lines regrouped into sections: a line other than the first opens a new
    group when it starts with [## ]; the lines of a group are joined by
    line feeds. *)
Fixpoint groups (ls : list string) : list string :=
  match ls with
  | [] => []
  | l :: ls' =>
      match ls' with
      | [] => [l]
      | l' :: _ =>
          if startsWith l' "## " then l :: groups ls'
          else prepend (l +:+ String LF EmptyString) (groups ls')
      end
  end.

Definition no_char (a : ascii) (s : string) : Prop :=
  all_chars (fun c => if ascii_dec c a then false else true) s.

(** [st'] is [st] after some characters were consumed. *)
Definition advanced (st st' : mstate) : Prop :=
  exists x, m_rest st = x +:+ m_rest st' /\
            m_pos st' = (m_pos st + String.length x)%nat.

(** A character a slug replaces. *)
Definition not_slug_char (c : ascii) : bool := negb (is_slug_char c).

(** The text ends with a hyphen. *)
Fixpoint ends_hyphen (s : string) : bool :=
  match s with
  | EmptyString => false
  | String c EmptyString => if ascii_dec c "-" then true else false
  | String _ s' => ends_hyphen s'
  end.

End Scan.

(* ================================================================== *)
(** ** Scenario documents *)

Module Scenario.

Import JS RegExp MarkdownPracticeSource.

(** The end-to-end document of section 8. *)
Definition use_const : string := "## Use const

Prefer const.

Good:
```js
const x=1;
```
".

(** Two headings on consecutive lines. *)
Definition adjacent_headings : string := "## Naming
## Formatting
Use two spaces.
".

(** A heading on the last line, without a final line feed. *)
Definition unterminated_heading : string := "## Naming

Use camelCase.

## Formatting".

(** Two sections with category keywords of their own. *)
Definition keyword_sections : string := "## Testing

Always mock the network.

## Formatting

Indent with two spaces.
".

(** Two sections whose headings slugify alike. *)
Definition repeated_heading : string := "## Setup

Install the linter.

## Setup!

Run it.
".

(** A rule named in prose before a scoped rule. *)
Definition rules_in_prose : string :=
  "Enable eslint no-var, then @typescript-eslint/no-unused-vars.".

(** A section body whose only fenced block is empty and tagged [good],
    followed by text that ends in a stray fence. *)
Definition tagged_empty_block : string := "```good
```
foo```".

(** A section body whose only fenced block is blank. *)
Definition blank_block : string := "Example:

```js
   
```
".

Definition blank_block_section : string := "## Keep it short
" +:+ blank_block.

Definition tagged_empty_block_section : string := "## Keep it short
" +:+ tagged_empty_block.

(** Two unlabelled blocks, the first introduced by [avoid this]. *)
Definition avoid_then_fix : string := "Please avoid this:

```js
var x = 1;
```

Write instead:

```js
const x = 1;
```
".

(** A body with a front-matter block the YAML loader rejects. *)
Definition malformed_file_content : string := "---
title: [unclosed
---
## Naming

Use camelCase.
".

Definition team_config : SourceConfig :=
  {| cfg_name := "team";
     cfg_path := "./practices";
     cfg_language := Some "typescript";
     cfg_framework := None |}.

Definition empty_state : SourceState :=
  {| documentCache := ∅; logged := [] |}.

Definition malformed_file : File :=
  {| f_path := "/srv/practices/naming.md";
     f_relativePath := "naming.md";
     f_baseName := "naming";
     f_read := Returned malformed_file_content |}.

(** A section body whose only fenced block is tagged [c++]. *)
Definition cpp_block : string := "Example:

```c++
int x = 0;
```
".

(** Two blocks tagged [c++], the first introduced by [Avoid:]. *)
Definition cpp_blocks : string := "Avoid:
```c++
int x;
```
Prefer:
```c++
int y = 0;
```
".

(** A section whose only fenced block is blank and tagged [c++]. *)
Definition blank_cpp_section : string := "## Keep it short
```c++
   
```
".

(** A blank block labelled [Bad:]. *)
Definition blank_bad_block : string := "Bad:
```

```
".

(** A rule of another scope than [@typescript-eslint]. *)
Definition other_scope : string := "Use @angular-eslint/no-input-rename.".

(** A heading and a body that spell a keyword only when put end to end. *)
Definition split_keyword : string := "## Use for
matting rules
".

(** The same severity markers in capitals and in mixed case. *)
Definition capital_markers : string := "You MUST test; you Should document.".

Definition capital_should : string := "You SHOULD use X".

(** A splitter that treats the malformed document as gray-matter called
    without options does: a text is remembered before it is parsed; the
    first call on the malformed text throws in the YAML loader, a later
    call finds the remembered entry and returns it, with an empty mapping
    and the text as it was given.  The other texts of these scenarios have
    no front matter and come back whole. *)
Definition remembering (content : string) (seen : list string)
    : completion (option frontmatter * string) * list string :=
  if existsb (String.eqb content) seen then (Returned (Some ∅, content), seen)
  else if String.eqb content malformed_file_content
       then (Thrown "YAMLException", content :: seen)
       else (Returned (Some ∅, content), content :: seen).

(** A second file with the text of the malformed one. *)
Definition malformed_twin : File :=
  {| f_path := "/srv/practices/naming-copy.md";
     f_relativePath := "naming-copy.md";
     f_baseName := "naming-copy";
     f_read := Returned malformed_file_content |}.

(** A file with the end-to-end document of section 8. *)
Definition use_const_file : File :=
  {| f_path := "/srv/practices/guide.md";
     f_relativePath := "guide.md";
     f_baseName := "guide";
     f_read := Returned use_const |}.

End Scenario.

(* ================================================================== *)
(** ** The shape of identifiers *)

Module SlugShape.

Import JS Spec.

(** A character a slug can hold: [a-z], [0-9] or the hyphen. *)
Definition slug_or_hyphen (c : ascii) : bool :=
  is_slug_char c || (if ascii_dec c "-" then true else false).

(** Slug characters only, and never two hyphens in a row; [after_hyphen]
    tells that the character in front is a hyphen. *)
Fixpoint single_hyphens (after_hyphen : bool) (s : string) : bool :=
  match s with
  | EmptyString => true
  | String c s' =>
      if ascii_dec c "-" then negb after_hyphen && single_hyphens true s'
      else is_slug_char c && single_hyphens false s'
  end.

End SlugShape.


(** ** Line endings *)

Module Layout.

Import JS MarkdownPracticeSource Spec.

(** Every line that a line feed ends holds a carriage return, as in a
    text with Windows line endings. *)
Definition windows_line_endings (body : string) : Prop :=
  Forall (fun l => includes l CRs = true) (removelast (lines body)).

(** A heading and a paragraph, each line ended by a carriage return and a
    line feed. *)
Definition windows_body : string :=
  "## Naming" +:+ String CR (String LF ("Use clear names." +:+ String CR (String LF ""))).

(** The lines of a body that start with [## ], in order. *)
Definition marked_lines (body : string) : list string :=
  List.filter (fun l => startsWith l "## ") (lines body).

(** Every line that starts with [## ] is usable as a heading and is
    followed by a line that does not start with [## ]. *)
Fixpoint spaced (ls : list string) : bool :=
  match ls with
  | [] => true
  | l :: ls' =>
      (if startsWith l "## "
       then heading_ok l &&
            match ls' with
            | l' :: _ => negb (startsWith l' "## ")
            | [] => false
            end
       else true)
      && spaced ls'
  end.

End Layout.


(** ** The document cache *)

Module DocumentCache.

Import JS MarkdownPracticeSource.

(** [fetchDocument]: the cached document, [None] standing for [null]. *)
Definition fetchDocument (id : string) (st : SourceState) : option Document :=
  documentCache st !! id.

(** [getDocumentCount] *)
Definition getDocumentCount (st : SourceState) : nat := size (documentCache st).

(** [disconnect]: the new value of the [connected] flag, which the base
    class owns, and the state with the cache cleared. *)
Definition disconnect (st : SourceState) : bool * SourceState :=
  (false, {| documentCache := ∅; logged := logged st |}).

(** The last of the documents of a list that carry a given id. *)
Definition latest (id : string) (docs : list Document) : option Document :=
  last (List.filter (fun d => String.eqb (doc_id d) id) docs).

(** The splitter answers the text of a file in the same way at every
    call. *)
Definition steady {Splitter : Type}
    (matter : string -> Splitter -> completion (option frontmatter * string) * Splitter)
    (file : File) : Prop :=
  forall content sp sp',
    f_read file = Returned content ->
    fst (matter content sp) = fst (matter content sp').

End DocumentCache.


(** ** Metadata entries and inferred labels *)

Module Fields.

Import JS MarkdownPracticeSource.

(** The [framework] entry of a document's metadata. *)
Definition doc_framework (d : Document) : option value :=
  match doc_metadata d with
  | MPractice m => pm_framework m
  | MOverview m => om_framework m
  end.

(** The [category] entry of a practice document's metadata. *)
Definition doc_category (d : Document) : option value :=
  match doc_metadata d with
  | MPractice m => Some (pm_category m)
  | MOverview _ => None
  end.

(** The labels category inference can produce. *)
Definition inferredCategories : list string :=
  [ "naming"; "formatting"; "architecture"; "testing"; "security";
    "performance"; "documentation"; "error-handling"; "logging";
    "dependency-management"; "general" ].

(** The labels severity inference can produce. *)
Definition inferredSeverities : list string := [ "error"; "warning"; "suggestion" ].

End Fields.


(** ** Patterns that do not depend on the [i] flag *)

Module Flags.

Import JS RegExp.

(** A pattern whose literal characters and classes accept the same
    characters with and without the [i] flag. *)
Fixpoint caseless (r : regex) : Prop :=
  match r with
  | RChar a => forall c, char_eq true a c = char_eq false a c
  | RClass cl => forall c, class_test true cl c = class_test false cl c
  | RSeq a b | RAlt a b => caseless a /\ caseless b
  | RStar _ a | RGroup _ a | RAhead a => caseless a
  | _ => True
  end.

(** A test holds for both truth values, and for every character. *)
Definition both (g : bool -> bool) : bool := g true && g false.

Definition every_char (f : ascii -> bool) : bool :=
  both (fun b0 => both (fun b1 => both (fun b2 => both (fun b3 =>
  both (fun b4 => both (fun b5 => both (fun b6 => both (fun b7 =>
    f (Ascii b0 b1 b2 b3 b4 b5 b6 b7))))))))).

(** The characters and classes of a pattern pass the same characters with
    and without the [i] flag, as a test that can be run. *)
Fixpoint caselessb (r : regex) : bool :=
  match r with
  | RChar a => every_char (fun c => Bool.eqb (char_eq true a c) (char_eq false a c))
  | RClass cl => every_char (fun c => Bool.eqb (class_test true cl c) (class_test false cl c))
  | RSeq a b | RAlt a b => caselessb a && caselessb b
  | RStar _ a | RGroup _ a | RAhead a => caselessb a
  | _ => true
  end.

End Flags.


(** ** The provider's queries over the document store *)

Module BestPracticesProvider.

Import JS RegExp MarkdownPracticeSource Fields.

(** The queries below read the store's documents through their [type] and
    the metadata entries [category], [language], [severity] and
    [lintRules]; the documents are those the markdown source builds. *)

(** The [severity] and [lintRules] entries of a document's metadata;
    [None] stands for [undefined]. *)
Definition doc_severity (d : Document) : option value :=
  match doc_metadata d with
  | MPractice m => Some (pm_severity m)
  | MOverview _ => None
  end.

Definition doc_lintRules (d : Document) : option (list string) :=
  match doc_metadata d with
  | MPractice m => Some (pm_lintRules m)
  | MOverview _ => None
  end.

(** [v !== s] for a metadata entry [v] and a string [s]. *)
Definition differs (v : option value) (s : string) : bool :=
  match v with
  | Some (VStr t) => negb (String.eqb t s)
  | _ => true
  end.

(** [items.slice(0, end)] for an integer [end]. *)
Definition slice_to {A} (items : list A) (end_ : Z) : list A :=
  let n := Z.of_nat (length items) in
  let final := if end_ <? 0 then Z.max (n + end_) 0 else Z.min end_ n in
  firstn (Z.to_nat final) items.

(** The [options] argument of [getPracticesByCategory]. *)
Record CategoryOptions : Type := {
  opt_limit : option Z;
  opt_severity : option string
}.

(** The callback given to [filter] in [getPracticesByCategory]. *)
Definition inCategory (category : string) (language : option string)
    (options : option CategoryOptions) (doc : Document) : bool :=
  if negb (String.eqb (doc_type doc) "practice") then false
  else if differs (doc_category doc) category then false
  else if truthy_str language
          && differs (doc_language doc) (default "" language)
          && differs (doc_language doc) "general" then false
  else if truthy_str (options ≫= opt_severity)
          && differs (doc_severity doc) (default "" (options ≫= opt_severity))
       then false
  else true.

(** [getPracticesByCategory], where [allDocs] is [this.store.all()] and the
    limit, when given, is an integer; [options?.limit || 20] takes 20 for a
    missing limit and for 0. *)
Definition getPracticesByCategory (allDocs : list Document) (category : string)
    (language : option string) (options : option CategoryOptions) : list Document :=
  let limit :=
    match options ≫= opt_limit with
    | Some n => if n =? 0 then 20 else n
    | None => 20
    end in
  slice_to (List.filter (inCategory category language options) allDocs) limit.

(** [getPracticesForLintRule] *)
Definition getPracticesForLintRule (allDocs : list Document) (ruleId : string)
    : list Document :=
  List.filter
    (fun doc =>
       let lintRules := default [] (doc_lintRules doc) in
       existsb (fun rule => includes (toLowerCase rule) (toLowerCase ruleId)) lintRules)
    allDocs.

(** [/## Good Example\s*```[\w]*\n([\s\S]*?)```/] *)
Definition goodExamplePattern : pattern :=
  Pattern (RSeq (RStr "## Good Example")
            (RSeq (RStar true (RClass CSpace)) fencedBlock)) false.

(** [/## Bad Example[^\n]*\s*```[\w]*\n([\s\S]*?)```/] *)
Definition badExamplePattern : pattern :=
  Pattern (RSeq (RStr "## Bad Example")
            (RSeq (RStar true (RClass (CNot (CChar LF))))
              (RSeq (RStar true (RClass CSpace)) fencedBlock))) false.

(** [goodMatch?.[1]?.trim()] and [badMatch?.[1]?.trim()] in the callback
    of [getExamples], for the content of one chunk. *)
Definition goodExampleOf (content : string) : option string :=
  option_map trimmed_capture (match_first goodExamplePattern content).

Definition badExampleOf (content : string) : option string :=
  option_map trimmed_capture (match_first badExamplePattern content).

(** A store holding the documents of one markdown file. *)
Definition sample_body : string := "## Use const

Prefer const, see eslint: prefer-const.

## Naming

Use clear names.
".

Definition sample_store : list Document :=
  documentsOf
    {| cfg_name := "team"; cfg_path := "./practices";
       cfg_language := None; cfg_framework := None |}
    "guide.md" "guide" sample_body ∅.

End BestPracticesProvider.


(** ** The structured practice source *)

Module StructuredPracticeSource.

Import JS.

(** A practice that passed [PracticeSchema]: the text fields are strings,
    [severity] and [language] are always present (the schema fills in its
    defaults), the other fields are optional. *)
Record Practice : Type := {
  p_id : string;
  p_title : string;
  p_description : string;
  p_category : string;
  p_severity : string;
  p_language : string;
  p_framework : option string;
  p_goodExample : option string;
  p_badExample : option string;
  p_rationale : option string;
  p_exceptions : option (list string);
  p_relatedPractices : option (list string);
  p_lintRules : option (list string);
  p_references : option (list string);
  p_tags : option (list string)
}.

(** A style guide that passed [StyleGuideSchema]. *)
Record StyleGuide : Type := {
  g_name : string;
  g_version : option string;
  g_language : string;
  g_framework : option string;
  g_description : option string;
  g_practices : list Practice
}.

(** The [defaults] argument of [processPractices]. *)
Record Defaults : Type := {
  d_language : option string;
  d_framework : option string
}.

Record PracticeMetadata : Type := {
  pm_source : string;
  pm_path : string;
  pm_practiceId : string;
  pm_category : string;
  pm_severity : string;
  pm_language : string;
  pm_framework : option string;
  pm_tags : list string;
  pm_hasGoodExample : bool;
  pm_hasBadExample : bool;
  pm_lintRules : list string;
  pm_relatedPractices : list string
}.

Record OverviewMetadata : Type := {
  om_source : string;
  om_path : string;
  om_language : string;
  om_framework : option string;
  om_version : option string;
  om_practiceCount : nat;
  om_categories : list string
}.

Inductive Metadata : Type :=
| MPractice (m : PracticeMetadata)
| MOverview (m : OverviewMetadata).

Record Document : Type := {
  doc_id : string;
  doc_type : string;
  doc_content : string;
  doc_title : string;
  doc_metadata : Metadata
}.

(** [a || b] on optional strings. *)
Definition or_str (a b : option string) : option string :=
  if truthy_str a then a else b.

(** An optional array that is present and not empty. *)
Definition nonEmpty (items : option (list string)) : bool :=
  match items with
  | Some (_ :: _) => true
  | _ => false
  end.

(** [items.map(e => `- ${e}`).join('\n')] *)
Definition bullets (items : option (list string)) : string :=
  join (String MarkdownPracticeSource.LF "") (map (fun e => "- " +:+ e) (default [] items)).

(** [formatPracticeContent] *)
Definition formatPracticeContent (practice : Practice) : string :=
  let parts :=
    [ "# " +:+ p_title practice; "";
      "**Category:** " +:+ p_category practice;
      "**Severity:** " +:+ p_severity practice;
      "**Language:** " +:+ p_language practice;
      ""; p_description practice ] in
  let parts :=
    if truthy_str (p_rationale practice)
    then parts ++ [""; "## Rationale"; default "" (p_rationale practice)]
    else parts in
  let parts :=
    if truthy_str (p_goodExample practice)
    then parts ++ [""; "## Good Example"; "```"; default "" (p_goodExample practice); "```"]
    else parts in
  let parts :=
    if truthy_str (p_badExample practice)
    then parts ++ [""; "## Bad Example (Avoid)"; "```";
                   default "" (p_badExample practice); "```"]
    else parts in
  let parts :=
    if nonEmpty (p_exceptions practice)
    then parts ++ [""; "## Exceptions"; bullets (p_exceptions practice)]
    else parts in
  let parts :=
    if nonEmpty (p_lintRules practice)
    then parts ++ [""; "## Related Lint Rules"; bullets (p_lintRules practice)]
    else parts in
  let parts :=
    if nonEmpty (p_references practice)
    then parts ++ [""; "## References"; bullets (p_references practice)]
    else parts in
  join (String MarkdownPracticeSource.LF "") parts.

(** The [byCategory] map of [formatStyleGuideOverview], in insertion
    order: one iteration of the loop that fills it, and the loop. *)
Fixpoint pushPractice (practice : Practice) (byCategory : list (string * list Practice))
    : list (string * list Practice) :=
  match byCategory with
  | [] => [(p_category practice, [practice])]
  | (cat, practices) :: rest =>
      if String.eqb cat (p_category practice)
      then (cat, practices ++ [practice]) :: rest
      else (cat, practices) :: pushPractice practice rest
  end.

Definition byCategory (practices : list Practice) : list (string * list Practice) :=
  fold_left (fun m practice => pushPractice practice m) practices [].

(** [formatStyleGuideOverview] *)
Definition formatStyleGuideOverview (guide : StyleGuide) : string :=
  let parts := ["# " +:+ g_name guide; ""; "**Language:** " +:+ g_language guide] in
  let parts :=
    if truthy_str (g_framework guide)
    then parts ++ ["**Framework:** " +:+ default "" (g_framework guide)] else parts in
  let parts :=
    if truthy_str (g_version guide)
    then parts ++ ["**Version:** " +:+ default "" (g_version guide)] else parts in
  let parts :=
    if truthy_str (g_description guide)
    then parts ++ [""; default "" (g_description guide)] else parts in
  let parts := parts ++ [""; "## Practices"; ""] in
  let parts :=
    fold_left
      (fun parts group =>
         parts ++ ["### " +:+ fst group; ""]
         ++ map (fun p => "- **" +:+ p_title p +:+ "** [" +:+ p_severity p +:+ "]: "
                          +:+ slice (p_description p) 0 100 +:+ "...")
                (snd group)
         ++ [""])
      (byCategory (g_practices guide)) parts in
  join (String MarkdownPracticeSource.LF "") parts.

Section Processing.

(** [this.name], the name of the source configuration. *)
Variable name : string.

(** The document built for one practice in the loop of
    [processPractices]. *)
Definition practiceDocument (relativePath : string) (defaults : Defaults)
    (practice : Practice) : Document :=
  {| doc_id := name +:+ ":" +:+ relativePath +:+ "#" +:+ p_id practice;
     doc_type := "practice";
     doc_content := formatPracticeContent practice;
     doc_title := p_title practice;
     doc_metadata := MPractice {|
       pm_source := name;
       pm_path := relativePath;
       pm_practiceId := p_id practice;
       pm_category := p_category practice;
       pm_severity := p_severity practice;
       pm_language :=
         default "general"
           (or_str (or_str (Some (p_language practice)) (d_language defaults))
                   (Some "general"));
       pm_framework := or_str (p_framework practice) (d_framework defaults);
       pm_tags := default [] (p_tags practice);
       pm_hasGoodExample := truthy_str (p_goodExample practice);
       pm_hasBadExample := truthy_str (p_badExample practice);
       pm_lintRules := default [] (p_lintRules practice);
       pm_relatedPractices := default [] (p_relatedPractices practice)
     |}
  |}.

(** [processPractices]: the documents returned and the cache after the
    loop. *)
Definition processPractices (practices : list Practice) (relativePath : string)
    (defaults : Defaults) (cache : gmap string Document)
    : list Document * gmap string Document :=
  fold_left
    (fun acc practice =>
       let doc := practiceDocument relativePath defaults practice in
       (fst acc ++ [doc], <[doc_id doc := doc]> (snd acc)))
    practices ([], cache).

(** [processStyleGuide] *)
Definition processStyleGuide (guide : StyleGuide) (relativePath : string)
    (cache : gmap string Document) : list Document * gmap string Document :=
  let practiceDefaults :=
    {| d_language := Some (g_language guide); d_framework := g_framework guide |} in
  let '(practiceDocs, cache) :=
    processPractices (g_practices guide) relativePath practiceDefaults cache in
  let overview :=
    {| doc_id := name +:+ ":" +:+ relativePath;
       doc_type := "style-guide";
       doc_content := formatStyleGuideOverview guide;
       doc_title := g_name guide;
       doc_metadata := MOverview {|
         om_source := name;
         om_path := relativePath;
         om_language := g_language guide;
         om_framework := g_framework guide;
         om_version := g_version guide;
         om_practiceCount := length (g_practices guide);
         om_categories :=
           MarkdownPracticeSource.set_of String.eqb (map p_category (g_practices guide))
       |}
    |} in
  (practiceDocs ++ [overview], <[doc_id overview := overview]> cache).

End Processing.

(** The grouping by category in declarative words: the categories in the
    order of their first practice, each with its practices in guide
    order. *)
Definition grouped (practices : list Practice) : list (string * list Practice) :=
  map (fun cat =>
         (cat, List.filter (fun p => String.eqb (p_category p) cat) practices))
      (MarkdownPracticeSource.set_of String.eqb (map p_category practices)).

(** The language rule of [processPractices] in words: the practice's own
    language unless it is empty, then the default unless it is missing or
    empty, then [general]. *)
Definition languageOf (defaults : Defaults) (practice : Practice) : string :=
  if negb (String.eqb (p_language practice) "") then p_language practice
  else match d_language defaults with
       | Some l => if negb (String.eqb l "") then l else "general"
       | None => "general"
       end.

End StructuredPracticeSource.

Module SPS := StructuredPracticeSource.


(** ** Example sections of formatted practices *)

Module ExampleSections.

Import JS RegExp MarkdownPracticeSource.

(** The one-character text holding a line feed. *)
Definition LFs : string := String LF "".

(** What [formatPracticeContent] writes in front of the good example
    (the title, the description and the rationale) and in front of the
    bad example (the same and the good example). *)
Definition beforeGoodExample (practice : Practice) : string :=
  let parts := ["# " +:+ title practice; ""; description practice] in
  let parts :=
    if truthy_str (rationale practice)
    then parts ++ [""; "## Rationale"; default "" (rationale practice)]
    else parts in
  join (String LF "") parts.

Definition beforeBadExample (practice : Practice) : string :=
  let parts := ["# " +:+ title practice; ""; description practice] in
  let parts :=
    if truthy_str (rationale practice)
    then parts ++ [""; "## Rationale"; default "" (rationale practice)]
    else parts in
  let parts :=
    if truthy_str (goodExample practice)
    then parts ++ [""; "## Good Example"; "```"; default "" (goodExample practice); "```"]
    else parts in
  join (String LF "") parts.

(** What a pattern between a section heading and its fenced block has to
    do on the rest of the heading line and the line feed after it. *)
Definition skips_line (mid : regex) (sfx : string) : Prop :=
  forall pos caps k r res,
    k (MState (pos + S (String.length sfx)) ("```" +:+ r) caps) = Some res ->
    run false mid (MState pos (sfx +:+ String LF ("```" +:+ r)) caps) k = Some res.

(** [heading], [mid], then a fenced block. *)
Definition sectionPattern (heading : string) (mid : regex) : pattern :=
  Pattern (RSeq (RStr heading) (RSeq mid fencedBlock)) false.

(** An extracted example: free of surrounding white space and of
    fences. *)
Definition clean (example : string) : Prop :=
  trim example = example /\ includes example "```" = false.

End ExampleSections.


Module StructuredSections.

Import JS.

(** What the structured [formatPracticeContent] writes in front of the
    good example and in front of the bad example. *)
Definition beforeGoodExample (practice : SPS.Practice) : string :=
  let parts :=
    [ "# " +:+ SPS.p_title practice; "";
      "**Category:** " +:+ SPS.p_category practice;
      "**Severity:** " +:+ SPS.p_severity practice;
      "**Language:** " +:+ SPS.p_language practice;
      ""; SPS.p_description practice ] in
  let parts :=
    if truthy_str (SPS.p_rationale practice)
    then parts ++ [""; "## Rationale"; default "" (SPS.p_rationale practice)]
    else parts in
  join (String MarkdownPracticeSource.LF "") parts.

Definition beforeBadExample (practice : SPS.Practice) : string :=
  let parts :=
    [ "# " +:+ SPS.p_title practice; "";
      "**Category:** " +:+ SPS.p_category practice;
      "**Severity:** " +:+ SPS.p_severity practice;
      "**Language:** " +:+ SPS.p_language practice;
      ""; SPS.p_description practice ] in
  let parts :=
    if truthy_str (SPS.p_rationale practice)
    then parts ++ [""; "## Rationale"; default "" (SPS.p_rationale practice)]
    else parts in
  let parts :=
    if truthy_str (SPS.p_goodExample practice)
    then parts ++ [""; "## Good Example"; "```";
                   default "" (SPS.p_goodExample practice); "```"]
    else parts in
  join (String MarkdownPracticeSource.LF "") parts.

(** A structured practice with both examples. *)
Definition sample_practice : SPS.Practice :=
  {| SPS.p_id := "use-const"; SPS.p_title := "Use const";
     SPS.p_description := "Prefer const."; SPS.p_category := "general";
     SPS.p_severity := "suggestion"; SPS.p_language := "javascript";
     SPS.p_framework := None;
     SPS.p_goodExample := Some "const x = 1;";
     SPS.p_badExample := Some "var x = 1;";
     SPS.p_rationale := Some "Reassignment hides bugs.";
     SPS.p_exceptions := None; SPS.p_relatedPractices := None;
     SPS.p_lintRules := Some ["prefer-const"];
     SPS.p_references := None; SPS.p_tags := None |}.

End StructuredSections.


(** ** Paragraphs and sub-sections *)

Module Paragraphs.

Import JS RegExp MarkdownPracticeSource ExampleSections.

(** The text that ends a named section: a line feed and the marker of a
    third-level heading. *)
Definition nextSubheading : string := String LF "###".

(** The paragraphs of a text: the pieces between the runs of two or more
    line feeds; [skipping] tells that such a run is being skipped. *)
Fixpoint paragraphs_from (skipping : bool) (s : string) : list string :=
  match s with
  | EmptyString => [EmptyString]
  | String c s' =>
      if ascii_dec c LF then
        if skipping then paragraphs_from true s'
        else if startsWith s' LFs then EmptyString :: paragraphs_from true s'
        else cons_head c (paragraphs_from false s')
      else cons_head c (paragraphs_from false s')
  end.

Definition paragraphs (s : string) : list string := paragraphs_from false s.

(** The test a trimmed paragraph has to pass in [extractDescription]. *)
Definition describes (trimmed : string) : bool :=
  negb (startsWith trimmed "```") && negb (startsWith trimmed "#") && (0 <? len trimmed).

(** The two-character text of a blank line. *)
Definition blankLine : string := String LF LFs.

(** The test for a line feed. *)
Definition isLF (c : ascii) : bool := if ascii_dec LF c then true else false.

(** A section with a rationale followed by another sub-section. *)
Definition sample_section : string := "Prefer const.

### Rationale
Because it is safer.

### Notes
None.
".

End Paragraphs.


(** ** Lint rule names *)

Module Tokens.

Import JS RegExp Scan.

(** A character of a lint rule name: a word character, [@], [/] or [-]. *)
Definition rule_char (c : ascii) : bool :=
  is_word c || (if ascii_dec c "@" then true else false)
  || (if ascii_dec c "/" then true else false)
  || (if ascii_dec c "-" then true else false).

(** A pattern without capture groups. *)
Fixpoint group_free (r : regex) : bool :=
  match r with
  | RGroup _ _ => false
  | RSeq a b | RAlt a b => group_free a && group_free b
  | RStar _ a | RAhead a => group_free a
  | _ => true
  end.

(** [st'] is [st] after some characters were consumed, with the same
    captures. *)
Definition advanced_same (st st' : mstate) : Prop :=
  advanced st st' /\ m_caps st' = m_caps st.

(** A lint rule name: not empty, made of rule characters. *)
Definition rule_token (rule : string) : Prop :=
  rule <> EmptyString /\ all_chars rule_char rule.

End Tokens.


(** ** Patterns read without the matcher *)

Module Recognisers.

Import JS RegExp MarkdownPracticeSource Spec Scan.

(** A left-to-right search with a recogniser [here], which tells for a text
    whether a match starts at its head, how long it is and what it yields.
    The search resumes where a match ended (one character further after an
    empty match); [skip] counts the characters of the last match still to
    be passed.  The result lists every match with its index. *)
Fixpoint scan_from {A} (here : string -> option (nat * A)) (pos skip : nat)
    (s : string) : list (nat * A) :=
  match skip with
  | S skip' =>
      match s with
      | String _ s' => scan_from here (S pos) skip' s'
      | EmptyString => []
      end
  | O =>
      match here s with
      | Some (n, a) =>
          (pos, a) ::
          match s with
          | String _ s' => scan_from here (S pos) (n - 1) s'
          | EmptyString => []
          end
      | None =>
          match s with
          | String _ s' => scan_from here (S pos) 0 s'
          | EmptyString => []
          end
      end
  end.

Definition scan {A} (here : string -> option (nat * A)) (s : string) : list (nat * A) :=
  scan_from here 0 0 s.

(** The text in front of the first fence of a text that has one. *)
Fixpoint before_fence (s : string) : option string :=
  if startsWith s "```" then Some EmptyString
  else match s with
       | EmptyString => None
       | String c s' => option_map (String c) (before_fence s')
       end.

(** A fenced block at the head of a text: the opening fence, a tag made of
    [tag_ok] characters that runs up to a line feed, and the content up to
    the next fence.  Yields the length of the block and its content. *)
Definition block_here (tag_ok : ascii -> bool) (s : string) : option (nat * string) :=
  if startsWith s "```" then
    match span tag_ok (drop 3 s) with
    | (tag, String c r) =>
        if ascii_dec c LF then
          match before_fence r with
          | Some content =>
              Some ((String.length tag + String.length content + 7)%nat, content)
          | None => None
          end
        else None
    | (_, EmptyString) => None
    end
  else None.

(** The fenced blocks the example patterns recognise, each with its index
    and its content: the tag of the opening fence is made of word
    characters only. *)
Definition blocks (content : string) : list (nat * string) :=
  scan (block_here is_word) content.

(** A character of the line that opens a fence. *)
Definition any_tag (c : ascii) : bool := if ascii_dec c LF then false else true.

(** Fenced code blocks in the words of section 4.5: whatever follows the
    opening fence on its line is the tag of the block. *)
Definition fenced_blocks (content : string) : list (nat * string) :=
  scan (block_here any_tag) content.

(** [match[1]], the empty text when the group did not take part. *)
Definition raw_capture (m : result) : string := default "" (group 1 m).

Definition not_backquote (c : ascii) : bool :=
  if ascii_dec c "`" then false else true.

End Recognisers.


(** ** The three families of lint rules *)

Module Families.

Import JS RegExp MarkdownPracticeSource Spec Scan Tokens Recognisers.

(** A character of a rule name: a word character or a hyphen. *)
Definition name_char (c : ascii) : bool :=
  is_word c || (if ascii_dec c "-" then true else false).

(** Family (a): the scope [@typescript-eslint/] followed by a rule name;
    the whole text is the rule. *)
Definition scoped_rule_here (s : string) : option (nat * string) :=
  if startsWith s "@typescript-eslint/" then
    match fst (span name_char (drop 19 s)) with
    | EmptyString => None
    | name => Some ((19 + String.length name)%nat, "@typescript-eslint/" +:+ name)
    end
  else None.

(** One optional character: the number of characters it takes. *)
Definition optional (a : ascii) (s : string) : nat :=
  match s with
  | String c _ => if ascii_dec a c then 1%nat else 0%nat
  | EmptyString => 0%nat
  end.

(** Family (b): [eslint] in any letter case, an optional colon, white space
    and a rule name; the name is the rule. *)
Definition eslint_rule_here (s : string) : option (nat * string) :=
  if spelled "eslint" s then
    let r := drop 6 s in
    let colon := optional ":" r in
    let spaces := fst (span is_space (drop colon r)) in
    match fst (span name_char (snd (span is_space (drop colon r)))) with
    | EmptyString => None
    | name =>
        Some ((6 + colon + String.length spaces + String.length name)%nat, name)
    end
  else None.

(** Family (c): an opening bracket, an optional back quote, a name made of
    word characters, [@], [/] and [-], an optional back quote, the closing
    bracket, white space and [rule] in any letter case; the name is the
    rule. *)
Definition quoted_rule_here (s : string) : option (nat * string) :=
  match s with
  | String "[" r =>
      let open := optional "`" r in
      let name := fst (span rule_char (drop open r)) in
      let r2 := snd (span rule_char (drop open r)) in
      let close := optional "`" r2 in
      match name, drop close r2 with
      | String _ _, String "]" r4 =>
          if spelled "rule" (snd (span is_space r4))
          then Some ((1 + open + String.length name + close + 1
                      + String.length (fst (span is_space r4)) + 4)%nat, name)
          else None
      | _, _ => None
      end
  | _ => None
  end.

(** The rules of one family, in text order. *)
Definition rules_of (here : string -> option (nat * string)) (content : string)
    : list string :=
  map snd (scan here content).

(** Family (a) in the words of section 4.6: an organization-scoped,
    slash-separated identifier, that is [@], a scope, a slash and a rule
    name; the whole text is the rule. *)
Definition org_scoped_here (s : string) : option (nat * string) :=
  match s with
  | String "@" r =>
      match span name_char r with
      | (String c scope, String "/" r') =>
          match fst (span name_char r') with
          | EmptyString => None
          | name =>
              Some ((S (String.length (String c scope)) + S (String.length name))%nat,
                    "@" +:+ String c scope +:+ "/" +:+ name)
          end
      | _ => None
      end
  | _ => None
  end.

(** Lint rules as section 4.6 words them: the matches of the three
    families, in the order of their first occurrence in the text. *)
Definition lintRules_claimed (content : string) : list string :=
  dedup_first (map snd (sort_by_index
    (scan org_scoped_here content ++ scan eslint_rule_here content
     ++ scan quoted_rule_here content))).

End Families.


(** ** Letter case of keywords and pattern characters *)

Module Letters.

Import JS RegExp Spec Flags.

(** Lower-casing sends to [k] exactly the characters that spell [k]. *)
Definition folds_to (k : ascii) : bool :=
  every_char (fun c =>
    Bool.eqb (spells k c) (if ascii_dec k (lower_char c) then true else false)).

(** Under the [i] flag a pattern character matches exactly the characters
    that spell it. *)
Definition canon_spells (k : ascii) : bool :=
  every_char (fun c => Bool.eqb (char_eq true k c) (spells k c)).

(** The characters of a keyword, one by one. *)
Definition letters (keyword : string) : list ascii := list_ascii_of_string keyword.

End Letters.


(** ** Properties *)

Import JS RegExp MarkdownPracticeSource Scan Spec Flags Letters.

(** *** Texts *)

Lemma app_cons (c : ascii) (a b : string) :
  String c a +:+ b = String c (a +:+ b).
Proof. reflexivity. Qed.

Lemma app_empty (b : string) : EmptyString +:+ b = b.
Proof. reflexivity. Qed.

Lemma startsWith_empty (s : string) : startsWith s EmptyString = true.
Proof. destruct s; reflexivity. Qed.

Lemma startsWith_app (s p : string) :
  startsWith s p = true <-> exists post, s = p +:+ post.
Proof.
  revert s. induction p as [|a p IH]; intros s.
  - rewrite startsWith_empty. split; [intros _; exists s; reflexivity | reflexivity].
  - destruct s as [|b s]; simpl.
    + split; [discriminate | intros [post H]; discriminate].
    + destruct (ascii_dec a b) as [->|Hne].
      * rewrite IH. split; intros [post H]; exists post.
        -- rewrite app_cons, H. reflexivity.
        -- rewrite app_cons in H. congruence.
      * split; [discriminate | intros [post H]; rewrite app_cons in H; congruence].
Qed.

Lemma includes_empty (sub : string) :
  includes EmptyString sub = startsWith EmptyString sub || false.
Proof. reflexivity. Qed.

Lemma includes_cons (c : ascii) (s sub : string) :
  includes (String c s) sub = startsWith (String c s) sub || includes s sub.
Proof. reflexivity. Qed.

Lemma includes_app (s sub : string) :
  includes s sub = true <-> exists pre post, s = pre +:+ sub +:+ post.
Proof.
  induction s as [|c s IH]; [rewrite includes_empty | rewrite includes_cons].
  - rewrite orb_false_r, startsWith_app. split.
    + intros [post H]. exists EmptyString, post. exact H.
    + intros [pre [post H]]. destruct pre; [exists post; exact H | discriminate].
  - rewrite orb_true_iff, startsWith_app, IH. split.
    + intros [[post H] | [pre [post H]]].
      * exists EmptyString, post. exact H.
      * exists (String c pre), post. rewrite app_cons, H. reflexivity.
    + intros [pre [post H]]. destruct pre as [|a pre].
      * left. exists post. exact H.
      * right. exists pre, post. rewrite app_cons in H. congruence.
Qed.

Lemma toLowerCase_app (a b : string) :
  toLowerCase (a +:+ b) = toLowerCase a +:+ toLowerCase b.
Proof.
  induction a as [|c a IH]; [reflexivity|].
  rewrite app_cons. simpl. rewrite IH. reflexivity.
Qed.

Lemma toLowerCase_split (s x y : string) :
  toLowerCase s = x +:+ y ->
  exists a b, s = a +:+ b /\ toLowerCase a = x /\ toLowerCase b = y.
Proof.
  revert s. induction x as [|c x IH]; intros s H.
  - exists EmptyString, s. auto.
  - destruct s as [|d s]; [discriminate|]. rewrite app_cons in H. simpl in H.
    injection H as Hc Hs. destruct (IH _ Hs) as (a & b & -> & Ha & Hb).
    exists (String d a), b. simpl. rewrite Ha, Hc. auto.
Qed.

Lemma both_spec (g : bool -> bool) : both g = true -> forall b, g b = true.
Proof.
  unfold both. intros H b. apply andb_true_iff in H. destruct H as [Ht Hf].
  destruct b; assumption.
Qed.

Lemma every_char_spec (f : ascii -> bool) :
  every_char f = true -> forall c, f c = true.
Proof.
  intros H [b0 b1 b2 b3 b4 b5 b6 b7]. unfold every_char in H.
  apply (both_spec _ (both_spec _ (both_spec _ (both_spec _
         (both_spec _ (both_spec _ (both_spec _ (both_spec _ H b0) b1) b2) b3)
         b4) b5) b6) b7).
Qed.

Lemma folds_to_spec (k c : ascii) :
  folds_to k = true ->
  spells k c = (if ascii_dec k (lower_char c) then true else false).
Proof. intros H. apply Bool.eqb_prop. exact (every_char_spec _ H c). Qed.

Lemma spelled_lower (keyword : string) : forall text,
  forallb folds_to (letters keyword) = true ->
  spelled keyword text = startsWith (toLowerCase text) keyword.
Proof.
  induction keyword as [|k kw IH]; intros text H.
  - destruct text; reflexivity.
  - cbn [letters list_ascii_of_string forallb] in H. apply andb_true_iff in H.
    destruct H as [Hk Hkw]. destruct text as [|c text]; [reflexivity|].
    cbn [spelled toLowerCase startsWith].
    rewrite (folds_to_spec k c Hk), (IH text Hkw).
    destruct (ascii_dec k (lower_char c)); reflexivity.
Qed.

(** The scan of the source, [text.toLowerCase().includes(keyword)], finds a
    keyword exactly when the keyword occurs in the text in some letter
    case. *)
Lemma occurs_ci_lower (keyword text : string) :
  forallb folds_to (letters keyword) = true ->
  occurs_ci keyword text = includes (toLowerCase text) keyword.
Proof.
  intros H. induction text as [|c text IH].
  - cbn [occurs_ci toLowerCase includes]. rewrite spelled_lower by exact H. reflexivity.
  - cbn [occurs_ci]. rewrite IH, spelled_lower by exact H. reflexivity.
Qed.

Lemma str_app_assoc (a b c : string) : (a +:+ b) +:+ c = a +:+ (b +:+ c).
Proof. induction a as [|x a IH]; [reflexivity|]. rewrite !app_cons, IH. reflexivity. Qed.

Lemma str_app_empty_r (a : string) : a +:+ EmptyString = a.
Proof. induction a as [|x a IH]; [reflexivity|]. rewrite app_cons, IH. reflexivity. Qed.

Lemma length_app (a b : string) :
  String.length (a +:+ b) = (String.length a + String.length b)%nat.
Proof. induction a as [|x a IH]; [reflexivity|]. rewrite app_cons. simpl. rewrite IH. reflexivity. Qed.

Lemma drop_0 (s : string) : drop 0 s = s.
Proof. destruct s; reflexivity. Qed.

Lemma startsWith_app_same (s r : string) : startsWith (s +:+ r) s = true.
Proof. apply startsWith_app. exists r. reflexivity. Qed.

Lemma drop_app_length (s r : string) : drop (String.length s) (s +:+ r) = r.
Proof. induction s as [|c s IH]; [apply drop_0|]. rewrite app_cons. exact IH. Qed.

Lemma take_app_length (s r : string) : take (String.length s) (s +:+ r) = s.
Proof.
  induction s as [|c s IH]; [destruct r; reflexivity|].
  rewrite app_cons. simpl. rewrite IH. reflexivity.
Qed.

Lemma take_drop (k : nat) (s : string) : take k s +:+ drop k s = s.
Proof.
  revert s. induction k as [|k IH]; intros s.
  - destruct s; reflexivity.
  - destruct s as [|c s]; [reflexivity|]. cbn [take drop]. rewrite app_cons, IH.
    reflexivity.
Qed.

Lemma length_take (n : nat) (s : string) :
  String.length (take n s) = Nat.min n (String.length s).
Proof.
  revert s. induction n as [|n IH]; intros s; [destruct s; reflexivity|].
  destruct s as [|c s]; [reflexivity|]. cbn [take String.length]. rewrite IH.
  reflexivity.
Qed.

Lemma length_drop (n : nat) (s : string) :
  String.length (drop n s) = (String.length s - n)%nat.
Proof.
  revert s. induction n as [|n IH]; intros s; [destruct s; cbn; lia|].
  destruct s as [|c s]; [reflexivity|]. cbn [drop String.length]. apply IH.
Qed.

Lemma take_all (n : nat) (s : string) :
  (String.length s <= n)%nat -> take n s = s.
Proof.
  revert s. induction n as [|n IH]; intros s H.
  - destruct s; [reflexivity | simpl in H; lia].
  - destruct s as [|c s]; [reflexivity|]. cbn [take]. rewrite IH; [reflexivity|].
    simpl in H. lia.
Qed.

Lemma drop_all (n : nat) (s : string) :
  (String.length s <= n)%nat -> drop n s = EmptyString.
Proof.
  revert s. induction n as [|n IH]; intros s H.
  - destruct s; [reflexivity | cbn [String.length] in H; lia].
  - destruct s as [|c s]; [reflexivity|]. cbn [drop]. apply IH.
    cbn [String.length] in H. lia.
Qed.

Lemma drop_app_more (a : string) (n : nat) (s : string) :
  drop (String.length a + n) (a +:+ s) = drop n s.
Proof. induction a as [|c a IH]; [reflexivity|]. rewrite app_cons. exact IH. Qed.

Lemma slice_prefix (s : string) (k : nat) :
  (k <= String.length s)%nat -> slice s 0 (Z.of_nat k) = take k s.
Proof.
  intros Hk. unfold slice, clamp_index, len.
  destruct (0 <? 0) eqn:E0; [apply Z.ltb_lt in E0; lia|].
  destruct (Z.of_nat k <? 0) eqn:Ek; [apply Z.ltb_lt in Ek; lia|].
  rewrite Z.min_l by lia. rewrite Z.min_l by lia.
  rewrite Z.sub_0_r, Nat2Z.id. cbn [Z.to_nat]. rewrite drop_0. reflexivity.
Qed.

Lemma slice_from_drop (s : string) (n : nat) :
  (n <= String.length s)%nat -> slice_from s (Z.of_nat n) = drop n s.
Proof.
  intros Hn. unfold slice_from, slice, clamp_index, len.
  destruct (Z.of_nat n <? 0) eqn:E1; [apply Z.ltb_lt in E1; lia|].
  destruct (Z.of_nat (String.length s) <? 0) eqn:E2; [apply Z.ltb_lt in E2; lia|].
  rewrite Z.min_l by lia. rewrite Z.min_l by lia.
  rewrite Nat2Z.id. apply take_all. rewrite length_drop. lia.
Qed.

(** *** The matcher *)

Lemma succ_neq (n : nat) : Nat.eqb (S n) n = false.
Proof. apply Nat.eqb_neq. lia. Qed.

Lemma star_class_greedy ic cl k budget pos rest caps :
  (String.length rest < budget)%nat ->
  star_loop (run ic (RClass cl)) true k budget (MState pos rest caps) =
  greedy_scan (class_test ic cl) k pos rest caps.
Proof.
  revert pos rest. induction budget as [|b IH]; intros pos rest Hlen; [lia|].
  destruct rest as [|c rest]; cbn [star_loop run step_char m_rest greedy_scan].
  - reflexivity.
  - destruct (class_test ic cl c); [|reflexivity].
    cbn [m_pos m_caps]. rewrite succ_neq. rewrite IH by (simpl in Hlen; lia).
    reflexivity.
Qed.

Lemma star_class_lazy ic cl k budget pos rest caps :
  (String.length rest < budget)%nat ->
  star_loop (run ic (RClass cl)) false k budget (MState pos rest caps) =
  lazy_scan (class_test ic cl) k pos rest caps.
Proof.
  revert pos rest. induction budget as [|b IH]; intros pos rest Hlen; [lia|].
  destruct rest as [|c rest]; cbn [star_loop run step_char m_rest lazy_scan].
  - reflexivity.
  - destruct (k (MState pos (String c rest) caps)); [reflexivity|].
    cbn [first_some].
    destruct (class_test ic cl c); [|reflexivity].
    cbn [m_pos m_caps]. rewrite succ_neq. rewrite IH by (simpl in Hlen; lia).
    reflexivity.
Qed.

Lemma all_chars_empty ok : all_chars ok EmptyString.
Proof. intros pre c post H. destruct pre; discriminate. Qed.

Lemma all_chars_cons ok c s :
  all_chars ok (String c s) <-> ok c = true /\ all_chars ok s.
Proof.
  split.
  - intros H. split.
    + apply (H EmptyString c s). reflexivity.
    + intros pre d post E. apply (H (String c pre) d post).
      rewrite app_cons, E. reflexivity.
  - intros [Hc Hs] pre d post E. destruct pre as [|x pre].
    + rewrite app_empty in E. injection E as -> _. exact Hc.
    + rewrite app_cons in E. injection E as _ E. apply (Hs pre d post E).
Qed.

Lemma first_some_r a b : b tt <> None -> first_some a b <> None.
Proof. destruct a; [discriminate | intros H; exact H]. Qed.

Lemma first_some_l a b : a <> None -> first_some a b <> None.
Proof. destruct a; [discriminate | congruence]. Qed.

(** A greedy scan succeeds as soon as the continuation accepts the state
    behind some stretch of accepted characters. *)
Lemma greedy_scan_complete ok k w r pos caps :
  all_chars ok w ->
  k (MState (pos + String.length w) r caps) <> None ->
  greedy_scan ok k pos (w +:+ r) caps <> None.
Proof.
  revert pos. induction w as [|c w IH]; intros pos Hw Hk.
  - rewrite app_empty. simpl in Hk. rewrite Nat.add_0_r in Hk.
    destruct r as [|c r]; cbn [greedy_scan]; [exact Hk|].
    destruct (ok c); [apply first_some_r|]; exact Hk.
  - rewrite app_cons. cbn [greedy_scan].
    apply all_chars_cons in Hw. destruct Hw as [Hc Hw]. rewrite Hc.
    apply first_some_l, IH; [exact Hw|].
    simpl in Hk. rewrite Nat.add_succ_r in Hk. exact Hk.
Qed.

Lemma greedy_scan_sound ok k pos rest caps res :
  greedy_scan ok k pos rest caps = Some res ->
  exists w r, rest = w +:+ r /\ all_chars ok w /\
              k (MState (pos + String.length w) r caps) = Some res.
Proof.
  revert pos. induction rest as [|c rest IH]; intros pos H; cbn [greedy_scan] in H.
  - exists EmptyString, EmptyString. simpl. rewrite Nat.add_0_r.
    auto using all_chars_empty.
  - assert (Hhere : k (MState pos (String c rest) caps) = Some res ->
      exists w r, String c rest = w +:+ r /\ all_chars ok w /\
                  k (MState (pos + String.length w) r caps) = Some res).
    { intros Hk. exists EmptyString, (String c rest). simpl. rewrite Nat.add_0_r.
      auto using all_chars_empty. }
    destruct (ok c) eqn:Hc; [|auto].
    destruct (greedy_scan ok k (S pos) rest caps) as [res'|] eqn:E; cbn in H; [|auto].
    injection H as ->. destruct (IH _ E) as (w & r & -> & Hw & Hk).
    exists (String c w), r. rewrite app_cons. split; [reflexivity|].
    split; [apply all_chars_cons; auto|].
    simpl. rewrite Nat.add_succ_r. exact Hk.
Qed.

Lemma lazy_scan_complete ok k w r pos caps :
  all_chars ok w ->
  k (MState (pos + String.length w) r caps) <> None ->
  lazy_scan ok k pos (w +:+ r) caps <> None.
Proof.
  revert pos. induction w as [|c w IH]; intros pos Hw Hk.
  - rewrite app_empty. simpl in Hk. rewrite Nat.add_0_r in Hk.
    destruct r; cbn [lazy_scan]; apply first_some_l; exact Hk.
  - rewrite app_cons. cbn [lazy_scan].
    apply all_chars_cons in Hw. destruct Hw as [Hc Hw]. rewrite Hc.
    apply first_some_r, IH; [exact Hw|].
    simpl in Hk. rewrite Nat.add_succ_r in Hk. exact Hk.
Qed.

Lemma lazy_scan_sound ok k pos rest caps res :
  lazy_scan ok k pos rest caps = Some res ->
  exists w r, rest = w +:+ r /\ all_chars ok w /\
              k (MState (pos + String.length w) r caps) = Some res.
Proof.
  revert pos. induction rest as [|c rest IH]; intros pos H.
  - cbn [lazy_scan] in H.
    destruct (k (MState pos EmptyString caps)) as [res'|] eqn:E; cbn in H; [|discriminate].
    exists EmptyString, EmptyString. simpl. rewrite Nat.add_0_r.
    rewrite E. auto using all_chars_empty.
  - cbn [lazy_scan] in H.
    destruct (k (MState pos (String c rest) caps)) as [res'|] eqn:E; cbn in H.
    + exists EmptyString, (String c rest). simpl. rewrite Nat.add_0_r, E.
      auto using all_chars_empty.
    + destruct (ok c) eqn:Hc; [|discriminate].
      destruct (IH _ H) as (w & r & -> & Hw & Hk).
      exists (String c w), r. rewrite app_cons. split; [reflexivity|].
      split; [apply all_chars_cons; auto|].
      simpl. rewrite Nat.add_succ_r. exact Hk.
Qed.

Lemma run_seq ic a b st k :
  run ic (RSeq a b) st k = run ic a st (fun st' => run ic b st' k).
Proof. reflexivity. Qed.

Lemma run_star ic g a st k :
  run ic (RStar g a) st k =
  star_loop (run ic a) g k (S (String.length (m_rest st))) st.
Proof. reflexivity. Qed.

Lemma run_group ic n a st k :
  run ic (RGroup n a) st k =
  run ic a st (fun st' =>
    k (MState (m_pos st') (m_rest st')
         ((n, take (m_pos st' - m_pos st) (m_rest st)) :: m_caps st'))).
Proof. reflexivity. Qed.

(** A literal word under a case-sensitive pattern. *)
Lemma run_str (s : string) pos rest caps k :
  run false (RStr s) (MState pos rest caps) k =
  if startsWith rest s
  then k (MState (pos + String.length s) (drop (String.length s) rest) caps)
  else None.
Proof.
  revert pos rest k. induction s as [|a s IH]; intros pos rest k.
  - cbn [RStr run String.length]. rewrite startsWith_empty, Nat.add_0_r, drop_0.
    reflexivity.
  - assert (Hstep : forall k',
      (forall st, k' st = run false (RStr s) st k) ->
      step_char (MState pos rest caps) (char_eq false a) k' =
      if startsWith rest (String a s)
      then k (MState (pos + String.length (String a s))
                (drop (String.length (String a s)) rest) caps)
      else None).
    { intros k' Hk'. unfold step_char. cbn [m_rest m_pos m_caps].
      destruct rest as [|b rest]; [reflexivity|].
      cbn [startsWith char_eq String.length drop].
      destruct (ascii_dec a b); [|reflexivity].
      rewrite Hk', IH, Nat.add_succ_r. reflexivity. }
    destruct s as [|a' s'].
    + cbn [RStr run]. apply Hstep. intros st. destruct st. reflexivity.
    + change (RStr (String a (String a' s')))
        with (RSeq (RChar a) (RStr (String a' s'))).
      rewrite run_seq. cbn [run]. apply Hstep. reflexivity.
Qed.

Lemma run_str_app (s r : string) pos caps k :
  run false (RStr s) (MState pos (s +:+ r) caps) k =
  k (MState (pos + String.length s) r caps).
Proof. rewrite run_str, startsWith_app_same, drop_app_length. reflexivity. Qed.

Lemma run_str_sound (s : string) pos rest caps k res :
  run false (RStr s) (MState pos rest caps) k = Some res ->
  exists r, rest = s +:+ r /\ k (MState (pos + String.length s) r caps) = Some res.
Proof.
  rewrite run_str. destruct (startsWith rest s) eqn:E; [|discriminate].
  apply startsWith_app in E. destruct E as [r ->].
  rewrite drop_app_length. eauto.
Qed.

Lemma run_char_sound a pos rest caps k res :
  run false (RChar a) (MState pos rest caps) k = Some res ->
  exists r, rest = String a r /\ k (MState (S pos) r caps) = Some res.
Proof.
  cbn [run]. unfold step_char. cbn [m_rest m_pos m_caps char_eq].
  destruct rest as [|b r]; [discriminate|].
  destruct (ascii_dec a b) as [->|]; [eauto | discriminate].
Qed.

Lemma run_char_here a pos r caps k :
  run false (RChar a) (MState pos (String a r) caps) k = k (MState (S pos) r caps).
Proof.
  cbn [run]. unfold step_char. cbn [m_rest m_pos m_caps char_eq].
  destruct (ascii_dec a a); [reflexivity | contradiction].
Qed.

Lemma any_char (s : string) : all_chars (class_test false CAny) s.
Proof.
  intros pre c post _. cbn. destruct (is_space c); reflexivity.
Qed.

Lemma length_block_text (w c : string) :
  String.length (block_text w c) = (String.length w + String.length c + 7)%nat.
Proof.
  unfold block_text. rewrite !length_app. cbn [String.length]. lia.
Qed.

Lemma fenced_complete pos caps w c tail k :
  all_chars (class_test false CWord) w ->
  (forall st, k st <> None) ->
  run false fencedBlock (MState pos (block_text w c +:+ tail) caps) k <> None.
Proof.
  intros Hw Hk. unfold fencedBlock, fence, block_text.
  rewrite !str_app_assoc.
  rewrite run_seq, run_str_app. rewrite run_seq, run_star.
  rewrite star_class_greedy by (cbn [m_rest]; lia).
  apply greedy_scan_complete; [exact Hw|].
  rewrite run_seq, app_cons, run_char_here, run_seq, run_group, run_star.
  rewrite star_class_lazy by (cbn [m_rest]; lia).
  apply lazy_scan_complete; [apply any_char|].
  cbv beta. cbn [m_pos m_rest m_caps]. rewrite run_str_app. apply Hk.
Qed.

Lemma fenced_sound pos rest caps res :
  run false fencedBlock (MState pos rest caps) (fun st => Some st) = Some res ->
  exists w c tail,
    rest = block_text w c +:+ tail /\
    all_chars (class_test false CWord) w /\
    m_pos res = (pos + String.length (block_text w c))%nat.
Proof.
  unfold fencedBlock, fence. rewrite run_seq. intros H.
  apply run_str_sound in H. destruct H as (r1 & -> & H).
  rewrite run_seq, run_star in H.
  rewrite star_class_greedy in H by (cbn [m_rest]; lia).
  apply greedy_scan_sound in H. destruct H as (w & r2 & -> & Hw & H).
  rewrite run_seq in H. apply run_char_sound in H. destruct H as (r3 & -> & H).
  rewrite run_seq, run_group, run_star in H.
  rewrite star_class_lazy in H by (cbn [m_rest]; lia).
  apply lazy_scan_sound in H. destruct H as (c & r4 & -> & _ & H).
  cbv beta in H. cbn [m_pos m_rest m_caps] in H.
  apply run_str_sound in H. destruct H as (tail & -> & H).
  injection H as <-. exists w, c, tail.
  split; [|split; [exact Hw|]].
  - unfold block_text. rewrite !str_app_assoc, !app_cons, ?str_app_assoc. reflexivity.
  - cbn [m_pos]. rewrite length_block_text. cbn [String.length]. lia.
Qed.

Lemma match_at_index p pos rest m :
  match_at p pos rest = Some m -> r_index m = pos.
Proof.
  unfold match_at. destruct (run _ _ _ _); [|discriminate].
  intros H. injection H as <-. reflexivity.
Qed.

(** [exec] returns the attempt at the first index where one succeeds. *)
Lemma exec_from_first p pos rest m :
  exec_from p pos rest = Some m ->
  exists k, (k <= String.length rest)%nat /\
            match_at p (pos + k) (drop k rest) = Some m /\
            forall j, (j < k)%nat -> match_at p (pos + j) (drop j rest) = None.
Proof.
  revert pos. induction rest as [|c rest IH]; intros pos H; cbn [exec_from] in H.
  - destruct (match_at p pos EmptyString) eqn:E; [|discriminate].
    exists 0%nat. rewrite Nat.add_0_r. cbn [drop String.length].
    split; [lia|]. split; [congruence|]. intros j Hj. lia.
  - destruct (match_at p pos (String c rest)) eqn:E.
    + exists 0%nat. rewrite Nat.add_0_r. cbn [drop].
      split; [lia|]. split; [congruence|]. intros j Hj. lia.
    + destruct (IH _ H) as (k & Hk & Hm & Hfirst).
      exists (S k). cbn [drop String.length]. rewrite Nat.add_succ_r.
      split; [lia|]. split; [exact Hm|].
      intros [|j] Hj.
      * rewrite Nat.add_0_r. exact E.
      * cbn [drop]. rewrite Nat.add_succ_r. apply Hfirst. lia.
Qed.

Lemma indexOf_from_first (k : nat) (i : Z) (s t : string) :
  (k <= String.length s)%nat ->
  startsWith (drop k s) t = true ->
  (forall j, (j < k)%nat -> startsWith (drop j s) t = false) ->
  indexOf_from i s t = i + Z.of_nat k.
Proof.
  revert i s. induction k as [|k IH]; intros i s Hlen Hat Hbefore.
  - rewrite drop_0 in Hat. destruct s; cbn [indexOf_from]; rewrite Hat; lia.
  - destruct s as [|c s]; [simpl in Hlen; lia|].
    cbn [indexOf_from]. pose proof (Hbefore 0%nat ltac:(lia)) as H0.
    cbn [drop] in H0. rewrite H0.
    rewrite IH; [lia | simpl in Hlen; lia | exact Hat |].
    intros j Hj. apply (Hbefore (S j)). lia.
Qed.

Lemma codeBlock_match_shape pos rest m :
  match_at codeBlockPattern pos rest = Some m ->
  exists w c tail,
    rest = block_text w c +:+ tail /\
    all_chars (class_test false CWord) w /\
    r_text m = block_text w c.
Proof.
  unfold match_at, codeBlockPattern. cbn [p_regex p_ignoreCase].
  destruct (run false fencedBlock _ _) as [res|] eqn:E; [|discriminate].
  intros H. injection H as <-.
  apply fenced_sound in E. destruct E as (w & c & tail & -> & Hw & Hpos).
  exists w, c, tail. split; [reflexivity|]. split; [exact Hw|].
  cbn [r_text]. rewrite Hpos.
  replace (pos + String.length (block_text w c) - pos)%nat
    with (String.length (block_text w c)) by lia.
  apply take_app_length.
Qed.

Lemma codeBlock_match_complete pos w c tail :
  all_chars (class_test false CWord) w ->
  match_at codeBlockPattern pos (block_text w c +:+ tail) <> None.
Proof.
  intros Hw. unfold match_at, codeBlockPattern. cbn [p_regex p_ignoreCase].
  destruct (run false fencedBlock _ _) as [res|] eqn:E; [discriminate|].
  exfalso. revert E. apply fenced_complete; [exact Hw | discriminate].
Qed.

Lemma matchAll_head p s b0 bs :
  matchAll p s = b0 :: bs -> exec_from p 0 s = Some b0.
Proof.
  unfold matchAll. cbn [matchAll_from].
  destruct (exec_from p 0 s); [|discriminate]. intros H. injection H as -> _.
  reflexivity.
Qed.

(** The text [extractExamples] inspects in front of the first fenced block
    is the text of the section up to the index of that block. *)
Lemma before_first_block content b0 bs :
  matchAll codeBlockPattern content = b0 :: bs ->
  beforeFirstBlock content b0 = take (r_index b0) content.
Proof.
  intros H. apply matchAll_head, exec_from_first in H.
  destruct H as (k & Hk & Hm & Hfirst). cbn [Nat.add] in Hm.
  pose proof (match_at_index _ _ _ _ Hm) as Hidx.
  destruct (codeBlock_match_shape _ _ _ Hm) as (w & c & tail & Hrest & Hw & Htext).
  unfold beforeFirstBlock, indexOf.
  rewrite (indexOf_from_first k).
  - rewrite Z.add_0_l, slice_prefix by exact Hk. rewrite Hidx. reflexivity.
  - exact Hk.
  - rewrite Hrest, Htext. apply startsWith_app_same.
  - intros j Hj. destruct (startsWith (drop j content) (r_text b0)) eqn:E;
      [|reflexivity].
    exfalso. apply startsWith_app in E. destruct E as [post E].
    apply (codeBlock_match_complete (0 + j) w c post Hw).
    rewrite <- Htext, <- E. apply Hfirst. exact Hj.
Qed.

(** *** The segmenter without regular expressions *)

Lemma star_step_greedy body ok k budget pos rest caps :
  (forall st k', body st k' = step_char st ok k') ->
  (String.length rest < budget)%nat ->
  star_loop body true k budget (MState pos rest caps) =
  greedy_scan ok k pos rest caps.
Proof.
  intros Hbody. revert pos rest. induction budget as [|b IH]; intros pos rest Hlen; [lia|].
  cbn [star_loop]. rewrite Hbody. unfold step_char. cbn [m_rest m_pos m_caps].
  destruct rest as [|c rest]; cbn [greedy_scan]; [reflexivity|].
  destruct (ok c); [|reflexivity].
  rewrite succ_neq. rewrite IH by (simpl in Hlen; lia). reflexivity.
Qed.

(** When the continuation refuses every state that still has an accepted
    character in front, a greedy scan is decided at the end of the longest
    accepted stretch. *)
Lemma greedy_scan_span ok k pos rest caps :
  (forall p c r cs, ok c = true -> k (MState p (String c r) cs) = None) ->
  greedy_scan ok k pos rest caps =
  k (MState (pos + String.length (fst (span ok rest))) (snd (span ok rest)) caps).
Proof.
  intros Hk. revert pos. induction rest as [|c rest IH]; intros pos; cbn [greedy_scan span].
  - cbn. rewrite Nat.add_0_r. reflexivity.
  - destruct (ok c) eqn:Hc; cbn [fst snd String.length].
    + rewrite IH, Hk by exact Hc. rewrite Nat.add_succ_r.
      destruct (k _); reflexivity.
    + rewrite Nat.add_0_r. reflexivity.
Qed.

Lemma span_app ok s : fst (span ok s) +:+ snd (span ok s) = s.
Proof.
  induction s as [|c s IH]; [reflexivity|]. cbn [span].
  destruct (ok c); cbn [fst snd]; [rewrite app_cons, IH|]; reflexivity.
Qed.

Lemma match_first_anchored (r : regex) (s : string) :
  match_first (Pattern (RSeq RBol r) false) s =
  match_at (Pattern (RSeq RBol r) false) 0 s.
Proof.
  unfold match_first.
  assert (Hlater : forall rest pos,
            exec_from (Pattern (RSeq RBol r) false) (S pos) rest = None).
  { induction rest as [|c rest IH]; intros pos; cbn [exec_from];
      unfold match_at; cbn [run p_regex p_ignoreCase m_pos Nat.eqb]; auto. }
  destruct s as [|c s]; cbn [exec_from];
    destruct (match_at _ 0 _); try reflexivity. apply Hlater.
Qed.

Lemma run_dot ic st k :
  run ic RDot st k = step_char st not_line_terminator k.
Proof. reflexivity. Qed.

Lemma run_bol_start ic rest caps k :
  run ic RBol (MState 0 rest caps) k = k (MState 0 rest caps).
Proof. reflexivity. Qed.

Lemma LF_is_terminator : not_line_terminator LF = false.
Proof. reflexivity. Qed.

Lemma heading_run (s : string) :
  run false (p_regex headingPattern) (MState 0 s []) (fun st => Some st) =
  if startsWith s "## " then
    match span not_line_terminator (drop 3 s) with
    | (String c x, String d r) =>
        if ascii_dec d LF
        then Some (MState (3 + S (String.length x) + 1) r [(1%nat, String c x)])
        else None
    | _ => None
    end
  else None.
Proof.
  unfold headingPattern. cbn [p_regex].
  rewrite run_seq, run_bol_start, run_seq, run_str.
  destruct (startsWith s "## ") eqn:Hs; [|reflexivity].
  cbn [String.length Nat.add].
  rewrite run_seq, run_group. unfold RPlus. rewrite run_seq, run_dot.
  unfold step_char. cbn [m_rest m_pos m_caps].
  destruct (drop 3 s) as [|c r0] eqn:Hdrop; [reflexivity|].
  cbn [span]. destruct (not_line_terminator c) eqn:Hc; [|reflexivity].
  rewrite run_star. cbn [m_rest].
  rewrite (star_step_greedy _ not_line_terminator) by (auto using run_dot; lia).
  rewrite greedy_scan_span.
  - cbn [m_pos m_rest m_caps fst snd].
    pose proof (span_app not_line_terminator r0) as Happ.
    destruct (span not_line_terminator r0) as [x r] eqn:Hspan. cbn [fst snd] in *.
    cbn [run]. unfold step_char. cbn [m_rest m_pos m_caps char_eq].
    destruct r as [|d r]; [reflexivity|].
    destruct (ascii_dec LF d) as [<-|Hd]; destruct (ascii_dec _ LF) as [E|E];
      try congruence; try reflexivity.
    f_equal. f_equal; [lia|].
    f_equal. f_equal.
    replace (4 + String.length x - 3)%nat with (S (String.length x)) by lia.
    rewrite <- Happ. cbn [take]. f_equal. apply take_app_length.
  - intros p c' r cs Hok. cbn [run m_pos m_rest m_caps]. unfold step_char.
    cbn [m_rest char_eq]. destruct (ascii_dec LF c') as [<-|]; [|reflexivity].
    rewrite LF_is_terminator in Hok. discriminate.
Qed.

(** The head of a loop iteration, without regular expressions: a section
    reaches the extractors when it starts with [## ], at least one
    character other than a line terminator follows, and the stretch of such
    characters ends at a line feed. *)
Lemma sectionParts_structural (section : string) :
  sectionParts section = heading_parts section.
Proof.
  unfold sectionParts, heading_parts.
  change headingPattern with (Pattern (p_regex headingPattern) false).
  unfold headingPattern at 1. cbn [p_regex]. rewrite match_first_anchored.
  unfold match_at. cbn [p_regex p_ignoreCase].
  pose proof (heading_run section) as Hrun. unfold headingPattern in Hrun.
  cbn [p_regex] in Hrun. rewrite Hrun. clear Hrun.
  destruct (startsWith section "## ") eqn:Hs; [|reflexivity].
  apply startsWith_app in Hs. destruct Hs as [post ->].
  change (drop 3 ("## " +:+ post)) with post.
  pose proof (span_app not_line_terminator post) as Happ.
  destruct (span not_line_terminator post) as [[|c x] [|d r]]; try reflexivity.
  destruct (ascii_dec d LF) as [->|]; [|reflexivity].
  cbn [fst snd] in Happ. subst post.
  unfold trimmed_capture, group.
  cbn [r_caps lookup_cap Nat.eqb default r_text m_pos m_caps].
  f_equal. f_equal.
  replace (3 + S (String.length x) + 1 - 0)%nat
    with (String.length ("## " +:+ String c x +:+ String LF EmptyString)).
  2:{ rewrite !length_app. cbn [String.length]. lia. }
  replace ("## " +:+ String c x +:+ String LF r)
    with (("## " +:+ String c x +:+ String LF EmptyString) +:+ r).
  2:{ rewrite !str_app_assoc. reflexivity. }
  generalize ("## " +:+ String c x +:+ String LF EmptyString). intros a.
  rewrite take_app_length. unfold len. rewrite slice_from_drop.
  - apply drop_app_length.
  - rewrite length_app. lia.
Qed.

Lemma separator_match (q : nat) (rest : string) :
  match_at sectionSeparator q rest =
  match rest with
  | String c rest' =>
      if (if ascii_dec c LF then true else false) && startsWith rest' "## "
      then Some (Result q (String LF EmptyString) [])
      else None
  | EmptyString => None
  end.
Proof.
  unfold match_at, sectionSeparator. cbn [p_regex p_ignoreCase].
  rewrite run_seq. cbn [run]. unfold step_char. cbn [m_rest m_pos m_caps char_eq].
  destruct rest as [|c rest]; [reflexivity|].
  destruct (ascii_dec LF c) as [<-|Hc].
  - destruct (ascii_dec LF LF); [|contradiction]. cbn [andb].
    rewrite run_str. destruct (startsWith rest "## "); [|reflexivity].
    cbn [m_pos m_rest m_caps]. f_equal. f_equal.
    replace (S q - q)%nat with 1%nat by lia. reflexivity.
  - destruct (ascii_dec c LF); [congruence | reflexivity].
Qed.

Lemma pieces_nonempty (s : string) : pieces s <> [].
Proof.
  induction s as [|c s IH]; cbn [pieces]; [discriminate|].
  destruct (_ && _); [discriminate|]. unfold cons_head.
  destruct (pieces s); discriminate.
Qed.

Lemma prepend_empty (l : list string) : l <> [] -> prepend EmptyString l = l.
Proof. destruct l; [contradiction | reflexivity]. Qed.

Lemma split_loop_pieces (rest piece : string) (p0 q budget : nat) :
  (p0 <= q)%nat -> (String.length rest < budget)%nat ->
  split_loop sectionSeparator p0 q piece rest budget = prepend piece (pieces rest).
Proof.
  revert piece p0 q budget.
  induction rest as [|c rest IH]; intros piece p0 q budget Hpq Hlen;
    (destruct budget as [|b]; [lia|]); cbn [split_loop pieces].
  - cbn [prepend]. rewrite str_app_empty_r. reflexivity.
  - rewrite separator_match.
    destruct ((if ascii_dec c LF then true else false) && startsWith rest "## ").
    + unfold r_end. cbn [r_index r_text String.length].
      replace (Nat.eqb (q + 1) p0) with false by (symmetry; apply Nat.eqb_neq; lia).
      replace (q + 1 - q)%nat with 1%nat by lia. cbn [drop prepend].
      rewrite IH by (simpl in Hlen; lia).
      rewrite prepend_empty by apply pieces_nonempty.
      rewrite str_app_empty_r. reflexivity.
    + rewrite IH by (simpl in Hlen; lia).
      pose proof (pieces_nonempty rest) as Hne.
      destruct (pieces rest) as [|p ps]; [contradiction|].
      cbn [cons_head prepend]. rewrite str_app_assoc. reflexivity.
Qed.

(** The section split, without regular expressions. *)
Lemma split_sections (body : string) :
  split sectionSeparator body = pieces body.
Proof.
  unfold split. destruct body as [|c body].
  - rewrite separator_match. reflexivity.
  - rewrite split_loop_pieces by (cbn [String.length]; lia).
    apply prepend_empty, pieces_nonempty.
Qed.

(** The segmenter, without regular expressions. *)
Lemma sectionsOf_structural (body : string) :
  sectionsOf body = omap heading_parts (pieces body).
Proof.
  unfold sectionsOf. rewrite split_sections.
  induction (pieces body) as [|p ps IH]; [reflexivity|].
  csimpl. rewrite IH, sectionParts_structural. reflexivity.
Qed.

Lemma lines_nonempty s : lines s <> [].
Proof.
  induction s as [|c s IH]; cbn [lines]; [discriminate|].
  destruct (ascii_dec c LF); [discriminate|].
  unfold cons_head. destruct (lines s); discriminate.
Qed.

Lemma groups_nonempty ls : ls <> [] -> groups ls <> [].
Proof.
  induction ls as [|l ls IH]; [contradiction|]. intros _. cbn [groups].
  destruct ls as [|l' ls]; [discriminate|].
  destruct (startsWith l' "## "); [discriminate|].
  unfold prepend. destruct (groups (l' :: ls)); discriminate.
Qed.

Lemma groups_cons2 l l' ls :
  groups (l :: l' :: ls) =
  if startsWith l' "## " then l :: groups (l' :: ls)
  else prepend (l +:+ String LF EmptyString) (groups (l' :: ls)).
Proof. reflexivity. Qed.

Lemma groups_cons_head c ls :
  ls <> [] -> groups (cons_head c ls) = cons_head c (groups ls).
Proof.
  destruct ls as [|l [|l' ls]]; [contradiction| reflexivity |]. intros _.
  cbn [cons_head]. rewrite !groups_cons2.
  destruct (startsWith l' "## "); [reflexivity|].
  pose proof (groups_nonempty (l' :: ls)) as Hne.
  destruct (groups (l' :: ls)) as [|g gs]; [exfalso; apply Hne; [discriminate | reflexivity]|].
  reflexivity.
Qed.

(** A text and its first line start with the same word, when the word has
    no line feed. *)
Lemma startsWith_first_line (p s : string) :
  no_char LF p ->
  startsWith s p = startsWith (hd EmptyString (lines s)) p.
Proof.
  revert s. induction p as [|a p IH]; intros s Hp.
  - rewrite !startsWith_empty. reflexivity.
  - apply all_chars_cons in Hp. destruct Hp as [Ha Hp].
    destruct s as [|c s]; [reflexivity|]. cbn [lines].
    destruct (ascii_dec c LF) as [->|Hc].
    + cbn [hd startsWith]. destruct (ascii_dec a LF) as [->|]; [|reflexivity].
      destruct (ascii_dec LF LF); [discriminate Ha | contradiction].
    + pose proof (lines_nonempty s) as Hne.
      specialize (IH s Hp).
      destruct (lines s) as [|l ls]; [contradiction|].
      cbn [cons_head hd startsWith] in *.
      destruct (ascii_dec a c); [exact IH | reflexivity].
Qed.

Lemma heading_prefix_no_LF : no_char LF "## ".
Proof.
  apply all_chars_cons. split; [reflexivity|].
  apply all_chars_cons. split; [reflexivity|].
  apply all_chars_cons. split; [reflexivity|].
  apply all_chars_empty.
Qed.

Lemma pieces_groups (s : string) : pieces s = groups (lines s).
Proof.
  induction s as [|c s IH]; [reflexivity|]. cbn [pieces lines].
  pose proof (lines_nonempty s) as Hne.
  destruct (ascii_dec c LF) as [->|Hc]; cbn [andb].
  - rewrite (startsWith_first_line _ _ heading_prefix_no_LF), IH.
    destruct (lines s) as [|l' ls]; [contradiction|]. cbn [hd].
    rewrite groups_cons2.
    destruct (startsWith l' "## "); [reflexivity|].
    pose proof (groups_nonempty (l' :: ls)) as Hg.
    destruct (groups (l' :: ls)) as [|g gs]; [exfalso; apply Hg; [discriminate | reflexivity]|].
    reflexivity.
  - rewrite IH. symmetry. apply groups_cons_head, Hne.
Qed.

Lemma emitted_cons2 l l' ls :
  emitted_headings (l :: l' :: ls) =
  (if heading_ok l && negb (startsWith l' "## ") then [trim (drop 3 l)] else [])
  ++ emitted_headings (l' :: ls).
Proof. reflexivity. Qed.

Lemma no_char_cons a c s :
  no_char a (String c s) <-> c <> a /\ no_char a s.
Proof.
  unfold no_char. rewrite all_chars_cons.
  destruct (ascii_dec c a); intuition congruence.
Qed.

Lemma lines_no_LF (s : string) : Forall (no_char LF) (lines s).
Proof.
  induction s as [|c s IH]; cbn [lines].
  - constructor; [apply all_chars_empty | constructor].
  - destruct (ascii_dec c LF) as [->|Hc].
    + constructor; [apply all_chars_empty | exact IH].
    + unfold cons_head. destruct IH as [|l ls Hl Hls].
      * constructor; [|constructor].
        apply no_char_cons. split; [exact Hc | apply all_chars_empty].
      * constructor; [|exact Hls]. apply no_char_cons. auto.
Qed.

Lemma startsWith_line (p l x : string) :
  no_char LF p -> startsWith (l +:+ String LF x) p = startsWith l p.
Proof.
  revert l. induction p as [|a p IH]; intros l Hp.
  - rewrite !startsWith_empty. reflexivity.
  - apply no_char_cons in Hp. destruct Hp as [Ha Hp].
    destruct l as [|c l].
    + rewrite app_empty. cbn [startsWith].
      destruct (ascii_dec a LF); [contradiction | reflexivity].
    + rewrite app_cons. cbn [startsWith].
      destruct (ascii_dec a c); [apply IH, Hp | reflexivity].
Qed.

Lemma span_app_r ok (x y : string) :
  span ok (x +:+ y) =
  match snd (span ok x) with
  | EmptyString => (x +:+ fst (span ok y), snd (span ok y))
  | r => (fst (span ok x), r +:+ y)
  end.
Proof.
  induction x as [|c x IH].
  - rewrite !app_empty. cbn [span snd]. destruct (span ok y). reflexivity.
  - rewrite app_cons. cbn [span]. destruct (ok c); cbn [fst snd].
    + rewrite IH. destruct (snd (span ok x)); reflexivity.
    + rewrite app_cons. reflexivity.
Qed.

Lemma span_refused ok c s : ok c = false -> span ok (String c s) = (EmptyString, String c s).
Proof. intros H. cbn [span]. rewrite H. reflexivity. Qed.

Lemma span_stop_char ok (s : string) c r :
  snd (span ok s) = String c r -> ok c = false.
Proof.
  induction s as [|d s IH]; cbn [span]; [discriminate|].
  destruct (ok d) eqn:Hd; cbn [snd]; [exact IH|].
  intros H. injection H as -> _. exact Hd.
Qed.

Lemma span_stop_member ok (s : string) c r a :
  no_char a s -> snd (span ok s) = String c r -> c <> a.
Proof.
  induction s as [|d s IH]; cbn [span]; [discriminate|].
  intros Hs. apply no_char_cons in Hs. destruct Hs as [Hd Hs].
  destruct (ok d); cbn [snd]; [apply IH, Hs|].
  intros H. injection H as -> _. exact Hd.
Qed.

Lemma includes_CR_cons c s :
  includes (String c s) CRs = (if ascii_dec CR c then true else false) || includes s CRs.
Proof.
  rewrite includes_cons. f_equal. cbn [startsWith CRs].
  destruct (ascii_dec CR c); [apply startsWith_empty | reflexivity].
Qed.

Lemma not_line_terminator_spec c :
  not_line_terminator c = true <-> c <> LF /\ c <> CR.
Proof.
  unfold not_line_terminator, is_line_terminator, code.
  rewrite negb_true_iff, orb_false_iff, !N.eqb_neq.
  split; intros [H1 H2]; split; intros E.
  - subst c. apply H1. reflexivity.
  - subst c. apply H2. reflexivity.
  - apply H1. rewrite <- (ascii_N_embedding c), E. reflexivity.
  - apply H2. rewrite <- (ascii_N_embedding c), E. reflexivity.
Qed.

Lemma every_terminator_CR (x : string) :
  no_char LF x ->
  every (fun c => negb (is_line_terminator c)) x = negb (includes x CRs).
Proof.
  induction x as [|c x IH]; intros Hx; [reflexivity|].
  apply no_char_cons in Hx. destruct Hx as [Hc Hx].
  cbn [every]. rewrite includes_CR_cons, (IH Hx), negb_orb. f_equal.
  change (negb (is_line_terminator c)) with (not_line_terminator c).
  destruct (ascii_dec CR c) as [<-|Hn]; [reflexivity|].
  apply not_line_terminator_spec. split; congruence.
Qed.

Lemma CR_refused (l : string) :
  includes l CRs = true -> every (fun c => negb (is_line_terminator c)) l = false.
Proof.
  induction l as [|c l IH]; [discriminate|].
  rewrite includes_CR_cons. cbn [every]. intros H.
  destruct (ascii_dec CR c) as [<-|_]; [reflexivity|].
  cbn [orb] in H. rewrite (IH H). apply andb_false_r.
Qed.

(** In a text without line feed, the stretch of characters other than line
    terminators is the whole text exactly when there is no carriage
    return. *)
Lemma span_whole_iff (x : string) :
  no_char LF x ->
  (snd (span not_line_terminator x) = EmptyString <-> includes x CRs = false).
Proof.
  induction x as [|c x IH]; intros Hx.
  - split; reflexivity.
  - apply no_char_cons in Hx. destruct Hx as [Hc Hx].
    rewrite includes_CR_cons. cbn [span].
    destruct (not_line_terminator c) eqn:Hn; cbn [snd].
    + apply not_line_terminator_spec in Hn. destruct Hn as [_ Hn].
      destruct (ascii_dec CR c); [congruence|]. cbn [orb]. apply IH, Hx.
    + destruct (ascii_dec CR c) as [|Hn'].
      * cbn [orb]. split; discriminate.
      * exfalso. assert (not_line_terminator c = true) as E
          by (apply not_line_terminator_spec; split; congruence).
        congruence.
Qed.

Lemma heading_ok_text (x : string) :
  no_char LF x ->
  heading_ok ("## " +:+ x) =
  negb (String.eqb x EmptyString) && negb (includes x CRs).
Proof.
  intros Hx. unfold heading_ok. rewrite startsWith_app_same. cbn [andb].
  assert (Hev : every (fun c => negb (is_line_terminator c)) ("## " +:+ x) =
                negb (includes x CRs)).
  { rewrite <- (every_terminator_CR x Hx). reflexivity. }
  rewrite Hev. f_equal.
  unfold len. rewrite length_app. cbn [String.length].
  destruct x as [|c x]; [reflexivity|]. cbn [String.length String.eqb negb].
  apply Z.ltb_lt. lia.
Qed.

Lemma heading_parts_text (x rest : string) :
  heading_parts ("## " +:+ x +:+ rest) =
  match span not_line_terminator (x +:+ rest) with
  | (String c y, String d r) =>
      if ascii_dec d LF then Some (trim (String c y), r) else None
  | _ => None
  end.
Proof.
  unfold heading_parts. rewrite startsWith_app_same. reflexivity.
Qed.

(** A section made of one line reaches no extractor. *)
Lemma heading_parts_one_line (l : string) :
  no_char LF l -> heading_parts l = None.
Proof.
  intros Hl. unfold heading_parts.
  destruct (startsWith l "## ") eqn:Hs; [|reflexivity].
  apply startsWith_app in Hs. destruct Hs as [x ->].
  change (drop 3 ("## " +:+ x)) with x.
  assert (Hx : no_char LF x).
  { rewrite !app_cons, app_empty in Hl.
    apply no_char_cons in Hl. destruct Hl as [_ Hl].
    apply no_char_cons in Hl. destruct Hl as [_ Hl].
    apply no_char_cons in Hl. destruct Hl as [_ Hl]. exact Hl. }
  pose proof (span_stop_member not_line_terminator x) as Hstop.
  destruct (span not_line_terminator x) as [[|c y] [|d r]]; try reflexivity.
  cbn [snd] in Hstop.
  destruct (ascii_dec d LF) as [->|]; [|reflexivity].
  exfalso. apply (Hstop LF r LF Hx); reflexivity.
Qed.

(** A section of several lines reaches the extractors exactly when its
    first line is a usable heading; the title is the trimmed heading text
    and the content is what follows the first line. *)
Lemma heading_parts_lines (l g : string) :
  no_char LF l ->
  heading_parts (l +:+ String LF g) =
  if heading_ok l then Some (trim (drop 3 l), g) else None.
Proof.
  intros Hl. unfold heading_parts at 1.
  rewrite (startsWith_line _ _ _ heading_prefix_no_LF).
  destruct (startsWith l "## ") eqn:Hs.
  2:{ unfold heading_ok. rewrite Hs. reflexivity. }
  apply startsWith_app in Hs. destruct Hs as [x ->].
  assert (Hx : no_char LF x).
  { rewrite !app_cons, app_empty in Hl.
    apply no_char_cons in Hl. destruct Hl as [_ Hl].
    apply no_char_cons in Hl. destruct Hl as [_ Hl].
    apply no_char_cons in Hl. destruct Hl as [_ Hl]. exact Hl. }
  rewrite heading_ok_text by exact Hx. rewrite str_app_assoc.
  change (drop 3 ("## " +:+ x +:+ String LF g)) with (x +:+ String LF g).
  change (drop 3 ("## " +:+ x)) with x.
  rewrite span_app_r.
  pose proof (span_whole_iff x Hx) as Hwhole.
  pose proof (span_stop_member not_line_terminator x) as Hstop.
  destruct (snd (span not_line_terminator x)) as [|d r] eqn:Hsnd.
  - rewrite (proj1 Hwhole) by reflexivity. cbn [negb andb].
    rewrite span_refused by reflexivity. cbn [fst snd].
    rewrite str_app_empty_r. destruct x as [|c x]; [reflexivity|].
    cbn [String.eqb negb andb]. destruct (ascii_dec LF LF); [reflexivity | contradiction].
  - destruct (includes x CRs) eqn:Hinc.
    2:{ destruct Hwhole as [_ Hw]. discriminate (Hw eq_refl). }
    rewrite andb_false_r. rewrite app_cons.
    destruct (fst (span not_line_terminator x)); [reflexivity|].
    destruct (ascii_dec d LF) as [->|]; [|reflexivity].
    exfalso. apply (Hstop LF r LF Hx); reflexivity.
Qed.

Lemma groups_head (l : string) (ls : list string) :
  exists g gs, groups (l :: ls) = g :: gs /\
               startsWith g "## " = startsWith l "## ".
Proof.
  destruct ls as [|l' ls]; [exists l, []; split; reflexivity|].
  rewrite groups_cons2. destruct (startsWith l' "## ").
  - exists l, (groups (l' :: ls)). split; reflexivity.
  - destruct (groups (l' :: ls)) as [|g gs]; cbn [prepend].
    + exists (l +:+ String LF EmptyString), []. split; [reflexivity|].
      apply startsWith_line, heading_prefix_no_LF.
    + exists ((l +:+ String LF EmptyString) +:+ g), gs. split; [reflexivity|].
      rewrite str_app_assoc, app_cons, app_empty.
      apply startsWith_line, heading_prefix_no_LF.
Qed.

Lemma heading_parts_needs_prefix (s : string) :
  startsWith s "## " = false -> heading_parts s = None.
Proof. intros H. unfold heading_parts. rewrite H. reflexivity. Qed.

(** The titles that come out of the regrouped lines. *)
Lemma titles_of_groups (ls : list string) :
  Forall (no_char LF) ls ->
  map fst (omap heading_parts (groups ls)) = emitted_headings ls.
Proof.
  induction ls as [|l ls IH]; intros Hls; [reflexivity|].
  apply Forall_cons in Hls. destruct Hls as [Hl Hls]. specialize (IH Hls).
  destruct ls as [|l' ls].
  - cbn [groups emitted_headings]. csimpl.
    rewrite heading_parts_one_line by exact Hl. reflexivity.
  - rewrite groups_cons2, emitted_cons2.
    destruct (startsWith l' "## ") eqn:Hs'; cbn [negb].
    + rewrite andb_false_r. csimpl.
      rewrite heading_parts_one_line by exact Hl. cbn [app]. exact IH.
    + rewrite andb_true_r.
      destruct (groups_head l' ls) as (g & gs & Hg & Hgs).
      rewrite Hg in *. cbn [prepend]. csimpl. csimpl in IH.
      rewrite heading_parts_needs_prefix in IH by congruence.
      rewrite str_app_assoc, app_cons, app_empty, heading_parts_lines by exact Hl.
      destruct (heading_ok l); cbn [app]; csimpl; rewrite IH; reflexivity.
Qed.

(** The titles of the sections that reach the extractors, read off the
    lines of the body. *)
Lemma section_titles (body : string) :
  map fst (sectionsOf body) = emitted_headings (lines body).
Proof.
  rewrite sectionsOf_structural, pieces_groups.
  apply titles_of_groups, lines_no_LF.
Qed.

(** *** Budgets *)

Lemma advanced_refl st : advanced st st.
Proof. exists EmptyString. split; [reflexivity | simpl; lia]. Qed.

Lemma advanced_trans a b c : advanced a b -> advanced b c -> advanced a c.
Proof.
  intros (x & Hx & Px) (y & Hy & Py). exists (x +:+ y). split.
  - rewrite Hx, Hy, str_app_assoc. reflexivity.
  - rewrite length_app. lia.
Qed.

Lemma advanced_length a b :
  advanced a b ->
  (String.length (m_rest b) <= String.length (m_rest a))%nat /\
  (m_pos b = m_pos a \/ String.length (m_rest b) < String.length (m_rest a))%nat.
Proof.
  intros (x & Hx & Px). rewrite Hx, length_app.
  destruct x; cbn [String.length] in *; lia.
Qed.

Lemma step_char_ext st ok k k' :
  (forall st', advanced st st' -> k st' = k' st') ->
  step_char st ok k = step_char st ok k'.
Proof.
  intros H. unfold step_char. destruct (m_rest st) as [|c r] eqn:E; [reflexivity|].
  destruct (ok c); [|reflexivity]. apply H.
  exists (String c EmptyString). cbn [m_rest m_pos String.length]. split; [exact E | lia].
Qed.

Lemma star_loop_ext body g k k' budget st :
  (forall st0 k1 k2, (forall st', advanced st0 st' -> k1 st' = k2 st') ->
                     body st0 k1 = body st0 k2) ->
  (forall st', advanced st st' -> k st' = k' st') ->
  star_loop body g k budget st = star_loop body g k' budget st.
Proof.
  intros Hbody. revert st. induction budget as [|b IH]; intros st Hk; cbn [star_loop].
  - apply Hk, advanced_refl.
  - assert (Hagain :
      body st (fun st' => if Nat.eqb (m_pos st') (m_pos st) then None
                          else star_loop body g k b st') =
      body st (fun st' => if Nat.eqb (m_pos st') (m_pos st) then None
                          else star_loop body g k' b st')).
    { apply Hbody. intros st' Hadv. destruct (Nat.eqb _ _); [reflexivity|].
      apply IH. intros st'' Hadv'. apply Hk. eapply advanced_trans; eauto. }
    rewrite Hagain, (Hk st (advanced_refl st)). reflexivity.
Qed.

(** The matcher consults its continuation only on states reached by
    consuming input. *)
Lemma run_ext ic r : forall st k k',
  (forall st', advanced st st' -> k st' = k' st') ->
  run ic r st k = run ic r st k'.
Proof.
  induction r as [| a | | cl | a IHa b IHb | a IHa b IHb | g a IHa | n a IHa
                  | a IHa | | ]; intros st k k' Hk; cbn [run].
  - apply Hk, advanced_refl.
  - apply step_char_ext, Hk.
  - apply step_char_ext, Hk.
  - apply step_char_ext, Hk.
  - apply IHa. intros st' Hadv. apply IHb. intros st'' Hadv'.
    apply Hk. eapply advanced_trans; eauto.
  - rewrite (IHa st k k' Hk), (IHb st k k' Hk). reflexivity.
  - apply star_loop_ext; [exact IHa | exact Hk].
  - apply IHa. intros st' Hadv. apply Hk.
    destruct Hadv as (x & Hx & Px). exists x. split; [exact Hx | exact Px].
  - destruct (run ic a st (fun st' => Some st')); [|reflexivity].
    apply Hk. exists EmptyString. split; [reflexivity | simpl; lia].
  - destruct (Nat.eqb (m_pos st) 0); [apply Hk, advanced_refl | reflexivity].
  - destruct (m_rest st); [apply Hk, advanced_refl | reflexivity].
Qed.

(** The iteration budget of a quantifier is never what stops it: any
    budget above the remaining length gives the same result. *)
Lemma star_loop_budget ic a g k (budget : nat) st :
  (String.length (m_rest st) < budget)%nat ->
  star_loop (run ic a) g k (S budget) st = star_loop (run ic a) g k budget st.
Proof.
  revert st. induction budget as [|b IH]; intros st Hlen; [lia|].
  cbn [star_loop].
  assert (Hagain :
    run ic a st (fun st' => if Nat.eqb (m_pos st') (m_pos st) then None
                            else star_loop (run ic a) g k (S b) st') =
    run ic a st (fun st' => if Nat.eqb (m_pos st') (m_pos st) then None
                            else star_loop (run ic a) g k b st')).
  { apply run_ext. intros st' Hadv.
    destruct (Nat.eqb (m_pos st') (m_pos st)) eqn:E; [reflexivity|].
    apply Nat.eqb_neq in E. apply advanced_length in Hadv.
    apply IH. lia. }
  cbn [star_loop] in Hagain. rewrite Hagain. reflexivity.
Qed.

Lemma star_loop_enough ic a g k (extra : nat) st :
  star_loop (run ic a) g k (S (String.length (m_rest st)) + extra) st =
  star_loop (run ic a) g k (S (String.length (m_rest st))) st.
Proof.
  induction extra as [|e IH]; [rewrite Nat.add_0_r; reflexivity|].
  rewrite Nat.add_succ_r, star_loop_budget by lia. exact IH.
Qed.

Lemma match_at_bounds p pos rest m :
  match_at p pos rest = Some m ->
  r_index m = pos /\ (String.length (r_text m) <= String.length rest)%nat.
Proof.
  unfold match_at. destruct (run _ _ _ _); [|discriminate].
  intros H. injection H as <-. cbn [r_index r_text]. split; [reflexivity|].
  rewrite length_take. lia.
Qed.

Lemma exec_from_bounds p pos rest m :
  exec_from p pos rest = Some m ->
  (pos <= r_index m)%nat /\ (r_end m <= pos + String.length rest)%nat.
Proof.
  intros H. apply exec_from_first in H. destruct H as (k & Hk & Hm & _).
  apply match_at_bounds in Hm. destruct Hm as [Hi Hl].
  rewrite length_drop in Hl. unfold r_end. lia.
Qed.

(** The budget of [matchAll] is never what ends the iteration. *)
Lemma matchAll_from_budget p (budget pos : nat) (rest : string) :
  (String.length rest < budget)%nat ->
  matchAll_from (S budget) p pos rest = matchAll_from budget p pos rest.
Proof.
  revert pos rest. induction budget as [|b IH]; intros pos rest Hlen; [lia|].
  change (matchAll_from (S (S b)) p pos rest) with
    (match exec_from p pos rest with
     | None => []
     | Some m =>
         let e := r_end m in
         let next := if Nat.eqb e (r_index m) then S e else e in
         m :: (if Nat.ltb (pos + String.length rest) next then []
               else matchAll_from (S b) p next (drop (next - pos) rest))
     end).
  change (matchAll_from (S b) p pos rest) with
    (match exec_from p pos rest with
     | None => []
     | Some m =>
         let e := r_end m in
         let next := if Nat.eqb e (r_index m) then S e else e in
         m :: (if Nat.ltb (pos + String.length rest) next then []
               else matchAll_from b p next (drop (next - pos) rest))
     end).
  destruct (exec_from p pos rest) as [m|] eqn:E; [|reflexivity].
  apply exec_from_bounds in E. destruct E as [Hi He]. cbv zeta.
  set (next := if Nat.eqb (r_end m) (r_index m) then S (r_end m) else r_end m).
  assert (Hnext : (pos < next)%nat).
  { unfold next, r_end in *. destruct (Nat.eqb _ _) eqn:Q; [lia|].
    apply Nat.eqb_neq in Q. lia. }
  destruct (Nat.ltb (pos + String.length rest) next) eqn:L; [reflexivity|].
  apply Nat.ltb_ge in L. rewrite IH; [reflexivity|].
  rewrite length_drop. lia.
Qed.

(** The budget of [split] is never what ends the loop. *)
Lemma split_loop_budget p (budget p0 q : nat) (piece rest : string) :
  (p0 <= q)%nat ->
  (2 * String.length rest + (if Nat.eqb p0 q then 0 else 1) < budget)%nat ->
  split_loop p p0 q piece rest (S budget) = split_loop p p0 q piece rest budget.
Proof.
  revert p0 q piece rest. induction budget as [|b IH]; intros p0 q piece rest Hpq Hm; [lia|].
  destruct rest as [|c rest]; [reflexivity|].
  change (split_loop p p0 q piece (String c rest) (S (S b))) with
    (match match_at p q (String c rest) with
     | Some m =>
         if Nat.eqb (r_end m) p0
         then split_loop p p0 (S q) (piece +:+ String c EmptyString) rest (S b)
         else piece :: split_loop p (r_end m) (r_end m) EmptyString
                         (drop (r_end m - q) (String c rest)) (S b)
     | None => split_loop p p0 (S q) (piece +:+ String c EmptyString) rest (S b)
     end).
  change (split_loop p p0 q piece (String c rest) (S b)) with
    (match match_at p q (String c rest) with
     | Some m =>
         if Nat.eqb (r_end m) p0
         then split_loop p p0 (S q) (piece +:+ String c EmptyString) rest b
         else piece :: split_loop p (r_end m) (r_end m) EmptyString
                         (drop (r_end m - q) (String c rest)) b
     | None => split_loop p p0 (S q) (piece +:+ String c EmptyString) rest b
     end).
  cbn [String.length] in Hm.
  assert (Hstep : split_loop p p0 (S q) (piece +:+ String c EmptyString) rest (S b) =
                  split_loop p p0 (S q) (piece +:+ String c EmptyString) rest b).
  { apply IH; [lia|]. destruct (Nat.eqb p0 (S q)); lia. }
  destruct (match_at p q (String c rest)) as [m|] eqn:E; [|exact Hstep].
  apply match_at_bounds in E. destruct E as [Hi Hl]. cbn [String.length] in Hl.
  destruct (Nat.eqb (r_end m) p0) eqn:Q; [exact Hstep|].
  apply Nat.eqb_neq in Q. f_equal. apply IH; [lia|].
  rewrite Nat.eqb_refl, length_drop. cbn [String.length].
  unfold r_end in *. rewrite Hi in *.
  destruct (Nat.eqb p0 q) eqn:Q'; [apply Nat.eqb_eq in Q'|]; lia.
Qed.

(** *** Slugs without regular expressions *)

Lemma nonAlnum_test c :
  class_test false (CNot (CUnion (CRange "a" "z") (CRange "0" "9"))) c = not_slug_char c.
Proof. reflexivity. Qed.

(** A greedy scan whose continuation accepts everything stops at the end of
    the longest accepted stretch. *)
Lemma greedy_scan_accepting ok pos rest caps :
  greedy_scan ok (fun st => Some st) pos rest caps =
  Some (MState (pos + String.length (fst (span ok rest))) (snd (span ok rest)) caps).
Proof.
  revert pos. induction rest as [|c rest IH]; intros pos; cbn [greedy_scan span].
  - cbn. rewrite Nat.add_0_r. reflexivity.
  - destruct (ok c); cbn [fst snd String.length].
    + rewrite IH. cbn [first_some]. rewrite Nat.add_succ_r. reflexivity.
    + rewrite Nat.add_0_r. reflexivity.
Qed.

Lemma span_length ok s :
  (String.length (fst (span ok s)) + String.length (snd (span ok s)) =
   String.length s)%nat.
Proof. rewrite <- length_app, span_app. reflexivity. Qed.

Lemma nonAlnum_match_at pos rest :
  match_at nonAlnumRun pos rest =
  match fst (span not_slug_char rest) with
  | EmptyString => None
  | w => Some (Result pos w [])
  end.
Proof.
  unfold match_at, nonAlnumRun, RPlus. cbn [p_regex p_ignoreCase].
  rewrite run_seq. cbn [run]. unfold step_char. cbn [m_rest m_pos m_caps].
  destruct rest as [|c rest]; [reflexivity|].
  rewrite nonAlnum_test. cbn [span].
  destruct (not_slug_char c); [|reflexivity]. cbn [fst].
  rewrite (star_step_greedy _ not_slug_char) by (auto; lia).
  rewrite greedy_scan_accepting. cbn [m_pos m_caps]. f_equal. f_equal.
  replace (S pos + String.length (fst (span not_slug_char rest)) - pos)%nat
    with (S (String.length (fst (span not_slug_char rest)))) by lia.
  cbn [take]. f_equal.
  rewrite <- (span_app not_slug_char rest) at 2. apply take_app_length.
Qed.

Lemma span_accepted ok c s :
  ok c = true -> span ok (String c s) = (String c (fst (span ok s)), snd (span ok s)).
Proof. intros H. cbn [span]. rewrite H. reflexivity. Qed.

Lemma nonAlnum_exec pos rest :
  exec_from nonAlnumRun pos rest =
  match fst (span not_slug_char (snd (span is_slug_char rest))) with
  | EmptyString => None
  | w => Some (Result (pos + String.length (fst (span is_slug_char rest))) w [])
  end.
Proof.
  revert pos. induction rest as [|c rest IH]; intros pos; cbn [exec_from].
  - rewrite nonAlnum_match_at. reflexivity.
  - rewrite nonAlnum_match_at.
    destruct (is_slug_char c) eqn:Hc.
    + rewrite (span_refused not_slug_char) by (unfold not_slug_char; rewrite Hc; reflexivity).
      rewrite (span_accepted is_slug_char) by exact Hc.
      cbn [fst snd String.length]. rewrite IH, Nat.add_succ_r. reflexivity.
    + rewrite (span_refused is_slug_char) by exact Hc.
      cbn [fst snd String.length]. rewrite Nat.add_0_r.
      rewrite (span_accepted not_slug_char) by (unfold not_slug_char; rewrite Hc; reflexivity).
      reflexivity.
Qed.

Lemma collapse_slug_prefix (s : string) :
  collapse_runs false s =
  fst (span is_slug_char s) +:+ collapse_runs false (snd (span is_slug_char s)).
Proof.
  induction s as [|c s IH]; [reflexivity|]. cbn [span collapse_runs].
  destruct (is_slug_char c) eqn:Hc; cbn [fst snd].
  - rewrite app_cons, <- IH. reflexivity.
  - rewrite app_empty. cbn [collapse_runs]. rewrite Hc. reflexivity.
Qed.

Lemma collapse_in_run (s : string) :
  collapse_runs true s = collapse_runs false (snd (span not_slug_char s)).
Proof.
  induction s as [|c s IH]; [reflexivity|]. cbn [collapse_runs].
  destruct (is_slug_char c) eqn:Hc.
  - rewrite span_refused by (unfold not_slug_char; rewrite Hc; reflexivity).
    cbn [snd collapse_runs]. rewrite Hc. reflexivity.
  - rewrite span_accepted by (unfold not_slug_char; rewrite Hc; reflexivity).
    exact IH.
Qed.

Lemma collapse_run_start (s : string) :
  fst (span not_slug_char s) <> EmptyString ->
  collapse_runs false s =
  String "-" (collapse_runs false (snd (span not_slug_char s))).
Proof.
  destruct s as [|c s]; [intros H; contradiction H; reflexivity|].
  cbn [collapse_runs]. destruct (is_slug_char c) eqn:Hc.
  - rewrite span_refused by (unfold not_slug_char; rewrite Hc; reflexivity).
    intros H. contradiction H. reflexivity.
  - rewrite span_accepted by (unfold not_slug_char; rewrite Hc; reflexivity).
    intros _. cbn [snd]. rewrite collapse_in_run. reflexivity.
Qed.

(** [replace(/[^a-z0-9]+/g, '-')], without regular expressions. *)
Lemma nonAlnum_splice (budget pos : nat) (rest : string) :
  (String.length rest < budget)%nat ->
  splice pos rest (matchAll_from budget nonAlnumRun pos rest) "-" =
  collapse_runs false rest.
Proof.
  revert pos rest. induction budget as [|b IH]; intros pos rest Hlen; [lia|].
  cbn [matchAll_from]. rewrite nonAlnum_exec.
  rewrite (collapse_slug_prefix rest).
  pose proof (span_app is_slug_char rest) as Hrest.
  pose proof (span_stop_char is_slug_char rest) as Hstop.
  set (a := fst (span is_slug_char rest)) in *.
  set (r := snd (span is_slug_char rest)) in *.
  pose proof (span_app not_slug_char r) as Hr.
  destruct (fst (span not_slug_char r)) as [|c w] eqn:Hw.
  - cbn [splice]. rewrite app_empty in Hr.
    destruct r as [|d r0].
    + cbn [collapse_runs]. symmetry. exact Hrest.
    + exfalso. specialize (Hstop d r0 eq_refl).
      cbn [span] in Hw. unfold not_slug_char in Hw. rewrite Hstop in Hw.
      discriminate Hw.
  - rewrite collapse_run_start by (rewrite Hw; discriminate).
    set (r' := snd (span not_slug_char r)) in *.
    cbv zeta. unfold r_end. cbn [r_index r_text splice].
    unfold r_end. cbn [r_index r_text].
    replace (Nat.eqb (pos + String.length a + String.length (String c w))
                     (pos + String.length a)) with false
      by (symmetry; apply Nat.eqb_neq; cbn [String.length]; lia).
    assert (Hlen' : String.length rest =
                    (String.length a + String.length (String c w) + String.length r')%nat).
    { rewrite <- Hrest, <- Hr, !length_app. lia. }
    replace (Nat.ltb (pos + String.length rest)
                     (pos + String.length a + String.length (String c w))) with false
      by (symmetry; apply Nat.ltb_ge; lia).
    replace (pos + String.length a - pos)%nat with (String.length a) by lia.
    replace (pos + String.length a + String.length (String c w) - pos)%nat
      with (String.length a + String.length (String c w))%nat by lia.
    assert (Hdrop : drop (String.length a + String.length (String c w)) rest = r').
    { rewrite <- Hrest at 1. rewrite drop_app_more. rewrite <- Hr at 1.
      apply drop_app_length. }
    rewrite Hdrop. rewrite <- Hrest at 1. rewrite take_app_length.
    rewrite IH by (cbn [String.length] in Hlen'; lia).
    reflexivity.
Qed.

Lemma nonAlnum_replace (s : string) :
  replaceAll nonAlnumRun "-" s = collapse_runs false s.
Proof. unfold replaceAll, matchAll. apply nonAlnum_splice. lia. Qed.

Lemma edge_match_at pos rest :
  match_at edgeHyphen pos rest =
  match rest with
  | String c r =>
      if ascii_dec "-" c
      then if Nat.eqb pos 0 || String.eqb r EmptyString
           then Some (Result pos (String "-" EmptyString) [])
           else None
      else None
  | EmptyString => None
  end.
Proof.
  unfold match_at, edgeHyphen. cbn [p_regex p_ignoreCase run].
  unfold step_char. cbn [m_rest m_pos m_caps char_eq].
  assert (Hsub : (S pos - pos)%nat = 1%nat) by lia.
  destruct rest as [|c r]; [destruct (Nat.eqb pos 0); reflexivity|].
  destruct (ascii_dec "-" c) as [<-|Hc]; destruct (Nat.eqb pos 0);
    cbn [first_some orb m_pos m_rest m_caps]; rewrite ?Hsub; try reflexivity.
  destruct r; cbn [String.eqb m_pos m_rest m_caps]; rewrite ?Hsub; reflexivity.
Qed.

Lemma ends_hyphen_cons2 c d s :
  ends_hyphen (String c (String d s)) = ends_hyphen (String d s).
Proof. reflexivity. Qed.

Lemma strip_trailing_cons2 c d s :
  strip_trailing_hyphen (String c (String d s)) =
  String c (strip_trailing_hyphen (String d s)).
Proof. reflexivity. Qed.

Lemma edge_exec_trailing pos rest :
  pos <> 0%nat \/ startsWith rest "-" = false ->
  exec_from edgeHyphen pos rest =
  if ends_hyphen rest
  then Some (Result (pos + String.length rest - 1) (String "-" EmptyString) [])
  else None.
Proof.
  revert pos. induction rest as [|c r IH]; intros pos Hfree; cbn [exec_from].
  - rewrite edge_match_at. reflexivity.
  - rewrite edge_match_at.
    assert (Hnext : exec_from edgeHyphen (S pos) r =
              if ends_hyphen r
              then Some (Result (S pos + String.length r - 1) (String "-" EmptyString) [])
              else None) by (apply IH; left; lia).
    destruct (ascii_dec "-" c) as [<-|Hc].
    + destruct Hfree as [Hpos|Hs].
      2:{ cbn [startsWith] in Hs. destruct (ascii_dec "-" "-"); [|contradiction].
          rewrite startsWith_empty in Hs. discriminate Hs. }
      replace (Nat.eqb pos 0) with false by (symmetry; apply Nat.eqb_neq; exact Hpos).
      cbn [orb]. destruct r as [|d r].
      * cbn [String.eqb ends_hyphen String.length].
        destruct (ascii_dec "-" "-"); [|contradiction].
        replace (pos + 1 - 1)%nat with pos by lia. reflexivity.
      * cbn [String.eqb]. rewrite ends_hyphen_cons2, Hnext.
        cbn [String.length]. replace (pos + S (S (String.length r)) - 1)%nat
          with (S pos + S (String.length r) - 1)%nat by lia. reflexivity.
    + destruct r as [|d r].
      * cbn [exec_from ends_hyphen]. rewrite edge_match_at.
        destruct (ascii_dec c "-"); [congruence | reflexivity].
      * rewrite ends_hyphen_cons2, Hnext.
        cbn [String.length]. replace (pos + S (S (String.length r)) - 1)%nat
          with (S pos + S (String.length r) - 1)%nat by lia. reflexivity.
Qed.

Lemma ends_hyphen_nonempty s : ends_hyphen s = true -> (1 <= String.length s)%nat.
Proof. destruct s; [discriminate | cbn [String.length]; lia]. Qed.

Lemma strip_trailing_spec s :
  strip_trailing_hyphen s =
  if ends_hyphen s then take (String.length s - 1) s else s.
Proof.
  induction s as [|c s IH]; [reflexivity|].
  destruct s as [|d s].
  - cbn [strip_trailing_hyphen ends_hyphen]. destruct (ascii_dec c "-"); reflexivity.
  - rewrite strip_trailing_cons2, ends_hyphen_cons2, IH.
    destruct (ends_hyphen (String d s)); [|reflexivity].
    cbn [String.length]. replace (S (S (String.length s)) - 1)%nat
      with (S (S (String.length s) - 1)) by lia. reflexivity.
Qed.

(** What [replace(/^-|-$/g, '')] does from a place where only the trailing
    alternative can match. *)
Lemma edge_trailing_splice (budget pos : nat) (rest : string) :
  (2 <= budget)%nat ->
  pos <> 0%nat \/ startsWith rest "-" = false ->
  splice pos rest (matchAll_from budget edgeHyphen pos rest) "" =
  strip_trailing_hyphen rest.
Proof.
  intros Hb Hfree. destruct budget as [|[|b]]; try lia.
  cbn [matchAll_from]. rewrite edge_exec_trailing by exact Hfree.
  rewrite strip_trailing_spec.
  destruct (ends_hyphen rest) eqn:He; [|reflexivity].
  apply ends_hyphen_nonempty in He. cbv zeta. unfold r_end.
  cbn [r_index r_text String.length].
  replace (Nat.eqb (pos + String.length rest - 1 + 1) (pos + String.length rest - 1))
    with false by (symmetry; apply Nat.eqb_neq; lia).
  replace (Nat.ltb (pos + String.length rest) (pos + String.length rest - 1 + 1))
    with false by (symmetry; apply Nat.ltb_ge; lia).
  replace (pos + String.length rest - 1 + 1 - pos)%nat with (String.length rest) by lia.
  rewrite drop_all by lia.
  cbn [exec_from]. rewrite edge_match_at. cbn [splice].
  unfold r_end. cbn [r_index r_text String.length].
  replace (pos + String.length rest - 1 - pos)%nat with (String.length rest - 1)%nat by lia.
  replace (pos + String.length rest - 1 + 1 - pos)%nat with (String.length rest) by lia.
  rewrite drop_all by lia. rewrite app_empty, str_app_empty_r. reflexivity.
Qed.

(** [replace(/^-|-$/g, '')], without regular expressions. *)
Lemma edge_replace (s : string) :
  replaceAll edgeHyphen "" s = strip_trailing_hyphen (strip_leading_hyphen s).
Proof.
  unfold replaceAll, matchAll.
  destruct s as [|c s]; [reflexivity|].
  destruct (ascii_dec "-" c) as [<-|Hc].
  - cbn [strip_leading_hyphen]. cbn [matchAll_from exec_from].
    rewrite edge_match_at. destruct (ascii_dec "-" "-"); [|contradiction].
    cbn [Nat.eqb orb]. cbv zeta. unfold r_end.
    cbn [r_index r_text String.length Nat.add Nat.eqb Nat.ltb Nat.leb Nat.sub drop splice take].
    unfold r_end. cbn [r_index r_text String.length Nat.add Nat.sub drop].
    rewrite !app_empty.
    destruct s as [|d s]; [reflexivity|].
    apply edge_trailing_splice; [cbn [String.length]; lia | left; lia].
  - replace (strip_leading_hyphen (String c s)) with (String c s).
    2:{ unfold strip_leading_hyphen. destruct c as [[] [] [] [] [] [] [] []];
        try reflexivity. contradiction Hc. reflexivity. }
    destruct s as [|d s].
    + cbn [String.length matchAll_from exec_from]. rewrite !edge_match_at.
      destruct (ascii_dec "-" c); [contradiction|]. cbn [splice strip_trailing_hyphen].
      destruct (ascii_dec c "-"); [congruence | reflexivity].
    + apply edge_trailing_splice; [cbn [String.length]; lia|].
      right. cbn [startsWith]. destruct (ascii_dec "-" c); [contradiction | reflexivity].
Qed.

(** [slugify], without regular expressions. *)
Lemma slugify_structural (text : string) : slugify text = slug text.
Proof. unfold slugify, slug. rewrite nonAlnum_replace, edge_replace. reflexivity. Qed.

(** *** Sections and practices *)

Lemma parsePractices_sections (body : string) (fm : frontmatter) :
  parsePractices body fm = map (assemble fm) (sectionsOf body).
Proof.
  unfold parsePractices, sectionsOf.
  induction (split sectionSeparator body) as [|s l IH]; [reflexivity|].
  csimpl. rewrite IH. unfold parseSection.
  destruct (sectionParts s); reflexivity.
Qed.

Lemma practice_count (body : string) (fm : frontmatter) :
  length (parsePractices body fm) = length (sectionsOf body).
Proof. rewrite parsePractices_sections. apply length_map. Qed.

Lemma practice_titles (body : string) (fm : frontmatter) :
  map title (parsePractices body fm) = map fst (sectionsOf body).
Proof.
  rewrite parsePractices_sections, map_map. reflexivity.
Qed.

(** The practices of a body are those of its usable heading lines that
    are followed by a line other than a second-level heading, in order. *)
Lemma practice_titles_exact (body : string) (fm : frontmatter) :
  map title (parsePractices body fm) = emitted_headings (lines body).
Proof. rewrite practice_titles. apply section_titles. Qed.

Lemma heading_ok_is_heading (l : string) :
  heading_ok l = true -> is_heading_line l = true.
Proof.
  unfold heading_ok. intros H.
  apply andb_true_iff in H. destruct H as [H _].
  apply andb_true_iff in H. destruct H as [Hs Hl].
  apply startsWith_app in Hs. destruct Hs as [x ->].
  destruct x as [|c x]; [vm_compute in Hl; discriminate Hl | reflexivity].
Qed.

Lemma emitted_sublist (ls : list string) :
  emitted_headings ls `sublist_of`
  map (fun line => trim (drop 3 line)) (List.filter is_heading_line ls).
Proof.
  induction ls as [|l ls IH]; [constructor|].
  destruct ls as [|l' ls]; [apply sublist_nil_l|].
  rewrite emitted_cons2. cbn [List.filter].
  destruct (heading_ok l && negb (startsWith l' "## ")) eqn:E.
  - apply andb_true_iff in E. destruct E as [E _].
    rewrite (heading_ok_is_heading _ E). cbn [map app].
    apply sublist_skip, IH.
  - cbn [app]. destruct (is_heading_line l); [apply sublist_cons|]; exact IH.
Qed.

(** Every practice comes from a second-level heading of its own, and the
    practices follow the order of the headings. *)
Lemma practice_titles_sublist (body : string) (fm : frontmatter) :
  map title (parsePractices body fm) `sublist_of` headings body.
Proof. rewrite practice_titles_exact. apply emitted_sublist. Qed.

Lemma separated_emitted (ls : list string) :
  separated ls ->
  emitted_headings ls =
  map (fun line => trim (drop 3 line)) (List.filter is_heading_line ls).
Proof.
  induction ls as [|l ls IH]; [reflexivity|].
  intros [Hl Hls]. specialize (IH Hls). cbn [List.filter].
  destruct (is_heading_line l) eqn:Hh.
  - destruct (Hl eq_refl) as [Hok Hnext].
    destruct ls as [|l' ls]; [contradiction|].
    rewrite emitted_cons2, Hok, Hnext, IH. reflexivity.
  - destruct ls as [|l' ls]; [reflexivity|].
    rewrite emitted_cons2, IH.
    destruct (heading_ok l) eqn:Hok; [|reflexivity].
    apply heading_ok_is_heading in Hok. congruence.
Qed.

(** One practice per heading, in order, as soon as every heading line is
    free of carriage returns and followed by a line that is not a heading. *)
Lemma practices_match_headings (body : string) (fm : frontmatter) :
  separated (lines body) ->
  map title (parsePractices body fm) = headings body.
Proof.
  intros H. rewrite practice_titles_exact. apply separated_emitted, H.
Qed.

(** C1: one practice per second-level heading, in source order, and
    nothing from the text before the first heading.  The code loses a
    heading whose line is directly followed by another heading line, and
    one that ends the body without a line feed: on [## Naming],
    [## Formatting], [Use two spaces.] it emits the single practice
    [Formatting], and on a body that ends with the line [## Formatting] it
    emits [Naming] alone, although both bodies have two second-level
    headings. *)
Theorem C1_adjacent_heading_dropped :
  headings Scenario.adjacent_headings = ["Naming"; "Formatting"] /\
  map title (parsePractices Scenario.adjacent_headings ∅) = ["Formatting"] /\
  headings Scenario.unterminated_heading = ["Naming"; "Formatting"] /\
  map title (parsePractices Scenario.unterminated_heading ∅) = ["Naming"].
Proof. repeat split; vm_compute; reflexivity. Qed.

(** C2: the end-to-end scenario of section 8 yields exactly one practice
    with the stated title, id, category, severity, description and good
    example, no bad example, and the tag [js]. *)
Theorem C2_use_const_scenario :
  parsePractices Scenario.use_const ∅ =
    [ {| id := "use-const";
         title := "Use const";
         description := "Prefer const.";
         category := VStr "general";
         severity := VStr "suggestion";
         language := VStr "general";
         framework := None;
         goodExample := Some "const x=1;";
         badExample := None;
         rationale := None;
         lintRules := [];
         tags := ["js"] |} ].
Proof. vm_compute. reflexivity. Qed.

(** *** Keyword scans *)

Ltac split_scan :=
  repeat match goal with
         | |- context [includes ?t ?k] =>
             destruct (includes t k); cbn [orb]; try reflexivity
         end.

Lemma extractCategory_spec (title content : string) (fm : frontmatter) :
  extractCategory title content fm = category_of title content fm.
Proof.
  unfold extractCategory, category_of, declared, truthy_opt.
  destruct (fm !! "category") as [v|]; cbn [default];
    [destruct (truthy v); [reflexivity|] |];
    unfold first_rule, categoryRules;
    cbn [find existsb snd fst fmap option_fmap option_map default];
    rewrite !occurs_ci_lower by (vm_compute; reflexivity);
    set (text := toLowerCase _); split_scan.
Qed.

Lemma extractSeverity_spec (content : string) (fm : frontmatter) :
  extractSeverity content fm = severity_of content fm.
Proof.
  unfold extractSeverity, severity_of, declared, truthy_opt.
  destruct (fm !! "severity") as [v|]; cbn [default];
    [destruct (truthy v); [reflexivity|] |];
    unfold first_rule, severityTiers;
    cbn [find existsb snd fst fmap option_fmap option_map default];
    rewrite !occurs_ci_lower by (vm_compute; reflexivity);
    set (text := toLowerCase _); split_scan.
Qed.

(** The category is not the one of section 4.3 in two cases.  The code
    joins the heading text and the section body with a blank before it
    scans them: the heading [Use for] above the body [matting rules] gives
    [general], where the concatenation spells [format].  And the code uses
    a front-matter category only when it is truthy: under an empty
    front-matter category the sections are classified by their keywords. *)
Lemma C3_counterexample :
  sectionsOf Scenario.split_keyword = [("Use for", "matting rules
")] /\
  map category (parsePractices Scenario.split_keyword ∅) = [VStr "general"] /\
  map (fun s => category_claimed (fst s) (snd s) ∅) (sectionsOf Scenario.split_keyword)
    = [VStr "formatting"] /\
  map category (parsePractices Scenario.keyword_sections {[ "category" := VStr "" ]})
    = [VStr "testing"; VStr "formatting"] /\
  map (fun s => category_claimed (fst s) (snd s) {[ "category" := VStr "" ]})
    (sectionsOf Scenario.keyword_sections) = [VStr ""; VStr ""] /\
  ~ (forall body fm,
       map category (parsePractices body fm) =
       map (fun s => category_claimed (fst s) (snd s) fm) (sectionsOf body)).
Proof.
  assert (E1 : map category (parsePractices Scenario.split_keyword ∅) = [VStr "general"])
    by (vm_compute; reflexivity).
  assert (E2 : map (fun s => category_claimed (fst s) (snd s) ∅)
                 (sectionsOf Scenario.split_keyword) = [VStr "formatting"])
    by (vm_compute; reflexivity).
  split; [vm_compute; reflexivity|].
  split; [exact E1|]. split; [exact E2|].
  split; [vm_compute; reflexivity|]. split; [vm_compute; reflexivity|].
  intros H. specialize (H Scenario.split_keyword ∅). rewrite E1, E2 in H.
  discriminate H.
Qed.

(** C3 (amended): the category of a section is the front-matter category
    when the front matter declares one that is truthy, verbatim and the
    same for every section of the document; without one it is the label of
    the first rule of the ordered keyword list one of whose keywords occurs,
    in any letter case, in the heading text, a blank and the section body
    joined in this order, and [general] when no rule applies. *)
Theorem C3_category_precedence (fm : frontmatter) :
  (forall title content,
     extractCategory title content fm = category_of title content fm) /\
  (forall body,
     map category (parsePractices body fm) =
     map (fun s => category_of (fst s) (snd s) fm) (sectionsOf body)) /\
  (forall v body,
     declared fm "category" = Some v ->
     Forall (fun p => category p = v) (parsePractices body fm)).
Proof.
  split; [intros; apply extractCategory_spec|].
  assert (Hmap : forall body,
    map category (parsePractices body fm) =
    map (fun s => category_of (fst s) (snd s) fm) (sectionsOf body)).
  { intros body. rewrite parsePractices_sections, map_map.
    apply map_ext. intros [t c]. apply extractCategory_spec. }
  split; [exact Hmap|].
  intros v body Hv. rewrite parsePractices_sections.
  induction (sectionsOf body) as [|[t c] l IH]; constructor; [|exact IH].
  cbn [assemble category fst snd]. rewrite extractCategory_spec.
  unfold category_of. rewrite Hv. reflexivity.
Qed.

(** Keywords in capitals decide the category of each section, and a
    declared category wins over them in every section. *)
Lemma C3_category_precedence_witness :
  map category (parsePractices Scenario.keyword_sections ∅) =
    [VStr "testing"; VStr "formatting"] /\
  extractCategory "NAMING Things" "Use CamelCase." ∅ = VStr "naming" /\
  declared {[ "category" := VStr "security" ]} "category" = Some (VStr "security") /\
  Forall (fun p => category p = VStr "security")
    (parsePractices Scenario.keyword_sections {[ "category" := VStr "security" ]}).
Proof.
  split; [vm_compute; reflexivity|].
  split; [rewrite (proj1 (C3_category_precedence ∅)); vm_compute; reflexivity|].
  split; [reflexivity|].
  apply (proj2 (proj2 (C3_category_precedence {[ "category" := VStr "security" ]}))).
  reflexivity.
Defined.

(** The severity is not the front-matter severity whenever the front
    matter has one: the code uses it only when it is truthy.  Under the
    front-matter severities [false] and the empty text, a body that says
    [must] is an error. *)
Lemma C4_counterexample :
  extractSeverity "You must test." {[ "severity" := VBool false ]} = VStr "error" /\
  severity_claimed "You must test." {[ "severity" := VBool false ]} = VBool false /\
  extractSeverity "You must test." {[ "severity" := VStr "" ]} = VStr "error" /\
  severity_claimed "You must test." {[ "severity" := VStr "" ]} = VStr "" /\
  ~ (forall content fm, extractSeverity content fm = severity_claimed content fm).
Proof.
  assert (E1 : extractSeverity "You must test." {[ "severity" := VBool false ]}
               = VStr "error") by (vm_compute; reflexivity).
  assert (E2 : severity_claimed "You must test." {[ "severity" := VBool false ]}
               = VBool false) by (vm_compute; reflexivity).
  split; [exact E1|]. split; [exact E2|].
  split; [vm_compute; reflexivity|]. split; [vm_compute; reflexivity|].
  intros H. specialize (H "You must test."%string {[ "severity" := VBool false ]}).
  rewrite E1, E2 in H. discriminate H.
Qed.

(** C4 (amended): the severity of a section is the front-matter severity
    when the front matter declares one that is truthy; without one it is
    decided by a case-insensitive scan of the section body alone, the tiers
    being tried in order (error, warning, suggestion) with [suggestion] as
    the default.  Hence a body with both [must] and [should] is an error,
    and a body with [should] and no error-tier marker is a warning. *)
Theorem C4_severity_tiers (fm : frontmatter) :
  (forall content, extractSeverity content fm = severity_of content fm) /\
  (forall body,
     map severity (parsePractices body fm) =
     map (fun s => severity_of (snd s) fm) (sectionsOf body)) /\
  (forall v content,
     declared fm "severity" = Some v -> extractSeverity content fm = v) /\
  (forall content,
     declared fm "severity" = None ->
     occurs_ci "must" content = true -> occurs_ci "should" content = true ->
     extractSeverity content fm = VStr "error") /\
  (forall content,
     declared fm "severity" = None ->
     occurs_ci "should" content = true ->
     existsb (fun kw => occurs_ci kw content) ["must"; "required"; "always"] = false ->
     extractSeverity content fm = VStr "warning").
Proof.
  split; [intros; apply extractSeverity_spec|].
  split.
  { intros body. rewrite parsePractices_sections, map_map.
    apply map_ext. intros [t c]. apply extractSeverity_spec. }
  split.
  { intros v content Hv. rewrite extractSeverity_spec. unfold severity_of.
    rewrite Hv. reflexivity. }
  split; intros content Hfm.
  - intros Hmust _. rewrite extractSeverity_spec. unfold severity_of.
    rewrite Hfm. unfold first_rule, severityTiers.
    cbn [find existsb snd]. rewrite Hmust. reflexivity.
  - intros Hshould Hnone. rewrite extractSeverity_spec. unfold severity_of.
    rewrite Hfm. unfold first_rule, severityTiers.
    cbn [find snd]. rewrite Hnone.
    cbn [existsb]. rewrite Hshould. reflexivity.
Qed.

(** The two severity scenarios, their markers written in
    capitals and in mixed case, and a declared severity that wins over a
    marker of the body. *)
Lemma C4_severity_tiers_witness :
  extractSeverity Scenario.capital_markers ∅ = VStr "error" /\
  extractSeverity Scenario.capital_should ∅ = VStr "warning" /\
  extractSeverity Scenario.capital_markers {[ "severity" := VStr "info" ]} = VStr "info".
Proof.
  destruct (C4_severity_tiers ∅) as (_ & _ & _ & Herror & Hwarning).
  split; [apply Herror; reflexivity|].
  split; [apply Hwarning; reflexivity|].
  apply (proj1 (proj2 (proj2 (C4_severity_tiers {[ "severity" := VStr "info" ]})))).
  reflexivity.
Defined.

(** *** Language fallback *)

(** The language of a practice document never comes from the source
    configuration: [parsePractices] has already replaced a missing
    front-matter language by [general], which is truthy. *)
Lemma practice_language_ignores_config
    (config : SourceConfig) (relativePath : string) (fm : frontmatter)
    (part : string * string) :
  doc_language (practiceDocument config relativePath (assemble fm part)) =
  Some (default (VStr "general") (declared fm "language")).
Proof.
  unfold doc_language, practiceDocument, assemble, declared, or_else, truthy_opt.
  cbn [doc_metadata pm_language language].
  destruct (fm !! "language") as [v|]; [destruct (truthy v) eqn:E|];
    simpl; rewrite ?E; simpl; rewrite ?E; reflexivity.
Qed.

(** The overview document does fall back to the configured language. *)
Lemma overview_language_uses_config
    (config : SourceConfig) (relativePath baseName body lang : string)
    (fm : frontmatter) (practices : list Practice) :
  declared fm "language" = None ->
  cfg_language config = Some lang -> lang <> EmptyString ->
  doc_language (overviewDocument config relativePath baseName body fm practices)
  = Some (VStr lang).
Proof.
  intros Hfm Hcfg Hne.
  unfold doc_language, overviewDocument, or_else, truthy_opt, declared in *.
  cbn [doc_metadata om_language]. rewrite Hcfg.
  assert (Ht : truthy (VStr lang) = true).
  { cbn [truthy]. destruct (String.eqb_spec lang EmptyString); [contradiction|reflexivity]. }
  destruct (fm !! "language") as [v|]; [destruct (truthy v); [discriminate|]|];
    simpl; simpl in Ht; rewrite Ht; reflexivity.
Qed.

(** C6: a field absent from the front matter falls back to the configured
    default of the source, then to the hard default.  For [language] the
    code does not: with the source configured for [typescript] and a
    document without front matter, the practice document reports
    [general], while the overview document of the same file reports
    [typescript]; a declared front-matter language is passed through. *)
Theorem C6_configured_language_ignored :
  map doc_language
    (documentsOf Scenario.team_config "guide.md" "guide" Scenario.use_const ∅)
  = [Some (VStr "general"); Some (VStr "typescript")] /\
  map doc_language
    (documentsOf Scenario.team_config "guide.md" "guide" Scenario.use_const
       {[ "language" := VStr "python" ]})
  = [Some (VStr "python"); Some (VStr "python")].
Proof. split; vm_compute; reflexivity. Qed.

(** *** Practice identifiers *)

Lemma practice_ids (body : string) (fm : frontmatter) :
  map id (parsePractices body fm) = map (fun s => slugify (fst s)) (sectionsOf body).
Proof. rewrite parsePractices_sections, map_map. reflexivity. Qed.

(** The headings [Setup] and [Setup!] of one file receive the same id. *)
Lemma C8_counterexample :
  map id (parsePractices Scenario.repeated_heading ∅) = ["setup"; "setup"] /\
  ~ NoDup (map id (parsePractices Scenario.repeated_heading ∅)).
Proof.
  assert (E : map id (parsePractices Scenario.repeated_heading ∅) = ["setup"; "setup"])
    by (vm_compute; reflexivity).
  split; [exact E|]. rewrite E. intros H.
  apply NoDup_cons in H. destruct H as [H _]. apply H. left.
Qed.

(** C8 (amended): every practice id is the slug of its own heading text
    (lower-cased, every run of characters other than [a-z0-9] turned into
    one hyphen, one leading and one trailing hyphen removed), and the ids
    of one file are listed heading by heading without any disambiguation;
    they are therefore pairwise distinct exactly when the slugs of the
    headings are. *)
Theorem C8_ids_are_heading_slugs (body : string) (fm : frontmatter) :
  Forall (fun p => id p = slug (title p)) (parsePractices body fm) /\
  map id (parsePractices body fm) = map slug (map fst (sectionsOf body)) /\
  (NoDup (map id (parsePractices body fm)) <->
   NoDup (map slug (map fst (sectionsOf body)))).
Proof.
  assert (E : map id (parsePractices body fm) = map slug (map fst (sectionsOf body))).
  { rewrite practice_ids, map_map. apply map_ext. intros part.
    apply slugify_structural. }
  split; [|split; [exact E | rewrite E; reflexivity]].
  clear E. rewrite parsePractices_sections.
  induction (sectionsOf body) as [|part l IH]; simpl; constructor;
    [apply slugify_structural | exact IH].
Qed.

(** *** Lint rules *)

Lemma filter_without_member (x : string) (acc L : list string) :
  existsb (String.eqb x) acc = true ->
  List.filter (fun y => negb (existsb (String.eqb y) acc)) (without x L) =
  List.filter (fun y => negb (existsb (String.eqb y) acc)) L.
Proof.
  intros Hx. induction L as [|y L IH]; [reflexivity|].
  cbn [without List.filter]. destruct (String.eqb_spec y x) as [->|Hne].
  - rewrite Hx. exact IH.
  - cbn [List.filter]. rewrite IH. reflexivity.
Qed.

Lemma filter_without_fresh (x : string) (acc L : list string) :
  List.filter (fun y => negb (existsb (String.eqb y) (acc ++ [x]))) L =
  List.filter (fun y => negb (existsb (String.eqb y) acc)) (without x L).
Proof.
  induction L as [|y L IH]; [reflexivity|].
  cbn [without List.filter]. rewrite existsb_app. cbn [existsb].
  destruct (String.eqb_spec y x) as [->|Hne].
  - rewrite orb_true_r. exact IH.
  - rewrite !orb_false_r. cbn [List.filter]. rewrite IH. reflexivity.
Qed.

Lemma set_fold_dedup (l acc : list string) :
  fold_left (set_add String.eqb) l acc =
  acc ++ List.filter (fun y => negb (existsb (String.eqb y) acc)) (dedup_first l).
Proof.
  revert acc. induction l as [|x l IH]; intros acc.
  - simpl. rewrite app_nil_r. reflexivity.
  - cbn [fold_left dedup_first List.filter]. unfold set_add at 2.
    destruct (existsb (String.eqb x) acc) eqn:E; cbn [negb]; rewrite IH.
    + rewrite filter_without_member by exact E. reflexivity.
    + rewrite <- app_assoc. cbn [app]. rewrite filter_without_fresh. reflexivity.
Qed.

(** Building a [Set] from a list and reading it back keeps the first
    occurrence of every element, in order. *)
Lemma set_of_dedup (l : list string) : set_of String.eqb l = dedup_first l.
Proof.
  unfold set_of. rewrite set_fold_dedup. cbn [app existsb negb].
  induction (dedup_first l) as [|y L IH]; [reflexivity|].
  cbn [List.filter]. rewrite IH. reflexivity.
Qed.

Lemma elem_of_without (x y : string) (L : list string) :
  y ∈ without x L <-> y ∈ L /\ y <> x.
Proof.
  induction L as [|z L IH]; cbn [without].
  - split; [intros H; inversion H | intros [H _]; inversion H].
  - destruct (String.eqb_spec z x) as [->|Hne];
      rewrite ?elem_of_cons, IH; intuition congruence.
Qed.

Lemma NoDup_without (x : string) (L : list string) :
  NoDup L -> NoDup (without x L).
Proof.
  induction 1 as [|z L Hz HL IH]; cbn [without]; [constructor|].
  destruct (String.eqb z x); [exact IH|].
  constructor; [|exact IH]. rewrite elem_of_without. tauto.
Qed.

Lemma elem_of_dedup_first (y : string) (l : list string) :
  y ∈ dedup_first l <-> y ∈ l.
Proof.
  induction l as [|x l IH]; cbn [dedup_first]; [reflexivity|].
  rewrite !elem_of_cons, elem_of_without, IH.
  destruct (String.eqb_spec y x); intuition congruence.
Qed.

Lemma NoDup_dedup_first (l : list string) : NoDup (dedup_first l).
Proof.
  induction l as [|x l IH]; cbn [dedup_first]; constructor.
  - rewrite elem_of_without. tauto.
  - apply NoDup_without, IH.
Qed.

(** [matchAll] lists its matches from left to right. *)
Lemma matchAll_from_increasing (p : pattern) (budget pos : nat) (rest : string) :
  StronglySorted lt (map r_index (matchAll_from budget p pos rest)) /\
  Forall (fun i => (pos <= i)%nat) (map r_index (matchAll_from budget p pos rest)).
Proof.
  revert pos rest. induction budget as [|b IH]; intros pos rest;
    cbn [matchAll_from]; [split; constructor|].
  destruct (exec_from p pos rest) as [m|] eqn:E; [|split; constructor].
  apply exec_from_bounds in E. destruct E as [Hi He]. cbv zeta.
  set (next := if Nat.eqb (r_end m) (r_index m) then S (r_end m) else r_end m).
  assert (Hnext : (r_index m < next)%nat).
  { unfold next, r_end in *. destruct (Nat.eqb _ _) eqn:Q; [lia|].
    apply Nat.eqb_neq in Q. lia. }
  destruct (Nat.ltb (pos + String.length rest) next).
  - split; repeat constructor. exact Hi.
  - destruct (IH next (drop (next - pos) rest)) as [Hs Hall]. cbn [map]. split.
    + constructor; [exact Hs|].
      eapply Forall_impl; [exact Hall|]. intros i Hle. cbv beta in Hle. lia.
    + constructor; [exact Hi|].
      eapply Forall_impl; [exact Hall|]. intros i Hle. cbv beta in Hle. lia.
Qed.

Lemma matchAll_increasing (p : pattern) (s : string) :
  StronglySorted lt (map r_index (matchAll p s)).
Proof. apply matchAll_from_increasing. Qed.

(** *** Loading files *)

Section FetchDocuments.

Context {Splitter : Type}.
Variable matter :
  string -> Splitter -> completion (option frontmatter * string) * Splitter.
Variable config : SourceConfig.

Lemma cache_all_app (a b : list Document) (cache : gmap string Document) :
  cache_all (a ++ b) cache = cache_all b (cache_all a cache).
Proof. apply fold_left_app. Qed.

Lemma fetchStep_spec (documents : list Document) (st : SourceState) (sp : Splitter)
    (file : File) :
  fetchStep matter config (documents, st, sp) file =
  (documents ++ contribution (file, fst (attempt matter config file sp)),
   {| documentCache :=
        cache_all (contribution (file, fst (attempt matter config file sp)))
          (documentCache st);
      logged := logged st ++ warning (file, fst (attempt matter config file sp)) |},
   snd (attempt matter config file sp)).
Proof.
  unfold fetchStep, loadPracticeDocument, attempt, contribution, warning.
  destruct st as [cache log].
  destruct (f_read file) as [content|e];
    [destruct (matter content sp) as [[[[fm|] body]|e] sp']|];
    cbn; rewrite ?app_nil_r; reflexivity.
Qed.

Lemma fetch_fold (files : list File) : forall documents st sp,
  fold_left (fetchStep matter config) files (documents, st, sp) =
  (documents ++ flat_map contribution (outcomes matter config files sp),
   {| documentCache :=
        cache_all (flat_map contribution (outcomes matter config files sp))
          (documentCache st);
      logged := logged st ++ flat_map warning (outcomes matter config files sp) |},
   splitterAfter matter config files sp).
Proof.
  induction files as [|file files IH]; intros documents st sp.
  - destruct st. cbn. rewrite !app_nil_r. reflexivity.
  - cbn [fold_left flat_map outcomes]. rewrite fetchStep_spec, IH.
    cbn [documentCache logged]. unfold splitterAfter. cbn [fold_left].
    rewrite <- !app_assoc, cache_all_app. reflexivity.
Qed.

End FetchDocuments.

(** It does not hold that every readable file contributes documents
    whatever its front matter: at the first call on the malformed document
    the splitter throws, and the file is skipped. *)
Lemma C9_counterexample :
  fst (fst (fetchDocuments Scenario.remembering Scenario.team_config
              [Scenario.malformed_file] Scenario.empty_state [])) = [] /\
  ~ (forall (Splitter : Type)
            (matter : string -> Splitter ->
                      completion (option frontmatter * string) * Splitter)
            (sp : Splitter) (file : File) (content : string),
       f_read file = Returned content ->
       fst (fst (fetchDocuments matter Scenario.team_config [file]
                   Scenario.empty_state sp)) <> []).
Proof.
  assert (E : fst (fst (fetchDocuments Scenario.remembering Scenario.team_config
                          [Scenario.malformed_file] Scenario.empty_state [])) = [])
    by reflexivity.
  split; [exact E|]. intros H.
  apply (H (list string) Scenario.remembering [] Scenario.malformed_file
           Scenario.malformed_file_content eq_refl E).
Qed.

(** C9 (amended): the front matter is split by the imported gray-matter
    function, which may throw and whose answer may depend on the calls made
    before; the source has no empty-mapping fallback of its own.  A call
    that throws is caught per file by [fetchDocuments]: in that pass the
    file contributes no document and one logged warning, and the files
    after it are still loaded; so is a call that returns no data, of
    which the code then reads a property.  A file whose split returns a
    mapping contributes its practices followed by its overview. *)
Theorem C9_failed_split_skips_file {Splitter : Type}
    (matter : string -> Splitter -> completion (option frontmatter * string) * Splitter)
    (config : SourceConfig) (files : list File) (st : SourceState) (sp : Splitter) :
  fst (fst (fetchDocuments matter config files st sp)) =
    flat_map contribution (outcomes matter config files sp) /\
  logged (snd (fst (fetchDocuments matter config files st sp))) =
    logged st ++ [LogInfo "Found practice files"]
    ++ flat_map warning (outcomes matter config files sp) /\
  (forall file content error sp0 sp1,
     f_read file = Returned content -> matter content sp0 = (Thrown error, sp1) ->
     contribution (file, fst (attempt matter config file sp0)) = [] /\
     warning (file, fst (attempt matter config file sp0)) =
       [LogWarn (f_path file) error "Failed to load practice document"] /\
     snd (attempt matter config file sp0) = sp1) /\
  (forall file content body sp0 sp1,
     f_read file = Returned content ->
     matter content sp0 = (Returned (None, body), sp1) ->
     contribution (file, fst (attempt matter config file sp0)) = [] /\
     warning (file, fst (attempt matter config file sp0)) =
       [LogWarn (f_path file) "TypeError" "Failed to load practice document"] /\
     snd (attempt matter config file sp0) = sp1) /\
  (forall file content fm body sp0 sp1,
     f_read file = Returned content ->
     matter content sp0 = (Returned (Some fm, body), sp1) ->
     contribution (file, fst (attempt matter config file sp0)) =
       map (practiceDocument config (f_relativePath file)) (parsePractices body fm)
       ++ [overviewDocument config (f_relativePath file) (f_baseName file) body fm
             (parsePractices body fm)] /\
     warning (file, fst (attempt matter config file sp0)) = [] /\
     snd (attempt matter config file sp0) = sp1).
Proof.
  unfold fetchDocuments. rewrite fetch_fold. cbn [fst snd logged].
  split; [reflexivity|]. split; [rewrite <- app_assoc; reflexivity|].
  split; [|split].
  - intros file content error sp0 sp1 Hread Hsplit.
    unfold contribution, warning, attempt. rewrite Hread, Hsplit.
    repeat split; reflexivity.
  - intros file content body sp0 sp1 Hread Hsplit.
    unfold contribution, warning, attempt. rewrite Hread, Hsplit.
    repeat split; reflexivity.
  - intros file content fm body sp0 sp1 Hread Hsplit.
    unfold contribution, warning, attempt. rewrite Hread, Hsplit.
    repeat split; reflexivity.
Qed.

(** Two files with the malformed text in one fetch: the first is skipped
    with a warning, and the second, for which the splitter returns the
    remembered text with an empty mapping, is loaded. *)
Lemma C9_failed_split_skips_file_witness :
  fst (fst (fetchDocuments Scenario.remembering Scenario.team_config
              [Scenario.malformed_file; Scenario.malformed_twin]
              Scenario.empty_state [])) =
    documentsOf Scenario.team_config "naming-copy.md" "naming-copy"
      Scenario.malformed_file_content ∅ /\
  logged (snd (fst (fetchDocuments Scenario.remembering Scenario.team_config
                      [Scenario.malformed_file; Scenario.malformed_twin]
                      Scenario.empty_state []))) =
    [LogInfo "Found practice files";
     LogWarn "/srv/practices/naming.md" "YAMLException"
       "Failed to load practice document"] /\
  contribution
    (Scenario.malformed_file,
     fst (attempt Scenario.remembering Scenario.team_config Scenario.malformed_file [])) = [].
Proof.
  destruct (C9_failed_split_skips_file Scenario.remembering Scenario.team_config
              [Scenario.malformed_file; Scenario.malformed_twin]
              Scenario.empty_state [])
    as (Hdocs & Hlog & Hthrown & _).
  split; [rewrite Hdocs; reflexivity|].
  split; [rewrite Hlog; reflexivity|].
  apply (Hthrown Scenario.malformed_file Scenario.malformed_file_content
           "YAMLException" [] [Scenario.malformed_file_content]); reflexivity.
Defined.

(** *** The shape of slugs *)

Import SlugShape.

Lemma hyphen_not_slug : is_slug_char "-" = false.
Proof. reflexivity. Qed.

Lemma collapse_single (s : string) (b : bool) :
  single_hyphens b (collapse_runs b s) = true.
Proof.
  revert b. induction s as [|c s IH]; intros b; [reflexivity|].
  cbn [collapse_runs]. destruct (is_slug_char c) eqn:Hc.
  - cbn [single_hyphens]. destruct (ascii_dec c "-") as [->|].
    + rewrite hyphen_not_slug in Hc. discriminate Hc.
    + rewrite Hc, IH. reflexivity.
  - destruct b; [apply IH|]. cbn [single_hyphens].
    destruct (ascii_dec "-" "-"); [|contradiction]. rewrite IH. reflexivity.
Qed.

Lemma single_after_hyphen (s : string) :
  single_hyphens true s = true ->
  single_hyphens false s = true /\ startsWith s "-" = false.
Proof.
  destruct s as [|c s]; [intros _; split; reflexivity|].
  cbn [single_hyphens startsWith]. destruct (ascii_dec c "-") as [->|Hc].
  - cbn [negb andb]. discriminate.
  - intros H. split; [exact H|].
    destruct (ascii_dec "-" c); [congruence | reflexivity].
Qed.

Lemma strip_leading_single (s : string) :
  single_hyphens false s = true ->
  single_hyphens false (strip_leading_hyphen s) = true /\
  startsWith (strip_leading_hyphen s) "-" = false.
Proof.
  destruct s as [|c s]; [intros _; split; reflexivity|].
  destruct (ascii_dec c "-") as [->|Hc].
  - cbn [strip_leading_hyphen single_hyphens].
    destruct (ascii_dec "-" "-"); [|contradiction]. cbn [negb andb].
    apply single_after_hyphen.
  - replace (strip_leading_hyphen (String c s)) with (String c s).
    2:{ unfold strip_leading_hyphen. destruct c as [[] [] [] [] [] [] [] []];
        try reflexivity. contradiction Hc. reflexivity. }
    intros H. split; [exact H|]. cbn [startsWith].
    destruct (ascii_dec "-" c); [congruence | reflexivity].
Qed.

Lemma ends_hyphen_single_char c :
  ends_hyphen (String c EmptyString) = if ascii_dec c "-" then true else false.
Proof. reflexivity. Qed.

Lemma strip_trailing_single (s : string) (b : bool) :
  single_hyphens b s = true ->
  single_hyphens b (strip_trailing_hyphen s) = true /\
  ends_hyphen (strip_trailing_hyphen s) = false /\
  (startsWith s "-" = false -> startsWith (strip_trailing_hyphen s) "-" = false).
Proof.
  revert b. induction s as [|c s IH]; intros b H.
  - repeat split; reflexivity.
  - destruct s as [|d s].
    + cbn [strip_trailing_hyphen]. destruct (ascii_dec c "-") as [->|Hc].
      * repeat split; reflexivity.
      * split; [exact H|]. split; [|intros E; exact E].
        rewrite ends_hyphen_single_char. destruct (ascii_dec c "-"); [contradiction|reflexivity].
    + rewrite strip_trailing_cons2.
      cbn [single_hyphens] in H. cbn [single_hyphens startsWith].
      destruct (ascii_dec c "-") as [->|Hc].
      * apply andb_true_iff in H. destruct H as [Hb H].
        destruct (IH true H) as (H1 & H2 & H3). rewrite Hb, H1.
        split; [reflexivity|]. split.
        -- destruct (strip_trailing_hyphen (String d s)) as [|e u] eqn:E.
           ++ exfalso. (* d :: s is not a lone hyphen after a hyphen *)
              revert E H. clear. destruct s as [|e s].
              ** cbn [strip_trailing_hyphen single_hyphens].
                 destruct (ascii_dec d "-"); [cbn; discriminate | discriminate].
              ** rewrite strip_trailing_cons2. discriminate.
           ++ rewrite ends_hyphen_cons2. exact H2.
        -- destruct (ascii_dec "-" "-"); [|contradiction].
           rewrite startsWith_empty. discriminate.
      * apply andb_true_iff in H. destruct H as [Hs H].
        destruct (IH false H) as (H1 & H2 & H3). rewrite Hs, H1.
        split; [reflexivity|]. split.
        -- destruct (strip_trailing_hyphen (String d s)) as [|e u] eqn:E.
           ++ rewrite ends_hyphen_single_char.
              destruct (ascii_dec c "-"); [contradiction | reflexivity].
           ++ rewrite ends_hyphen_cons2. exact H2.
        -- intros _. destruct (ascii_dec "-" c); [congruence | reflexivity].
Qed.

Lemma single_chars (s : string) (b : bool) :
  single_hyphens b s = true ->
  all_chars slug_or_hyphen s /\ includes s "--" = false.
Proof.
  revert b. induction s as [|c s IH]; intros b H.
  - split; [apply all_chars_empty | reflexivity].
  - cbn [single_hyphens] in H. rewrite includes_cons.
    destruct (ascii_dec c "-") as [->|Hc].
    + apply andb_true_iff in H. destruct H as [_ H].
      destruct (IH true H) as [Hall Hinc]. split.
      * apply all_chars_cons. split; [reflexivity | exact Hall].
      * rewrite Hinc, orb_false_r.
        destruct (single_after_hyphen s H) as [_ Hs].
        cbn [startsWith]. destruct (ascii_dec "-" "-"); [|contradiction]. exact Hs.
    + apply andb_true_iff in H. destruct H as [Hs H].
      destruct (IH false H) as [Hall Hinc]. split.
      * apply all_chars_cons. split; [|exact Hall].
        unfold slug_or_hyphen. rewrite Hs. reflexivity.
      * rewrite Hinc, orb_false_r. cbn [startsWith].
        destruct (ascii_dec "-" c); [congruence | reflexivity].
Qed.

Lemma slug_single (text : string) :
  single_hyphens false (slug text) = true /\
  startsWith (slug text) "-" = false /\
  ends_hyphen (slug text) = false.
Proof.
  unfold slug.
  pose proof (collapse_single (toLowerCase text) false) as H0.
  destruct (strip_leading_single _ H0) as [H1 H1'].
  destruct (strip_trailing_single _ _ H1) as (H2 & H2' & H2'').
  auto.
Qed.

Lemma slug_char_lower (c : ascii) : is_slug_char c = true -> lower_char c = c.
Proof. destruct c as [[] [] [] [] [] [] [] []]; vm_compute; congruence. Qed.

Lemma single_lower (s : string) (b : bool) :
  single_hyphens b s = true -> toLowerCase s = s.
Proof.
  revert b. induction s as [|c s IH]; intros b H; [reflexivity|].
  cbn [single_hyphens] in H. cbn [toLowerCase].
  destruct (ascii_dec c "-") as [->|Hc].
  - apply andb_true_iff in H. destruct H as [_ H]. rewrite (IH _ H). reflexivity.
  - apply andb_true_iff in H. destruct H as [Hs H].
    rewrite (IH _ H), (slug_char_lower _ Hs). reflexivity.
Qed.

Lemma single_collapse (s : string) (b : bool) :
  single_hyphens b s = true -> collapse_runs b s = s.
Proof.
  revert b. induction s as [|c s IH]; intros b H; [reflexivity|].
  cbn [single_hyphens] in H. cbn [collapse_runs].
  destruct (ascii_dec c "-") as [->|Hc].
  - apply andb_true_iff in H. destruct H as [Hb H]. rewrite hyphen_not_slug.
    destruct b; [discriminate Hb|]. rewrite (IH _ H). reflexivity.
  - apply andb_true_iff in H. destruct H as [Hs H].
    rewrite Hs, (IH _ H). reflexivity.
Qed.

Lemma strip_leading_none (s : string) :
  startsWith s "-" = false -> strip_leading_hyphen s = s.
Proof.
  destruct s as [|c s]; [reflexivity|]. cbn [startsWith].
  destruct (ascii_dec "-" c) as [<-|Hc].
  - rewrite startsWith_empty. discriminate.
  - intros _. unfold strip_leading_hyphen.
    destruct c as [[] [] [] [] [] [] [] []]; try reflexivity.
    contradiction Hc. reflexivity.
Qed.

Lemma strip_trailing_none (s : string) :
  ends_hyphen s = false -> strip_trailing_hyphen s = s.
Proof.
  induction s as [|c s IH]; [reflexivity|]. destruct s as [|d s].
  - rewrite ends_hyphen_single_char. cbn [strip_trailing_hyphen].
    destruct (ascii_dec c "-"); [discriminate | reflexivity].
  - rewrite ends_hyphen_cons2, strip_trailing_cons2. intros H.
    rewrite (IH H). reflexivity.
Qed.

Lemma slug_fixed (u : string) :
  single_hyphens false u = true -> startsWith u "-" = false ->
  ends_hyphen u = false -> slug u = u.
Proof.
  intros H1 H2 H3. unfold slug.
  rewrite (single_lower _ _ H1), (single_collapse _ _ H1),
    (strip_leading_none _ H2), (strip_trailing_none _ H3). reflexivity.
Qed.

Lemma collapse_no_slug (s : string) (b : bool) :
  all_chars (fun c => negb (is_slug_char c)) s ->
  collapse_runs b s = EmptyString \/ collapse_runs b s = "-"%string.
Proof.
  revert b. induction s as [|c s IH]; intros b H; [left; reflexivity|].
  apply all_chars_cons in H. destruct H as [Hc H]. cbn [collapse_runs].
  apply negb_true_iff in Hc. rewrite Hc.
  destruct b; [apply IH; exact H|].
  right. destruct (IH true H) as [E|E].
  - rewrite E. reflexivity.
  - exfalso. pose proof (collapse_single s true) as Hs. rewrite E in Hs.
    discriminate Hs.
Qed.

Lemma all_chars_lower (ok : ascii -> bool) (s : string) :
  all_chars (fun c => ok (lower_char c)) s <-> all_chars ok (toLowerCase s).
Proof.
  induction s as [|c s IH]; cbn [toLowerCase].
  - split; intros _; apply all_chars_empty.
  - rewrite !all_chars_cons, IH. reflexivity.
Qed.

Lemma collapse_keeps (s : string) (b : bool) :
  collapse_runs b s = EmptyString \/ collapse_runs b s = "-"%string ->
  all_chars (fun c => negb (is_slug_char c)) s.
Proof.
  revert b. induction s as [|c s IH]; intros b H; [apply all_chars_empty|].
  cbn [collapse_runs] in H. destruct (is_slug_char c) eqn:Hc.
  - destruct H as [H|H]; [discriminate H|]. injection H as -> _.
    discriminate Hc.
  - apply all_chars_cons. rewrite Hc. split; [reflexivity|].
    destruct b.
    + apply (IH true H).
    + destruct H as [H|H]; [discriminate H|]. injection H as H.
      apply (IH true). left. exact H.
Qed.

Lemma strips_empty (u : string) :
  strip_trailing_hyphen (strip_leading_hyphen u) = EmptyString ->
  single_hyphens false u = true ->
  u = EmptyString \/ u = "-"%string.
Proof.
  intros H Hs. destruct u as [|c u]; [left; reflexivity|].
  destruct (ascii_dec c "-") as [->|Hc].
  - cbn [strip_leading_hyphen] in H. cbn [single_hyphens] in Hs.
    destruct (ascii_dec "-" "-"); [|contradiction]. cbn [negb andb] in Hs.
    destruct u as [|d u]; [right; reflexivity|]. exfalso.
    destruct u as [|d' u].
    + cbn [strip_trailing_hyphen] in H. cbn [single_hyphens] in Hs.
      destruct (ascii_dec d "-"); [discriminate Hs | discriminate H].
    + rewrite strip_trailing_cons2 in H. discriminate H.
  - exfalso. rewrite strip_leading_none in H.
    + destruct u as [|d u].
      * cbn [strip_trailing_hyphen] in H. destruct (ascii_dec c "-"); [contradiction | discriminate H].
      * rewrite strip_trailing_cons2 in H. discriminate H.
    + cbn [startsWith]. destruct (ascii_dec "-" c); [congruence | reflexivity].
Qed.

Lemma no_char_app a (x y : string) :
  no_char a (x +:+ y) <-> no_char a x /\ no_char a y.
Proof.
  induction x as [|c x IH].
  - rewrite app_empty. split; [intros H; split; [|exact H] | intros [_ H]; exact H].
    apply all_chars_empty.
  - rewrite app_cons, !no_char_cons, IH. tauto.
Qed.

Lemma app_inv_head (a x y : string) : a +:+ x = a +:+ y -> x = y.
Proof.
  induction a as [|c a IH]; [rewrite !app_empty; intros H; exact H|].
  rewrite !app_cons. intros H. injection H as H. apply IH. exact H.
Qed.

Lemma split_at_last (a : ascii) (r1 r2 s1 s2 : string) :
  no_char a s1 -> no_char a s2 ->
  r1 +:+ String a s1 = r2 +:+ String a s2 -> r1 = r2 /\ s1 = s2.
Proof.
  intros H1 H2. revert r2. induction r1 as [|c r1 IH]; intros r2 E.
  - rewrite app_empty in E. destruct r2 as [|d r2].
    + rewrite app_empty in E. injection E as E. split; [reflexivity | exact E].
    + rewrite app_cons in E. injection E as _ E. exfalso.
      rewrite E in H1. apply no_char_app in H1. destruct H1 as [_ H1].
      apply no_char_cons in H1. destruct H1 as [H1 _]. apply H1. reflexivity.
  - rewrite app_cons in E. destruct r2 as [|d r2].
    + rewrite app_empty in E. injection E as _ E. exfalso.
      rewrite <- E in H2. apply no_char_app in H2. destruct H2 as [_ H2].
      apply no_char_cons in H2. destruct H2 as [H2 _]. apply H2. reflexivity.
    + rewrite app_cons in E. injection E as -> E.
      destruct (IH _ E) as [-> ->]. split; reflexivity.
Qed.

Lemma all_chars_impl (p q : ascii -> bool) (s : string) :
  (forall c, p c = true -> q c = true) -> all_chars p s -> all_chars q s.
Proof. intros Hpq H pre c post E. apply Hpq. apply (H pre c post E). Qed.

Lemma slug_no_hash (text : string) : no_char "#" (slug text).
Proof.
  destruct (slug_single text) as (H & _ & _).
  destruct (single_chars _ _ H) as [Hall _].
  revert Hall. apply all_chars_impl. intros c.
  destruct c as [[] [] [] [] [] [] [] []]; vm_compute; congruence.
Qed.

(** X1: whatever the text, [slugify] returns lower-case letters, digits
    and hyphens only, with no hyphen at either end and never two hyphens
    in a row. *)
Theorem slugify_shape (text : string) :
  all_chars slug_or_hyphen (slugify text) /\
  includes (slugify text) "--" = false /\
  startsWith (slugify text) "-" = false /\
  ends_hyphen (slugify text) = false.
Proof.
  rewrite slugify_structural.
  destruct (slug_single text) as (H & H1 & H2).
  destruct (single_chars _ _ H) as [Ha Hb]. auto.
Qed.

(** X2: [slugify] is idempotent: the slug of a slug is that slug. *)
Theorem slugify_idempotent (text : string) :
  slugify (slugify text) = slugify text.
Proof.
  rewrite !slugify_structural.
  destruct (slug_single text) as (H & H1 & H2).
  apply slug_fixed; assumption.
Qed.

(** X3: [slugify] returns the empty text exactly when, after lower-casing,
    the text holds no character of [a-z0-9]; such a heading gets the empty
    practice id. *)
Theorem slugify_empty_iff (text : string) :
  slugify text = EmptyString <->
  all_chars (fun c => negb (is_slug_char c)) (toLowerCase text).
Proof.
  rewrite slugify_structural. unfold slug. split.
  - intros H. apply (collapse_keeps _ false).
    apply strips_empty; [exact H | apply collapse_single].
  - intros H. destruct (collapse_no_slug _ false H) as [E|E]; rewrite E; reflexivity.
Qed.

(** X4: for one source, the document id built by [generateId] from a file
    path and the slug of a title determines both: two practice documents
    have the same id only when they come from the same path and their
    titles have the same slug. *)
Theorem generateId_injective (config : SourceConfig) (path1 path2 title1 title2 : string) :
  generateId config path1 (slugify title1) = generateId config path2 (slugify title2) ->
  path1 = path2 /\ slugify title1 = slugify title2.
Proof.
  unfold generateId. intros E.
  apply app_inv_head in E. apply (app_inv_head ":") in E.
  rewrite !slugify_structural in *.
  apply (split_at_last "#"); [apply slug_no_hash | apply slug_no_hash | exact E].
Qed.

(** Two titles that differ in case and punctuation only give one id. *)
Lemma generateId_injective_witness :
  "guide.md"%string = "guide.md"%string /\
  slugify "Use const" = slugify "use CONST!".
Proof.
  apply (generateId_injective Scenario.team_config "guide.md" "guide.md"
           "Use const" "use CONST!").
  vm_compute. reflexivity.
Defined.

(** *** Headings and practices *)

Import Layout.

Lemma line_prefix_included (p body l : string) :
  no_char LF p -> l ∈ lines body -> startsWith l p = true ->
  includes body p = true.
Proof.
  intros Hp. revert l. induction body as [|c s IH]; intros l Hl Hs.
  - cbn [lines] in Hl. apply elem_of_cons in Hl. destruct Hl as [->|Hl]; [|inversion Hl].
    cbn [includes]. rewrite Hs. reflexivity.
  - rewrite includes_cons. apply orb_true_iff.
    cbn [lines] in Hl. destruct (ascii_dec c LF) as [->|Hc].
    + apply elem_of_cons in Hl. destruct Hl as [->|Hl].
      * left. destruct p; [reflexivity | discriminate Hs].
      * right. apply (IH l Hl Hs).
    + pose proof (startsWith_first_line p (String c s) Hp) as Hfirst.
      cbn [lines] in Hfirst. destruct (ascii_dec c LF); [contradiction|].
      destruct (lines s) as [|l0 ls] eqn:E; [destruct (lines_nonempty s E)|].
      cbn [cons_head hd] in Hfirst, Hl.
      apply elem_of_cons in Hl. destruct Hl as [->|Hl].
      * left. rewrite Hfirst. exact Hs.
      * right. apply (IH l); [|exact Hs]. apply elem_of_cons. right. exact Hl.
Qed.

Lemma emitted_none (ls : list string) :
  Forall (fun l => heading_ok l = false) (removelast ls) ->
  emitted_headings ls = [].
Proof.
  induction ls as [|l ls IH]; [reflexivity|].
  destruct ls as [|l' ls]; [reflexivity|].
  intros H. rewrite emitted_cons2.
  change (removelast (l :: l' :: ls)) with (l :: removelast (l' :: ls)) in H.
  apply Forall_cons in H. destruct H as [Hl H].
  rewrite Hl, (IH H). reflexivity.
Qed.

Lemma Forall_removelast {A} (P : A -> Prop) (l : list A) :
  Forall P l -> Forall P (removelast l).
Proof.
  induction l as [|x l IH]; [intros H; exact H|].
  intros H. apply Forall_cons in H. destruct H as [Hx H].
  destruct l as [|y l]; [constructor|].
  change (removelast (x :: y :: l)) with (x :: removelast (y :: l)).
  constructor; [exact Hx | apply IH, H].
Qed.

Lemma no_practice (body : string) (fm : frontmatter) :
  Forall (fun l => heading_ok l = false) (removelast (lines body)) ->
  parsePractices body fm = [].
Proof.
  intros H. apply (map_eq_nil title).
  rewrite practice_titles_exact. apply emitted_none, H.
Qed.

Lemma marked_cons (l : string) (ls : list string) :
  List.filter (fun l => startsWith l "## ") (l :: ls) =
  (if startsWith l "## " then [l] else [])
  ++ List.filter (fun l => startsWith l "## ") ls.
Proof. cbn [List.filter]. destruct (startsWith l "## "); reflexivity. Qed.

Lemma heading_ok_marked (l : string) : heading_ok l = true -> startsWith l "## " = true.
Proof.
  unfold heading_ok. intros H. apply andb_true_iff in H. destruct H as [H _].
  apply andb_true_iff in H. tauto.
Qed.

Lemma emitted_marked (ls : list string) :
  emitted_headings ls `sublist_of`
  map (fun l => trim (drop 3 l)) (List.filter (fun l => startsWith l "## ") ls).
Proof.
  induction ls as [|l ls IH]; [constructor|].
  destruct ls as [|l' ls]; [apply sublist_nil_l|].
  rewrite emitted_cons2, marked_cons, map_app.
  destruct (heading_ok l && negb (startsWith l' "## ")) eqn:E.
  - apply andb_true_iff in E. destruct E as [E _].
    rewrite (heading_ok_marked _ E). cbn [map app].
    apply sublist_skip, IH.
  - cbn [app]. destruct (startsWith l "## "); cbn [map app];
      [apply sublist_cons|]; exact IH.
Qed.

Lemma spaced_emitted (ls : list string) :
  spaced ls = true ->
  emitted_headings ls =
  map (fun l => trim (drop 3 l)) (List.filter (fun l => startsWith l "## ") ls).
Proof.
  induction ls as [|l ls IH]; [reflexivity|].
  cbn [spaced]. intros H. apply andb_true_iff in H. destruct H as [Hl Hls].
  specialize (IH Hls). rewrite marked_cons, map_app, <- IH.
  destruct (startsWith l "## ") eqn:Hs.
  - apply andb_true_iff in Hl. destruct Hl as [Hok Hnext].
    destruct ls as [|l' ls]; [discriminate Hnext|].
    rewrite emitted_cons2, Hok, Hnext. reflexivity.
  - destruct ls as [|l' ls]; [reflexivity|].
    rewrite emitted_cons2.
    destruct (heading_ok l) eqn:Hok; [|reflexivity].
    apply heading_ok_marked in Hok. congruence.
Qed.

(** X5: the titles of the practices [parsePractices] returns are exactly the
    trimmed texts of the lines that start with [## ], hold some text after
    it, hold no line terminator and are followed by a line that does not
    start with [## ], in order; a line inside a fenced block counts like
    any other.  Hence every practice comes from a line of its own that
    starts with [## ], in line order, and there are never more practices
    than such lines. *)
Theorem parsePractices_titles (body : string) (fm : frontmatter) :
  map title (parsePractices body fm) = emitted_headings (lines body) /\
  map title (parsePractices body fm) `sublist_of`
    map (fun l => trim (drop 3 l)) (marked_lines body) /\
  (length (parsePractices body fm) <= length (marked_lines body))%nat.
Proof.
  split; [apply practice_titles_exact|].
  assert (H : map title (parsePractices body fm) `sublist_of`
              map (fun l => trim (drop 3 l)) (marked_lines body)).
  { rewrite practice_titles_exact. apply emitted_marked. }
  split; [exact H|].
  rewrite <- (length_map title),
    <- (length_map (fun l => trim (drop 3 l)) (marked_lines body)).
  apply sublist_length, H.
Qed.

(** X6: when every line that starts with [## ] holds some text after it and
    no line terminator, and is followed by a line that does not start with
    [## ], [parsePractices] returns one practice per such line, in order. *)
Theorem parsePractices_separated (body : string) (fm : frontmatter) :
  spaced (lines body) = true ->
  map title (parsePractices body fm) =
  map (fun l => trim (drop 3 l)) (marked_lines body).
Proof.
  intros H. rewrite practice_titles_exact. apply spaced_emitted, H.
Qed.

(** Two marked lines, each followed by a blank line and a paragraph. *)
Lemma parsePractices_separated_witness :
  map title (parsePractices Scenario.keyword_sections ∅) =
  map (fun l => trim (drop 3 l)) (marked_lines Scenario.keyword_sections).
Proof.
  apply parsePractices_separated.
  vm_compute. reflexivity.
Defined.

(** X7: a body with Windows line endings (every line before a line feed
    holds a carriage return) yields no practice at all, whatever headings
    it has: the heading pattern needs a line feed right after text that
    [.] accepts, and [.] refuses the carriage return. *)
Theorem parsePractices_windows_line_endings (body : string) (fm : frontmatter) :
  windows_line_endings body -> parsePractices body fm = [].
Proof.
  intros H. apply no_practice. eapply Forall_impl; [exact H|].
  intros l Hl. cbn beta in Hl. unfold heading_ok.
  rewrite (CR_refused l Hl), andb_false_r. reflexivity.
Qed.

(** A heading and a paragraph with Windows line endings. *)
Lemma parsePractices_windows_line_endings_witness :
  headings windows_body = ["Naming"] /\
  parsePractices windows_body ∅ = [].
Proof.
  split; [vm_compute; reflexivity|].
  apply parsePractices_windows_line_endings.
  unfold windows_line_endings. vm_compute. repeat constructor.
Defined.

(** X8: a body in which [## ] occurs nowhere gives a file with a single
    document, the overview, built from an empty practice list (practice
    count 0, no category). *)
Theorem documentsOf_without_heading (config : SourceConfig)
    (relativePath baseName body : string) (fm : frontmatter) :
  includes body "## " = false ->
  documentsOf config relativePath baseName body fm =
  [overviewDocument config relativePath baseName body fm []].
Proof.
  intros H. unfold documentsOf.
  rewrite no_practice; [reflexivity|].
  apply Forall_removelast, Forall_forall. intros l Hl.
  unfold heading_ok. destruct (startsWith l "## ") eqn:Hs; [|reflexivity].
  rewrite (line_prefix_included _ _ _ heading_prefix_no_LF Hl Hs) in H.
  discriminate H.
Qed.

(** A file with a first-level heading only. *)
Lemma documentsOf_without_heading_witness :
  documentsOf Scenario.team_config "notes.md" "notes" "# Notes" ∅ =
  [overviewDocument Scenario.team_config "notes.md" "notes" "# Notes" ∅ []].
Proof. apply documentsOf_without_heading. reflexivity. Defined.

(** *** The document cache *)

Import DocumentCache.

Lemma cache_all_snoc (docs : list Document) (d : Document) (cache : gmap string Document) :
  cache_all (docs ++ [d]) cache = <[doc_id d := d]> (cache_all docs cache).
Proof. unfold cache_all. rewrite fold_left_app. reflexivity. Qed.

Lemma cache_all_lookup (docs : list Document) (cache : gmap string Document) (id : string) :
  cache_all docs cache !! id =
  match latest id docs with
  | Some d => Some d
  | None => cache !! id
  end.
Proof.
  induction docs as [|d docs IH] using rev_ind; [reflexivity|].
  rewrite cache_all_snoc. unfold latest in *. rewrite List.filter_app.
  cbn [List.filter]. destruct (String.eqb (doc_id d) id) eqn:E.
  - apply String.eqb_eq in E. rewrite last_snoc, E, lookup_insert_eq. reflexivity.
  - apply String.eqb_neq in E. rewrite app_nil_r, lookup_insert_ne; [exact IH | exact E].
Qed.

Lemma cache_all_dom (docs : list Document) (cache : gmap string Document) :
  dom (cache_all docs cache) = list_to_set (map doc_id docs) ∪ dom cache.
Proof.
  induction docs as [|d docs IH] using rev_ind.
  - cbn. rewrite (left_id_L ∅ (∪)). reflexivity.
  - rewrite cache_all_snoc, dom_insert_L, IH, map_app, list_to_set_app_L.
    cbn [map list_to_set foldr]. rewrite (right_id_L ∅ (∪)).
    rewrite (comm_L (∪) (list_to_set (map doc_id docs)) {[doc_id d]}).
    rewrite (assoc_L (∪)). reflexivity.
Qed.

Lemma size_list_to_set_dups (l : list string) :
  size (list_to_set l : gset string) = length (remove_dups l).
Proof.
  rewrite <- (size_list_to_set (C := gset string) (remove_dups l)).
  - f_equal. apply set_eq. intros x.
    rewrite !elem_of_list_to_set, elem_of_remove_dups. reflexivity.
  - apply NoDup_remove_dups.
Qed.

Lemma length_remove_dups (l : list string) :
  (length (remove_dups l) <= length l)%nat.
Proof.
  induction l as [|x l IH]; [reflexivity|].
  cbn. destruct (decide_rel elem_of x l); cbn; lia.
Qed.

Section CacheAfterFetch.

Context {Splitter : Type}.
Variable matter :
  string -> Splitter -> completion (option frontmatter * string) * Splitter.
Variable config : SourceConfig.

(** X9: after [fetchDocuments], [fetchDocument] returns for an id the last
    of the fetched documents that carries this id, and what the cache held
    before when no fetched document does; a document whose id is reused
    later in the same fetch is not retrievable. *)
Theorem fetchDocument_latest (files : list File) (st : SourceState) (sp : Splitter)
    (id : string) :
  fetchDocument id (snd (fst (fetchDocuments matter config files st sp))) =
  match latest id (fst (fst (fetchDocuments matter config files st sp))) with
  | Some d => Some d
  | None => fetchDocument id st
  end.
Proof.
  unfold fetchDocuments, fetchDocument. rewrite fetch_fold.
  cbn [fst snd documentCache app]. apply cache_all_lookup.
Qed.

(** X10: [disconnect] empties the cache, and after a fetch that follows it
    [getDocumentCount] is the number of distinct ids among the fetched
    documents, which never exceeds the number of documents returned. *)
Theorem getDocumentCount_distinct_ids (files : list File) (st : SourceState)
    (sp : Splitter) :
  getDocumentCount (snd (disconnect st)) = 0%nat /\
  getDocumentCount
    (snd (fst (fetchDocuments matter config files (snd (disconnect st)) sp))) =
    length (remove_dups (map doc_id
      (fst (fst (fetchDocuments matter config files (snd (disconnect st)) sp))))) /\
  (getDocumentCount
     (snd (fst (fetchDocuments matter config files (snd (disconnect st)) sp)))
   <= length (fst (fst (fetchDocuments matter config files (snd (disconnect st)) sp))))%nat.
Proof.
  unfold fetchDocuments, getDocumentCount, disconnect.
  rewrite fetch_fold. cbn [fst snd documentCache app].
  split; [reflexivity|].
  set (docs := flat_map contribution (outcomes matter config files sp)).
  assert (E : size (cache_all docs ∅) = length (remove_dups (map doc_id docs))).
  { rewrite <- (size_dom (D := gset string)), cache_all_dom, dom_empty_L, (right_id_L ∅ (∪)).
    apply size_list_to_set_dups. }
  split; [exact E|]. rewrite E, <- (length_map doc_id). apply length_remove_dups.
Qed.

End CacheAfterFetch.

(** *** Inferred labels, tags and metadata *)

Import Fields Flags.

Lemma first_rule_label rules text label :
  first_rule rules text = Some label -> label ∈ map fst rules.
Proof.
  unfold first_rule. destruct (find _ rules) as [rule|] eqn:E; [|discriminate].
  intros H. injection H as <-. apply find_some in E. destruct E as [E _].
  apply list_elem_of_In, in_map, E.
Qed.

(** X11: without a declared front-matter category the category of a section
    is one of the eleven fixed labels, and without a declared severity the
    severity is [error], [warning] or [suggestion]: inference never yields
    [info]. *)
Theorem inferred_labels (title content : string) (fm : frontmatter) :
  (declared fm "category" = None ->
   exists label, extractCategory title content fm = VStr label /\
                 label ∈ inferredCategories) /\
  (declared fm "severity" = None ->
   exists label, extractSeverity content fm = VStr label /\
                 label ∈ inferredSeverities).
Proof.
  split; intros H.
  - rewrite extractCategory_spec. unfold category_of. rewrite H.
    destruct (first_rule categoryRules _) as [label|] eqn:E.
    + exists label. split; [reflexivity|].
      apply first_rule_label, list_elem_of_In in E.
      apply list_elem_of_In. cbn in E |- *. tauto.
    + exists "general"%string. split; [reflexivity|].
      apply list_elem_of_In. cbn. tauto.
  - rewrite extractSeverity_spec. unfold severity_of. rewrite H.
    destruct (first_rule severityTiers _) as [label|] eqn:E.
    + exists label. split; [reflexivity|].
      apply first_rule_label in E. exact E.
    + exists "suggestion"%string. split; [reflexivity|].
      apply list_elem_of_In. cbn. tauto.
Qed.

(** The section of the end-to-end scenario, without front matter. *)
Lemma inferred_labels_witness :
  (exists label, extractCategory "Use const" "Prefer const." ∅ = VStr label /\
                 label ∈ inferredCategories) /\
  (exists label, extractSeverity "Prefer const." ∅ = VStr label /\
                 label ∈ inferredSeverities).
Proof.
  destruct (inferred_labels "Use const" "Prefer const." ∅) as [Hc Hs].
  split; [apply Hc | apply Hs]; reflexivity.
Defined.

(** X12: category and severity inference are case-insensitive in the title
    and the section text: two sections whose titles and texts differ in
    letter case only get the same category and the same severity. *)
Theorem inference_ignores_case (title title' content content' : string)
    (fm : frontmatter) :
  toLowerCase title = toLowerCase title' ->
  toLowerCase content = toLowerCase content' ->
  extractCategory title content fm = extractCategory title' content' fm /\
  extractSeverity content fm = extractSeverity content' fm.
Proof.
  intros Ht Hc. unfold extractCategory, extractSeverity.
  rewrite !toLowerCase_app, Ht, Hc. split; reflexivity.
Qed.

(** Upper-case and lower-case spellings of one section. *)
Lemma inference_ignores_case_witness :
  extractCategory "NAMING" "You MUST" ∅ = extractCategory "naming" "you must" ∅ /\
  extractSeverity "You MUST" ∅ = extractSeverity "you must" ∅.
Proof. apply inference_ignores_case; reflexivity. Defined.

Lemma lower_char_idem (c : ascii) : lower_char (lower_char c) = lower_char c.
Proof. destruct c as [[] [] [] [] [] [] [] []]; vm_compute; reflexivity. Qed.

Lemma toLowerCase_idem (s : string) : toLowerCase (toLowerCase s) = toLowerCase s.
Proof.
  induction s as [|c s IH]; [reflexivity|].
  cbn [toLowerCase]. rewrite lower_char_idem, IH. reflexivity.
Qed.

(** X13: the tags of a section hold no duplicate and are all in lower case,
    and a front-matter [tags] entry that is a single text rather than a
    list contributes no tag. *)
Theorem extractTags_normalised (content : string) (fm : frontmatter) :
  NoDup (extractTags content fm) /\
  Forall (fun t => toLowerCase t = t) (extractTags content fm) /\
  (forall text, extractTags content (<["tags" := VStr text]> fm) =
                extractTags content ∅).
Proof.
  unfold extractTags. split; [rewrite set_of_dedup; apply NoDup_dedup_first|].
  split.
  - rewrite set_of_dedup. apply Forall_forall. intros t Ht.
    apply elem_of_dedup_first, elem_of_app in Ht. destruct Ht as [Ht|Ht].
    + destruct (fm !! "tags") as [[| | | |items|]|]; try (inversion Ht; fail).
      apply list_elem_of_In, in_map_iff in Ht. destruct Ht as (v & <- & _).
      apply toLowerCase_idem.
    + apply list_elem_of_In, in_flat_map in Ht. destruct Ht as (m & _ & Ht).
      destruct (group 1 m) as [l|]; [|destruct Ht].
      destruct (negb (String.eqb l "") && negb (String.eqb l "text")); [|destruct Ht].
      destruct Ht as [<-|[]]. apply toLowerCase_idem.
  - intros text.
    rewrite (lookup_insert_eq (M := gmap string) fm "tags" (VStr text)).
    reflexivity.
Qed.

(** X14: in every practice document of a file the metadata language is the
    declared front-matter language, or [general] without one, whatever
    language the source is configured with, whereas the metadata framework
    is the declared front-matter framework and falls back to the configured
    framework. *)
Theorem practice_documents_language (config : SourceConfig)
    (relativePath body : string) (fm : frontmatter) :
  Forall (fun d =>
            doc_language d = Some (default (VStr "general") (declared fm "language")) /\
            doc_framework d =
              match declared fm "framework" with
              | Some v => Some v
              | None => VStr <$> cfg_framework config
              end)
         (map (practiceDocument config relativePath) (parsePractices body fm)).
Proof.
  rewrite parsePractices_sections, map_map. apply Forall_forall.
  intros d Hd. apply list_elem_of_In, in_map_iff in Hd. destruct Hd as (part & <- & _).
  split; [apply practice_language_ignores_config|].
  unfold doc_framework, practiceDocument, assemble, declared, or_else, truthy_opt.
  cbn [doc_metadata pm_framework framework].
  destruct (fm !! "framework") as [v|]; [destruct (truthy v)|]; reflexivity.
Qed.

Lemma value_eqb_eq : forall a b, value_eqb a b = true -> a = b.
Proof.
  fix IH 1. intros a b. destruct a as [|x|x|x|xs|]; destruct b as [|y|y|y|ys|];
    cbn; try discriminate; try reflexivity.
  - intros H. apply Bool.eqb_prop in H. congruence.
  - intros H. apply Z.eqb_eq in H. congruence.
  - intros H. apply String.eqb_eq in H. congruence.
  - intros H. f_equal. revert ys H.
    induction xs as [|x xs IHxs]; intros [|y ys] H; try discriminate; [reflexivity|].
    apply andb_true_iff in H. destruct H as [Hx Hxs].
    rewrite (IH x y Hx), (IHxs ys Hxs). reflexivity.
Qed.

Lemma value_eqb_refl : forall a, value_eqb a a = true.
Proof.
  fix IH 1. intros a. destruct a as [|x|x|x|xs|]; cbn; try reflexivity.
  - apply Bool.eqb_reflx.
  - apply Z.eqb_refl.
  - apply String.eqb_refl.
  - induction xs as [|x xs IHxs]; [reflexivity|].
    rewrite (IH x), IHxs. reflexivity.
Qed.

Section SetOf.

Context {A : Type} (eqb : A -> A -> bool).
Hypothesis eqb_eq : forall a b, eqb a b = true <-> a = b.

Lemma existsb_eqb (x : A) (acc : list A) : existsb (eqb x) acc = true <-> x ∈ acc.
Proof.
  rewrite existsb_exists, list_elem_of_In. split.
  - intros (y & Hy & E). apply eqb_eq in E. subst y. exact Hy.
  - intros H. exists x. split; [exact H | apply eqb_eq; reflexivity].
Qed.

Lemma set_add_spec (acc : list A) (x : A) :
  NoDup acc ->
  NoDup (set_add eqb acc x) /\ forall y, y ∈ set_add eqb acc x <-> y ∈ acc \/ y = x.
Proof.
  intros Hnd. unfold set_add. destruct (existsb (eqb x) acc) eqn:E.
  - apply existsb_eqb in E. split; [exact Hnd|].
    intros y. split; [auto | intros [H| ->]; assumption].
  - assert (Hx : x ∉ acc).
    { intros H. apply existsb_eqb in H. congruence. }
    split.
    + apply NoDup_app. split; [exact Hnd|]. split; [|apply NoDup_singleton].
      intros y Hy Hy'. apply elem_of_cons in Hy'.
      destruct Hy' as [->|Hy']; [contradiction | inversion Hy'].
    + intros y. rewrite elem_of_app, elem_of_cons. split.
      * intros [H|[H|H]]; [auto | auto | inversion H].
      * intros [H|H]; auto.
Qed.

Lemma set_fold_spec (l acc : list A) :
  NoDup acc ->
  NoDup (fold_left (set_add eqb) l acc) /\
  forall y, y ∈ fold_left (set_add eqb) l acc <-> y ∈ acc \/ y ∈ l.
Proof.
  revert acc. induction l as [|x l IH]; intros acc Hnd; cbn [fold_left].
  - split; [exact Hnd|]. intros y. split; [auto | intros [H|H]; [exact H | inversion H]].
  - destruct (set_add_spec acc x Hnd) as [Hnd' Hmem].
    destruct (IH _ Hnd') as [H1 H2]. split; [exact H1|].
    intros y. rewrite H2, Hmem, elem_of_cons. tauto.
Qed.

Lemma set_of_spec (l : list A) :
  NoDup (set_of eqb l) /\ forall y, y ∈ set_of eqb l <-> y ∈ l.
Proof.
  destruct (set_fold_spec l [] (NoDup_nil_2)) as [H1 H2]. split; [exact H1|].
  intros y. unfold set_of. rewrite H2. split; [intros [H|H]; [inversion H | exact H] | auto].
Qed.

End SetOf.

(** X15: the documents of a file are its practice documents, all of type
    [practice], followed by exactly one overview of type [style-guide]; the
    overview's practice count is the number of practice documents, and its
    category list holds every category of a practice document of the file
    once and nothing else. *)
Theorem overview_summarises_practices (config : SourceConfig)
    (relativePath baseName body : string) (fm : frontmatter) :
  exists practiceDocs overview m,
    documentsOf config relativePath baseName body fm = practiceDocs ++ [overview] /\
    Forall (fun d => doc_type d = "practice"%string) practiceDocs /\
    doc_type overview = "style-guide"%string /\
    doc_metadata overview = MOverview m /\
    om_practiceCount m = length practiceDocs /\
    NoDup (om_categories m) /\
    (forall c, c ∈ om_categories m <->
               exists d, d ∈ practiceDocs /\ doc_category d = Some c).
Proof.
  unfold documentsOf. eexists _, _, _. split; [reflexivity|].
  split; [apply Forall_forall; intros d Hd;
          apply list_elem_of_In, in_map_iff in Hd; destruct Hd as (p & <- & _);
          reflexivity|].
  split; [reflexivity|]. split; [reflexivity|].
  cbn [om_practiceCount om_categories]. split; [rewrite length_map; reflexivity|].
  assert (Heq : forall a b, value_eqb a b = true <-> a = b).
  { intros a b. split; [apply value_eqb_eq | intros ->; apply value_eqb_refl]. }
  destruct (set_of_spec value_eqb Heq (map category (parsePractices body fm))) as [Hnd Hmem].
  split; [exact Hnd|]. intros c. rewrite Hmem, list_elem_of_In, in_map_iff. split.
  - intros (p & <- & Hp). exists (practiceDocument config relativePath p).
    split; [|reflexivity]. apply list_elem_of_In, in_map, Hp.
  - intros (d & Hd & Hc). apply list_elem_of_In, in_map_iff in Hd.
    destruct Hd as (p & <- & Hp). exists p. split; [|exact Hp].
    cbn in Hc. congruence.
Qed.

(** *** Soundness and monotonicity of the matcher *)

Lemma step_char_sound st ok k res :
  step_char st ok k = Some res -> exists st', advanced st st' /\ k st' = Some res.
Proof.
  unfold step_char. destruct st as [pos rest caps]. cbn [m_rest m_pos m_caps].
  destruct rest as [|c rest]; [discriminate|].
  destruct (ok c); [|discriminate]. intros H.
  exists (MState (S pos) rest caps). split; [|exact H].
  exists (String c EmptyString). cbn. split; [reflexivity | lia].
Qed.

Lemma star_loop_sound body g k budget : forall st res,
  (forall st0 k0 res0, body st0 k0 = Some res0 ->
                       exists st', advanced st0 st' /\ k0 st' = Some res0) ->
  star_loop body g k budget st = Some res ->
  exists st', advanced st st' /\ k st' = Some res.
Proof.
  induction budget as [|b IH]; intros st res Hbody; cbn [star_loop].
  - intros H. exists st. split; [apply advanced_refl | exact H].
  - assert (Hagain : forall res0,
      body st (fun st' => if Nat.eqb (m_pos st') (m_pos st) then None
                          else star_loop body g k b st') = Some res0 ->
      exists st', advanced st st' /\ k st' = Some res0).
    { intros res0 H. apply Hbody in H. destruct H as (st1 & Hadv & H).
      destruct (Nat.eqb _ _); [discriminate H|].
      apply IH in H; [|exact Hbody]. destruct H as (st2 & Hadv2 & H).
      exists st2. split; [eapply advanced_trans; eauto | exact H]. }
    destruct g; unfold first_some.
    + destruct (body st _) as [r|] eqn:E.
      * intros H. injection H as <-. apply Hagain. reflexivity.
      * intros H. exists st. split; [apply advanced_refl | exact H].
    + destruct (k st) as [r|] eqn:E.
      * intros H. injection H as <-. exists st. split; [apply advanced_refl | exact E].
      * apply Hagain.
Qed.

Lemma run_sound ic r : forall st k res,
  run ic r st k = Some res -> exists st', advanced st st' /\ k st' = Some res.
Proof.
  induction r as [| a | | cl | a IHa b IHb | a IHa b IHb | g a IHa | n a IHa
                  | a IHa | | ]; intros st k res; cbn [run].
  - intros H. exists st. split; [apply advanced_refl | exact H].
  - apply step_char_sound.
  - apply step_char_sound.
  - apply step_char_sound.
  - intros H. apply IHa in H. destruct H as (st1 & Hadv & H).
    apply IHb in H. destruct H as (st2 & Hadv2 & H).
    exists st2. split; [eapply advanced_trans; eauto | exact H].
  - unfold first_some. destruct (run ic a st k) as [r|] eqn:E.
    + intros H. injection H as <-. apply IHa, E.
    + apply IHb.
  - apply star_loop_sound. exact IHa.
  - intros H. apply IHa in H. destruct H as (st1 & Hadv & H).
    eexists. split; [|exact H].
    destruct Hadv as (x & Hx & Px). exists x. split; [exact Hx | exact Px].
  - destruct (run ic a st (fun st' => Some st')) as [st1|]; [|discriminate].
    intros H. eexists. split; [|exact H].
    exists EmptyString. split; [reflexivity | simpl; lia].
  - destruct (Nat.eqb (m_pos st) 0); [|discriminate].
    intros H. exists st. split; [apply advanced_refl | exact H].
  - destruct (m_rest st) eqn:E; [|discriminate].
    intros H. exists st. split; [apply advanced_refl | exact H].
Qed.

Lemma step_char_mono st ok (k k' : mstate -> option mstate) :
  (forall st', k st' <> None -> k' st' <> None) ->
  step_char st ok k <> None -> step_char st ok k' <> None.
Proof.
  intros Hk. unfold step_char. destruct (m_rest st) as [|c rest]; [intros H; exact H|].
  destruct (ok c); [apply Hk | intros H; exact H].
Qed.

Lemma first_some_mono a a' b b' :
  (a <> None -> a' <> None) -> (b tt <> None -> b' tt <> None) ->
  first_some a b <> None -> first_some a' b' <> None.
Proof.
  intros Ha Hb. unfold first_some. destruct a as [r|].
  - intros _. destruct a'; [discriminate|]. exfalso. apply Ha; [discriminate | reflexivity].
  - intros H. destruct a'; [discriminate|]. apply Hb, H.
Qed.

Lemma star_loop_mono body g (k k' : mstate -> option mstate) budget : forall st,
  (forall st0 k1 k2, (forall st', k1 st' <> None -> k2 st' <> None) ->
                     body st0 k1 <> None -> body st0 k2 <> None) ->
  (forall st', k st' <> None -> k' st' <> None) ->
  star_loop body g k budget st <> None -> star_loop body g k' budget st <> None.
Proof.
  induction budget as [|b IH]; intros st Hbody Hk; cbn [star_loop]; [apply Hk|].
  assert (Hagain :
    body st (fun st' => if Nat.eqb (m_pos st') (m_pos st) then None
                        else star_loop body g k b st') <> None ->
    body st (fun st' => if Nat.eqb (m_pos st') (m_pos st) then None
                        else star_loop body g k' b st') <> None).
  { apply Hbody. intros st'. destruct (Nat.eqb _ _); [intros H; exact H|].
    apply IH; assumption. }
  destruct g; apply first_some_mono; auto.
Qed.

Lemma run_mono ic r : forall st (k k' : mstate -> option mstate),
  (forall st', k st' <> None -> k' st' <> None) ->
  run ic r st k <> None -> run ic r st k' <> None.
Proof.
  induction r as [| a | | cl | a IHa b IHb | a IHa b IHb | g a IHa | n a IHa
                  | a IHa | | ]; intros st k k' Hk; cbn [run].
  - apply Hk.
  - apply step_char_mono, Hk.
  - apply step_char_mono, Hk.
  - apply step_char_mono, Hk.
  - apply IHa. intros st'. apply IHb, Hk.
  - apply first_some_mono; [apply IHa, Hk | apply IHb, Hk].
  - apply star_loop_mono; [exact IHa | exact Hk].
  - apply IHa. intros st'. apply Hk.
  - destruct (run ic a st (fun st' => Some st')); [apply Hk | intros H; exact H].
  - destruct (Nat.eqb (m_pos st) 0); [apply Hk | intros H; exact H].
  - destruct (m_rest st); [apply Hk | intros H; exact H].
Qed.

Lemma step_char_test st ok ok' k :
  (forall c, ok c = ok' c) -> step_char st ok k = step_char st ok' k.
Proof.
  intros H. unfold step_char. destruct (m_rest st) as [|c rest]; [reflexivity|].
  rewrite H. reflexivity.
Qed.

Lemma star_loop_body body body' g k budget : forall st,
  (forall st0 k0, body st0 k0 = body' st0 k0) ->
  (forall st0 k1 k2, (forall st', advanced st0 st' -> k1 st' = k2 st') ->
                     body' st0 k1 = body' st0 k2) ->
  star_loop body g k budget st = star_loop body' g k budget st.
Proof.
  induction budget as [|b IH]; intros st Hbody Hext; cbn [star_loop]; [reflexivity|].
  rewrite Hbody.
  rewrite (Hext st _ (fun st' => if Nat.eqb (m_pos st') (m_pos st) then None
                                 else star_loop body' g k b st')); [reflexivity|].
  intros st' _. destruct (Nat.eqb _ _); [reflexivity|]. apply IH; assumption.
Qed.

Lemma run_caseless r : caseless r -> forall st k, run true r st k = run false r st k.
Proof.
  induction r as [| a | | cl | a IHa b IHb | a IHa b IHb | g a IHa | n a IHa
                  | a IHa | | ]; cbn [caseless]; intros Hr st k; cbn [run];
    try reflexivity.
  - apply step_char_test, Hr.
  - apply step_char_test, Hr.
  - destruct Hr as [Ha Hb]. rewrite (IHa Ha). apply run_ext.
    intros st' _. apply (IHb Hb).
  - destruct Hr as [Ha Hb]. rewrite (IHa Ha), (IHb Hb). reflexivity.
  - apply star_loop_body; [apply (IHa Hr) | apply run_ext].
  - apply (IHa Hr).
  - rewrite (IHa Hr). reflexivity.
Qed.

Lemma caselessb_spec (r : regex) : caselessb r = true -> caseless r.
Proof.
  induction r as [| a | | cl | a IHa b IHb | a IHa b IHb | g a IHa | n a IHa
                  | a IHa | | ]; cbn [caselessb caseless]; intros H; auto.
  - intros c. apply eqb_prop, (every_char_spec _ H).
  - intros c. apply eqb_prop, (every_char_spec _ H).
  - apply andb_true_iff in H. destruct H. auto.
  - apply andb_true_iff in H. destruct H. auto.
Qed.

Lemma fencedBlock_caseless : caseless fencedBlock.
Proof. apply caselessb_spec. vm_compute. reflexivity. Qed.

Lemma exec_from_complete p (x y : string) : forall pos,
  match_at p (pos + String.length x) y <> None ->
  exec_from p pos (x +:+ y) <> None.
Proof.
  induction x as [|c x IH]; intros pos H.
  - rewrite app_empty. cbn [String.length] in H. rewrite Nat.add_0_r in H.
    destruct y; cbn [exec_from]; destruct (match_at p pos _); congruence.
  - rewrite app_cons. cbn [exec_from].
    destruct (match_at p pos _); [discriminate|].
    apply IH. cbn [String.length] in H.
    replace (S pos + String.length x)%nat with (pos + S (String.length x))%nat by lia.
    exact H.
Qed.

Lemma labelled_needs_block (alts : regex) st k res :
  run true (RSeq alts labelledTail) st k = Some res ->
  exists x y, m_rest st = x +:+ y /\
              forall pos, match_at codeBlockPattern pos y <> None.
Proof.
  rewrite run_seq. intros H.
  apply run_sound in H. destruct H as (st1 & Hadv1 & H).
  unfold labelledTail in H. rewrite run_seq in H.
  apply run_sound in H. destruct H as (st2 & Hadv2 & H).
  rewrite run_seq in H.
  apply run_sound in H. destruct H as (st3 & Hadv3 & H).
  rewrite (run_caseless _ fencedBlock_caseless) in H.
  assert (Hsome : run false fencedBlock st3 (fun st => Some st) <> None).
  { apply (run_mono false fencedBlock st3 k); [discriminate | congruence]. }
  destruct (run false fencedBlock st3 (fun st => Some st)) as [res'|] eqn:E;
    [|contradiction].
  destruct st3 as [p3 r3 c3]. apply fenced_sound in E.
  destruct E as (w & c & tail & -> & Hw & _).
  pose proof (advanced_trans _ _ _ Hadv1 (advanced_trans _ _ _ Hadv2 Hadv3)) as Hadv.
  destruct Hadv as (x & Hx & _). cbn [m_rest] in Hx.
  exists x, (block_text w c +:+ tail). split; [exact Hx|].
  intros pos. apply codeBlock_match_complete, Hw.
Qed.

Lemma labelled_match_needs_block (alts : regex) (content : string) (m : result) :
  match_first (Pattern (RSeq alts labelledTail) true) content = Some m ->
  exec_from codeBlockPattern 0 content <> None.
Proof.
  unfold match_first. intros H. apply exec_from_first in H.
  destruct H as (k & Hk & H & _). unfold match_at in H.
  cbn [p_regex p_ignoreCase] in H.
  destruct (run true _ _ _) as [res|] eqn:E; [|discriminate H].
  apply labelled_needs_block in E. destruct E as (x & y & Hxy & Hblock).
  cbn [m_rest] in Hxy.
  rewrite <- (take_drop k content), Hxy, <- str_app_assoc.
  apply exec_from_complete, Hblock.
Qed.

Lemma matchAll_nil p s : matchAll p s = [] <-> exec_from p 0 s = None.
Proof.
  unfold matchAll. cbn [matchAll_from].
  destruct (exec_from p 0 s); split; intros H; congruence.
Qed.

(** *** Queries over the document store *)

Import BestPracticesProvider.

Lemma slice_to_length {A} (items : list A) (end_ : Z) :
  0 <= end_ -> Z.of_nat (length (slice_to items end_)) = Z.min end_ (Z.of_nat (length items)).
Proof.
  intros H. unfold slice_to. destruct (end_ <? 0) eqn:E; [lia|].
  rewrite length_firstn. lia.
Qed.

Lemma slice_to_negative {A} (items : list A) (k : nat) :
  (0 < k)%nat ->
  slice_to items (- Z.of_nat k) = firstn (length items - k) items.
Proof.
  intros H. unfold slice_to. destruct (- Z.of_nat k <? 0) eqn:E; [|lia].
  f_equal. lia.
Qed.

Lemma includes_refl (s : string) : includes s s = true.
Proof.
  apply includes_app. exists EmptyString, EmptyString.
  rewrite app_empty, str_app_empty_r. reflexivity.
Qed.

Lemma includes_trans (a b c : string) :
  includes a b = true -> includes b c = true -> includes a c = true.
Proof.
  intros Hab Hbc. apply includes_app in Hab, Hbc.
  destruct Hab as (p1 & q1 & ->). destruct Hbc as (p2 & q2 & ->).
  apply includes_app. exists (p1 +:+ p2), (q2 +:+ q1).
  rewrite !str_app_assoc. reflexivity.
Qed.

Lemma includes_anything (s : string) : includes s EmptyString = true.
Proof. destruct s; reflexivity. Qed.

Lemma matching_limit (category : string) (language severity : option string)
    (limit : option Z) (allDocs : list Document) :
  List.filter (inCategory category language
                 (Some {| opt_limit := limit; opt_severity := severity |})) allDocs =
  List.filter (inCategory category language
                 (Some {| opt_limit := None; opt_severity := severity |})) allDocs.
Proof. reflexivity. Qed.

(** X17: the limit of [getPracticesByCategory]: a limit of 0 is treated as
    absent, and without a limit at most 20 documents are returned; a
    positive limit [n] bounds the result by [n]; a negative limit [-k] does
    not bound the result but drops the last [k] matching documents. *)
Theorem getPracticesByCategory_limit (allDocs : list Document) (category : string)
    (language severity : option string) (n : positive) :
  getPracticesByCategory allDocs category language
    (Some {| opt_limit := Some 0; opt_severity := severity |}) =
  getPracticesByCategory allDocs category language
    (Some {| opt_limit := None; opt_severity := severity |}) /\
  (length (getPracticesByCategory allDocs category language
             (Some {| opt_limit := None; opt_severity := severity |})) <= 20)%nat /\
  (length (getPracticesByCategory allDocs category language
             (Some {| opt_limit := Some (Z.pos n); opt_severity := severity |}))
   <= Pos.to_nat n)%nat /\
  getPracticesByCategory allDocs category language
    (Some {| opt_limit := Some (Z.neg n); opt_severity := severity |}) =
  firstn (length (getPracticesByCategory allDocs category language
                    (Some {| opt_limit := Some (Z.of_nat (length allDocs) + 1);
                             opt_severity := severity |})) - Pos.to_nat n)
    (getPracticesByCategory allDocs category language
       (Some {| opt_limit := Some (Z.of_nat (length allDocs) + 1);
                opt_severity := severity |})).
Proof.
  unfold getPracticesByCategory. cbn [mbind option_bind opt_limit].
  split; [reflexivity|]. split.
  { apply Nat2Z.inj_le. rewrite slice_to_length by lia. lia. }
  split.
  - cbn [Z.eqb]. apply Nat2Z.inj_le. rewrite slice_to_length by lia. lia.
  - cbn [Z.eqb].
    replace (Z.of_nat (length allDocs) + 1 =? 0) with false
      by (symmetry; apply Z.eqb_neq; lia).
    rewrite !(matching_limit _ _ _ (Some _)).
    set (matching := List.filter _ allDocs).
    assert (Hall : slice_to matching (Z.of_nat (length allDocs) + 1) = matching).
    { unfold slice_to. replace (Z.of_nat (length allDocs) + 1 <? 0) with false
        by (symmetry; apply Z.ltb_ge; lia).
      apply firstn_all2.
      pose proof (filter_length_le
        (inCategory category language
           (Some {| opt_limit := None; opt_severity := severity |})) allDocs) as Hle.
      fold matching in Hle. lia. }
    rewrite Hall. replace (Z.neg n) with (- Z.of_nat (Pos.to_nat n)) by lia.
    apply slice_to_negative. lia.
Qed.

Lemma take_elem_of {A} (n : nat) (l : list A) (x : A) : In x (firstn n l) -> In x l.
Proof.
  revert l. induction n as [|n IH]; intros [|y l]; cbn; try tauto.
  intros [H|H]; [left; exact H | right; apply IH, H].
Qed.

(** X18: [getPracticesByCategory] returns documents of the store, in store
    order; each is of type [practice] and of the requested category; when a
    language is requested its language is that one or [general]; when a
    severity is requested it has that severity. *)
Theorem getPracticesByCategory_sound (allDocs : list Document) (category : string)
    (language : option string) (options : option CategoryOptions) :
  getPracticesByCategory allDocs category language options `sublist_of` allDocs /\
  Forall (fun d =>
            doc_type d = "practice"%string /\
            doc_category d = Some (VStr category) /\
            (truthy_str language = false \/
             doc_language d = (VStr <$> language) \/
             doc_language d = Some (VStr "general")) /\
            (truthy_str (options ≫= opt_severity) = false \/
             doc_severity d = (VStr <$> (options ≫= opt_severity))))
         (getPracticesByCategory allDocs category language options).
Proof.
  unfold getPracticesByCategory. split.
  - unfold slice_to. etransitivity; [apply sublist_take|].
    induction allDocs as [|d l IH]; [constructor|].
    cbn [List.filter]. destruct (inCategory _ _ _ d);
      [apply sublist_skip | apply sublist_cons]; exact IH.
  - apply Forall_forall. intros d Hd. apply list_elem_of_In, take_elem_of in Hd.
    apply filter_In in Hd. destruct Hd as [_ Hd]. unfold inCategory in Hd.
    destruct (String.eqb (doc_type d) "practice") eqn:Et; [|discriminate Hd].
    cbn [negb] in Hd.
    destruct (differs (doc_category d) category) eqn:Ec; [discriminate Hd|].
    split; [apply String.eqb_eq, Et|]. split.
    { unfold differs in Ec. destruct (doc_category d) as [[| | |t| |]|]; try discriminate Ec.
      apply negb_false_iff, String.eqb_eq in Ec. rewrite Ec. reflexivity. }
    split.
    + destruct (truthy_str language) eqn:Hl; [right | left; reflexivity].
      cbn [andb] in Hd.
      destruct language as [lang|]; [|cbn in Hl; discriminate Hl]. unfold default in *;
        cbn [from_option Datatypes.id fmap option_fmap option_map] in *.
      destruct (differs (doc_language d) lang) eqn:E1.
      * destruct (differs (doc_language d) "general") eqn:E2;
          [cbn [andb] in Hd; discriminate Hd|].
        right. unfold differs in E2.
        destruct (doc_language d) as [[| | |t| |]|]; try discriminate E2.
        apply negb_false_iff, String.eqb_eq in E2. rewrite E2. reflexivity.
      * left. unfold differs in E1.
        destruct (doc_language d) as [[| | |t| |]|]; try discriminate E1.
        apply negb_false_iff, String.eqb_eq in E1. rewrite E1. reflexivity.
    + destruct (truthy_str language && _ && _); [discriminate Hd|].
      destruct (truthy_str (options ≫= opt_severity)) eqn:Hs; [right | left; reflexivity].
      cbn [andb] in Hd.
      destruct (options ≫= opt_severity) as [sev|]; [|cbn in Hs; discriminate Hs].
      unfold default in *;
        cbn [from_option Datatypes.id fmap option_fmap option_map] in *.
      destruct (differs (doc_severity d) sev) eqn:E1;
        [cbn [andb] in Hd; discriminate Hd|].
      unfold differs in E1.
      destruct (doc_severity d) as [[| | |t| |]|]; try discriminate E1.
      apply negb_false_iff, String.eqb_eq in E1. rewrite E1. reflexivity.
Qed.

(** X19: [getPracticesForLintRule] matches rule names by case-insensitive
    containment: a document is found through any text contained in one of
    its rules, shortening the requested text never loses a document, and
    the empty text finds every document that has a lint rule. *)
Theorem getPracticesForLintRule_substring (allDocs : list Document)
    (doc : Document) (rule ruleId ruleId' : string) :
  (In doc allDocs -> In rule (default [] (doc_lintRules doc)) ->
   includes (toLowerCase rule) (toLowerCase ruleId) = true ->
   In doc (getPracticesForLintRule allDocs ruleId)) /\
  (includes (toLowerCase ruleId) (toLowerCase ruleId') = true ->
   In doc (getPracticesForLintRule allDocs ruleId) ->
   In doc (getPracticesForLintRule allDocs ruleId')) /\
  (In doc (getPracticesForLintRule allDocs "") <->
   In doc allDocs /\ default [] (doc_lintRules doc) <> []).
Proof.
  unfold getPracticesForLintRule. split; [|split].
  - intros Hd Hr Hi. apply filter_In. split; [exact Hd|].
    apply existsb_exists. exists rule. split; assumption.
  - intros Hsub Hd. apply filter_In in Hd. destruct Hd as [Hd Hex].
    apply filter_In. split; [exact Hd|].
    apply existsb_exists in Hex. destruct Hex as (r & Hr & Hi).
    apply existsb_exists. exists r. split; [exact Hr|].
    eapply includes_trans; eassumption.
  - rewrite filter_In. split; intros [Hd H]; (split; [exact Hd|]).
    + destruct (default [] (doc_lintRules doc)); [discriminate H | discriminate].
    + destruct (default [] (doc_lintRules doc)) as [|r l]; [contradiction|].
      cbn [existsb toLowerCase]. rewrite includes_anything. reflexivity.
Qed.

(** The practice that names [prefer-const] is found through [PREFER-const]
    and then through the shorter [Const]. *)
Lemma getPracticesForLintRule_substring_witness :
  exists doc,
    In doc (getPracticesForLintRule sample_store "PREFER-const") /\
    In doc (getPracticesForLintRule sample_store "Const").
Proof.
  destruct (hd_error sample_store) as [doc|] eqn:E; [|discriminate E].
  exists doc.
  destruct (getPracticesForLintRule_substring sample_store doc "prefer-const"
              "PREFER-const" "Const") as (Hfound & Hshorter & _).
  assert (H : In doc (getPracticesForLintRule sample_store "PREFER-const")).
  { apply Hfound.
    - vm_compute in E. injection E as <-. vm_compute. left. reflexivity.
    - vm_compute in E. injection E as <-. vm_compute. left. reflexivity.
    - reflexivity. }
  split; [exact H | apply Hshorter; [reflexivity | exact H]].
Defined.

(** *** The structured practice source *)

Lemma set_of_snoc (l : list string) (x : string) :
  set_of String.eqb (l ++ [x]) = set_add String.eqb (set_of String.eqb l) x.
Proof. unfold set_of. rewrite fold_left_app. reflexivity. Qed.

Lemma existsb_eqb_string (x : string) (l : list string) :
  existsb (String.eqb x) l = true <-> In x l.
Proof.
  rewrite existsb_exists. split.
  - intros (y & Hy & E). apply String.eqb_eq in E. subst y. exact Hy.
  - intros H. exists x. split; [exact H | apply String.eqb_refl].
Qed.

Lemma pushPractice_keys (p : SPS.Practice) (F : string -> list SPS.Practice)
    (keys : list string) :
  NoDup keys ->
  SPS.pushPractice p (map (fun k => (k, F k)) keys) =
  if existsb (String.eqb (SPS.p_category p)) keys
  then map (fun k => (k, F k ++ if String.eqb (SPS.p_category p) k then [p] else [])) keys
  else map (fun k => (k, F k)) keys ++ [(SPS.p_category p, [p])].
Proof.
  induction keys as [|k keys IH]; intros Hnd; [reflexivity|].
  apply NoDup_cons in Hnd. destruct Hnd as [Hk Hnd].
  cbn [map SPS.pushPractice existsb].
  rewrite (String.eqb_sym (SPS.p_category p) k).
  destruct (String.eqb_spec k (SPS.p_category p)) as [->|Hne]; cbn [orb].
  - f_equal. apply map_ext_in. intros k' Hk'.
    destruct (String.eqb_spec (SPS.p_category p) k') as [<-|_].
    + exfalso. apply Hk, list_elem_of_In, Hk'.
    + rewrite app_nil_r. reflexivity.
  - rewrite (IH Hnd). destruct (existsb _ keys).
    + cbn [map]. rewrite app_nil_r. reflexivity.
    + reflexivity.
Qed.

Lemma filter_snoc {A} (f : A -> bool) (l : list A) (x : A) :
  List.filter f (l ++ [x]) = List.filter f l ++ (if f x then [x] else []).
Proof. rewrite List.filter_app. reflexivity. Qed.

Lemma NoDup_set_of (l : list string) : NoDup (set_of String.eqb l).
Proof. rewrite set_of_dedup. apply NoDup_dedup_first. Qed.

Lemma In_set_of (x : string) (l : list string) :
  In x (set_of String.eqb l) <-> In x l.
Proof.
  rewrite set_of_dedup, <- !list_elem_of_In. apply elem_of_dedup_first.
Qed.

Lemma grouped_snoc (l : list SPS.Practice) (p : SPS.Practice) :
  SPS.pushPractice p (SPS.grouped l) = SPS.grouped (l ++ [p]).
Proof.
  unfold SPS.grouped. rewrite pushPractice_keys by apply NoDup_set_of.
  rewrite map_app. cbn [map]. rewrite set_of_snoc. unfold set_add.
  destruct (existsb _ _) eqn:E.
  - apply map_ext. intros k. rewrite filter_snoc. reflexivity.
  - rewrite map_app. cbn [map]. f_equal.
    + apply map_ext_in. intros k Hk. rewrite filter_snoc.
      destruct (String.eqb_spec (SPS.p_category p) k) as [<-|_]; [|rewrite app_nil_r; reflexivity].
      apply existsb_eqb_string in Hk. congruence.
    + rewrite filter_snoc, String.eqb_refl. f_equal. f_equal.
      assert (Hnone : forall q, In q l -> SPS.p_category q <> SPS.p_category p).
      { intros q Hq Heq.
        assert (Hin : In (SPS.p_category p) (set_of String.eqb (map SPS.p_category l))).
        { apply In_set_of. rewrite <- Heq. apply in_map, Hq. }
        apply existsb_eqb_string in Hin. congruence. }
      clear E. induction l as [|q l IHl]; [reflexivity|].
      cbn [List.filter]. destruct (String.eqb_spec (SPS.p_category q) (SPS.p_category p)) as [Heq|_].
      * exfalso. apply (Hnone q); [left; reflexivity | exact Heq].
      * apply IHl. intros q' Hq'. apply Hnone. right. exact Hq'.
Qed.

Lemma pushPractice_total (p : SPS.Practice) (m : list (string * list SPS.Practice)) :
  length (concat (map snd (SPS.pushPractice p m))) = S (length (concat (map snd m))).
Proof.
  induction m as [|[cat ps] m IH]; [reflexivity|].
  cbn [SPS.pushPractice]. destruct (String.eqb cat (SPS.p_category p)).
  - cbn [map snd concat]. rewrite !List.length_app. cbn [length]. lia.
  - cbn [map snd concat]. rewrite !List.length_app, IH. lia.
Qed.

(** X20: the [byCategory] map of the style-guide overview holds the
    categories in the order of their first practice, each once, each with
    exactly the practices of that category in guide order; the groups
    together hold as many practices as the guide. *)
Theorem byCategory_grouped (practices : list SPS.Practice) :
  SPS.byCategory practices = SPS.grouped practices /\
  NoDup (map fst (SPS.byCategory practices)) /\
  length (concat (map snd (SPS.byCategory practices))) = length practices.
Proof.
  assert (E : SPS.byCategory practices = SPS.grouped practices).
  { unfold SPS.byCategory.
    induction practices as [|p l IH] using rev_ind; [reflexivity|].
    rewrite fold_left_app. cbn [fold_left]. rewrite IH. apply grouped_snoc. }
  split; [exact E|]. split.
  - rewrite E. unfold SPS.grouped. rewrite map_map. cbn [fst].
    rewrite map_id. apply NoDup_set_of.
  - clear E. unfold SPS.byCategory.
    induction practices as [|p l IH] using rev_ind; [reflexivity|].
    rewrite fold_left_app. cbn [fold_left].
    rewrite pushPractice_total, IH, List.length_app. cbn [length]. lia.
Qed.

Lemma processPractices_fold (name : string) (relativePath : string)
    (defaults : SPS.Defaults) (practices : list SPS.Practice)
    (docs : list SPS.Document) (cache : gmap string SPS.Document) :
  fold_left
    (fun acc practice =>
       let doc := SPS.practiceDocument name relativePath defaults practice in
       (fst acc ++ [doc], <[SPS.doc_id doc := doc]> (snd acc)))
    practices (docs, cache) =
  (docs ++ map (SPS.practiceDocument name relativePath defaults) practices,
   fold_left (fun c doc => <[SPS.doc_id doc := doc]> c)
     (map (SPS.practiceDocument name relativePath defaults) practices) cache).
Proof.
  revert docs cache. induction practices as [|p l IH]; intros docs cache.
  - cbn. rewrite app_nil_r. reflexivity.
  - cbn [fold_left map]. rewrite IH. cbn [fst snd].
    rewrite <- app_assoc. reflexivity.
Qed.

Lemma practiceDocument_language (name relativePath : string)
    (defaults : SPS.Defaults) (p : SPS.Practice) :
  exists m,
    SPS.doc_metadata (SPS.practiceDocument name relativePath defaults p) = SPS.MPractice m /\
    SPS.pm_language m = SPS.languageOf defaults p.
Proof.
  unfold SPS.practiceDocument. cbn [SPS.doc_metadata].
  eexists. split; [reflexivity|]. cbn [SPS.pm_language].
  unfold SPS.languageOf, SPS.or_str, truthy_str.
  destruct (String.eqb (SPS.p_language p) "") eqn:E; cbn [negb].
  - destruct (SPS.d_language defaults) as [l|]; [|reflexivity].
    destruct (String.eqb l "") eqn:El; cbn [negb]; rewrite ?El; reflexivity.
  - rewrite E. reflexivity.
Qed.

(** X21: [processStyleGuide] returns one document of type [practice] per
    practice of the guide, in order, followed by one overview of type
    [style-guide] whose practice count is the number of practices and whose
    category list holds each category of the guide once; the language of a
    practice document is the practice's own language unless that is empty,
    so the guide's language only reaches practices with an empty language
    (not those that carry the schema default [general]); and the overview
    is in the cache under its id afterwards. *)
Theorem processStyleGuide_documents (name relativePath : string)
    (guide : SPS.StyleGuide) (cache : gmap string SPS.Document) :
  exists practiceDocs overview m,
    fst (SPS.processStyleGuide name guide relativePath cache) = practiceDocs ++ [overview] /\
    Forall2 (fun p d =>
               SPS.doc_type d = "practice"%string /\
               SPS.doc_id d = name +:+ ":" +:+ relativePath +:+ "#" +:+ SPS.p_id p /\
               exists pm, SPS.doc_metadata d = SPS.MPractice pm /\
                          SPS.pm_language pm =
                            SPS.languageOf
                              {| SPS.d_language := Some (SPS.g_language guide);
                                 SPS.d_framework := SPS.g_framework guide |} p)
            (SPS.g_practices guide) practiceDocs /\
    SPS.doc_type overview = "style-guide"%string /\
    SPS.doc_metadata overview = SPS.MOverview m /\
    SPS.om_practiceCount m = length practiceDocs /\
    NoDup (SPS.om_categories m) /\
    (forall c, In c (SPS.om_categories m) <->
               exists p, In p (SPS.g_practices guide) /\ SPS.p_category p = c) /\
    snd (SPS.processStyleGuide name guide relativePath cache) !! SPS.doc_id overview
      = Some overview.
Proof.
  unfold SPS.processStyleGuide, SPS.processPractices.
  rewrite processPractices_fold. cbn [app fst snd].
  eexists _, _, _. split; [reflexivity|]. split.
  { induction (SPS.g_practices guide) as [|p l IH]; cbn [map]; constructor; [|exact IH].
    split; [reflexivity|]. split; [reflexivity|]. apply practiceDocument_language. }
  split; [reflexivity|]. split; [reflexivity|].
  cbn [SPS.om_practiceCount SPS.om_categories SPS.doc_id].
  split; [rewrite length_map; reflexivity|].
  split; [apply NoDup_set_of|]. split.
  - intros c. rewrite In_set_of, in_map_iff.
    split; intros (p & H1 & H2); exists p; split; assumption.
  - apply lookup_insert_eq.
Qed.

(** *** Examples in formatted content *)

Import ExampleSections.

Lemma lazy_scan_until ok k w r res : forall pos caps,
  all_chars ok w ->
  (forall j, (j < String.length w)%nat ->
             k (MState (pos + j) (drop j (w +:+ r)) caps) = None) ->
  k (MState (pos + String.length w) r caps) = Some res ->
  lazy_scan ok k pos (w +:+ r) caps = Some res.
Proof.
  induction w as [|c w IH]; intros pos caps Hw Hk Hend.
  - rewrite app_empty. cbn [String.length] in Hend. rewrite Nat.add_0_r in Hend.
    destruct r; cbn [lazy_scan]; rewrite Hend; reflexivity.
  - rewrite app_cons. cbn [lazy_scan]. unfold first_some.
    pose proof (Hk 0%nat ltac:(cbn; lia)) as H0.
    rewrite Nat.add_0_r in H0. cbn [drop] in H0. rewrite app_cons in H0.
    rewrite H0. apply all_chars_cons in Hw. destruct Hw as [Hc Hw]. rewrite Hc.
    apply IH; [exact Hw | |].
    + intros j Hj. specialize (Hk (S j) ltac:(cbn; lia)).
      rewrite app_cons in Hk. cbn [drop] in Hk.
      replace (S pos + j)%nat with (pos + S j)%nat by lia. exact Hk.
    + cbn [String.length] in Hend.
      replace (S pos + String.length w)%nat with (pos + S (String.length w))%nat by lia.
      exact Hend.
Qed.

Lemma exec_from_skip p (a b : string) : forall pos,
  (forall j, (j < String.length a)%nat ->
             match_at p (pos + j) (drop j (a +:+ b)) = None) ->
  exec_from p pos (a +:+ b) = exec_from p (pos + String.length a) b.
Proof.
  induction a as [|c a IH]; intros pos H.
  - rewrite app_empty. cbn [String.length]. rewrite Nat.add_0_r. reflexivity.
  - rewrite app_cons. cbn [exec_from].
    pose proof (H 0%nat ltac:(cbn; lia)) as H0.
    rewrite Nat.add_0_r in H0. cbn [drop] in H0. rewrite app_cons in H0.
    rewrite H0, IH; [cbn [String.length]; f_equal; lia|].
    intros j Hj. specialize (H (S j) ltac:(cbn; lia)).
    rewrite app_cons in H. cbn [drop] in H.
    replace (S pos + j)%nat with (pos + S j)%nat by lia. exact H.
Qed.

Lemma includes_drop (x t : string) (j : nat) :
  includes x t = false -> startsWith (drop j x) t = false.
Proof.
  revert j. induction x as [|c x IH]; intros j H.
  - destruct j; cbn [drop]; cbn [includes] in H;
      apply orb_false_iff in H; destruct H as [H _]; exact H.
  - rewrite includes_cons in H. apply orb_false_iff in H. destruct H as [H1 H2].
    destruct j as [|j]; cbn [drop]; [exact H1 | apply IH, H2].
Qed.

Lemma drop_app_le (a b : string) (j : nat) :
  (j <= String.length a)%nat -> drop j (a +:+ b) = drop j a +:+ b.
Proof.
  revert j. induction a as [|c a IH]; intros j Hj.
  - cbn [String.length] in Hj. assert (j = 0%nat) as -> by lia.
    rewrite app_empty. destruct b; reflexivity.
  - destruct j as [|j]; [reflexivity|]. rewrite app_cons. cbn [drop].
    apply IH. cbn [String.length] in Hj. lia.
Qed.

Lemma trimEnd_app_space (t : string) (c : ascii) :
  is_space c = true -> trimEnd (t +:+ String c EmptyString) = trimEnd t.
Proof.
  intros Hc. induction t as [|a t IH].
  - rewrite app_empty. cbn [trimEnd]. rewrite Hc. reflexivity.
  - rewrite app_cons. cbn [trimEnd]. rewrite IH. reflexivity.
Qed.

Lemma trimStart_app_space (t : string) (c : ascii) :
  is_space c = true ->
  trimStart (t +:+ String c EmptyString) =
  match trimStart t with
  | EmptyString => EmptyString
  | u => u +:+ String c EmptyString
  end.
Proof.
  intros Hc. induction t as [|a t IH].
  - rewrite app_empty. cbn [trimStart]. rewrite Hc. reflexivity.
  - rewrite app_cons. cbn [trimStart]. destruct (is_space a); [exact IH|].
    rewrite app_cons. reflexivity.
Qed.

Lemma trim_app_space (t : string) (c : ascii) :
  is_space c = true -> trim (t +:+ String c EmptyString) = trim t.
Proof.
  intros Hc. unfold trim. rewrite trimStart_app_space by exact Hc.
  destruct (trimStart t) as [|a u] eqn:E; [reflexivity|].
  apply trimEnd_app_space, Hc.
Qed.

Lemma fence_no_LF : no_char LF "```".
Proof.
  apply all_chars_cons. split; [reflexivity|].
  apply all_chars_cons. split; [reflexivity|].
  apply all_chars_cons. split; [reflexivity|].
  apply all_chars_empty.
Qed.

Lemma starts_fence_within (x post : string) (j : nat) :
  includes x "```" = false ->
  (j < String.length (x +:+ LFs))%nat ->
  startsWith (drop j ((x +:+ LFs) +:+ "```" +:+ post)) "```" = false.
Proof.
  intros Hx Hj. rewrite length_app in Hj. cbn [String.length LFs] in Hj.
  rewrite str_app_assoc. unfold LFs. rewrite app_cons, app_empty.
  rewrite drop_app_le by lia.
  destruct (Nat.eq_dec j (String.length x)) as [->|Hne].
  - rewrite drop_all by lia. rewrite app_empty. reflexivity.
  - rewrite (startsWith_line _ _ _ fence_no_LF). apply includes_drop, Hx.
Qed.

(** A fenced block without info string whose content holds no fence. *)
Lemma fenced_exact pos caps (x post : string) k res :
  includes x "```" = false ->
  k (MState (pos + (8 + String.length x)) post ((1%nat, x +:+ LFs) :: caps)) = Some res ->
  run false fencedBlock
    (MState pos ("```" +:+ String LF ((x +:+ LFs) +:+ "```" +:+ post)) caps) k = Some res.
Proof.
  intros Hx Hk. unfold fencedBlock, fence.
  rewrite run_seq, run_str_app, run_seq, run_star.
  rewrite star_class_greedy by (cbn [m_rest]; lia).
  rewrite greedy_scan_span.
  2:{ intros p c r cs Hc. rewrite run_seq. cbn [run]. unfold step_char.
      cbn [m_rest]. unfold char_eq. destruct (ascii_dec LF c) as [<-|]; [discriminate Hc | reflexivity]. }
  rewrite span_refused by reflexivity. cbn [fst snd String.length].
  rewrite run_seq, run_char_here, run_seq, run_group, run_star.
  rewrite star_class_lazy by (cbn [m_rest]; lia).
  apply lazy_scan_until; [apply any_char | |].
  - intros j Hj. cbv beta. cbn [m_pos m_rest m_caps].
    rewrite run_str, starts_fence_within by assumption. reflexivity.
  - cbv beta. cbn [m_pos m_rest m_caps]. rewrite run_str_app.
    rewrite <- Hk. f_equal. f_equal.
    + rewrite length_app. cbn [String.length LFs]. lia.
    + f_equal. f_equal.
      replace (S (pos + 3 + 0) + String.length (x +:+ LFs) - S (pos + 3 + 0))%nat
        with (String.length (x +:+ LFs)) by lia.
      apply take_app_length.
Qed.

Lemma greedy_scan_longest ok k (w r : string) res : forall pos caps,
  all_chars ok w ->
  match r with String c _ => ok c = false | EmptyString => True end ->
  k (MState (pos + String.length w) r caps) = Some res ->
  greedy_scan ok k pos (w +:+ r) caps = Some res.
Proof.
  induction w as [|c w IH]; intros pos caps Hw Hr Hk.
  - rewrite app_empty. cbn [String.length] in Hk. rewrite Nat.add_0_r in Hk.
    destruct r as [|c r]; cbn [greedy_scan]; [exact Hk|]. rewrite Hr. exact Hk.
  - rewrite app_cons. cbn [greedy_scan].
    apply all_chars_cons in Hw. destruct Hw as [Hc Hw]. rewrite Hc.
    rewrite (IH (S pos) caps Hw Hr); [reflexivity|].
    cbn [String.length] in Hk.
    replace (S pos + String.length w)%nat with (pos + S (String.length w))%nat by lia.
    exact Hk.
Qed.


Lemma spaces_skip_line : skips_line (RStar true (RClass CSpace)) EmptyString.
Proof.
  intros pos caps k r res Hk. rewrite app_empty, run_star.
  rewrite star_class_greedy by (cbn [m_rest]; lia).
  apply (greedy_scan_longest _ _ LFs ("```" +:+ r)).
  - apply all_chars_cons. split; [reflexivity | apply all_chars_empty].
  - reflexivity.
  - cbn [String.length LFs] in *. exact Hk.
Qed.

Lemma rest_of_line_skips (sfx : string) :
  no_char LF sfx ->
  skips_line (RSeq (RStar true (RClass (CNot (CChar LF))))
                   (RStar true (RClass CSpace))) sfx.
Proof.
  intros Hsfx pos caps k r res Hk. rewrite run_seq, run_star.
  rewrite star_class_greedy by (cbn [m_rest]; lia).
  apply greedy_scan_longest.
  - intros pre c post E. apply (Hsfx pre c post) in E.
    cbn [class_test class_mem]. cbv beta in E.
    destruct (ascii_dec LF c) as [<-|Hn]; [|reflexivity].
    revert E. destruct (ascii_dec LF LF); [discriminate | contradiction].
  - cbn [class_test class_mem]. destruct (ascii_dec LF LF); [reflexivity | contradiction].
  - pose proof (spaces_skip_line (pos + String.length sfx)%nat caps k r res) as H.
    rewrite app_empty in H. apply H. cbn [String.length].
    rewrite <- Hk. f_equal. f_equal. lia.
Qed.


Lemma section_example_at (heading sfx : string) (mid : regex) pos (x post : string) :
  skips_line mid sfx ->
  includes x "```" = false ->
  match_at (sectionPattern heading mid) pos
    (heading +:+ sfx +:+ String LF ("```" +:+ String LF ((x +:+ LFs) +:+ "```" +:+ post))) =
  Some (Result pos
          (take (String.length heading + S (String.length sfx) + (8 + String.length x))
             (heading +:+ sfx +:+
              String LF ("```" +:+ String LF ((x +:+ LFs) +:+ "```" +:+ post))))
          [(1%nat, x +:+ LFs)]).
Proof.
  intros Hmid Hx. unfold match_at, sectionPattern. cbn [p_regex p_ignoreCase].
  rewrite run_seq, run_str_app, run_seq.
  erewrite Hmid; [|apply fenced_exact; [exact Hx | reflexivity]].
  cbn [m_pos m_caps]. f_equal. f_equal. f_equal. lia.
Qed.

Lemma section_needs_heading (heading : string) (mid : regex) pos (rest : string) :
  startsWith rest heading = false ->
  match_at (sectionPattern heading mid) pos rest = None.
Proof.
  intros H. unfold match_at, sectionPattern. cbn [p_regex p_ignoreCase].
  rewrite run_seq, run_str, H. reflexivity.
Qed.

Lemma exec_from_here p pos rest m :
  match_at p pos rest = Some m -> exec_from p pos rest = Some m.
Proof. intros H. destruct rest; cbn [exec_from]; rewrite H; reflexivity. Qed.

Lemma section_example_found (heading sfx : string) (mid : regex) (pre x post : string) :
  skips_line mid sfx ->
  no_char LF heading -> heading <> EmptyString ->
  includes pre heading = false ->
  includes x "```" = false ->
  option_map trimmed_capture
    (match_first (sectionPattern heading mid)
       ((pre +:+ String LF LFs) +:+
        heading +:+ sfx +:+
        String LF ("```" +:+ String LF ((x +:+ LFs) +:+ "```" +:+ post)))) =
  Some (trim x).
Proof.
  intros Hmid Hh Hh0 Hpre Hx. unfold match_first.
  assert (Hstart : forall r, startsWith (String LF r) heading = false).
  { intros r. destruct heading as [|a h]; [contradiction|].
    apply no_char_cons in Hh. destruct Hh as [Ha _].
    cbn [startsWith]. destruct (ascii_dec a LF); [contradiction | reflexivity]. }
  rewrite exec_from_skip.
  - rewrite (exec_from_here _ _ _ _ (section_example_at _ _ _ _ _ _ Hmid Hx)).
    cbn [option_map]. unfold trimmed_capture.
    cbn [group lookup_cap r_caps Nat.eqb default]. f_equal.
    apply trim_app_space. reflexivity.
  - intros j Hj. apply section_needs_heading.
    rewrite length_app in Hj. cbn [String.length LFs] in Hj.
    rewrite drop_app_le by (rewrite length_app; cbn [String.length LFs]; lia).
    destruct (Nat.lt_ge_cases j (String.length pre)) as [Hlt|Hge].
    + rewrite drop_app_le by lia. rewrite str_app_assoc, app_cons.
      rewrite (startsWith_line _ _ _ Hh). apply includes_drop, Hpre.
    + destruct (Nat.eq_dec j (String.length pre)) as [->|Hne].
      * rewrite drop_app_length. rewrite app_cons. apply Hstart.
      * assert (j = S (String.length pre)) as -> by lia.
        replace (S (String.length pre)) with (String.length (pre +:+ LFs))
          by (rewrite length_app; cbn [String.length LFs]; lia).
        replace (pre +:+ String LF LFs) with ((pre +:+ LFs) +:+ LFs)
          by (rewrite str_app_assoc; reflexivity).
        rewrite drop_app_length. unfold LFs at 1. rewrite app_cons. apply Hstart.
Qed.

Lemma join_app (sep : string) (a b : list string) :
  a <> [] -> b <> [] ->
  join sep (a ++ b) = join sep a +:+ sep +:+ join sep b.
Proof.
  intros Ha Hb. induction a as [|x a IH]; [contradiction|].
  destruct a as [|y a].
  - destruct b as [|z b]; [contradiction|]. reflexivity.
  - change (join sep ((x :: y :: a) ++ b))
      with (x +:+ sep +:+ join sep ((y :: a) ++ b)).
    rewrite IH by discriminate.
    change (join sep (x :: y :: a)) with (x +:+ sep +:+ join sep (y :: a)).
    rewrite !str_app_assoc. reflexivity.
Qed.

Lemma join_cons_post (sep x : string) (l : list string) :
  exists post, join sep (x :: l) = x +:+ post.
Proof.
  destruct l as [|y l].
  - exists EmptyString. cbn [join]. rewrite str_app_empty_r. reflexivity.
  - exists (sep +:+ join sep (y :: l)). reflexivity.
Qed.

(** The text of a list of parts that holds an example section. *)
Lemma join_section_shape (parts tail : list string) (heading sfx x : string) :
  parts <> [] ->
  exists post,
    join (String LF "")
      (parts ++ ""%string :: (heading +:+ sfx) :: "```"%string :: x :: "```"%string :: tail) =
    (join (String LF "") parts +:+ String LF LFs) +:+
    heading +:+ sfx +:+ String LF ("```" +:+ String LF ((x +:+ LFs) +:+ "```" +:+ post)).
Proof.
  intros Hparts. rewrite join_app by (try exact Hparts; discriminate).
  destruct (join_cons_post (String LF "") "```" tail) as [post Hpost].
  exists post.
  change (join (String LF "") (""%string :: (heading +:+ sfx) :: "```"%string :: x :: "```"%string :: tail))
    with ("" +:+ String LF "" +:+ (heading +:+ sfx) +:+ String LF "" +:+ "```"
          +:+ String LF "" +:+ x +:+ String LF "" +:+ join (String LF "") ("```"%string :: tail)).
  rewrite Hpost. unfold LFs.
  rewrite !str_app_assoc, ?app_empty, ?app_cons, ?app_empty. reflexivity.
Qed.

Lemma exec_from_ext (p q : pattern) (rest : string) : forall pos,
  (forall pos' rest', match_at p pos' rest' = match_at q pos' rest') ->
  exec_from p pos rest = exec_from q pos rest.
Proof.
  induction rest as [|c rest IH]; intros pos H; cbn [exec_from]; rewrite H;
    [reflexivity|]. destruct (match_at q pos _); [reflexivity | apply IH, H].
Qed.

Lemma goodExampleOf_section (content : string) :
  goodExampleOf content =
  option_map trimmed_capture
    (match_first (sectionPattern "## Good Example" (RStar true (RClass CSpace))) content).
Proof. reflexivity. Qed.

Lemma badExampleOf_section (content : string) :
  badExampleOf content =
  option_map trimmed_capture
    (match_first
       (sectionPattern "## Bad Example"
          (RSeq (RStar true (RClass (CNot (CChar LF)))) (RStar true (RClass CSpace))))
       content).
Proof.
  unfold badExampleOf, match_first. f_equal. apply exec_from_ext.
  intros pos rest. reflexivity.
Qed.

Lemma good_heading_no_LF : no_char LF "## Good Example".
Proof. repeat (apply all_chars_cons; split; [reflexivity|]). apply all_chars_empty. Qed.

Lemma bad_heading_no_LF : no_char LF "## Bad Example".
Proof. repeat (apply all_chars_cons; split; [reflexivity|]). apply all_chars_empty. Qed.

Lemma truthy_some (s : string) : s <> EmptyString -> truthy_str (Some s) = true.
Proof. intros H. cbn [truthy_str]. apply negb_true_iff, String.eqb_neq, H. Qed.

Lemma formatted_examples (p : Practice) :
  (forall g, goodExample p = Some g -> g <> EmptyString ->
     includes g "```" = false ->
     includes (beforeGoodExample p) "## Good Example" = false ->
     goodExampleOf (formatPracticeContent p) = Some (trim g)) /\
  (forall b, badExample p = Some b -> b <> EmptyString ->
     includes b "```" = false ->
     includes (beforeBadExample p) "## Bad Example" = false ->
     badExampleOf (formatPracticeContent p) = Some (trim b)).
Proof.
  split.
  - intros g Hg Hne Hfence Hpre.
    assert (Hshape : exists post,
      formatPracticeContent p =
      (beforeGoodExample p +:+ String LF LFs) +:+
      "## Good Example" +:+ "" +:+
      String LF ("```" +:+ String LF ((g +:+ LFs) +:+ "```" +:+ post))).
    { unfold formatPracticeContent, beforeGoodExample.
      rewrite Hg, (truthy_some g Hne). change (default "" (Some g)) with g. cbv zeta.
      set (parts0 := if truthy_str (rationale p) then _ else _).
      assert (Hparts0 : parts0 <> []).
      { unfold parts0. destruct (truthy_str (rationale p)); discriminate. }
      destruct (truthy_str (badExample p));
        destruct (0 <? Z.of_nat (length (lintRules p)));
        rewrite <- ?app_assoc; cbn [app];
        apply (join_section_shape parts0 _ "## Good Example" ""), Hparts0. }
    destruct Hshape as [post ->]. rewrite goodExampleOf_section.
    apply section_example_found;
      [apply spaces_skip_line | apply good_heading_no_LF | discriminate | exact Hpre | exact Hfence].
  - intros b Hb Hne Hfence Hpre.
    assert (Hshape : exists post,
      formatPracticeContent p =
      (beforeBadExample p +:+ String LF LFs) +:+
      "## Bad Example" +:+ "" +:+
      String LF ("```" +:+ String LF ((b +:+ LFs) +:+ "```" +:+ post))).
    { unfold formatPracticeContent, beforeBadExample.
      rewrite Hb, (truthy_some b Hne). change (default "" (Some b)) with b. cbv zeta.
      set (parts1 := if truthy_str (goodExample p) then _ else _).
      assert (Hparts1 : parts1 <> []).
      { unfold parts1.
        destruct (truthy_str (goodExample p)); destruct (truthy_str (rationale p));
          discriminate. }
      destruct (0 <? Z.of_nat (length (lintRules p)));
        rewrite <- ?app_assoc; cbn [app];
        apply (join_section_shape parts1 _ "## Bad Example" ""), Hparts1. }
    destruct Hshape as [post ->]. rewrite badExampleOf_section.
    apply section_example_found;
      [apply rest_of_line_skips, all_chars_empty | apply bad_heading_no_LF
       | discriminate | exact Hpre | exact Hfence].
Qed.

Lemma lazy_scan_first ok k rest res : forall pos caps,
  lazy_scan ok k pos rest caps = Some res ->
  exists w r, rest = w +:+ r /\ all_chars ok w /\
              k (MState (pos + String.length w) r caps) = Some res /\
              forall j, (j < String.length w)%nat ->
                        k (MState (pos + j) (drop j rest) caps) = None.
Proof.
  induction rest as [|c rest IH]; intros pos caps; cbn [lazy_scan]; unfold first_some.
  - destruct (k (MState pos EmptyString caps)) eqn:E; [|discriminate].
    intros H. injection H as <-. exists EmptyString, EmptyString.
    cbn [String.length]. rewrite Nat.add_0_r.
    repeat split; [apply all_chars_empty | exact E | intros j Hj; lia].
  - destruct (k (MState pos (String c rest) caps)) eqn:E.
    + intros H. injection H as <-. exists EmptyString, (String c rest).
      cbn [String.length]. rewrite Nat.add_0_r.
      repeat split; [apply all_chars_empty | exact E | intros j Hj; lia].
    + destruct (ok c) eqn:Hc; [|discriminate]. intros H.
      apply IH in H. destruct H as (w & r & -> & Hw & Hk & Hnone).
      exists (String c w), r. rewrite app_cons. split; [reflexivity|].
      split; [apply all_chars_cons; split; assumption|]. split.
      * cbn [String.length].
        replace (pos + S (String.length w))%nat with (S pos + String.length w)%nat by lia.
        exact Hk.
      * intros [|j] Hj; [rewrite Nat.add_0_r; exact E|].
        cbn [drop]. replace (pos + S j)%nat with (S pos + j)%nat by lia.
        apply Hnone. cbn [String.length] in Hj. lia.
Qed.

Lemma startsWith_app_l (a r t : string) :
  startsWith a t = true -> startsWith (a +:+ r) t = true.
Proof.
  intros H. apply startsWith_app in H. destruct H as [post ->].
  apply startsWith_app. exists (post +:+ r). apply str_app_assoc.
Qed.

Lemma includes_none (w r t : string) :
  t <> EmptyString ->
  (forall j, (j < String.length w)%nat -> startsWith (drop j (w +:+ r)) t = false) ->
  includes w t = false.
Proof.
  intros Ht. induction w as [|c w IH]; intros H.
  - cbn [includes]. destruct t; [contradiction | reflexivity].
  - rewrite includes_cons. apply orb_false_iff. split.
    + destruct (startsWith (String c w) t) eqn:E; [|reflexivity].
      apply (startsWith_app_l _ r) in E.
      rewrite <- (H 0%nat ltac:(cbn; lia)). cbn [drop]. symmetry. exact E.
    + apply IH. intros j Hj. specialize (H (S j) ltac:(cbn; lia)).
      rewrite app_cons in H. exact H.
Qed.

Lemma fenced_capture pos rest caps res :
  run false fencedBlock (MState pos rest caps) (fun st => Some st) = Some res ->
  exists c, lookup_cap 1 (m_caps res) = Some c /\ includes c "```" = false.
Proof.
  unfold fencedBlock, fence. rewrite run_seq. intros H.
  apply run_str_sound in H. destruct H as (r1 & -> & H).
  rewrite run_seq, run_star in H.
  rewrite star_class_greedy in H by (cbn [m_rest]; lia).
  apply greedy_scan_sound in H. destruct H as (w & r2 & -> & Hw & H).
  rewrite run_seq in H. apply run_char_sound in H. destruct H as (r3 & -> & H).
  rewrite run_seq, run_group, run_star in H.
  rewrite star_class_lazy in H by (cbn [m_rest]; lia).
  apply lazy_scan_first in H. destruct H as (c & r4 & -> & _ & H & Hnone).
  cbv beta in H. cbn [m_pos m_rest m_caps] in H.
  apply run_str_sound in H. destruct H as (tail & -> & H).
  injection H as <-. cbn [m_caps lookup_cap Nat.eqb].
  eexists. split; [reflexivity|].
  match goal with |- includes (take ?n _) _ = _ =>
    replace n with (String.length c) by lia end.
  rewrite take_app_length.
  apply (includes_none c ("```" +:+ tail)); [discriminate|].
  intros j Hj. specialize (Hnone j Hj). cbv beta in Hnone.
  cbn [m_pos m_rest m_caps] in Hnone. rewrite run_str in Hnone.
  destruct (startsWith _ "```"); [discriminate Hnone | reflexivity].
Qed.

Lemma trimStart_suffix (s : string) : exists ws, s = ws +:+ trimStart s.
Proof.
  induction s as [|c s IH]; [exists EmptyString; reflexivity|].
  cbn [trimStart]. destruct (is_space c).
  - destruct IH as [ws IH]. exists (String c ws). rewrite app_cons, <- IH. reflexivity.
  - exists EmptyString. reflexivity.
Qed.

Lemma trimEnd_prefix (s : string) : exists ws, s = trimEnd s +:+ ws.
Proof.
  induction s as [|c s IH]; [exists EmptyString; reflexivity|].
  destruct IH as [ws IH]. cbn [trimEnd]. destruct (trimEnd s) as [|d t] eqn:E.
  - destruct (is_space c).
    + exists (String c s). reflexivity.
    + exists ws. rewrite app_cons, app_empty. rewrite app_empty in IH.
      rewrite <- IH. reflexivity.
  - exists ws. rewrite app_cons, <- IH. reflexivity.
Qed.

Lemma includes_trim (s : string) : includes s (trim s) = true.
Proof.
  unfold trim. destruct (trimStart_suffix s) as [ws1 H1].
  destruct (trimEnd_prefix (trimStart s)) as [ws2 H2].
  apply includes_app. exists ws1, ws2. rewrite <- H2. exact H1.
Qed.

Lemma trimEnd_idem (s : string) : trimEnd (trimEnd s) = trimEnd s.
Proof.
  induction s as [|c s IH]; [reflexivity|].
  cbn [trimEnd]. destruct (trimEnd s) as [|d t] eqn:E.
  - destruct (is_space c) eqn:Hc; [reflexivity|]. cbn [trimEnd]. rewrite Hc. reflexivity.
  - cbn [trimEnd]. cbn [trimEnd] in IH. rewrite IH. reflexivity.
Qed.

Lemma trimStart_trimEnd (s : string) :
  trimStart s = s -> trimStart (trimEnd s) = trimEnd s.
Proof.
  destruct s as [|c s]; [reflexivity|]. cbn [trimStart].
  destruct (is_space c) eqn:Hc.
  - intros H. exfalso. destruct (trimStart_suffix s) as [ws Hws].
    rewrite H in Hws. apply (f_equal String.length) in Hws.
    rewrite length_app in Hws. cbn [String.length] in Hws. lia.
  - intros _. cbn [trimEnd].
    destruct (trimEnd s); rewrite ?Hc; cbn [trimStart]; rewrite Hc; reflexivity.
Qed.

Lemma trimStart_idem (s : string) : trimStart (trimStart s) = trimStart s.
Proof.
  induction s as [|c s IH]; [reflexivity|]. cbn [trimStart].
  destruct (is_space c) eqn:Hc; [exact IH|]. cbn [trimStart]. rewrite Hc. reflexivity.
Qed.

Lemma trim_idem (s : string) : trim (trim s) = trim s.
Proof.
  unfold trim. rewrite (trimStart_trimEnd _ (trimStart_idem s)). apply trimEnd_idem.
Qed.

Lemma clean_trimmed (c : string) : includes c "```" = false -> clean (trim c).
Proof.
  intros H. split; [apply trim_idem|].
  destruct (includes (trim c) "```") eqn:E; [|reflexivity].
  rewrite <- H. symmetry. apply (includes_trans _ (trim c)); [apply includes_trim | exact E].
Qed.

Lemma clean_capture (m : result) :
  (exists c, group 1 m = Some c /\ includes c "```" = false) ->
  clean (trimmed_capture m).
Proof.
  intros (c & Hc & H). unfold trimmed_capture. rewrite Hc. apply clean_trimmed, H.
Qed.

Lemma codeBlock_capture pos rest m :
  match_at codeBlockPattern pos rest = Some m ->
  exists c, group 1 m = Some c /\ includes c "```" = false.
Proof.
  unfold match_at, codeBlockPattern. cbn [p_regex p_ignoreCase].
  destruct (run false fencedBlock _ _) as [st|] eqn:E; [|discriminate].
  intros H. injection H as <-. apply fenced_capture in E. exact E.
Qed.

Lemma labelled_capture (alts : regex) (content : string) (m : result) :
  match_first (Pattern (RSeq alts labelledTail) true) content = Some m ->
  exists c, group 1 m = Some c /\ includes c "```" = false.
Proof.
  unfold match_first. intros H. apply exec_from_first in H.
  destruct H as (k & _ & H & _). unfold match_at in H.
  cbn [p_regex p_ignoreCase] in H.
  destruct (run true _ _ _) as [res|] eqn:E; [|discriminate H].
  injection H as <-. cbn [group r_caps].
  rewrite run_seq in E. apply run_sound in E. destruct E as (st1 & _ & E).
  unfold labelledTail in E. rewrite run_seq in E.
  apply run_sound in E. destruct E as (st2 & _ & E).
  rewrite run_seq in E. apply run_sound in E. destruct E as (st3 & _ & E).
  rewrite (run_caseless _ fencedBlock_caseless) in E.
  destruct st3 as [p3 r3 c3]. apply fenced_capture in E. exact E.
Qed.

Lemma matchAll_from_match (p : pattern) (budget : nat) : forall pos rest m,
  In m (matchAll_from budget p pos rest) ->
  exists pos' rest', match_at p pos' rest' = Some m.
Proof.
  induction budget as [|b IH]; intros pos rest m; cbn [matchAll_from]; [intros []|].
  destruct (exec_from p pos rest) as [m0|] eqn:E; [|intros []].
  intros [<-|H].
  - apply exec_from_first in E. destruct E as (k & _ & E & _). eauto.
  - destruct (Nat.ltb _ _); [destruct H|]. apply (IH _ _ _ H).
Qed.

Lemma extractExamples_clean_both (content : string) :
  (forall g, fst (extractExamples content) = Some g -> clean g) /\
  (forall b, snd (extractExamples content) = Some b -> clean b).
Proof.
  assert (Hgood : forall g, labelledGood content = Some g -> clean g).
  { unfold labelledGood. intros g H.
    destruct (match_first goodPattern content) as [m|] eqn:E; [|discriminate H].
    injection H as <-. apply clean_capture, (labelled_capture _ _ _ E). }
  assert (Hbad : forall b, labelledBad content = Some b -> clean b).
  { unfold labelledBad. intros b H.
    destruct (match_first badPattern content) as [m|] eqn:E; [|discriminate H].
    injection H as <-. apply clean_capture, (labelled_capture _ _ _ E). }
  assert (Hblock : forall m, In m (matchAll codeBlockPattern content) ->
                             clean (trimmed_capture m)).
  { intros m Hm. apply matchAll_from_match in Hm. destruct Hm as (pos & rest & Hm).
    apply clean_capture, (codeBlock_capture _ _ _ Hm). }
  unfold extractExamples.
  destruct (negb (truthy_str (labelledGood content)) &&
            negb (truthy_str (labelledBad content))); [|split; assumption].
  destruct (matchAll codeBlockPattern content) as [|b0 [|b1 bs]];
    [split; assumption | |].
  - split; [|exact Hbad]. cbn [fst]. intros g H. injection H as <-.
    apply Hblock. left. reflexivity.
  - destruct (includes _ "avoid" || includes _ "bad" || includes _ "don't");
      cbn [fst snd]; split; intros x H; injection H as <-; apply Hblock;
      cbn [In]; auto.
Qed.

(** X22: whatever the section, an example [extractExamples] returns, good
    or bad, has no white space at either end and holds no code fence. *)
Theorem extractExamples_clean (content : string) :
  (forall g, fst (extractExamples content) = Some g ->
             trim g = g /\ includes g "```" = false) /\
  (forall b, snd (extractExamples content) = Some b ->
             trim b = b /\ includes b "```" = false).
Proof. apply extractExamples_clean_both. Qed.

(** The labelled block of the end-to-end scenario. *)
Lemma extractExamples_clean_witness :
  trim "const x=1;" = "const x=1;"%string /\ includes "const x=1;" "```" = false.
Proof.
  apply (proj1 (extractExamples_clean "Good:
```js
const x=1;
```
")).
  vm_compute. reflexivity.
Defined.

(** X23: for every practice [parsePractices] returns, the patterns of
    [getExamples] applied to the content of its practice document give back
    exactly the practice's good example and bad example, when these are not
    empty and the text the formatter writes in front of the example section
    does not hold the section's heading. *)
Theorem practice_examples_round_trip (config : SourceConfig) (relativePath : string)
    (body : string) (fm : frontmatter) (p : Practice) :
  In p (parsePractices body fm) ->
  (forall g, goodExample p = Some g -> g <> EmptyString ->
     includes (beforeGoodExample p) "## Good Example" = false ->
     goodExampleOf (doc_content (practiceDocument config relativePath p)) = Some g) /\
  (forall b, badExample p = Some b -> b <> EmptyString ->
     includes (beforeBadExample p) "## Bad Example" = false ->
     badExampleOf (doc_content (practiceDocument config relativePath p)) = Some b).
Proof.
  intros Hp. rewrite parsePractices_sections in Hp. apply in_map_iff in Hp.
  destruct Hp as (part & <- & _).
  destruct (extractExamples_clean_both (snd part)) as [Hgood Hbad].
  destruct (formatted_examples (assemble fm part)) as [Hg Hb].
  cbn [doc_content practiceDocument]. split.
  - intros g Heq Hne Hpre. destruct (Hgood g Heq) as [Htrim Hfence].
    rewrite <- Htrim. apply Hg; assumption.
  - intros b Heq Hne Hpre. destruct (Hbad b Heq) as [Htrim Hfence].
    rewrite <- Htrim. apply Hb; assumption.
Qed.

(** The practice of the end-to-end scenario. *)
Lemma practice_examples_round_trip_witness :
  exists p,
    goodExampleOf (doc_content (practiceDocument Scenario.team_config "guide.md" p))
    = Some "const x=1;"%string.
Proof.
  destruct (parsePractices Scenario.use_const ∅) as [|p l] eqn:E;
    [vm_compute in E; discriminate E|].
  exists p.
  apply (proj1 (practice_examples_round_trip Scenario.team_config "guide.md"
                  Scenario.use_const ∅ p ltac:(rewrite E; left; reflexivity)));
    vm_compute in E; injection E as <- _; [reflexivity | discriminate | reflexivity].
Defined.

(** X24: for a structured practice, the patterns of [getExamples] applied
    to the content the structured formatter writes give back the trimmed
    good example and the trimmed bad example (whose heading carries the
    suffix [(Avoid)]), when the example is not empty and holds no fence and
    the text written in front of its section does not hold the heading. *)
Theorem structured_examples_round_trip (p : SPS.Practice) :
  (forall g, SPS.p_goodExample p = Some g -> g <> EmptyString ->
     includes g "```" = false ->
     includes (StructuredSections.beforeGoodExample p) "## Good Example" = false ->
     goodExampleOf (SPS.formatPracticeContent p) = Some (trim g)) /\
  (forall b, SPS.p_badExample p = Some b -> b <> EmptyString ->
     includes b "```" = false ->
     includes (StructuredSections.beforeBadExample p) "## Bad Example" = false ->
     badExampleOf (SPS.formatPracticeContent p) = Some (trim b)).
Proof.
  split.
  - intros g Hg Hne Hfence Hpre.
    assert (Hshape : exists post,
      SPS.formatPracticeContent p =
      (StructuredSections.beforeGoodExample p +:+ String LF LFs) +:+
      "## Good Example" +:+ "" +:+
      String LF ("```" +:+ String LF ((g +:+ LFs) +:+ "```" +:+ post))).
    { unfold SPS.formatPracticeContent, StructuredSections.beforeGoodExample.
      rewrite Hg, (truthy_some g Hne). change (default "" (Some g)) with g. cbv zeta.
      set (parts0 := if truthy_str (SPS.p_rationale p) then _ else _).
      assert (Hparts0 : parts0 <> []).
      { unfold parts0. destruct (truthy_str (SPS.p_rationale p)); discriminate. }
      destruct (truthy_str (SPS.p_badExample p));
        destruct (SPS.nonEmpty (SPS.p_exceptions p));
        destruct (SPS.nonEmpty (SPS.p_lintRules p));
        destruct (SPS.nonEmpty (SPS.p_references p));
        rewrite <- ?app_assoc; cbn [app];
        apply (join_section_shape parts0 _ "## Good Example" ""), Hparts0. }
    destruct Hshape as [post ->]. rewrite goodExampleOf_section.
    apply section_example_found;
      [apply spaces_skip_line | apply good_heading_no_LF | discriminate | exact Hpre | exact Hfence].
  - intros b Hb Hne Hfence Hpre.
    assert (Hshape : exists post,
      SPS.formatPracticeContent p =
      (StructuredSections.beforeBadExample p +:+ String LF LFs) +:+
      "## Bad Example" +:+ " (Avoid)" +:+
      String LF ("```" +:+ String LF ((b +:+ LFs) +:+ "```" +:+ post))).
    { unfold SPS.formatPracticeContent, StructuredSections.beforeBadExample.
      rewrite Hb, (truthy_some b Hne). change (default "" (Some b)) with b. cbv zeta.
      set (parts1 := if truthy_str (SPS.p_goodExample p) then _ else _).
      assert (Hparts1 : parts1 <> []).
      { unfold parts1.
        destruct (truthy_str (SPS.p_goodExample p));
          destruct (truthy_str (SPS.p_rationale p)); discriminate. }
      destruct (SPS.nonEmpty (SPS.p_exceptions p));
        destruct (SPS.nonEmpty (SPS.p_lintRules p));
        destruct (SPS.nonEmpty (SPS.p_references p));
        rewrite <- ?app_assoc; cbn [app];
        apply (join_section_shape parts1 _ "## Bad Example" " (Avoid)"), Hparts1. }
    destruct Hshape as [post ->]. rewrite badExampleOf_section.
    apply section_example_found;
      [apply rest_of_line_skips | apply bad_heading_no_LF
       | discriminate | exact Hpre | exact Hfence].
    repeat (apply all_chars_cons; split; [reflexivity|]). apply all_chars_empty.
Qed.

(** A structured practice with a rationale, both examples and a lint
    rule. *)
Lemma structured_examples_round_trip_witness :
  goodExampleOf (SPS.formatPracticeContent StructuredSections.sample_practice)
    = Some "const x = 1;"%string /\
  badExampleOf (SPS.formatPracticeContent StructuredSections.sample_practice)
    = Some "var x = 1;"%string.
Proof.
  destruct (structured_examples_round_trip StructuredSections.sample_practice)
    as [Hgood Hbad].
  split.
  - apply (Hgood "const x = 1;"%string); [reflexivity | discriminate | reflexivity | reflexivity].
  - apply (Hbad "var x = 1;"%string); [reflexivity | discriminate | reflexivity | reflexivity].
Defined.

(** *** Sub-sections and descriptions *)

Import Paragraphs.

Lemma subsection_end_caseless :
  caseless (RAlt (RSeq (RChar LF) (RStr "###")) REol).
Proof. apply caselessb_spec. vm_compute. reflexivity. Qed.

Lemma subsection_end pos rest caps :
  run false (RAlt (RSeq (RChar LF) (RStr "###")) REol) (MState pos rest caps)
    (fun st => Some st) =
  if startsWith rest nextSubheading
  then Some (MState (pos + 4) (drop 4 rest) caps)
  else match rest with
       | EmptyString => Some (MState pos rest caps)
       | _ => None
       end.
Proof.
  change (RSeq (RChar LF) (RStr "###")) with (RStr nextSubheading).
  cbn [run]. rewrite run_str. cbn [String.length nextSubheading].
  destruct (startsWith rest nextSubheading); [reflexivity|].
  cbn [first_some m_rest]. destruct rest; reflexivity.
Qed.

Lemma run_ahead ic a st k :
  run ic (RAhead a) st k =
  match run ic a st (fun st' => Some st') with
  | Some st' => k (MState (m_pos st) (m_rest st) (m_caps st'))
  | None => None
  end.
Proof. reflexivity. Qed.

Lemma namedSection_capture (name : string) pos rest m :
  match_at (namedSectionPattern name) pos rest = Some m ->
  exists c, group 1 m = Some c /\ includes c nextSubheading = false.
Proof.
  unfold match_at, namedSectionPattern. cbn [p_regex p_ignoreCase].
  destruct (run true _ _ _) as [res|] eqn:E; [|discriminate].
  intros H. injection H as <-. cbn [group r_caps].
  rewrite run_seq in E. apply run_sound in E. destruct E as (st1 & _ & E).
  rewrite run_seq in E. apply run_sound in E. destruct E as (st2 & _ & E).
  rewrite run_seq in E. apply run_sound in E. destruct E as (st3 & _ & E).
  rewrite run_seq, run_group, run_star in E. destruct st3 as [p3 r3 c3].
  rewrite star_class_lazy in E by (cbn [m_rest]; lia).
  apply lazy_scan_first in E. destruct E as (w & r & -> & _ & E & Hnone).
  cbv beta in E. cbn [m_pos m_rest m_caps] in E.
  rewrite run_ahead in E.
  destruct (run true (RAlt _ _) _ _) as [st''|] eqn:Eend in E; [|discriminate E].
  injection E as <-. cbn [m_caps].
  rewrite (run_caseless _ subsection_end_caseless), subsection_end in Eend.
  assert (Hcaps : m_caps st'' = (1%nat, take (p3 + String.length w - p3) (w +:+ r)) :: c3).
  { destruct (startsWith r nextSubheading); [injection Eend as <-; reflexivity|].
    destruct r; [injection Eend as <-; reflexivity | discriminate Eend]. }
  rewrite Hcaps. cbn [lookup_cap Nat.eqb]. eexists. split; [reflexivity|].
  replace (p3 + String.length w - p3)%nat with (String.length w) by lia.
  rewrite take_app_length.
  apply (includes_none w r); [discriminate|].
  intros j Hj. specialize (Hnone j Hj). cbv beta in Hnone.
  cbn [m_pos m_rest m_caps] in Hnone. rewrite run_ahead in Hnone.
  destruct (run true (RAlt _ _) _ _) as [st|] eqn:Ej in Hnone; [discriminate Hnone|].
  rewrite (run_caseless _ subsection_end_caseless), subsection_end in Ej.
  destruct (startsWith (drop j (w +:+ r)) nextSubheading) eqn:Es; [|reflexivity].
  rewrite ?Es in Ej. discriminate Ej.
Qed.

Lemma trimmed_clean (c t : string) :
  includes c t = false -> trim (trim c) = trim c /\ includes (trim c) t = false.
Proof.
  intros H. split; [apply trim_idem|].
  destruct (includes (trim c) t) eqn:E; [|reflexivity].
  rewrite <- H. symmetry. apply (includes_trans _ (trim c)); [apply includes_trim | exact E].
Qed.

(** X25: a text [extractSection] returns has no white space at either end
    and never holds a line feed followed by [###]: a named section stops in
    front of the next third-level heading. *)
Theorem extractSection_clean (content sectionName : string) (text : string) :
  extractSection content sectionName = Some text ->
  trim text = text /\ includes text nextSubheading = false.
Proof.
  unfold extractSection, match_first. intros H.
  destruct (exec_from _ 0%nat content) as [m|] eqn:E; [|discriminate H].
  injection H as <-. apply exec_from_first in E. destruct E as (k & _ & E & _).
  apply namedSection_capture in E. destruct E as (c & Hc & Hnone).
  unfold trimmed_capture. rewrite Hc. cbn [default from_option].
  apply trimmed_clean, Hnone.
Qed.

(** The rationale of a section that has a further sub-section. *)
Lemma extractSection_clean_witness :
  trim "Because it is safer." = "Because it is safer."%string /\
  includes "Because it is safer." nextSubheading = false.
Proof.
  apply (extractSection_clean sample_section "rationale").
  vm_compute. reflexivity.
Defined.

Lemma paragraph_separator_match (q : nat) (rest : string) :
  match_at paragraphSeparator q rest =
  match rest with
  | String c rest' =>
      if (if ascii_dec c LF then true else false) && startsWith rest' LFs
      then Some (Result q (take (S (String.length (fst (span isLF rest')))) rest) [])
      else None
  | EmptyString => None
  end.
Proof.
  unfold match_at, paragraphSeparator, RPlus. cbn [p_regex p_ignoreCase].
  rewrite run_seq. cbn [run]. unfold step_char at 1. cbn [m_rest m_pos m_caps char_eq].
  destruct rest as [|c rest]; [reflexivity|].
  destruct (ascii_dec LF c) as [<-|Hc].
  - destruct (ascii_dec LF LF); [|contradiction]. cbn [andb].
    unfold step_char at 1. cbn [m_rest m_pos m_caps].
    destruct rest as [|d rest]; [reflexivity|]. cbn [startsWith LFs].
    unfold char_eq at 1.
    destruct (ascii_dec LF d) as [<-|Hd]; [|reflexivity].
    rewrite startsWith_empty.
    rewrite (star_step_greedy _ (char_eq false LF)) by (try reflexivity; cbn; lia).
    rewrite greedy_scan_accepting. cbn [m_pos m_caps].
    change (char_eq false LF) with isLF.
    rewrite (span_accepted isLF LF rest) by reflexivity. cbn [fst String.length].
    f_equal. f_equal. f_equal. lia.
  - destruct (ascii_dec c LF); [congruence | reflexivity].
Qed.

Lemma paragraphs_from_nonempty b s : paragraphs_from b s <> [].
Proof.
  revert b. induction s as [|c s IH]; intros b; cbn [paragraphs_from]; [discriminate|].
  destruct (ascii_dec c LF).
  - destruct b; [apply IH|]. destruct (startsWith s LFs); [discriminate|].
    specialize (IH false). destruct (paragraphs_from false s); [contradiction | discriminate].
  - specialize (IH false). destruct (paragraphs_from false s); [contradiction | discriminate].
Qed.

Lemma paragraphs_skip (s : string) :
  paragraphs_from true s = paragraphs_from false (snd (span isLF s)).
Proof.
  induction s as [|c s IH]; [reflexivity|].
  cbn [paragraphs_from].
  destruct (ascii_dec c LF) as [->|Hc].
  - rewrite span_accepted by reflexivity. cbn [snd]. exact IH.
  - rewrite span_refused
      by (unfold isLF; destruct (ascii_dec LF c); [congruence | reflexivity]).
    cbn [snd paragraphs_from]. destruct (ascii_dec c LF); [contradiction | reflexivity].
Qed.

Lemma split_loop_paragraphs (budget : nat) : forall (rest piece : string) (p0 q : nat),
  (p0 <= q)%nat -> (String.length rest < budget)%nat ->
  split_loop paragraphSeparator p0 q piece rest budget =
  prepend piece (paragraphs_from false rest).
Proof.
  induction budget as [|b IH]; intros rest piece p0 q Hpq Hlen; [lia|].
  cbn [split_loop]. destruct rest as [|c rest].
  - cbn [paragraphs_from prepend]. rewrite str_app_empty_r. reflexivity.
  - rewrite paragraph_separator_match. cbn [paragraphs_from].
    destruct (ascii_dec c LF) as [->|Hc]; cbn [andb].
    + destruct (startsWith rest LFs) eqn:Es.
      * unfold r_end. cbn [r_index r_text].
        assert (Hn : (S (String.length (fst (span isLF rest))) <= String.length (String LF rest))%nat).
        { cbn [String.length]. pose proof (span_length isLF rest). lia. }
        rewrite length_take. rewrite Nat.min_l by exact Hn.
        replace (Nat.eqb (q + S (String.length (fst (span isLF rest)))) p0) with false
          by (symmetry; apply Nat.eqb_neq; lia).
        replace (q + S (String.length (fst (span isLF rest))) - q)%nat
          with (S (String.length (fst (span isLF rest)))) by lia.
        cbn [drop prepend]. rewrite str_app_empty_r. f_equal.
        assert (Hdrop : drop (String.length (fst (span isLF rest))) rest = snd (span isLF rest)).
        { rewrite <- (span_app isLF rest) at 2. apply drop_app_length. }
        rewrite Hdrop, IH, prepend_empty, paragraphs_skip;
          [reflexivity | apply paragraphs_from_nonempty | lia |].
        pose proof (span_length isLF rest). cbn [String.length] in Hlen. lia.
      * rewrite IH by (cbn [String.length] in Hlen; lia).
        pose proof (paragraphs_from_nonempty false rest) as Hne.
        destruct (paragraphs_from false rest) as [|p ps]; [contradiction|].
        cbn [cons_head prepend]. rewrite str_app_assoc. reflexivity.
    + rewrite IH by (cbn [String.length] in Hlen; lia).
      pose proof (paragraphs_from_nonempty false rest) as Hne.
      destruct (paragraphs_from false rest) as [|p ps]; [contradiction|].
      cbn [cons_head prepend]. rewrite str_app_assoc. reflexivity.
Qed.

Lemma split_paragraphs (content : string) :
  split paragraphSeparator content = paragraphs content.
Proof.
  unfold split, paragraphs. destruct content as [|c content].
  - rewrite paragraph_separator_match. reflexivity.
  - rewrite split_loop_paragraphs by (cbn [String.length]; lia).
    apply prepend_empty, paragraphs_from_nonempty.
Qed.

Lemma paragraph_head_LF (s : string) :
  startsWith (hd EmptyString (paragraphs_from false s)) LFs = true ->
  startsWith s LFs = true.
Proof.
  destruct s as [|c s]; [intros H; exact H|]. cbn [paragraphs_from].
  pose proof (paragraphs_from_nonempty false s) as Hne.
  destruct (ascii_dec c LF) as [->|Hc].
  - intros _. cbn [startsWith LFs]. destruct (ascii_dec LF LF); [|contradiction].
    apply startsWith_empty.
  - destruct (paragraphs_from false s) as [|p ps]; [contradiction|].
    cbn [cons_head hd startsWith LFs].
    destruct (ascii_dec LF c); [congruence | discriminate].
Qed.

Lemma paragraphs_no_blank_line (s : string) (b : bool) :
  Forall (fun p => includes p blankLine = false) (paragraphs_from b s).
Proof.
  revert b. induction s as [|c s IH]; intros b; cbn [paragraphs_from].
  - constructor; [reflexivity | constructor].
  - pose proof (paragraphs_from_nonempty false s) as Hne.
    pose proof (IH false) as IHf.
    destruct (ascii_dec c LF) as [->|Hc].
    + destruct b; [apply IH|].
      destruct (startsWith s LFs) eqn:Es.
      * constructor; [reflexivity | apply IH].
      * pose proof (paragraph_head_LF s) as Hhead.
        destruct (paragraphs_from false s) as [|p ps]; [contradiction|].
        cbn [cons_head hd] in *. apply Forall_cons in IHf. destruct IHf as [Hp Hps].
        constructor; [|exact Hps]. rewrite includes_cons, Hp, orb_false_r.
        unfold blankLine. cbn [startsWith]. destruct (ascii_dec LF LF); [|contradiction].
        destruct (startsWith p LFs) eqn:Ep; [|reflexivity].
        rewrite (Hhead eq_refl) in Es. discriminate Es.
    + destruct (paragraphs_from false s) as [|p ps]; [contradiction|].
      cbn [cons_head]. apply Forall_cons in IHf. destruct IHf as [Hp Hps].
      constructor; [|exact Hps]. rewrite includes_cons, Hp, orb_false_r.
      unfold blankLine. cbn [startsWith]. destruct (ascii_dec LF c); [congruence | reflexivity].
Qed.

Lemma length_trim (s : string) : (String.length (trim s) <= String.length s)%nat.
Proof.
  pose proof (includes_trim s) as H. apply includes_app in H.
  destruct H as (pre & post & H). apply (f_equal String.length) in H.
  rewrite !length_app in H. lia.
Qed.

Lemma length_slice_200 (s : string) : (String.length (slice s 0 200) <= 200)%nat.
Proof.
  unfold slice, clamp_index, len. rewrite length_take.
  cbn [Z.ltb Z.compare]. lia.
Qed.

(** X26: [extractDescription] returns the first paragraph (the paragraphs
    being the pieces between the runs of two or more line feeds) that,
    once trimmed, is not empty and starts with neither a fence nor [#], and
    the trimmed first 200 characters of the section when there is none.
    The description is always trimmed; taken from a paragraph it holds no
    blank line, and in the fallback it has at most 200 characters. *)
Theorem extractDescription_paragraph (content : string) :
  extractDescription content =
    match find describes (map trim (paragraphs content)) with
    | Some trimmed => trimmed
    | None => trim (slice content 0 200)
    end /\
  trim (extractDescription content) = extractDescription content /\
  (describes (extractDescription content) = true /\
   includes (extractDescription content) blankLine = false
   \/
   extractDescription content = trim (slice content 0 200) /\
   (String.length (extractDescription content) <= 200)%nat).
Proof.
  unfold extractDescription. rewrite split_paragraphs.
  change (fun trimmed : string =>
            negb (startsWith trimmed "```") && negb (startsWith trimmed "#")
            && (0 <? len trimmed)) with describes.
  split; [reflexivity|].
  destruct (find describes (map trim (paragraphs content))) as [d|] eqn:E.
  - apply find_some in E. destruct E as [Hin Hd].
    apply in_map_iff in Hin. destruct Hin as (p & <- & Hp).
    split; [apply trim_idem|]. left. split; [exact Hd|].
    pose proof (paragraphs_no_blank_line content false) as Hall.
    apply Forall_forall with (x := p) in Hall; [|apply list_elem_of_In, Hp].
    apply trimmed_clean, Hall.
  - split; [apply trim_idem|]. right. split; [reflexivity|].
    etransitivity; [apply length_trim | apply length_slice_200].
Qed.

(** *** Re-fetching, independent sections and lint rule names *)

Import Tokens.

Lemma cache_all_twice (docs : list Document) (cache : gmap string Document) :
  cache_all docs (cache_all docs cache) = cache_all docs cache.
Proof.
  apply map_eq. intros k. rewrite !cache_all_lookup.
  destruct (latest k docs); reflexivity.
Qed.

Section Refetch.

Context {Splitter : Type}.
Variable matter :
  string -> Splitter -> completion (option frontmatter * string) * Splitter.
Variable config : SourceConfig.

Lemma steady_attempt (file : File) (sp sp' : Splitter) :
  steady matter file ->
  fst (attempt matter config file sp) = fst (attempt matter config file sp').
Proof.
  intros H. unfold attempt. destruct (f_read file) as [content|e] eqn:E; [|reflexivity].
  specialize (H content sp sp' E).
  destruct (matter content sp) as [c1 s1], (matter content sp') as [c2 s2].
  cbn [fst] in H. subst c2. destruct c1 as [[[fm|] body]|e]; reflexivity.
Qed.

Lemma steady_outcomes (files : list File) : forall sp sp',
  Forall (steady matter) files ->
  outcomes matter config files sp = outcomes matter config files sp'.
Proof.
  induction files as [|file files IH]; intros sp sp' H; [reflexivity|].
  apply Forall_cons in H. destruct H as [Hf H]. cbn [outcomes].
  rewrite (steady_attempt file sp sp' Hf). f_equal. apply IH, H.
Qed.

(** X27: when the splitter answers the text of every file in the same way
    at every call, fetching the same files a second time returns the same
    documents and leaves the cache, hence the document count, as the first
    fetch left it. *)
Theorem fetchDocuments_twice (files : list File) (st : SourceState) (sp : Splitter) :
  Forall (steady matter) files ->
  fst (fst (fetchDocuments matter config files
              (snd (fst (fetchDocuments matter config files st sp)))
              (snd (fetchDocuments matter config files st sp)))) =
  fst (fst (fetchDocuments matter config files st sp)) /\
  documentCache
    (snd (fst (fetchDocuments matter config files
                 (snd (fst (fetchDocuments matter config files st sp)))
                 (snd (fetchDocuments matter config files st sp))))) =
  documentCache (snd (fst (fetchDocuments matter config files st sp))) /\
  getDocumentCount
    (snd (fst (fetchDocuments matter config files
                 (snd (fst (fetchDocuments matter config files st sp)))
                 (snd (fetchDocuments matter config files st sp))))) =
  getDocumentCount (snd (fst (fetchDocuments matter config files st sp))).
Proof.
  intros H. unfold fetchDocuments, getDocumentCount. rewrite !fetch_fold.
  cbn [fst snd documentCache app].
  rewrite (steady_outcomes files (splitterAfter matter config files sp) sp H).
  rewrite cache_all_twice. repeat split; reflexivity.
Qed.

End Refetch.

(** The end-to-end document, which the splitter of the scenarios returns
    whole at every call, fetched twice. *)
Lemma fetchDocuments_twice_witness :
  fst (fst (fetchDocuments Scenario.remembering Scenario.team_config
              [Scenario.use_const_file]
              (snd (fst (fetchDocuments Scenario.remembering Scenario.team_config
                           [Scenario.use_const_file] Scenario.empty_state [])))
              (snd (fetchDocuments Scenario.remembering Scenario.team_config
                      [Scenario.use_const_file] Scenario.empty_state [])))) =
  fst (fst (fetchDocuments Scenario.remembering Scenario.team_config
              [Scenario.use_const_file] Scenario.empty_state [])).
Proof.
  apply (fetchDocuments_twice Scenario.remembering Scenario.team_config
           [Scenario.use_const_file] Scenario.empty_state []).
  constructor; [|constructor].
  intros content sp sp' Hread. injection Hread as <-.
  unfold Scenario.remembering.
  destruct (existsb _ sp), (existsb _ sp'); reflexivity.
Defined.

Lemma cons_head_app (c : ascii) (x y : list string) :
  x <> [] -> cons_head c (x ++ y) = cons_head c x ++ y.
Proof. destruct x; [contradiction | reflexivity]. Qed.

Lemma pieces_app (a b : string) :
  startsWith b "## " = true ->
  pieces (a +:+ String LF b) = pieces a ++ pieces b.
Proof.
  intros Hb. induction a as [|c a IH].
  - rewrite app_empty. cbn [pieces]. destruct (ascii_dec LF LF); [|contradiction].
    rewrite Hb. reflexivity.
  - rewrite app_cons. cbn [pieces].
    rewrite (startsWith_line _ _ _ heading_prefix_no_LF), IH.
    destruct ((if ascii_dec c LF then true else false) && startsWith a "## ");
      [reflexivity|].
    apply cons_head_app, pieces_nonempty.
Qed.

(** X28: sections are processed independently: when the text after a line
    feed starts with [## ], the practices of the whole body are those of
    the text in front of that line feed followed by those of the text after
    it. *)
Theorem parsePractices_app (a b : string) (fm : frontmatter) :
  startsWith b "## " = true ->
  parsePractices (a +:+ String LF b) fm = parsePractices a fm ++ parsePractices b fm.
Proof.
  intros Hb. unfold parsePractices.
  rewrite !split_sections, (pieces_app _ _ Hb). apply omap_app.
Qed.

(** An introduction in front of two sections. *)
Lemma parsePractices_app_witness :
  parsePractices ("Intro" +:+ String LF Scenario.keyword_sections) ∅ =
  parsePractices "Intro" ∅ ++ parsePractices Scenario.keyword_sections ∅.
Proof. apply parsePractices_app. reflexivity. Defined.

Lemma advanced_same_refl st : advanced_same st st.
Proof. split; [apply advanced_refl | reflexivity]. Qed.

Lemma advanced_same_trans a b c :
  advanced_same a b -> advanced_same b c -> advanced_same a c.
Proof.
  intros [H1 E1] [H2 E2]. split; [eapply advanced_trans; eauto | congruence].
Qed.

Lemma step_char_same st ok k res :
  step_char st ok k = Some res -> exists st', advanced_same st st' /\ k st' = Some res.
Proof.
  unfold step_char. destruct st as [pos rest caps]. cbn [m_rest m_pos m_caps].
  destruct rest as [|c rest]; [discriminate|].
  destruct (ok c); [|discriminate]. intros H.
  exists (MState (S pos) rest caps). split; [|exact H].
  split; [|reflexivity]. exists (String c EmptyString). cbn. split; [reflexivity | lia].
Qed.

Lemma star_loop_same body g k budget : forall st res,
  (forall st0 k0 res0, body st0 k0 = Some res0 ->
                       exists st', advanced_same st0 st' /\ k0 st' = Some res0) ->
  star_loop body g k budget st = Some res ->
  exists st', advanced_same st st' /\ k st' = Some res.
Proof.
  induction budget as [|b IH]; intros st res Hbody; cbn [star_loop].
  - intros H. exists st. split; [apply advanced_same_refl | exact H].
  - assert (Hagain : forall res0,
      body st (fun st' => if Nat.eqb (m_pos st') (m_pos st) then None
                          else star_loop body g k b st') = Some res0 ->
      exists st', advanced_same st st' /\ k st' = Some res0).
    { intros res0 H. apply Hbody in H. destruct H as (st1 & Hadv & H).
      destruct (Nat.eqb _ _); [discriminate H|].
      apply IH in H; [|exact Hbody]. destruct H as (st2 & Hadv2 & H).
      exists st2. split; [eapply advanced_same_trans; eauto | exact H]. }
    destruct g; unfold first_some.
    + destruct (body st _) as [r|] eqn:E.
      * intros H. injection H as <-. apply Hagain. reflexivity.
      * intros H. exists st. split; [apply advanced_same_refl | exact H].
    + destruct (k st) as [r|] eqn:E.
      * intros H. injection H as <-. exists st. split; [apply advanced_same_refl | exact E].
      * apply Hagain.
Qed.

Lemma run_same ic r : group_free r = true -> forall st k res,
  run ic r st k = Some res -> exists st', advanced_same st st' /\ k st' = Some res.
Proof.
  induction r as [| a | | cl | a IHa b IHb | a IHa b IHb | g a IHa | n a IHa
                  | a IHa | | ]; cbn [group_free]; intros Hr st k res; cbn [run].
  - intros H. exists st. split; [apply advanced_same_refl | exact H].
  - apply step_char_same.
  - apply step_char_same.
  - apply step_char_same.
  - apply andb_true_iff in Hr. destruct Hr as [Ha Hb].
    intros H. apply (IHa Ha) in H. destruct H as (st1 & Hadv & H).
    apply (IHb Hb) in H. destruct H as (st2 & Hadv2 & H).
    exists st2. split; [eapply advanced_same_trans; eauto | exact H].
  - apply andb_true_iff in Hr. destruct Hr as [Ha Hb].
    unfold first_some. destruct (run ic a st k) as [r|] eqn:E.
    + intros H. injection H as <-. apply (IHa Ha), E.
    + apply (IHb Hb).
  - apply star_loop_same. exact (IHa Hr).
  - discriminate Hr.
  - destruct (run ic a st (fun st' => Some st')) as [st1|] eqn:E; [|discriminate].
    intros H. apply (IHa Hr) in E. destruct E as (st2 & [_ Hcaps] & E).
    injection E as <-. eexists. split; [|exact H].
    split; [|exact Hcaps]. exists EmptyString. split; [reflexivity | simpl; lia].
  - destruct (Nat.eqb (m_pos st) 0); [|discriminate].
    intros H. exists st. split; [apply advanced_same_refl | exact H].
  - destruct (m_rest st) eqn:E; [|discriminate].
    intros H. exists st. split; [apply advanced_same_refl | exact H].
Qed.

Lemma plus_class ic cl pos rest caps k res :
  run ic (RPlus (RClass cl)) (MState pos rest caps) k = Some res ->
  exists w r, w <> EmptyString /\ rest = w +:+ r /\
              all_chars (class_test ic cl) w /\
              k (MState (pos + String.length w) r caps) = Some res.
Proof.
  unfold RPlus. rewrite run_seq. cbn [run]. unfold step_char. cbn [m_rest m_pos m_caps].
  destruct rest as [|c rest]; [discriminate|].
  destruct (class_test ic cl c) eqn:Hc; [|discriminate].
  change (star_loop _ true k _ _) with (run ic (RStar true (RClass cl)) (MState (S pos) rest caps) k).
  rewrite run_star. rewrite star_class_greedy by (cbn [m_rest]; lia).
  intros H. apply greedy_scan_sound in H. destruct H as (w & r & -> & Hw & H).
  exists (String c w), r. split; [discriminate|]. split; [reflexivity|].
  split; [apply all_chars_cons; split; assumption|].
  cbn [String.length].
  replace (pos + S (String.length w))%nat with (S pos + String.length w)%nat by lia.
  exact H.
Qed.

Lemma plus_class_group ic n cl pos rest caps k res :
  run ic (RGroup n (RPlus (RClass cl))) (MState pos rest caps) k = Some res ->
  exists w r, w <> EmptyString /\ rest = w +:+ r /\
              all_chars (class_test ic cl) w /\
              k (MState (pos + String.length w) r ((n, w) :: caps)) = Some res.
Proof.
  rewrite run_group. intros H. apply plus_class in H.
  destruct H as (w & r & Hne & -> & Hw & H).
  cbn [m_pos m_rest m_caps] in H.
  replace (pos + String.length w - pos)%nat with (String.length w) in H by lia.
  rewrite take_app_length in H. eauto 10.
Qed.

Lemma all_chars_app ok (x y : string) :
  all_chars ok (x +:+ y) <-> all_chars ok x /\ all_chars ok y.
Proof.
  induction x as [|c x IH].
  - rewrite app_empty. split; [intros H; split; [apply all_chars_empty | exact H] | tauto].
  - rewrite app_cons, !all_chars_cons, IH. tauto.
Qed.

Lemma class_rule_char ic cl :
  every_char (fun c => implb (class_test ic cl c) (rule_char c)) = true ->
  forall w, all_chars (class_test ic cl) w -> all_chars rule_char w.
Proof.
  intros H w. apply all_chars_impl. intros c Hc.
  pose proof (every_char_spec _ H c) as Himp. cbv beta in Himp.
  rewrite Hc in Himp. exact Himp.
Qed.

Lemma capture_or_text_group (m : result) (w : string) :
  group 1 m = Some w -> w <> EmptyString -> capture_or_text m = w.
Proof.
  intros Hg Hne. unfold capture_or_text. rewrite Hg.
  destruct (String.eqb_spec w ""); [contradiction | reflexivity].
Qed.

Lemma scoped_rule_token pos rest m :
  match_at scopedRulePattern pos rest = Some m -> rule_token (capture_or_text m).
Proof.
  unfold match_at, scopedRulePattern, ruleName. cbn [p_regex p_ignoreCase].
  destruct (run false _ _ _) as [st|] eqn:E; [|discriminate].
  intros H. injection H as <-.
  rewrite run_seq in E. apply run_str_sound in E. destruct E as (r1 & -> & E).
  apply plus_class in E. destruct E as (w & r & Hne & -> & Hw & E).
  injection E as <-. unfold capture_or_text. cbn [group r_caps lookup_cap r_text m_pos].
  cbn [m_caps lookup_cap].
  replace (pos + 19 + String.length w - pos)%nat
    with (String.length ("@typescript-eslint/" +:+ w))
    by (rewrite length_app; cbn [String.length]; lia).
  rewrite <- str_app_assoc, take_app_length.
  split; [discriminate|]. apply all_chars_app. split.
  - repeat (apply all_chars_cons; split; [reflexivity|]). apply all_chars_empty.
  - revert Hw. apply class_rule_char. vm_compute. reflexivity.
Qed.

Lemma eslint_rule_token pos rest m :
  match_at eslintRulePattern pos rest = Some m -> rule_token (capture_or_text m).
Proof.
  unfold match_at, eslintRulePattern, ruleName. cbn [p_regex p_ignoreCase].
  destruct (run true _ _ _) as [st|] eqn:E; [|discriminate].
  intros H. injection H as <-.
  rewrite run_seq in E. apply run_sound in E. destruct E as (st1 & _ & E).
  rewrite run_seq in E. apply run_sound in E. destruct E as (st2 & _ & E).
  rewrite run_seq in E. apply run_sound in E. destruct E as ([p3 r3 c3] & _ & E).
  apply plus_class_group in E. destruct E as (w & r & Hne & -> & Hw & E).
  injection E as <-.
  rewrite (capture_or_text_group _ w) by (try exact Hne; reflexivity).
  split; [exact Hne|]. revert Hw. apply class_rule_char. vm_compute. reflexivity.
Qed.

Lemma quoted_rule_token pos rest m :
  match_at quotedRulePattern pos rest = Some m -> rule_token (capture_or_text m).
Proof.
  unfold match_at, quotedRulePattern. cbn [p_regex p_ignoreCase].
  destruct (run true _ _ _) as [st|] eqn:E; [|discriminate].
  intros H. injection H as <-.
  rewrite run_seq in E. apply run_sound in E. destruct E as (st1 & _ & E).
  rewrite run_seq in E. apply run_sound in E. destruct E as ([p2 r2 c2] & _ & E).
  rewrite run_seq in E.
  apply plus_class_group in E. destruct E as (w & r & Hne & -> & Hw & E).
  apply run_same in E; [|reflexivity]. destruct E as (st' & [_ Hcaps] & E).
  injection E as <-. cbn [m_caps] in Hcaps.
  rewrite (capture_or_text_group _ w) by (try exact Hne; cbn [group r_caps]; rewrite Hcaps; reflexivity).
  split; [exact Hne|]. revert Hw. apply class_rule_char. vm_compute. reflexivity.
Qed.

(** X29: every lint rule [extractLintRules] returns is a non-empty text made
    of word characters, [@], [/] and [-] only: no rule holds white space, a
    backtick or a bracket. *)
Theorem extractLintRules_tokens (content : string) :
  Forall (fun rule => rule <> EmptyString /\ all_chars rule_char rule)
         (extractLintRules content).
Proof.
  apply Forall_forall. intros rule Hr. apply list_elem_of_In in Hr.
  unfold extractLintRules in Hr. apply (proj1 (In_set_of _ _)) in Hr.
  apply in_flat_map in Hr. destruct Hr as (p & Hp & Hr).
  apply in_map_iff in Hr. destruct Hr as (m & <- & Hm).
  apply matchAll_from_match in Hm. destruct Hm as (pos & rest & Hm).
  destruct Hp as [<-|[<-|[<-|[]]]].
  - apply (scoped_rule_token _ _ _ Hm).
  - apply (eslint_rule_token _ _ _ Hm).
  - apply (quoted_rule_token _ _ _ Hm).
Qed.

(** *** The patterns read without the matcher *)

Import Recognisers Families Letters.

Lemma scan_from_skip {A} (here : string -> option (nat * A)) (s : string) :
  forall pos skip,
  scan_from here pos skip s =
  if Nat.ltb (String.length s) skip then []
  else scan_from here (pos + skip) 0 (drop skip s).
Proof.
  induction s as [|c s IH]; intros pos skip.
  - destruct skip as [|skip]; [cbn [Nat.ltb Nat.leb String.length drop]; rewrite Nat.add_0_r; reflexivity|].
    reflexivity.
  - destruct skip as [|skip].
    + cbn [Nat.ltb Nat.leb drop]. rewrite Nat.add_0_r. reflexivity.
    + cbn [scan_from]. rewrite IH. cbn [String.length drop].
      change (Nat.ltb (S (String.length s)) (S skip)) with (Nat.ltb (String.length s) skip).
      replace (S pos + skip)%nat with (pos + S skip)%nat by lia. reflexivity.
Qed.

Section MatchAllScan.

Context {A : Type} (p : pattern) (here : string -> option (nat * A)) (f : result -> A).

Hypothesis here_spec : forall pos rest,
  match here rest with
  | Some (n, a) =>
      exists m, match_at p pos rest = Some m /\ String.length (r_text m) = n /\ f m = a
  | None => match_at p pos rest = None
  end.

Lemma matchAll_from_pass (budget pos : nat) (c : ascii) (rest : string) :
  match_at p pos (String c rest) = None ->
  matchAll_from (S budget) p pos (String c rest) =
  matchAll_from (S budget) p (S pos) rest.
Proof.
  intros H. cbn [matchAll_from exec_from]. rewrite H.
  destruct (exec_from p (S pos) rest) as [m|] eqn:E; [|reflexivity].
  apply exec_from_bounds in E. destruct E as [Hi He]. cbv zeta.
  set (next := if Nat.eqb (r_end m) (r_index m) then S (r_end m) else r_end m).
  assert (Hnext : (S pos <= next)%nat).
  { unfold next, r_end. destruct (Nat.eqb _ _); lia. }
  cbn [String.length].
  replace (pos + S (String.length rest))%nat with (S pos + String.length rest)%nat by lia.
  replace (next - pos)%nat with (S (next - S pos)) by lia. reflexivity.
Qed.

Lemma matchAll_from_scan (budget : nat) : forall pos rest,
  (String.length rest < budget)%nat ->
  map (fun m => (r_index m, f m)) (matchAll_from budget p pos rest) =
  scan_from here pos 0 rest.
Proof.
  induction budget as [|b IHb]; intros pos rest Hb; [lia|].
  revert pos Hb. induction rest as [|c rest IHr]; intros pos Hb.
  - cbn [matchAll_from exec_from scan_from].
    pose proof (here_spec pos EmptyString) as Hh.
    destruct (here EmptyString) as [[n a]|].
    + destruct Hh as (m & Hm & Hn & Hf). rewrite Hm. cbv zeta.
      pose proof (match_at_bounds _ _ _ _ Hm) as [Hi Hl]. cbn [String.length] in Hl.
      unfold r_end. replace (String.length (r_text m)) with 0%nat by lia.
      rewrite Hi. cbn [String.length]. rewrite !Nat.add_0_r, Nat.eqb_refl.
      replace (Nat.ltb pos (S pos)) with true
        by (symmetry; apply Nat.ltb_lt; lia).
      cbn [map]. rewrite Hi, Hf. reflexivity.
    + rewrite Hh. reflexivity.
  - pose proof (here_spec pos (String c rest)) as Hh.
    cbn [scan_from]. destruct (here (String c rest)) as [[n a]|].
    + destruct Hh as (m & Hm & Hn & Hf).
      pose proof (match_at_bounds _ _ _ _ Hm) as [Hi Hl].
      cbn [matchAll_from exec_from]. rewrite Hm. cbv zeta.
      set (next := if Nat.eqb (r_end m) (r_index m) then S (r_end m) else r_end m).
      assert (Hnext : next = (S pos + (n - 1))%nat).
      { unfold next, r_end. rewrite Hi, Hn.
        destruct (Nat.eqb (pos + n) pos) eqn:Q.
        - apply Nat.eqb_eq in Q. lia.
        - apply Nat.eqb_neq in Q. lia. }
      cbn [map]. rewrite Hi, Hf. f_equal.
      rewrite scan_from_skip. cbn [String.length] in *. rewrite Hnext.
      destruct (Nat.ltb (String.length rest) (n - 1)) eqn:Q.
      * apply Nat.ltb_lt in Q. lia.
      * replace (Nat.ltb (pos + S (String.length rest)) (S pos + (n - 1))) with false
          by (symmetry; apply Nat.ltb_ge; apply Nat.ltb_ge in Q; lia).
        replace (S pos + (n - 1) - pos)%nat with (S (n - 1)) by lia.
        cbn [drop]. apply IHb. rewrite length_drop. lia.
    + rewrite matchAll_from_pass by exact Hh. apply IHr. cbn [String.length] in Hb. lia.
Qed.

(** The matches [matchAll] lists are those of the left-to-right search. *)
Lemma matchAll_scan (s : string) :
  map (fun m => (r_index m, f m)) (matchAll p s) = scan here s.
Proof. apply matchAll_from_scan. lia. Qed.

End MatchAllScan.

Lemma before_fence_split (s c : string) :
  before_fence s = Some c ->
  s = c +:+ "```" +:+ drop 3 (drop (String.length c) s).
Proof.
  revert c. induction s as [|a s IH]; intros c.
  - cbn. discriminate.
  - cbn [before_fence]. destruct (startsWith (String a s) "```") eqn:E.
    + intros H. injection H as <-. rewrite app_empty. cbn [String.length].
      rewrite drop_0. apply startsWith_app in E. destruct E as (post & E).
      rewrite E at 1. f_equal. rewrite E.
      symmetry. apply (drop_app_length "```").
    + destruct (before_fence s) as [c'|]; [|discriminate].
      intros H. injection H as <-. cbn [String.length drop].
      rewrite app_cons. f_equal. apply IH. reflexivity.
Qed.

Lemma lazy_until_fence (r0 : string) (pos0 : nat) (caps : list (nat * string)) :
  forall r pre,
  r0 = pre +:+ r ->
  lazy_scan (class_test false CAny)
    (fun st' =>
       run false fence
         (MState (m_pos st') (m_rest st')
            ((1%nat, take (m_pos st' - pos0) r0) :: m_caps st'))
         (fun st => Some st))
    (pos0 + String.length pre) r caps =
  match before_fence r with
  | Some c =>
      Some (MState (pos0 + String.length pre + String.length c + 3)
              (drop 3 (drop (String.length c) r)) ((1%nat, pre +:+ c) :: caps))
  | None => None
  end.
Proof.
  induction r as [|a r IH]; intros pre ->.
  - cbn [lazy_scan before_fence startsWith first_some].
    unfold fence. rewrite run_str. reflexivity.
  - cbn [lazy_scan before_fence]. unfold fence at 1. rewrite run_str.
    cbn [m_pos m_rest m_caps].
    destruct (startsWith (String a r) "```") eqn:E.
    + cbn [first_some String.length drop]. rewrite str_app_empty_r.
      replace (pos0 + String.length pre - pos0)%nat with (String.length pre) by lia.
      rewrite take_app_length, Nat.add_0_r. reflexivity.
    + cbn [first_some]. rewrite (any_char (String a r) EmptyString a r eq_refl).
      specialize (IH (pre +:+ String a EmptyString)).
      rewrite length_app in IH. cbn [String.length] in IH.
      replace (pos0 + (String.length pre + 1))%nat with (S (pos0 + String.length pre)) in IH by lia.
      rewrite IH by (rewrite str_app_assoc; reflexivity).
      destruct (before_fence r) as [c|]; [|reflexivity].
      cbn [option_map String.length drop]. rewrite str_app_assoc.
      f_equal. f_equal. lia.
Qed.

Lemma run_char_step a pos rest caps k :
  run false (RChar a) (MState pos rest caps) k =
  match rest with
  | String c r => if ascii_dec a c then k (MState (S pos) r caps) else None
  | EmptyString => None
  end.
Proof.
  destruct rest as [|c r]; [reflexivity|].
  cbn [run]. unfold step_char, char_eq. cbn [m_rest m_pos m_caps].
  destruct (ascii_dec a c); reflexivity.
Qed.

(** The fenced-block pattern read structurally. *)
Lemma fenced_run (pos : nat) (rest : string) (caps : list (nat * string)) :
  run false fencedBlock (MState pos rest caps) (fun st => Some st) =
  match block_here is_word rest with
  | Some (n, c) => Some (MState (pos + n) (drop n rest) ((1%nat, c) :: caps))
  | None => None
  end.
Proof.
  unfold fencedBlock, block_here. unfold fence at 1. rewrite run_seq, run_str.
  destruct (startsWith rest "```") eqn:Es; [|reflexivity].
  change (String.length "```") with 3%nat. cbv beta.
  rewrite run_seq, run_star, star_class_greedy by (cbn [m_rest]; lia).
  rewrite greedy_scan_span.
  2:{ intros p c r cs Hc. rewrite run_seq, run_char_step.
      destruct (ascii_dec LF c) as [<-|]; [|reflexivity].
      vm_compute in Hc. discriminate Hc. }
  change (class_test false CWord) with is_word.
  pose proof (span_app is_word (drop 3 rest)) as Hsp.
  destruct (span is_word (drop 3 rest)) as [tag r1]. cbn [fst snd] in *.
  rewrite run_seq, run_char_step.
  destruct r1 as [|c r]; [reflexivity|].
  destruct (ascii_dec LF c) as [<-|Hc].
  2:{ destruct (ascii_dec c LF); [congruence|reflexivity]. }
  destruct (ascii_dec LF LF); [|congruence].
  rewrite run_seq, run_group, run_star.
  rewrite star_class_lazy by (cbn [m_rest]; lia).
  cbn [m_pos m_rest].
  pose proof (lazy_until_fence r (S (pos + 3 + String.length tag)) caps r EmptyString eq_refl) as Hl.
  cbn [String.length] in Hl. rewrite Nat.add_0_r in Hl.
  rewrite Hl. clear Hl.
  destruct (before_fence r) as [content|] eqn:Eb; [|reflexivity].
  rewrite app_empty. f_equal.
  apply startsWith_app in Es. destruct Es as (post & ->).
  rewrite (drop_app_length "```") in Hsp. subst post.
  f_equal; [lia|].
  replace (String.length tag + String.length content + 7)%nat
    with (String.length ("```" +:+ tag +:+ String LF content) + 3)%nat.
  2:{ rewrite !length_app. cbn [String.length]. lia. }
  rewrite (before_fence_split r content Eb) at 2.
  set (tail := drop 3 (drop (String.length content) r)).
  replace ("```" +:+ tag +:+ String LF (content +:+ "```" +:+ tail))
    with (("```" +:+ tag +:+ String LF content) +:+ "```" +:+ tail).
  2:{ rewrite !str_app_assoc. cbn. rewrite !app_cons. reflexivity. }
  rewrite drop_app_more. reflexivity.
Qed.

Lemma greedy_scan_best ok k pos rest caps :
  (forall p c r cs, ok c = true -> k (MState p (String c r) cs) = None) \/
  (forall st, k st <> None) ->
  greedy_scan ok k pos rest caps =
  k (MState (pos + String.length (fst (span ok rest))) (snd (span ok rest)) caps).
Proof.
  intros Hk. revert pos. induction rest as [|c rest IH]; intros pos; cbn [greedy_scan span].
  - cbn. rewrite Nat.add_0_r. reflexivity.
  - destruct (ok c) eqn:Hc; cbn [fst snd String.length].
    + rewrite IH, Nat.add_succ_r. cbn [Nat.add].
      destruct (k (MState (S (pos + _)) _ _)) eqn:E; [reflexivity|].
      cbn [first_some]. destruct Hk as [Hk|Hk]; [apply Hk, Hc|].
      destruct (Hk _ E).
    + rewrite Nat.add_0_r. reflexivity.
Qed.

Lemma run_class ic cl st k :
  run ic (RClass cl) st k = step_char st (class_test ic cl) k.
Proof. reflexivity. Qed.

Lemma take_span ok (s : string) :
  take (String.length (fst (span ok s))) s = fst (span ok s).
Proof. rewrite <- (span_app ok s) at 2. apply take_app_length. Qed.

Lemma drop_span ok (s : string) :
  drop (String.length (fst (span ok s))) s = snd (span ok s).
Proof. rewrite <- (span_app ok s) at 2. apply drop_app_length. Qed.

(** [[...]+] followed by [k]: the longest run, when [k] refuses to start
    inside a run or never fails. *)
Lemma plus_class_span ic cl pos rest caps k :
  (forall p c r cs, class_test ic cl c = true -> k (MState p (String c r) cs) = None) \/
  (forall st, k st <> None) ->
  run ic (RPlus (RClass cl)) (MState pos rest caps) k =
  match fst (span (class_test ic cl) rest) with
  | EmptyString => None
  | w => k (MState (pos + String.length w) (snd (span (class_test ic cl) rest)) caps)
  end.
Proof.
  intros Hk. unfold RPlus. rewrite run_seq, run_class. unfold step_char.
  cbn [m_rest m_pos m_caps]. destruct rest as [|c rest]; [reflexivity|].
  cbn [span]. destruct (class_test ic cl c) eqn:Hc; [|reflexivity].
  cbn [fst snd]. rewrite run_star, star_class_greedy by (cbn [m_rest]; lia).
  rewrite greedy_scan_best by exact Hk.
  cbn [String.length]. rewrite Nat.add_succ_r. reflexivity.
Qed.

Lemma plus_class_group_span ic n cl pos rest caps k :
  (forall p c r cs, class_test ic cl c = true -> k (MState p (String c r) cs) = None) \/
  (forall st, k st <> None) ->
  run ic (RGroup n (RPlus (RClass cl))) (MState pos rest caps) k =
  match fst (span (class_test ic cl) rest) with
  | EmptyString => None
  | w => k (MState (pos + String.length w) (snd (span (class_test ic cl) rest))
              ((n, w) :: caps))
  end.
Proof.
  intros Hk. rewrite run_group, plus_class_span.
  - destruct (fst (span (class_test ic cl) rest)) as [|c w] eqn:E; [reflexivity|].
    cbn [m_pos m_rest m_caps].
    replace (pos + String.length (String c w) - pos)%nat
      with (String.length (String c w)) by lia.
    rewrite <- E, take_span. reflexivity.
  - destruct Hk as [Hk|Hk]; [left|right].
    + intros p c r cs Hc. apply Hk, Hc.
    + intros st. apply Hk.
Qed.

Lemma canon_spells_spec (k c : ascii) :
  canon_spells k = true -> char_eq true k c = spells k c.
Proof. intros H. apply Bool.eqb_prop. exact (every_char_spec _ H c). Qed.

Lemma run_str_ci (s : string) : forall pos rest caps k,
  forallb canon_spells (letters s) = true ->
  run true (RStr s) (MState pos rest caps) k =
  if spelled s rest
  then k (MState (pos + String.length s) (drop (String.length s) rest) caps)
  else None.
Proof.
  induction s as [|a s IH]; intros pos rest caps k Hs.
  - cbn [RStr run String.length spelled]. rewrite Nat.add_0_r, drop_0.
    destruct rest; reflexivity.
  - cbn [letters list_ascii_of_string forallb] in Hs. apply andb_true_iff in Hs.
    destruct Hs as [Ha Hs].
    assert (Hstep : forall k',
      (forall st, k' st = run true (RStr s) st k) ->
      step_char (MState pos rest caps) (char_eq true a) k' =
      if spelled (String a s) rest
      then k (MState (pos + String.length (String a s))
                (drop (String.length (String a s)) rest) caps)
      else None).
    { intros k' Hk'. unfold step_char. cbn [m_rest m_pos m_caps].
      destruct rest as [|b rest]; [reflexivity|].
      cbn [spelled String.length drop]. rewrite (canon_spells_spec a b Ha).
      destruct (spells a b); [|reflexivity]. cbn [andb].
      rewrite Hk', IH, Nat.add_succ_r by exact Hs. reflexivity. }
    destruct s as [|a' s'].
    + cbn [RStr run]. apply Hstep. intros st. destruct st. reflexivity.
    + change (RStr (String a (String a' s')))
        with (RSeq (RChar a) (RStr (String a' s'))).
      rewrite run_seq. cbn [run]. apply Hstep. reflexivity.
Qed.

(** An optional character in front of [k], when [k] cannot start with that
    character. *)
Lemma run_optional ic a pos rest caps k :
  (forall c, char_eq ic a c = if ascii_dec a c then true else false) ->
  (forall p r cs, k (MState p (String a r) cs) = None) ->
  run ic (ROpt (RChar a)) (MState pos rest caps) k =
  k (MState (pos + optional a rest) (drop (optional a rest) rest) caps).
Proof.
  intros Ha Hk. unfold ROpt. cbn [run]. unfold step_char. cbn [m_rest m_pos m_caps].
  destruct rest as [|c r]; cbn [optional].
  - cbn [first_some drop]. rewrite Nat.add_0_r. reflexivity.
  - rewrite Ha. destruct (ascii_dec a c) as [<-|Hc].
    + cbn [drop]. rewrite Nat.add_1_r.
      destruct (k (MState (S pos) r caps)); cbn [first_some]; [reflexivity|].
      apply Hk.
    + cbn [first_some drop]. rewrite Nat.add_0_r. reflexivity.
Qed.

Lemma exact_char (a : ascii) :
  every_char (fun c => Bool.eqb (char_eq true a c) (if ascii_dec a c then true else false)) = true ->
  forall c, char_eq true a c = if ascii_dec a c then true else false.
Proof. intros H c. apply Bool.eqb_prop. exact (every_char_spec _ H c). Qed.

Lemma class_is ic cl (ok : ascii -> bool) :
  every_char (fun c => Bool.eqb (class_test ic cl c) (ok c)) = true ->
  forall c, class_test ic cl c = ok c.
Proof. intros H c. apply Bool.eqb_prop. exact (every_char_spec _ H c). Qed.

Lemma span_ext ok ok' (s : string) :
  (forall c, ok c = ok' c) -> span ok s = span ok' s.
Proof.
  intros H. induction s as [|c s IH]; [reflexivity|].
  cbn [span]. rewrite H, IH. reflexivity.
Qed.

Lemma name_class ic c :
  class_test ic (CUnion CWord (CChar "-")) c = name_char c.
Proof.
  apply (class_is ic (CUnion CWord (CChar "-")) name_char).
  destruct ic; vm_compute; reflexivity.
Qed.

Lemma space_class ic c : class_test ic CSpace c = is_space c.
Proof. apply (class_is ic CSpace is_space). destruct ic; vm_compute; reflexivity. Qed.

Lemma rule_class c :
  class_test true
    (CUnion (CChar "@") (CUnion CWord (CUnion (CChar "/") (CChar "-")))) c = rule_char c.
Proof. apply (class_is true _ rule_char). vm_compute. reflexivity. Qed.

(** Family (a), read off the pattern. *)
Lemma scoped_run pos rest :
  run false (p_regex scopedRulePattern) (MState pos rest []) (fun st => Some st) =
  match scoped_rule_here rest with
  | Some (n, _) => Some (MState (pos + n) (drop n rest) [])
  | None => None
  end.
Proof.
  unfold scopedRulePattern, scoped_rule_here, ruleName. cbn [p_regex].
  rewrite run_seq, run_str. destruct (startsWith rest _) eqn:Es; [|reflexivity].
  change (String.length "@typescript-eslint/") with 19%nat. cbv beta.
  rewrite plus_class_span by (right; discriminate).
  rewrite (span_ext _ name_char) by apply name_class.
  pose proof (drop_span name_char (drop 19 rest)) as Hd.
  destruct (fst (span name_char (drop 19 rest))) as [|c w]; [reflexivity|].
  rewrite <- Hd. f_equal. f_equal; [lia|].
  rewrite Nat.add_comm. symmetry.
  rewrite <- (take_drop 19 rest) at 1.
  replace 19%nat with (String.length (take 19 rest)) at 1.
  - rewrite Nat.add_comm. apply drop_app_more.
  - apply startsWith_app in Es. destruct Es as (post & ->). reflexivity.
Qed.

Lemma drop_drop (a b : nat) (s : string) : drop a (drop b s) = drop (b + a) s.
Proof.
  revert s. induction b as [|b IH]; intros s; [rewrite drop_0; reflexivity|].
  destruct s as [|c s]; cbn [drop Nat.add].
  - destruct a; reflexivity.
  - apply IH.
Qed.

Lemma implies_char (P Q : ascii -> bool) :
  every_char (fun c => implb (P c) (Q c)) = true ->
  forall c, P c = true -> Q c = true.
Proof.
  intros H c Hc. pose proof (every_char_spec _ H c) as Hi. cbv beta in Hi.
  rewrite Hc in Hi. exact Hi.
Qed.

Lemma space_not_name c : is_space c = true -> name_char c = false.
Proof.
  intros H. apply negb_true_iff. revert c H.
  apply (implies_char is_space (fun c => negb (name_char c))).
  vm_compute. reflexivity.
Qed.

(** Family (b), read off the pattern. *)
Lemma eslint_run pos rest :
  run true (p_regex eslintRulePattern) (MState pos rest []) (fun st => Some st) =
  match eslint_rule_here rest with
  | Some (n, name) => Some (MState (pos + n) (drop n rest) [(1%nat, name)])
  | None => None
  end.
Proof.
  unfold eslintRulePattern, eslint_rule_here, ruleName. cbn [p_regex].
  rewrite run_seq, run_str_ci by (vm_compute; reflexivity).
  destruct (spelled "eslint" rest); [|reflexivity].
  change (String.length "eslint") with 6%nat. cbv beta zeta.
  set (r := drop 6 rest).
  assert (Hname : forall p s cs,
    run true (RGroup 1 (RPlus (RClass (CUnion CWord (CChar "-")))))
      (MState p s cs) (fun st => Some st) =
    match fst (span name_char s) with
    | EmptyString => None
    | w => Some (MState (p + String.length w) (snd (span name_char s)) ((1%nat, w) :: cs))
    end).
  { intros p s cs. rewrite plus_class_group_span by (right; discriminate).
    rewrite (span_ext _ name_char) by apply name_class. reflexivity. }
  assert (Htail : forall p s cs,
    run true (RSeq (RStar true (RClass CSpace))
                (RGroup 1 (RPlus (RClass (CUnion CWord (CChar "-"))))))
      (MState p s cs) (fun st => Some st) =
    match fst (span name_char (snd (span is_space s))) with
    | EmptyString => None
    | w => Some (MState (p + String.length (fst (span is_space s)) + String.length w)
                   (snd (span name_char (snd (span is_space s)))) ((1%nat, w) :: cs))
    end).
  { intros p s cs. rewrite run_seq, run_star, star_class_greedy by (cbn [m_rest]; lia).
    rewrite greedy_scan_best.
    - rewrite (span_ext _ is_space) by apply space_class. apply Hname.
    - left. intros p' c r' cs' Hc. rewrite Hname. cbn [span].
      rewrite space_class in Hc. rewrite (space_not_name c Hc). reflexivity. }
  rewrite run_seq, run_optional.
  - rewrite Htail. clear Hname Htail.
    set (colon := optional ":" r).
    set (r1 := drop colon r).
    pose proof (drop_span is_space r1) as Hs.
    pose proof (drop_span name_char (snd (span is_space r1))) as Hn.
    destruct (fst (span name_char (snd (span is_space r1)))) as [|c w]; [reflexivity|].
    f_equal. f_equal; [lia|].
    rewrite <- Hn, <- Hs. unfold r1, r. rewrite !drop_drop. f_equal. lia.
  - apply exact_char. vm_compute. reflexivity.
  - intros p r' cs. rewrite Htail. reflexivity.
Qed.

Lemma space_not_r c : is_space c = true -> spells "r" c = false.
Proof.
  intros H. apply negb_true_iff. revert c H.
  apply (implies_char is_space (fun c => negb (spells "r" c))).
  vm_compute. reflexivity.
Qed.

Lemma rule_char_plain c :
  rule_char c = true -> c <> "`"%char /\ c <> "]"%char.
Proof.
  intros H. split; intros ->; vm_compute in H; discriminate H.
Qed.

Lemma run_char_ci a pos rest caps k :
  (forall c, char_eq true a c = if ascii_dec a c then true else false) ->
  run true (RChar a) (MState pos rest caps) k =
  match rest with
  | String c r => if ascii_dec a c then k (MState (S pos) r caps) else None
  | EmptyString => None
  end.
Proof.
  intros Ha. destruct rest as [|c r]; [reflexivity|].
  cbn [run]. unfold step_char. cbn [m_rest m_pos m_caps]. rewrite Ha.
  destruct (ascii_dec a c); reflexivity.
Qed.

(** Family (c), read off the pattern: the index reached and the captures. *)
Lemma quoted_run pos rest :
  option_map (fun st => (m_pos st, m_caps st))
    (run true (p_regex quotedRulePattern) (MState pos rest []) (fun st => Some st)) =
  match quoted_rule_here rest with
  | Some (n, name) => Some ((pos + n)%nat, [(1%nat, name)])
  | None => None
  end.
Proof.
  unfold quotedRulePattern, quoted_rule_here. cbn [p_regex].
  assert (Hd : forall p s cs,
    run true (RSeq (RStar true (RClass CSpace)) (RStr "rule"))
      (MState p s cs) (fun st => Some st) =
    if spelled "rule" (snd (span is_space s))
    then Some (MState (p + String.length (fst (span is_space s)) + 4)
                 (drop 4 (snd (span is_space s))) cs)
    else None).
  { intros p s cs. rewrite run_seq, run_star, star_class_greedy by (cbn [m_rest]; lia).
    rewrite greedy_scan_best.
    - rewrite (span_ext _ is_space) by apply space_class.
      rewrite run_str_ci by (vm_compute; reflexivity). reflexivity.
    - left. intros p' c r' cs' Hc. rewrite space_class in Hc.
      rewrite run_str_ci by (vm_compute; reflexivity).
      cbn [spelled]. rewrite (space_not_r c Hc). reflexivity. }
  assert (Hc : forall p s cs,
    run true (RSeq (RChar "]") (RSeq (RStar true (RClass CSpace)) (RStr "rule")))
      (MState p s cs) (fun st => Some st) =
    match s with
    | String "]" r4 =>
        if spelled "rule" (snd (span is_space r4))
        then Some (MState (S p + String.length (fst (span is_space r4)) + 4)
                     (drop 4 (snd (span is_space r4))) cs)
        else None
    | _ => None
    end).
  { intros p s cs. rewrite run_seq, run_char_ci by (apply exact_char; vm_compute; reflexivity).
    destruct s as [|c r4]; [reflexivity|].
    destruct (ascii_dec "]" c) as [<-|Hne].
    - apply Hd.
    - destruct c as [[] [] [] [] [] [] [] []]; try reflexivity. congruence. }
  assert (Hb : forall p s cs,
    run true (RSeq (ROpt (RChar "`"))
                (RSeq (RChar "]") (RSeq (RStar true (RClass CSpace)) (RStr "rule"))))
      (MState p s cs) (fun st => Some st) =
    match drop (optional "`" s) s with
    | String "]" r4 =>
        if spelled "rule" (snd (span is_space r4))
        then Some (MState (S (p + optional "`" s) + String.length (fst (span is_space r4)) + 4)
                     (drop 4 (snd (span is_space r4))) cs)
        else None
    | _ => None
    end).
  { intros p s cs. rewrite run_seq, run_optional.
    - apply Hc.
    - apply exact_char. vm_compute. reflexivity.
    - intros p' r' cs'. rewrite Hc. reflexivity. }
  assert (Ha : forall p s cs,
    run true
      (RSeq (RGroup 1 (RPlus (RClass
               (CUnion (CChar "@") (CUnion CWord (CUnion (CChar "/") (CChar "-")))))))
         (RSeq (ROpt (RChar "`"))
            (RSeq (RChar "]") (RSeq (RStar true (RClass CSpace)) (RStr "rule")))))
      (MState p s cs) (fun st => Some st) =
    match fst (span rule_char s) with
    | EmptyString => None
    | name =>
        run true (RSeq (ROpt (RChar "`"))
                    (RSeq (RChar "]") (RSeq (RStar true (RClass CSpace)) (RStr "rule"))))
          (MState (p + String.length name) (snd (span rule_char s)) ((1%nat, name) :: cs))
          (fun st => Some st)
    end).
  { intros p s cs. rewrite run_seq, plus_class_group_span.
    - rewrite (span_ext _ rule_char) by apply rule_class. reflexivity.
    - left. intros p' c r' cs' Hcl. rewrite rule_class in Hcl.
      destruct (rule_char_plain c Hcl) as [H1 H2].
      rewrite Hb. cbn [optional].
      destruct (ascii_dec "`" c) as [E|_]; [congruence|].
      cbn [drop]. destruct c as [[] [] [] [] [] [] [] []]; try reflexivity. congruence. }
  rewrite run_seq, run_char_ci by (apply exact_char; vm_compute; reflexivity).
  destruct rest as [|c r]; [reflexivity|].
  destruct (ascii_dec "[" c) as [<-|Hne].
  2:{ destruct c as [[] [] [] [] [] [] [] []]; try reflexivity. congruence. }
  cbv zeta. rewrite run_seq, run_optional.
  - rewrite Ha. set (open := optional "`" r).
    destruct (span rule_char (drop open r)) as [name r2]. cbn [fst snd].
    destruct name as [|c name]; [reflexivity|].
    rewrite Hb. set (close := optional "`" r2).
    destruct (drop close r2) as [|c' r4]; [reflexivity|].
    destruct c' as [[] [] [] [] [] [] [] []]; try reflexivity.
    destruct (spelled "rule" _); [|reflexivity].
    cbn [option_map m_pos m_caps]. f_equal. f_equal. cbn [String.length]. lia.
  - apply exact_char. vm_compute. reflexivity.
  - intros p r' cs. rewrite Ha. reflexivity.
Qed.

Lemma match_at_run p pos rest :
  match_at p pos rest =
  option_map (fun st => Result pos (take (m_pos st - pos) rest) (m_caps st))
    (run (p_ignoreCase p) (p_regex p) (MState pos rest []) (fun st => Some st)).
Proof. unfold match_at. destruct (run _ _ _ _); reflexivity. Qed.

Lemma run_consumed ic r pos rest caps st :
  run ic r (MState pos rest caps) (fun st => Some st) = Some st ->
  (pos <= m_pos st)%nat /\ (m_pos st - pos <= String.length rest)%nat.
Proof.
  intros H. apply run_sound in H. destruct H as (st' & (x & Hx & Hp) & E).
  injection E as ->. cbn [m_rest m_pos] in *. rewrite Hx, Hp, length_app. lia.
Qed.

(** What a recogniser must say about a pattern for the search with it to
    list the matches of the pattern: the index reached and the value kept. *)
Lemma here_of_run {A} p (here : string -> option (nat * A)) (f : result -> A) :
  (forall pos rest,
     match here rest with
     | Some (n, a) =>
         exists st,
           run (p_ignoreCase p) (p_regex p) (MState pos rest []) (fun st => Some st)
             = Some st /\
           m_pos st = (pos + n)%nat /\
           f (Result pos (take n rest) (m_caps st)) = a
     | None =>
         run (p_ignoreCase p) (p_regex p) (MState pos rest []) (fun st => Some st) = None
     end) ->
  forall s, map (fun m => (r_index m, f m)) (matchAll p s) = scan here s.
Proof.
  intros H. apply matchAll_scan. intros pos rest. specialize (H pos rest).
  rewrite match_at_run. destruct (here rest) as [[n a]|].
  - destruct H as (st & E & Hp & Hf).
    pose proof (run_consumed _ _ _ _ _ _ E) as [_ Hc].
    rewrite E. cbn [option_map]. eexists. split; [reflexivity|].
    replace (m_pos st - pos)%nat with n in * by lia. cbn [r_text].
    split; [rewrite length_take; lia | exact Hf].
  - rewrite H. reflexivity.
Qed.

(** The matches of the fenced-block pattern are the blocks. *)
Lemma blocks_found (content : string) :
  map (fun m => (r_index m, raw_capture m)) (matchAll codeBlockPattern content) =
  blocks content.
Proof.
  apply (here_of_run codeBlockPattern). intros pos rest.
  cbn [p_regex p_ignoreCase codeBlockPattern]. rewrite fenced_run.
  destruct (block_here is_word rest) as [[n c]|]; [|reflexivity].
  eexists. split; [reflexivity|]. split; reflexivity.
Qed.

Lemma scoped_found (content : string) :
  map capture_or_text (matchAll scopedRulePattern content) =
  rules_of scoped_rule_here content.
Proof.
  unfold rules_of.
  rewrite <- (here_of_run scopedRulePattern scoped_rule_here capture_or_text).
  - rewrite map_map. reflexivity.
  - intros pos rest. change (p_ignoreCase scopedRulePattern) with false.
    rewrite scoped_run. unfold scoped_rule_here.
    destruct (startsWith rest "@typescript-eslint/") eqn:Es; [|reflexivity].
    pose proof (take_span name_char (drop 19 rest)) as Ht.
    destruct (fst (span name_char (drop 19 rest))) as [|c w]; [reflexivity|].
    eexists. split; [reflexivity|]. split; [reflexivity|].
    cbn [m_caps]. unfold capture_or_text. cbn [group lookup_cap r_caps r_text].
    apply startsWith_app in Es. destruct Es as (post & ->).
    rewrite (drop_app_length "@typescript-eslint/") in Ht.
    change (19 + String.length (String c w))%nat
      with (String.length "@typescript-eslint/" + String.length (String c w))%nat.
    rewrite <- Ht at 2.
    generalize (String.length (String c w)). intros k.
    change (take (String.length "@typescript-eslint/" + k) ("@typescript-eslint/" +:+ post))
      with ("@typescript-eslint/" +:+ take k post).
    reflexivity.
Qed.

Lemma eslint_found (content : string) :
  map capture_or_text (matchAll eslintRulePattern content) =
  rules_of eslint_rule_here content.
Proof.
  unfold rules_of.
  rewrite <- (here_of_run eslintRulePattern eslint_rule_here capture_or_text).
  - rewrite map_map. reflexivity.
  - intros pos rest. change (p_ignoreCase eslintRulePattern) with true.
    rewrite eslint_run.
    destruct (eslint_rule_here rest) as [[n name]|] eqn:E; [|reflexivity].
    eexists. split; [reflexivity|]. split; [reflexivity|].
    cbn [m_caps]. apply capture_or_text_group; [reflexivity|].
    unfold eslint_rule_here in E. destruct (spelled "eslint" rest); [|discriminate E].
    cbv zeta in E. destruct (fst (span name_char _)); [discriminate E|].
    injection E as _ <-. discriminate.
Qed.

Lemma quoted_found (content : string) :
  map capture_or_text (matchAll quotedRulePattern content) =
  rules_of quoted_rule_here content.
Proof.
  unfold rules_of.
  rewrite <- (here_of_run quotedRulePattern quoted_rule_here capture_or_text).
  - rewrite map_map. reflexivity.
  - intros pos rest. change (p_ignoreCase quotedRulePattern) with true.
    pose proof (quoted_run pos rest) as H.
    destruct (quoted_rule_here rest) as [[n name]|] eqn:E.
    + destruct (run true _ _ _) as [st|]; [|discriminate H].
      cbn [option_map] in H. injection H as Hp Hc.
      exists st. split; [reflexivity|]. split; [exact Hp|].
      rewrite Hc. apply capture_or_text_group; [reflexivity|].
      unfold quoted_rule_here in E.
      destruct rest as [|c r]; [discriminate E|].
      destruct c as [[] [] [] [] [] [] [] []]; try discriminate E.
      cbv zeta in E.
      destruct (fst (span rule_char _)); [discriminate E|].
      destruct (drop _ _) as [|c' r4]; [discriminate E|].
      destruct c' as [[] [] [] [] [] [] [] []]; try discriminate E.
      destruct (spelled "rule" _); [|discriminate E].
      injection E as _ <-. discriminate.
    + destruct (run true _ _ _) as [st|]; [discriminate H|reflexivity].
Qed.

(** The lint rules of a text, family by family. *)
Lemma extractLintRules_families (content : string) :
  extractLintRules content =
  dedup_first (rules_of scoped_rule_here content ++ rules_of eslint_rule_here content
               ++ rules_of quoted_rule_here content).
Proof.
  unfold extractLintRules. rewrite set_of_dedup. cbn [flat_map].
  rewrite app_nil_r, scoped_found, eslint_found, quoted_found. reflexivity.
Qed.

Lemma extractExamples_fallback (content : string) :
  truthy_str (labelledGood content) = false ->
  truthy_str (labelledBad content) = false ->
  extractExamples content =
    match blocks content with
    | [] => (None, None)
    | [(_, only)] => (Some (trim only), labelledBad content)
    | (index, first) :: (_, second) :: _ =>
        if mentions_bad (take index content)
        then (Some (trim second), Some (trim first))
        else (Some (trim first), Some (trim second))
    end.
Proof.
  intros Hgood Hbad. unfold extractExamples. rewrite Hgood, Hbad. cbn [negb andb].
  rewrite <- blocks_found.
  destruct (matchAll codeBlockPattern content) as [|b0 [|b1 rest]] eqn:Hblocks;
    cbn [map].
  - apply matchAll_nil in Hblocks. unfold labelledGood, labelledBad.
    destruct (match_first goodPattern content) as [g|] eqn:Eg.
    { apply labelled_match_needs_block in Eg. contradiction. }
    destruct (match_first badPattern content) as [b|] eqn:Eb.
    { apply labelled_match_needs_block in Eb. contradiction. }
    reflexivity.
  - reflexivity.
  - rewrite (before_first_block _ _ _ Hblocks).
    unfold mentions_bad. cbn [existsb].
    rewrite !occurs_ci_lower by (vm_compute; reflexivity).
    rewrite orb_false_r, orb_assoc. reflexivity.
Qed.

Lemma blocks_nil (content : string) :
  blocks content = [] <-> matchAll codeBlockPattern content = [].
Proof.
  rewrite <- blocks_found. destruct (matchAll codeBlockPattern content); cbn [map].
  - tauto.
  - split; discriminate.
Qed.

Lemma every_spec ok s : every ok s = true <-> all_chars ok s.
Proof.
  induction s as [|c s IH]; cbn [every].
  - split; [intros _; apply all_chars_empty | reflexivity].
  - rewrite andb_true_iff, all_chars_cons, IH. reflexivity.
Qed.

Lemma every_app ok (a b : string) : every ok (a +:+ b) = every ok a && every ok b.
Proof.
  induction a as [|c a IH]; [reflexivity|].
  rewrite app_cons. cbn [every]. rewrite IH, andb_assoc. reflexivity.
Qed.

Lemma every_drop ok (s : string) (j : nat) : every ok s = true -> every ok (drop j s) = true.
Proof.
  revert s. induction j as [|j IH]; intros s H; [rewrite drop_0; exact H|].
  destruct s as [|c s]; [reflexivity|]. cbn [drop]. apply IH.
  cbn [every] in H. apply andb_true_iff in H. tauto.
Qed.

Lemma no_fence_head (s : string) :
  every not_backquote s = true -> startsWith s "```" = false.
Proof.
  destruct s as [|c s]; [reflexivity|]. cbn [every startsWith]. intros H.
  apply andb_true_iff in H. destruct H as [H _]. unfold not_backquote in H.
  destruct (ascii_dec "`" c) as [<-|]; [|reflexivity].
  destruct (ascii_dec "`" "`"); [discriminate H | congruence].
Qed.

Lemma block_needs_fence ok (s : string) :
  startsWith s "```" = false -> block_here ok s = None.
Proof. unfold block_here. intros ->. reflexivity. Qed.

Lemma before_fence_none (s : string) :
  every not_backquote s = true -> before_fence s = None.
Proof.
  induction s as [|c s IH]; intros H; [reflexivity|].
  cbn [before_fence]. rewrite (no_fence_head _ H).
  cbn [every] in H. apply andb_true_iff in H. rewrite IH by tauto. reflexivity.
Qed.

Lemma before_fence_app (c post : string) :
  every not_backquote c = true -> before_fence (c +:+ "```" +:+ post) = Some c.
Proof.
  induction c as [|a c IH]; intros H.
  { rewrite app_empty.
    change ("```" +:+ post) with (String "`" ("``" +:+ post)). cbn [before_fence].
    change (String "`" ("``" +:+ post)) with ("```" +:+ post).
    rewrite startsWith_app_same. reflexivity. }
  rewrite app_cons. cbn [before_fence].
  cbn [every] in H. apply andb_true_iff in H. destruct H as [Ha Hc].
  replace (startsWith (String a (c +:+ "```" +:+ post)) "```") with false.
  - rewrite IH by exact Hc. reflexivity.
  - cbn [startsWith]. unfold not_backquote in Ha.
    destruct (ascii_dec "`" a) as [<-|]; [|reflexivity].
    destruct (ascii_dec "`" "`"); [discriminate Ha | congruence].
Qed.

Lemma span_all ok (w : string) (c : ascii) (r : string) :
  every ok w = true -> ok c = false ->
  span ok (w +:+ String c r) = (w, String c r).
Proof.
  intros Hw Hc. induction w as [|a w IH].
  - cbn [span]. rewrite app_empty. cbn [span]. rewrite Hc. reflexivity.
  - rewrite app_cons. cbn [span]. cbn [every] in Hw. apply andb_true_iff in Hw.
    destruct Hw as [Ha Hw]. rewrite Ha, (IH Hw). reflexivity.
Qed.

Lemma block_text_app (tag c post : string) :
  block_text tag c +:+ post = "```" +:+ (tag +:+ String LF (c +:+ "```" +:+ post)).
Proof.
  unfold block_text. rewrite !str_app_assoc, (app_cons LF c). reflexivity.
Qed.

(** A block at the head of a text is recognised with its content. *)
Lemma block_here_head (tag c post : string) :
  every is_word tag = true -> every not_backquote c = true ->
  block_here is_word (block_text tag c +:+ post) =
  Some ((String.length tag + String.length c + 7)%nat, c).
Proof.
  intros Ht Hc. unfold block_here. rewrite block_text_app.
  rewrite (startsWith_app_same "```").
  rewrite (drop_app_length "```").
  rewrite (span_all is_word tag LF) by (exact Ht || reflexivity).
  destruct (ascii_dec LF LF); [|congruence].
  rewrite before_fence_app by exact Hc. reflexivity.
Qed.

Lemma scan_from_prefix {A} (here : string -> option (nat * A)) (pre s : string) :
  forall pos,
  (forall j, (j < String.length pre)%nat -> here (drop j (pre +:+ s)) = None) ->
  scan_from here pos 0 (pre +:+ s) = scan_from here (pos + String.length pre) 0 s.
Proof.
  induction pre as [|c pre IH]; intros pos H.
  - rewrite app_empty. cbn [String.length]. rewrite Nat.add_0_r. reflexivity.
  - rewrite app_cons. cbn [scan_from].
    pose proof (H 0%nat ltac:(cbn [String.length]; lia)) as H0.
    rewrite drop_0, app_cons in H0. rewrite H0.
    cbn [String.length]. rewrite Nat.add_succ_r. apply IH.
    intros j Hj. apply (H (S j)). cbn [String.length]. lia.
Qed.

Lemma scan_from_none {A} (here : string -> option (nat * A)) (s : string) :
  forall pos,
  (forall j, here (drop j s) = None) -> scan_from here pos 0 s = [].
Proof.
  induction s as [|c s IH]; intros pos H.
  - cbn [scan_from]. pose proof (H 0%nat) as H0. rewrite drop_0 in H0. rewrite H0.
    reflexivity.
  - cbn [scan_from]. pose proof (H 0%nat) as H0. rewrite drop_0 in H0. rewrite H0.
    apply IH. intros j. apply (H (S j)).
Qed.

(** A text that holds one block and no back quote outside its two fences
    has exactly this block. *)
Lemma single_block (pre tag c post : string) :
  every not_backquote pre = true -> every is_word tag = true ->
  every not_backquote c = true -> every not_backquote post = true ->
  blocks (pre +:+ block_text tag c +:+ post) = [(String.length pre, c)].
Proof.
  intros Hpre Htag Hc Hpost. unfold blocks, scan.
  rewrite scan_from_prefix.
  2:{ intros j Hj. apply block_needs_fence.
      rewrite drop_app_le by lia.
      destruct (drop j pre) as [|a r] eqn:E.
      - pose proof (length_drop j pre) as Hl. rewrite E in Hl. cbn in Hl. lia.
      - rewrite app_cons. pose proof (every_drop _ _ j Hpre) as Hd. rewrite E in Hd.
        cbn [every] in Hd. apply andb_true_iff in Hd. destruct Hd as [Ha _].
        cbn [startsWith]. unfold not_backquote in Ha.
        destruct (ascii_dec "`" a) as [<-|]; [|reflexivity].
        destruct (ascii_dec "`" "`"); [discriminate Ha | congruence]. }
  cbn [Nat.add].
  pose proof (block_here_head tag c post Htag Hc) as Hb.
  set (n := (String.length tag + String.length c + 7)%nat) in *.
  assert (Hs : exists a r, block_text tag c +:+ post = String a r /\
                           drop (n - 1) r = post).
  { rewrite block_text_app.
    exists "`"%char, ("``" +:+ (tag +:+ String LF (c +:+ "```" +:+ post))).
    split; [reflexivity|].
    replace ("``" +:+ tag +:+ String LF (c +:+ "```" +:+ post))
      with (("``" +:+ tag +:+ String LF c +:+ "```") +:+ post).
    2:{ rewrite !str_app_assoc, (app_cons LF c). reflexivity. }
    replace (n - 1)%nat with (String.length ("``" +:+ tag +:+ String LF c +:+ "```")).
    - apply drop_app_length.
    - rewrite !length_app. cbn [String.length]. unfold n. lia. }
  destruct Hs as (a & r & Hs & Hdrop). rewrite Hs in *.
  cbn [scan_from]. rewrite Hb. f_equal.
  rewrite scan_from_skip.
  destruct (Nat.ltb (String.length r) (n - 1)) eqn:Q; [reflexivity|].
  rewrite Hdrop. apply scan_from_none. intros j. apply block_needs_fence.
  apply no_fence_head, every_drop, Hpost.
Qed.

Lemma labelled_block (alts : regex) (content : string) (m : result) :
  group_free alts = true ->
  match_first (Pattern (RSeq alts labelledTail) true) content = Some m ->
  exists x y n c,
    content = x +:+ y /\ block_here is_word y = Some (n, c) /\ group 1 m = Some c.
Proof.
  intros Hfree H. unfold match_first in H. apply exec_from_first in H.
  destruct H as (k & _ & H & _). unfold match_at in H.
  cbn [p_regex p_ignoreCase] in H.
  destruct (run true _ _ _) as [res|] eqn:E; [|discriminate H].
  injection H as <-. cbn [group r_caps].
  rewrite run_seq in E. apply run_same in E; [|exact Hfree].
  destruct E as (st1 & [Ha1 Hc1] & E).
  unfold labelledTail in E. rewrite run_seq in E.
  apply run_same in E; [|reflexivity]. destruct E as (st2 & [Ha2 Hc2] & E).
  rewrite run_seq in E. apply run_same in E; [|reflexivity].
  destruct E as (st3 & [Ha3 Hc3] & E).
  rewrite (run_caseless _ fencedBlock_caseless) in E.
  pose proof (advanced_trans _ _ _ Ha1 (advanced_trans _ _ _ Ha2 Ha3)) as (x & Hx & _).
  destruct st3 as [p3 r3 c3]. cbn [m_rest m_caps] in *.
  assert (c3 = []) as -> by congruence.
  rewrite fenced_run in E.
  destruct (block_here is_word r3) as [[n c]|] eqn:Eb; [|discriminate E].
  injection E as <-. cbn [m_caps lookup_cap Nat.eqb].
  exists (take k content +:+ x), r3, n, c. split; [|split; [exact Eb | reflexivity]].
  rewrite str_app_assoc, <- Hx. symmetry. apply take_drop.
Qed.

Lemma suffix_after (pre s x y : string) (a : ascii) (r : string) :
  every (fun c => if ascii_dec c a then false else true) pre = true ->
  pre +:+ s = x +:+ y -> y = String a r ->
  exists x', x = pre +:+ x' /\ s = x' +:+ y.
Proof.
  intros Hpre E ->. revert x E. induction pre as [|c pre IH]; intros x E.
  - exists x. split; [reflexivity | exact E].
  - cbn [every] in Hpre. apply andb_true_iff in Hpre. destruct Hpre as [Hc Hpre].
    rewrite app_cons in E. destruct x as [|c' x].
    + rewrite app_empty in E. injection E as -> _.
      destruct (ascii_dec a a); [discriminate Hc | congruence].
    + rewrite app_cons in E. injection E as <- E.
      destruct (IH Hpre x E) as (x' & -> & Hs). exists x'. split; [reflexivity | exact Hs].
Qed.

Lemma not_backquote_word (tag : string) :
  every is_word tag = true -> every not_backquote tag = true.
Proof.
  induction tag as [|c tag IH]; [reflexivity|]. cbn [every]. intros H.
  apply andb_true_iff in H. destruct H as [Hc H]. rewrite (IH H), andb_true_r.
  unfold not_backquote. destruct (ascii_dec c "`") as [->|]; [|reflexivity].
  vm_compute in Hc. discriminate Hc.
Qed.

(** In a text with one block and no other back quote, a fence starts at
    the block or at its closing fence. *)
Lemma fence_suffix (pre tag c post x y : string) :
  every not_backquote pre = true -> every is_word tag = true ->
  every not_backquote c = true -> every not_backquote post = true ->
  pre +:+ block_text tag c +:+ post = x +:+ y ->
  startsWith y "```" = true ->
  y = block_text tag c +:+ post \/ y = "```" +:+ post.
Proof.
  intros Hpre Htag Hc Hpost E Hy.
  apply startsWith_app in Hy. destruct Hy as (r & Hy).
  change ("```" +:+ r) with (String "`" ("``" +:+ r)) in Hy.
  destruct (suffix_after pre _ x y "`" _ Hpre E Hy) as (x1 & -> & E1).
  clear E. rewrite block_text_app in E1 |- *.
  set (mid := tag +:+ String LF c) in *.
  assert (Hmid : every not_backquote mid = true).
  { unfold mid. rewrite every_app, (not_backquote_word tag Htag). cbn [every andb].
    exact Hc. }
  assert (Em : tag +:+ String LF (c +:+ "```" +:+ post) = mid +:+ "```" +:+ post).
  { unfold mid. rewrite str_app_assoc, (app_cons LF c). reflexivity. }
  rewrite Em in E1 |- *.
  assert (Hnb : forall s t a u, every not_backquote s = true -> s <> "" ->
            s +:+ t = String a u -> a <> "`"%char).
  { intros s t a u Hs Hne Est ->. destruct s as [|a' s]; [congruence|].
    rewrite app_cons in Est. injection Est as -> _.
    cbn [every] in Hs. apply andb_true_iff in Hs. destruct Hs as [Hs _].
    discriminate Hs. }
  assert (Hmid_ne : mid <> "").
  { unfold mid. destruct tag; discriminate. }
  destruct x1 as [|a1 x1]; [left; rewrite app_empty in E1; symmetry; exact E1|].
  right.
  assert (Hopen : forall z, "```" +:+ z = String "`" (String "`" (String "`" z)))
    by reflexivity.
  rewrite (Hopen (mid +:+ "```" +:+ post)) in E1.
  rewrite app_cons in E1. injection E1 as <- E1.
  destruct x1 as [|a2 x1].
  { exfalso. rewrite app_empty in E1. rewrite Hy in E1.
    change ("``" +:+ r) with (String "`" (String "`" r)) in E1.
    injection E1 as E1.
    exact (Hnb _ _ _ _ Hmid Hmid_ne E1 eq_refl). }
  rewrite app_cons in E1. injection E1 as <- E1.
  destruct x1 as [|a3 x1].
  { exfalso. rewrite app_empty in E1. rewrite Hy in E1.
    change ("``" +:+ r) with (String "`" (String "`" r)) in E1.
    injection E1 as E1.
    exact (Hnb _ _ _ _ Hmid Hmid_ne E1 eq_refl). }
  rewrite app_cons in E1. injection E1 as <- E1.
  destruct (suffix_after mid _ x1 y "`" _ Hmid E1 Hy) as (x2 & -> & E2).
  destruct x2 as [|b1 x2]; [rewrite app_empty in E2; symmetry; exact E2|].
  exfalso.
  change (String "`" (String "`" (String "`" post)) = String b1 x2 +:+ y) in E2.
  rewrite app_cons in E2. injection E2 as <- E2.
  assert (Hpost' : forall t, post = t +:+ y -> False).
  { intros t Et.
    destruct (suffix_after post "" t y "`" ("``" +:+ r) Hpost) as (x' & Ex & Ey).
    - rewrite str_app_empty_r. exact Et.
    - exact Hy.
    - destruct x'; [|discriminate Ey]. rewrite app_empty in Ey. rewrite Hy in Ey.
      discriminate Ey. }
  destruct x2 as [|b2 x2].
  { rewrite app_empty in E2. rewrite Hy in E2.
    change ("``" +:+ r) with (String "`" (String "`" r)) in E2.
    injection E2 as E2. destruct post as [|a u]; [discriminate E2|].
    injection E2 as -> _. cbn [every] in Hpost. discriminate Hpost. }
  rewrite app_cons in E2. injection E2 as <- E2.
  destruct x2 as [|b3 x2].
  { rewrite app_empty in E2. rewrite Hy in E2.
    destruct post as [|a u]; [discriminate E2|].
    injection E2 as -> _. discriminate Hpost. }
  rewrite app_cons in E2. injection E2 as <- E2.
  apply (Hpost' x2). exact E2.
Qed.

Lemma trimStart_blank (s : string) : every is_space s = true -> trimStart s = "".
Proof.
  induction s as [|c s IH]; [reflexivity|]. cbn [every trimStart]. intros H.
  apply andb_true_iff in H. destruct H as [-> H]. apply IH, H.
Qed.

Lemma trim_blank (s : string) : every is_space s = true -> trim s = "".
Proof. intros H. unfold trim. rewrite (trimStart_blank s H). reflexivity. Qed.

Lemma blank_no_backquote (s : string) :
  every is_space s = true -> every not_backquote s = true.
Proof.
  induction s as [|c s IH]; [reflexivity|]. cbn [every]. intros H.
  apply andb_true_iff in H. destruct H as [Hc H]. rewrite (IH H), andb_true_r.
  unfold not_backquote. destruct (ascii_dec c "`") as [->|]; [|reflexivity].
  vm_compute in Hc. discriminate Hc.
Qed.

Lemma closing_fence_no_block (post : string) :
  every not_backquote post = true -> block_here is_word ("```" +:+ post) = None.
Proof.
  intros Hpost. unfold block_here. rewrite (startsWith_app_same "```").
  rewrite (drop_app_length "```").
  pose proof (drop_span is_word post) as Hd.
  destruct (span is_word post) as [w r]. cbn [fst snd] in Hd.
  destruct r as [|a r]; [reflexivity|].
  destruct (ascii_dec a LF); [|reflexivity].
  rewrite before_fence_none; [reflexivity|].
  pose proof (every_drop _ _ (String.length w) Hpost) as H.
  rewrite Hd in H. cbn [every] in H. apply andb_true_iff in H. tauto.
Qed.

(** In a text with one blank block and no other back quote, a labelled
    search captures nothing but the blank content. *)
Lemma labelled_blank (alts : regex) (pre tag blank post : string) :
  group_free alts = true ->
  every not_backquote pre = true -> every is_word tag = true ->
  every is_space blank = true -> every not_backquote post = true ->
  truthy_str
    (option_map trimmed_capture
       (match_first (Pattern (RSeq alts labelledTail) true)
          (pre +:+ block_text tag blank +:+ post))) = false.
Proof.
  intros Hfree Hpre Htag Hblank Hpost.
  destruct (match_first _ _) as [m|] eqn:E; [|reflexivity].
  apply labelled_block in E; [|exact Hfree].
  destruct E as (x & y & n & c & Exy & Eb & Ec).
  assert (Hy : startsWith y "```" = true).
  { destruct (startsWith y "```") eqn:Q; [reflexivity|].
    rewrite block_needs_fence in Eb by exact Q. discriminate Eb. }
  destruct (fence_suffix pre tag blank post x y Hpre Htag
              (blank_no_backquote _ Hblank) Hpost Exy Hy) as [->| ->].
  - rewrite block_here_head in Eb by (exact Htag || apply blank_no_backquote, Hblank).
    injection Eb as _ <-. cbn [option_map]. unfold trimmed_capture.
    rewrite Ec. change (default "" (Some blank)) with blank.
    rewrite (trim_blank _ Hblank). reflexivity.
  - rewrite closing_fence_no_block in Eb by exact Hpost. discriminate Eb.
Qed.

(** The examples of a text whose only block is blank. *)
Lemma blank_block_examples (pre tag blank post : string) :
  every not_backquote pre = true -> every is_word tag = true ->
  every is_space blank = true -> every not_backquote post = true ->
  fst (extractExamples (pre +:+ block_text tag blank +:+ post)) = Some ""%string.
Proof.
  intros Hpre Htag Hblank Hpost.
  rewrite extractExamples_fallback.
  - rewrite single_block by (assumption || apply blank_no_backquote, Hblank).
    cbn [fst]. rewrite (trim_blank _ Hblank). reflexivity.
  - apply labelled_blank; (reflexivity || assumption).
  - apply labelled_blank; (reflexivity || assumption).
Qed.

Lemma scan_from_increasing {A} (here : string -> option (nat * A)) (s : string) :
  forall pos skip,
  StronglySorted lt (map fst (scan_from here pos skip s)) /\
  Forall (fun i => (pos <= i)%nat) (map fst (scan_from here pos skip s)).
Proof.
  assert (Hup : forall pos l,
    StronglySorted lt l /\ Forall (fun i => (S pos <= i)%nat) l ->
    StronglySorted lt l /\ Forall (fun i => (pos <= i)%nat) l).
  { intros pos l [Hs Hall]. split; [exact Hs|].
    eapply Forall_impl; [exact Hall|]. intros i Hi. cbv beta in Hi. lia. }
  induction s as [|c s IH]; intros pos skip.
  - destruct skip as [|skip]; cbn [scan_from]; [|split; constructor].
    destruct (here EmptyString) as [[n a]|]; [|split; constructor].
    cbn [map fst]. split; repeat constructor.
  - destruct skip as [|skip]; cbn [scan_from]; [|apply Hup, IH].
    destruct (here (String c s)) as [[n a]|]; [|apply Hup, IH].
    destruct (IH (S pos) (n - 1)%nat) as [Hs Hall]. cbn [map fst]. split.
    + constructor; [exact Hs|].
      eapply Forall_impl; [exact Hall|]. intros i Hi. cbv beta in Hi. lia.
    + constructor; [lia|].
      eapply Forall_impl; [exact Hall|]. intros i Hi. cbv beta in Hi. lia.
Qed.

(** *** Examples *)

(** A fenced block whose opening fence carries a tag with other than word
    characters is not found: a section whose only fenced block is tagged
    [c++] has no example, and of two such blocks after [Avoid:] the text
    between them becomes the good example, with no bad example. *)
Lemma C5_counterexample :
  match_first goodPattern Scenario.cpp_block = None /\
  match_first badPattern Scenario.cpp_block = None /\
  fenced_blocks Scenario.cpp_block = [(10%nat, "int x = 0;
")] /\
  extractExamples Scenario.cpp_block = (None, None) /\
  match_first goodPattern Scenario.cpp_blocks = None /\
  match_first badPattern Scenario.cpp_blocks = None /\
  fenced_blocks Scenario.cpp_blocks = [(7%nat, "int x;
"); (33%nat, "int y = 0;
")] /\
  mentions_bad (take 7 Scenario.cpp_blocks) = true /\
  extractExamples Scenario.cpp_blocks = (Some "Prefer:", None) /\
  extractExamples Scenario.cpp_block <> (Some "int x = 0;", None) /\
  extractExamples Scenario.cpp_blocks <> (Some "int y = 0;", Some "int x;").
Proof.
  assert (E1 : extractExamples Scenario.cpp_block = (None, None))
    by (vm_compute; reflexivity).
  assert (E2 : extractExamples Scenario.cpp_blocks = (Some "Prefer:", None))
    by (vm_compute; reflexivity).
  do 8 (split; [vm_compute; reflexivity|]).
  split; [exact E2|]. split.
  - rewrite E1. discriminate.
  - rewrite E2. discriminate.
Qed.

(** C5 (amended): the fenced blocks of the fallback are those whose
    opening fence carries word characters only up to the line feed, each
    closed by the next fence, found from left to right.  When the
    labelled-block search yields neither a good nor a bad example that is
    not empty, a section without such a block has no example; with exactly
    one block its trimmed content is the good example and the bad example
    is what the labelled search left, absent when that search found
    nothing; with two or more blocks the first is the bad and the second
    the good example when the text preceding the first block mentions
    [avoid], [bad] or [don't] in any letter case, and the first is the good
    and the second the bad example otherwise. *)
Theorem C5_unlabelled_fallback (content : string) :
  (truthy_str (labelledGood content) = false ->
   truthy_str (labelledBad content) = false ->
   extractExamples content =
     match blocks content with
     | [] => (None, None)
     | [(_, only)] => (Some (trim only), labelledBad content)
     | (index, first) :: (_, second) :: _ =>
         if mentions_bad (take index content)
         then (Some (trim second), Some (trim first))
         else (Some (trim first), Some (trim second))
     end) /\
  (match_first goodPattern content = None ->
   match_first badPattern content = None ->
   extractExamples content =
     match blocks content with
     | [] => (None, None)
     | [(_, only)] => (Some (trim only), None)
     | (index, first) :: (_, second) :: _ =>
         if mentions_bad (take index content)
         then (Some (trim second), Some (trim first))
         else (Some (trim first), Some (trim second))
     end).
Proof.
  split; [apply extractExamples_fallback|].
  intros Hgood Hbad. rewrite extractExamples_fallback.
  - unfold labelledBad. rewrite Hbad. reflexivity.
  - unfold labelledGood. rewrite Hgood. reflexivity.
  - unfold labelledBad. rewrite Hbad. reflexivity.
Qed.

(** Two unlabelled blocks after the words [avoid this]: the first is the
    bad example, the second the good one.  A single blank block labelled
    [Bad:]: the labelled search leaves the empty text, and the fallback
    takes the block as the good example too. *)
Lemma C5_unlabelled_fallback_witness :
  match_first goodPattern Scenario.avoid_then_fix = None /\
  match_first badPattern Scenario.avoid_then_fix = None /\
  extractExamples Scenario.avoid_then_fix =
    (Some "const x = 1;", Some "var x = 1;") /\
  truthy_str (labelledGood Scenario.blank_bad_block) = false /\
  truthy_str (labelledBad Scenario.blank_bad_block) = false /\
  extractExamples Scenario.blank_bad_block = (Some "", Some "").
Proof.
  split; [vm_compute; reflexivity|]. split; [vm_compute; reflexivity|].
  split.
  - rewrite (proj2 (C5_unlabelled_fallback Scenario.avoid_then_fix));
      vm_compute; reflexivity.
  - split; [vm_compute; reflexivity|]. split; [vm_compute; reflexivity|].
    rewrite (proj1 (C5_unlabelled_fallback Scenario.blank_bad_block));
      vm_compute; reflexivity.
Defined.

(** The good example of a section whose only fenced block is blank is not
    always the empty text: the labelled search, which can match across the
    closing fence of the block, supplies [foo] in one section, and in
    another the block, tagged [c++], is not found at all. *)
Lemma C10_counterexample :
  sectionsOf Scenario.tagged_empty_block_section =
    [("Keep it short", Scenario.tagged_empty_block)] /\
  fenced_blocks Scenario.tagged_empty_block = [(0%nat, "")] /\
  map goodExample (parsePractices Scenario.tagged_empty_block_section ∅) = [Some "foo"] /\
  map doc_hasGoodExample
    (documentsOf Scenario.team_config "guide.md" "guide"
       Scenario.tagged_empty_block_section ∅) = [Some true; None] /\
  map (fun s => fenced_blocks (snd s)) (sectionsOf Scenario.blank_cpp_section) =
    [[(0%nat, "   
")]] /\
  map goodExample (parsePractices Scenario.blank_cpp_section ∅) = [None] /\
  map goodExample (parsePractices Scenario.tagged_empty_block_section ∅) <> [Some ""] /\
  map goodExample (parsePractices Scenario.blank_cpp_section ∅) <> [Some ""].
Proof.
  assert (E1 : map goodExample (parsePractices Scenario.tagged_empty_block_section ∅)
               = [Some "foo"]) by (vm_compute; reflexivity).
  assert (E2 : map goodExample (parsePractices Scenario.blank_cpp_section ∅) = [None])
    by (vm_compute; reflexivity).
  do 6 (split; [vm_compute; reflexivity|]). split.
  - rewrite E1. discriminate.
  - rewrite E2. discriminate.
Qed.

(** C10 (amended): for a section that holds one fenced block whose opening
    fence carries word characters only, whose content is white space only,
    and that holds no back quote outside the two fences of this block, the
    assembled practice has the empty string as good example (present, not
    absent) while the metadata of its document reports
    [hasGoodExample = false]. *)
Theorem C10_blank_only_block
    (config : SourceConfig) (relativePath : string) (fm : frontmatter)
    (title pre tag blank post : string) :
  every not_backquote pre = true -> every is_word tag = true ->
  every is_space blank = true -> every not_backquote post = true ->
  blocks (pre +:+ block_text tag blank +:+ post) = [(String.length pre, blank)] /\
  goodExample (assemble fm (title, pre +:+ block_text tag blank +:+ post)) = Some "" /\
  doc_hasGoodExample
    (practiceDocument config relativePath
       (assemble fm (title, pre +:+ block_text tag blank +:+ post)))
  = Some false.
Proof.
  intros Hpre Htag Hblank Hpost.
  split; [apply single_block; (assumption || apply blank_no_backquote, Hblank)|].
  assert (E : goodExample (assemble fm (title, pre +:+ block_text tag blank +:+ post))
              = Some "").
  { cbn [assemble goodExample fst snd]. apply blank_block_examples; assumption. }
  split; [exact E|].
  unfold doc_hasGoodExample, practiceDocument.
  cbn [doc_metadata pm_hasGoodExample]. rewrite E. reflexivity.
Qed.

(** A section whose only block is blank and tagged [js]. *)
Lemma C10_blank_only_block_witness :
  sectionsOf Scenario.blank_block_section = [("Keep it short", Scenario.blank_block)] /\
  blocks Scenario.blank_block = [(10%nat, "   
")] /\
  goodExample (assemble ∅ ("Keep it short", Scenario.blank_block)) = Some "" /\
  doc_hasGoodExample
    (practiceDocument Scenario.team_config "guide.md"
       (assemble ∅ ("Keep it short", Scenario.blank_block))) = Some false.
Proof.
  split; [vm_compute; reflexivity|].
  apply (C10_blank_only_block Scenario.team_config "guide.md" ∅ "Keep it short"
           "Example:

" "js" "   
" "
"); vm_compute; reflexivity.
Defined.

(** X16: [extractExamples] leaves both the good and the bad example absent
    exactly when the text holds no block that the example patterns
    recognise, that is, no opening fence that carries word characters only
    up to the line feed and is followed by a later fence; a label such as
    [Good:] never produces an example without such a block, and with such
    a block there is always at least one example (possibly the empty
    text). *)
Theorem extractExamples_absent_iff (content : string) :
  extractExamples content = (None, None) <-> blocks content = [].
Proof.
  rewrite blocks_nil.
  unfold extractExamples, labelledGood, labelledBad. split.
  - intros H. destruct (matchAll codeBlockPattern content) as [|b0 [|b1 bs]] eqn:E;
      [reflexivity| |].
    + destruct (match_first goodPattern content) as [g|];
        destruct (match_first badPattern content) as [b|]; cbn in H;
        repeat match type of H with
               | context [if ?c then _ else _] => destruct c
               end; discriminate H.
    + destruct (match_first goodPattern content) as [g|];
        destruct (match_first badPattern content) as [b|]; cbn in H;
        repeat match type of H with
               | context [if ?c then _ else _] => destruct c
               end; discriminate H.
  - intros H. apply matchAll_nil in H.
    destruct (match_first goodPattern content) as [g|] eqn:Eg.
    { apply labelled_match_needs_block in Eg. contradiction. }
    destruct (match_first badPattern content) as [b|] eqn:Eb.
    { apply labelled_match_needs_block in Eb. contradiction. }
    apply matchAll_nil in H. rewrite H. reflexivity.
Qed.

(** *** Lint rules, family by family *)

(** The rules are not listed in the order of their first occurrence in the
    text, and a scoped rule of another organization than
    [@typescript-eslint] is not found: [no-var] comes first in one text and
    is listed second, and [@angular-eslint/no-input-rename] in another text
    is not listed at all. *)
Lemma C7_counterexample :
  extractLintRules Scenario.rules_in_prose =
    ["@typescript-eslint/no-unused-vars"; "no-var"] /\
  lintRules_claimed Scenario.rules_in_prose =
    ["no-var"; "@typescript-eslint/no-unused-vars"] /\
  extractLintRules Scenario.other_scope = [] /\
  lintRules_claimed Scenario.other_scope = ["@angular-eslint/no-input-rename"] /\
  extractLintRules Scenario.rules_in_prose <> lintRules_claimed Scenario.rules_in_prose /\
  extractLintRules Scenario.other_scope <> lintRules_claimed Scenario.other_scope.
Proof.
  assert (E1 : extractLintRules Scenario.rules_in_prose =
               ["@typescript-eslint/no-unused-vars"; "no-var"])
    by (vm_compute; reflexivity).
  assert (E2 : lintRules_claimed Scenario.rules_in_prose =
               ["no-var"; "@typescript-eslint/no-unused-vars"])
    by (vm_compute; reflexivity).
  assert (E3 : extractLintRules Scenario.other_scope = []) by (vm_compute; reflexivity).
  assert (E4 : lintRules_claimed Scenario.other_scope = ["@angular-eslint/no-input-rename"])
    by (vm_compute; reflexivity).
  split; [exact E1|]. split; [exact E2|]. split; [exact E3|]. split; [exact E4|].
  split.
  - rewrite E1, E2. discriminate.
  - rewrite E3, E4. discriminate.
Qed.

(** C7 (amended): the lint rules of a section are the matches of three
    families - (a) the scope [@typescript-eslint/] followed by a name of
    word characters and hyphens, the whole text being the rule; (b)
    [eslint] in any letter case, an optional colon, optional white space
    and such a name, which is the rule; (c) an opening bracket, an optional
    back quote, a name of word characters, [@], [/] and [-], an optional
    back quote, the closing bracket, optional white space and [rule] in any
    letter case, the name being the rule - listed family by family, the
    matches of one family in text order, and de-duplicated keeping the
    first entry of that list. *)
Theorem C7_lint_rules_by_family (content : string) :
  extractLintRules content =
    dedup_first (rules_of scoped_rule_here content ++ rules_of eslint_rule_here content
                 ++ rules_of quoted_rule_here content) /\
  NoDup (extractLintRules content) /\
  (forall rule,
     rule ∈ extractLintRules content <->
     rule ∈ rules_of scoped_rule_here content \/
     rule ∈ rules_of eslint_rule_here content \/
     rule ∈ rules_of quoted_rule_here content) /\
  (forall here : string -> option (nat * string),
     StronglySorted lt (map fst (scan here content))).
Proof.
  split; [apply extractLintRules_families|]. split; [|split].
  - rewrite extractLintRules_families. apply NoDup_dedup_first.
  - intros rule. rewrite extractLintRules_families, elem_of_dedup_first, !elem_of_app.
    tauto.
  - intros here. apply scan_from_increasing.
Qed.
